(* ===== verification/_CoqProject ===== *)
-Q . S2P
Prelude.v
Version.v
Counters.v
Entries.v
Libc.v
Utils.v
Config.v
Procmaps.v
Codec.v
Indirect.v
Lz4Block.v
Lz4Mem.v
Lz4Compress.v
Lz4Encoder.v
Lz4Decompress.v
Lz4Safe.v
Lz4Decoder.v
Lz4.v
Writer.v
Quiet.v
Thread.v
Trace.v
Reader.v
Dump.v
DumpText.v
DumpTrace.v
Indexes.v
Checker.v
Verdict.v
Exact.v
Recorder.v
Session.v
Subs.v
Subscribers.v
Atomics.v
Handlers.v
Locality.v
Threads.v
TestRun.v
Files.v
Numbering.v
AtomicNumbers.v
TestVerdict.v
Modes.v
Disabled.v
DumpFiles.v
