(* ===== verification/Prelude.v ===== *)
(** * Coldtrace: a verification development

    Coldtrace is a library that is preloaded into a program and records what its
    threads do: memory accesses, atomics, locks, allocations, thread creation.
    Every thread writes its own trace, as a sequence of numbered fragment files
    that are compressed and replaced in a ring when a limit is set.  Scripts and
    the checkers of the test suite read the fragments back.

    ** The program and how its parts interact

    The Dice framework (a submodule outside the repository) intercepts calls of
    the traced program and publishes events.  The subscribers ([subs_*.c]) turn an
    event into entries ([entries.c]) and hand them to the state of the running
    thread ([thread.c]), which keeps a shadow call stack and stores with an entry
    only the part of the stack that changed.  The entry is written into space
    reserved in the buffer of the thread's writer ([writer.c]).  When an entry does
    not fit, the writer compresses the buffer with LZ4 ([deps/lz4]), writes it to
    the next file of the trace directory and starts a new fragment.  [config.c]
    reads the environment, [utils.c] prepares the trace directory, [procmaps.c]
    copies the memory map and the mapped files, [counters.c] numbers allocations
    and atomic accesses across threads.  The checkers ([test/checkers]) replace the
    weak function [coldtrace_writer_close] and compare every page with an expected
    trace.

    ** Files

    - [Prelude]: machine integers, bytes, little-endian fields, list lemmas, the
      tactics and hint databases all files share.
    - [Version] ([version.c], [version.h.in]), [Counters] ([counters.c]).
    - [Entries] ([entries.c], [entries.h]): the binary layout, the parsers and the
      size tables; entries as values and their encoding.
    - [Libc]: the operating system: a file system, and for every call that can
      fail a list of outcomes; [sprintf], [strtoul] and the like.
    - [Utils] ([utils.c]), [Config] ([config.c]), [Procmaps] ([procmaps.c]).
    - [Codec] ([lz4.h]): compression as a class whose laws are the documentation
      of LZ4; the writer and the reader are proved against it.
    - [Lz4Block]: the block format as data, its byte layout and what it stands for.
      [Lz4Mem]: the memory accesses of [deps/lz4/lz4.c].  [Lz4Compress]:
      [LZ4_compress_fast] and what it calls; [Lz4Encoder]: its correctness.
      [Lz4Decompress]: [LZ4_decompress_safe] with both decoding loops; [Lz4Safe]: it
      is safe on every input; [Lz4Decoder]: it restores well-formed blocks.  [Lz4]:
      the round trip, and the instance of the class of [Codec].
    - [Writer] ([writer.c]): the record [writer_impl] is the struct, one definition
      per function; the functions pass the writer and the world.
    - [Thread] ([thread.c]): the record [coldtrace_thread] with the shadow stack
      and the writer in it.
    - [Trace], [Recorder]: specification.  [Trace] defines what the bytes of a
      buffer mean ([replay]) and proves one append; [Recorder] is the abstract
      machine of a thread and the refinement by thread.c and writer.c.
    - [Quiet]: the writer with writing disabled, a mode of the tests.
    - [Indirect] ([include/coldtrace/libc.h], [deps/lz4/libc.h]): the wrappers that
      look up the real functions of libc, as programs of interleaved threads.
    - [Reader] (the iterator of [trace_checker.c], [_decompress] of
      [scripts/trace_dump.py]), [Indexes] ([indexes_checker.c]), [Checker]
      ([trace_checker.c]), [Verdict]: what a passed verdict means, [Exact]: when
      the verdict is also complete.
    - [Dump], [DumpText] ([scripts/trace_dump.py]): the decoder of a fragment, and the
      search for fragments, the printing and the loop around them.  [DumpTrace]: on
      fragments the tracer wrote, what they print.
    - [Session]: the initialiser of config.c followed by a traced thread.
    - [Subs] ([subs_*.c], one definition per handler), [Subscribers]: what each
      handler records, [Atomics]: several threads, [Handlers]: total correctness.
    - [Locality]: what a call of one thread leaves alone in the shared directory and
      in the record of the close hook.  [Threads]: interleaved threads refine
      independent recorders, and can always go on.  [Files]: the files of a thread
      hold its trace.
    - [TestRun]: the tracer with the checkers of the tests.  [Numbering],
      [AtomicNumbers]: the indices in the traces of all threads.  [TestVerdict]: the
      verdict of a test on a complete run.  [Modes], [Disabled]: the tracer with
      writing enabled and disabled, side by side, for one handler and for whole runs.
      [DumpFiles]: the tracer with trace_dump.py.

    ** What the theorems show

    - Traces are complete: for every sequence of recorder operations, the fragments
      of a thread (those flushed, and the one in the buffer) replay to the logged
      events with their full stacks, in order, except for fragments a failed flush
      dropped, which the abstract machine records ([Recorder.trace_complete],
      [recorder_refines]); composed with the handlers, for every sequence of events
      ([Subscribers.thread_trace_complete]).
    - What is on disk is what happened: after any schedule of any number of threads,
      the fragments of a thread that finished without a failure decode, one after
      the other, to exactly its events, and the files hold all of them or, once the
      limit has been reached, the most recent ones in a ring ([Files.traces_on_disk]);
      each thread records as if it were alone ([Threads.threads_refine]).
    - What is dumped is what happened: trace_dump.py, run on any fragment of such a
      thread within the limit, prints exactly its events ([DumpFiles.dumped_trace]); on
      files with any contents it ends with a result or a reported error
      ([DumpText.dump_trace_total]).  Events whose entry is all zero bytes are excluded:
      the dumper takes them for the end of the fragment ([DumpTrace.blank_hides_rest]).
    - Mapped files: the copies below the trace directory are those of a reference
      selection and nothing else changes ([Procmaps.mapped_files_copied]); a path within
      one copied earlier is left out ([Procmaps.substring_not_copied]).
    - Memory safety: no operation writes outside the buffer, under the condition
      that the fragment holds the largest entry ([Recorder.recorder_safe],
      [Trace.reserve_in_bounds]); without it the entry does overflow
      ([Trace.oversized_request_overflows]).
    - Files: a flush is all or nothing for every sequence of short writes and
      failures ([Writer.flush_all_or_nothing], [write_all_correct]); what it writes
      is what the reader decodes ([Reader.flush_file_decodes]).
    - Compression: [LZ4_compress_fast] returns, stays inside its buffers and writes a
      well-formed block, [LZ4_decompress_safe] is memory-safe on every input and
      restores what was compressed ([Lz4Encoder.compress_fast_correct],
      [Lz4Safe.decompress_safe_total], [Lz4.lz4_roundtrip_correct]), so the laws the
      other theorems assume of LZ4 hold of the code that is linked.
    - Encoding: entries and headers survive encoding and parsing
      ([Entries.entry_roundtrip], [header_roundtrip]) and the tables are total.
    - Configuration and directories: names of fragments fit their buffers, paths
      are checked, the directory is emptied of exactly the trace files
      ([Utils.ensure_dir_empty_exact]), the search for the first fragment takes the first
      free name ([Writer.first_fragment_finds_free]), and the
      environments for which start-up does not give a working tracer are
      characterised ([Config], [Session], [Utils]).
    - Checkers: a passed verdict implies that the entries of every thread, up to the
      first one without an expected trace, conform to theirs and that indices ascend
      without gaps ([Verdict.verdict_sound], [Indexes]); with the tracer, that the
      events which happened conform ([TestRun.passed_test]).  For expected traces in which a
      repeatable entry is told from its successors by its type or size, the verdict is
      exact ([Exact.verdict_exact]), and a test of a complete run passes if and only if
      the events conform, whatever the schedule and the pages
      ([TestVerdict.test_decides]).
    - Indices: over all threads the indices of allocations and of synchronisation
      number the events without gaps, each in one trace and ascending there, also
      those drawn before the event that logs them ([Numbering.allocs_numbered],
      [AtomicNumbers.atomics_numbered]), so the checks of the tests accept them
      ([AtomicNumbers.index_checks_pass]).
    - Libc: whatever the interleaving of the wrappers with stale reads of their caches,
      they call the real functions, never NULL ([Indirect.wrappers_refine_direct]).
    - Disabled writes: the writer stays in bounds and touches no file
      ([Quiet.quiet_session]).  A run that loses no entry with writing enabled takes
      the same course with writing disabled and hands the same pages to the close hook
      ([Disabled.disabled_writes_agree]), so a test gives the same verdict
      ([Disabled.disabled_test_decides]): what the tests see is what would be written.
    - Concurrency: with handlers of several threads interleaved, the indices of the
      atomic accesses to one area are drawn in the order of the accesses
      ([Atomics.atomics_ordered]), and indices are distinct.  A thread inside an
      access can always finish it, so nobody waits for ever for an area
      ([Threads.accesses_finish]).

    ** Loops and fuel

    Loops of the code are structural recursions where the data they consume is a
    list (entries of a directory, lines, frames).  The others take fuel, and the
    caller supplies an amount that is shown to be enough: [write_all_loop] gets the
    number of bytes and the number of listed outcomes plus one, since every round
    writes a byte or uses up an outcome; [first_fragment_loop] the number of files
    in the file system plus one; [grow_capacity] 64 doublings, more than a 64-bit
    size has; the matching of one entry the number of remaining expected entries
    plus one; the walk over a page its size over the smallest entry plus one;
    [read_lines] and [cp_loop] the length of the file plus one.  In lz4.c the search
    for a match gets the size of the source plus one, as every probe moves forward;
    the control flow of the compressor twice the size plus two, by a measure on what
    is left of the input; the decoding loops the size of the input plus one, as every
    sequence consumes its token; the copy loops the number of bytes plus one.  In
    trace_dump.py the loop over entries gets the length of the buffer, as every round
    reads at least 8 bytes.  The theorems state that a result is returned.

    ** What is not modelled

    - Dice and libvsync: events, thread-local storage, atomics and the spin lock
      are parameters or classes with the documented behaviour as laws; the model of
      several threads interleaves handlers and has no weak memory.
    - LZ4: the streaming, dictionary, partial-decoding and deprecated functions, which
      the tracer does not call; 32-bit and big-endian machines.  The directives of
      the two generic functions are fixed to those of the calls that are modelled.
    - The mode in which writes are disabled is compared with the mode that writes on
      runs in which no allocation fails and the trace size stays the same; beyond
      that it is proved for the writer alone.
    - [marker.c] (publishes one event of Dice, whose handler is modelled),
      [aliases.h] (names only), [mock_checker] and the test programs; the argument
      parser and the debug output of [trace_dump.py].
    - The file system is a flat map from paths to contents; directories are the
      prefixes of their entries.  Buffered output of stdio is the write it causes. *)

From stdpp Require Import base list numbers option.
From Stdlib Require Import ZArith Lia.

Declare Scope ct_scope.
Delimit Scope ct_scope with ct.
#[global] Open Scope Z_scope.
#[global] Open Scope ct_scope.

Create HintDb ct.
Create Rewrite HintDb ctlen.

(** Length of a list as an integer, the type every C size has here. *)
Abbreviation len l := (Z.of_nat (length l)).

(** ** Machine integers

    A [w]-bit unsigned value is an integer in [[0, 2^w)]; the wrap-around of an
    operation is written out by one of these. *)
Definition u8 (z : Z) : Z := z mod 2 ^ 8.
Definition u32 (z : Z) : Z := z mod 2 ^ 32.
Definition u64 (z : Z) : Z := z mod 2 ^ 64.
(** Conversion to a signed 32-bit [int] (two's complement). *)
Definition i32 (z : Z) : Z := (z + 2 ^ 31) mod 2 ^ 32 - 2 ^ 31.

Definition is_u8 (z : Z) : Prop := 0 <= z < 2 ^ 8.
Definition is_u32 (z : Z) : Prop := 0 <= z < 2 ^ 32.
Definition is_u64 (z : Z) : Prop := 0 <= z < 2 ^ 64.

Lemma u8_range z : is_u8 (u8 z).
Proof. apply Z.mod_pos_bound; lia. Qed.
Lemma u32_range z : is_u32 (u32 z).
Proof. apply Z.mod_pos_bound; lia. Qed.
Lemma u64_range z : is_u64 (u64 z).
Proof. apply Z.mod_pos_bound; lia. Qed.
Lemma u8_id z : is_u8 z → u8 z = z.
Proof. apply Z.mod_small. Qed.
Lemma u32_id z : is_u32 z → u32 z = z.
Proof. apply Z.mod_small. Qed.
Lemma u64_id z : is_u64 z → u64 z = z.
Proof. apply Z.mod_small. Qed.
Lemma i32_id z : - 2 ^ 31 <= z < 2 ^ 31 → i32 z = z.
Proof. intros. unfold i32. rewrite Z.mod_small; lia. Qed.
#[export] Hint Resolve u8_range u32_range u64_range : ct.

(** Unfold the width predicates and call [lia]. *)
Ltac ulia := unfold is_u8, is_u32, is_u64 in *; lia.

(** ** Outcomes

    A C function either returns, or its behaviour is undefined for a stated
    reason, or a loop of the model used up the iterations it was given. *)
Inductive undefined :=
| OutOfBounds    (* an access outside the object it points into *)
| NullDeref      (* an access through NULL *)
| DivideByZero   (* [x % 0] *)
| BadFormat      (* a printf conversion without a matching argument *)
| Overlap        (* [memcpy] between overlapping regions *).

Inductive outcome (A : Type) :=
| Ret (a : A)
| Undef (why : undefined)
| NoFuel.
Arguments Ret {A} a.
Arguments Undef {A} why.
Arguments NoFuel {A}.

Definition obind {A B} (m : outcome A) (k : A → outcome B) : outcome B :=
  match m with
  | Ret a => k a
  | Undef u => Undef u
  | NoFuel => NoFuel
  end.

Notation "'let!' x ':=' e 'in' k" := (obind e (fun x => k))
  (at level 10, x pattern, e at level 100, k at level 200) : ct_scope.

(** The partial memory accesses below are lifted to outcomes by [or_undef]. *)
Definition or_undef {A} (u : undefined) (o : option A) : outcome A :=
  match o with Some a => Ret a | None => Undef u end.

Lemma obind_Ret_inv {A B} (m : outcome A) (k : A → outcome B) b :
  obind m k = Ret b → ∃ a, m = Ret a ∧ k a = Ret b.
Proof. destruct m; simpl; intros H; [eauto|discriminate..]. Qed.

Lemma or_undef_Ret_inv {A} u (o : option A) a :
  or_undef u o = Ret a → o = Some a.
Proof. destruct o; simpl; congruence. Qed.

(** Split the hypotheses of shape [let! x := e in k = Ret _]. *)
Ltac inv_outcome :=
  repeat match goal with
  | H : Ret _ = Ret _ |- _ => injection H as H
  | H : Undef _ = Ret _ |- _ => discriminate H
  | H : NoFuel = Ret _ |- _ => discriminate H
  | H : or_undef _ _ = Ret _ |- _ => apply or_undef_Ret_inv in H
  | H : obind _ _ = Ret _ |- _ =>
      let a := fresh "r" in let E := fresh "E" in
      apply obind_Ret_inv in H as (a & E & H)
  | H : (let '(_, _) := ?p in _) = Ret _ |- _ => destruct p eqn:?
  end; simplify_eq/=.

(** ** Bytes and little-endian words

    A byte is an integer in [[0, 256)], a memory object a list of bytes. *)
Definition bytesP (l : list Z) : Prop := Forall is_u8 l.

Fixpoint le_bytes (n : nat) (z : Z) : list Z :=
  match n with
  | O => []
  | S n => z mod 256 :: le_bytes n (z / 256)
  end.

Fixpoint le_join (l : list Z) : Z :=
  match l with
  | [] => 0
  | b :: l => b + 256 * le_join l
  end.

Lemma length_le_bytes n z : length (le_bytes n z) = n.
Proof. revert z; induction n; intros; simpl; auto. Qed.

Lemma len_le_bytes n z : len (le_bytes n z) = Z.of_nat n.
Proof. by rewrite length_le_bytes. Qed.

Lemma le_bytes_bytesP n z : bytesP (le_bytes n z).
Proof.
  revert z; induction n as [|n IH]; intros z; simpl; constructor; [|apply IH].
  apply (Z.mod_pos_bound z 256); lia.
Qed.

Lemma le_join_le_bytes n z : le_join (le_bytes n z) = z mod 2 ^ (8 * Z.of_nat n).
Proof.
  revert z; induction n as [|n IH]; intros z; simpl.
  - by rewrite Z.mod_1_r.
  - rewrite IH.
    replace (8 * Z.of_nat (S n)) with (8 + 8 * Z.of_nat n) by lia.
    rewrite Z.pow_add_r by lia. change (2 ^ 8) with 256.
    rewrite Z.rem_mul_r by lia. lia.
Qed.

Lemma le_join_bound l : bytesP l → 0 <= le_join l < 2 ^ (8 * len l).
Proof.
  induction 1 as [|b l Hb Hl IH]; simpl; [lia|].
  replace (8 * Z.of_nat (S (length l))) with (8 + 8 * len l) by lia.
  rewrite Z.pow_add_r by lia. change (2 ^ 8) with 256.
  unfold is_u8 in Hb. change (2 ^ 8) with 256 in Hb. nia.
Qed.

Lemma le_bytes_le_join l : bytesP l → le_bytes (length l) (le_join l) = l.
Proof.
  induction 1 as [|b l Hb Hl IH]; simpl; [done|].
  unfold is_u8 in Hb. change (2 ^ 8) with 256 in Hb.
  assert ((b + 256 * le_join l) mod 256 = b) as ->.
  { rewrite Z.add_comm, Z.mul_comm, Z.add_mod, Z.mod_mul, Z.add_0_l, Z.mod_mod by lia.
    apply Z.mod_small; lia. }
  assert ((b + 256 * le_join l) / 256 = le_join l) as ->.
  { rewrite Z.add_comm, Z.mul_comm, Z.div_add_l, (Z.div_small b 256) by lia. lia. }
  by rewrite IH.
Qed.

Lemma le_join_u64 z : is_u64 z → le_join (le_bytes 8 z) = z.
Proof. intros. rewrite le_join_le_bytes. by apply Z.mod_small. Qed.

Lemma le_join_u32 z : is_u32 z → le_join (le_bytes 4 z) = z.
Proof. intros. rewrite le_join_le_bytes. by apply Z.mod_small. Qed.

#[export] Hint Resolve le_bytes_bytesP : ct.
#[global] Opaque le_bytes.
#[export] Hint Rewrite length_le_bytes @length_app @length_take @length_drop
  @length_replicate @length_cons @length_nil @length_fmap @length_map : ctlen.

(** Compute the lengths in the goal and close it with [lia]. *)
Ltac len_simpl := autorewrite with ctlen in *.
Ltac llia := unfold is_u8, is_u32, is_u64 in *; autorewrite with ctlen in *; lia.

(** ** Partial accesses to a memory object *)
Definition in_range {A} (mem : list A) (off n : Z) : bool :=
  (0 <=? off) && (off + n <=? len mem).

(** Read an [n]-byte little-endian word at byte offset [off]. *)
Definition load (n : nat) (mem : list Z) (off : Z) : option Z :=
  if in_range mem off (Z.of_nat n)
  then Some (le_join (take n (drop (Z.to_nat off) mem)))
  else None.

(** Overwrite the bytes from offset [off] on with [bs]. *)
Definition store (mem : list Z) (off : Z) (bs : list Z) : option (list Z) :=
  if in_range mem off (len bs)
  then Some (take (Z.to_nat off) mem ++ bs ++ drop (Z.to_nat off + length bs) mem)
  else None.

Definition store64 (mem : list Z) (off v : Z) : option (list Z) :=
  store mem off (le_bytes 8 v).
Definition store32 (mem : list Z) (off v : Z) : option (list Z) :=
  store mem off (le_bytes 4 v).

Lemma in_range_spec {A} (mem : list A) off n :
  in_range mem off n = true ↔ 0 <= off ∧ off + n <= len mem.
Proof. unfold in_range. rewrite andb_true_iff, !Z.leb_le. done. Qed.

Lemma store_inv mem off bs mem' :
  store mem off bs = Some mem' →
  0 <= off ∧ off + len bs <= len mem ∧
  mem' = take (Z.to_nat off) mem ++ bs ++ drop (Z.to_nat off + length bs) mem.
Proof.
  unfold store. destruct (in_range _ _ _) eqn:E; [|done].
  apply in_range_spec in E. intros. simplify_eq. tauto.
Qed.

Lemma length_store mem off bs mem' :
  store mem off bs = Some mem' → length mem' = length mem.
Proof. intros (?&?&->)%store_inv. llia. Qed.

Lemma store_bytesP mem off bs mem' :
  store mem off bs = Some mem' → bytesP mem → bytesP bs → bytesP mem'.
Proof.
  intros (?&?&->)%store_inv Hm Hb. unfold bytesP in *.
  rewrite !Forall_app. eauto using Forall_take, Forall_drop.
Qed.

(** Overwriting one chunk of a memory that is known piecewise. *)
Lemma store_chunk pre c post bs off :
  off = len pre → length bs = length c →
  store (pre ++ c ++ post) off bs = Some (pre ++ bs ++ post).
Proof.
  intros -> Hl. unfold store.
  assert (in_range (pre ++ c ++ post) (len pre) (len bs) = true) as ->.
  { apply in_range_spec. llia. }
  rewrite Nat2Z.id, take_app_length, drop_app_add', Hl, drop_app_length; done.
Qed.

(** Reading one chunk of a memory that is known piecewise. *)
Lemma load_chunk n pre c post off :
  off = len pre → length c = n →
  load n (pre ++ c ++ post) off = Some (le_join c).
Proof.
  intros -> <-. unfold load.
  assert (in_range (pre ++ c ++ post) (len pre) (len c) = true) as ->.
  { apply in_range_spec. llia. }
  by rewrite Nat2Z.id, drop_app_length, take_app_length.
Qed.

(** The two lemmas as rewriting steps: skip a leading chunk, access the first. *)
Lemma load_skip n a m off :
  len a <= off → load n (a ++ m) off = load n m (off - len a).
Proof.
  intros H. unfold load, in_range. rewrite length_app, Nat2Z.inj_add.
  replace (0 <=? off) with true by (symmetry; apply Z.leb_le; lia).
  replace (0 <=? off - len a) with true by (symmetry; apply Z.leb_le; lia).
  replace (off - len a + Z.of_nat n <=? len m) with (off + Z.of_nat n <=? len a + len m)
    by (apply eq_true_iff_eq; rewrite !Z.leb_le; lia).
  rewrite drop_app_ge by lia.
  by replace (Z.to_nat off - length a)%nat with (Z.to_nat (off - len a)) by lia.
Qed.

Lemma load_here n c m off :
  off = 0 → length c = n → load n (c ++ m) off = Some (le_join c).
Proof. intros -> ?. by apply (load_chunk n [] c m). Qed.

Lemma load_here_end n c off :
  off = 0 → length c = n → load n c off = Some (le_join c).
Proof. intros -> ?. rewrite <- (app_nil_r c). rewrite load_here; [|done..]. by rewrite app_nil_r. Qed.

Lemma store_skip a m off bs :
  len a <= off → store (a ++ m) off bs = (a ++.) <$> store m (off - len a) bs.
Proof.
  intros H. unfold store, in_range. rewrite length_app, Nat2Z.inj_add.
  replace (0 <=? off) with true by (symmetry; apply Z.leb_le; lia).
  replace (0 <=? off - len a) with true by (symmetry; apply Z.leb_le; lia).
  replace (off - len a + len bs <=? len m) with (off + len bs <=? len a + len m)
    by (apply eq_true_iff_eq; rewrite !Z.leb_le; lia).
  simpl. case_match; [|done]. simpl. f_equal.
  rewrite take_app_ge, drop_app_ge, <- app_assoc by lia.
  replace (Z.to_nat off - length a)%nat with (Z.to_nat (off - len a)) by lia.
  by replace (Z.to_nat off + length bs - length a)%nat
    with (Z.to_nat (off - len a) + length bs)%nat by lia.
Qed.

Lemma store_here c m off bs :
  off = 0 → length bs = length c → store (c ++ m) off bs = Some (bs ++ m).
Proof. intros -> ?. by apply (store_chunk [] c m). Qed.

(** Evaluate a load from a memory that is a known sequence of chunks. *)
Ltac load_simpl :=
  repeat (rewrite load_skip by llia);
  first [rewrite load_here by llia | rewrite load_here_end by llia].
Ltac store_simpl :=
  repeat (rewrite store_skip by llia); rewrite store_here by llia; simpl.

(** A store below or above a prefix leaves it alone. *)
Lemma take_store mem off bs mem' k :
  store mem off bs = Some mem' → Z.of_nat k <= off → take k mem' = take k mem.
Proof.
  intros (?&?&->)%store_inv Hk.
  rewrite take_app_le by llia. rewrite take_take. f_equal. lia.
Qed.

(** The bytes between two positions, as a sub-list. *)
Definition slice {A} (off n : Z) (l : list A) : list A :=
  take (Z.to_nat n) (drop (Z.to_nat off) l).

Lemma length_slice {A} off n (l : list A) :
  0 <= off → 0 <= n → off + n <= len l → len (slice off n l) = n.
Proof. intros. unfold slice. llia. Qed.

(** Split a memory at a range that lies inside it. *)
Lemma split_range {A} (l : list A) off n :
  0 <= off → 0 <= n → off + n <= len l →
  l = take (Z.to_nat off) l ++ slice off n l ++ drop (Z.to_nat (off + n)) l.
Proof.
  intros. unfold slice.
  rewrite <- (take_drop (Z.to_nat off) l) at 1. f_equal.
  rewrite <- (take_drop (Z.to_nat n) (drop (Z.to_nat off) l)) at 1. f_equal.
  rewrite drop_drop. f_equal. lia.
Qed.

(** The first [k] elements of a long enough list, as a chunk of their own. *)
Lemma chunk {A} k (l : list A) : (k ≤ length l)%nat → ∃ a r, l = a ++ r ∧ length a = k.
Proof. intros. exists (take k l), (drop k l). rewrite take_drop, length_take. split; [done|lia]. Qed.

(** Filtering by a function that is injective where it is defined. *)
Lemma NoDup_omap {A A'} (f : A → option A') l :
  (∀ x y z, x ∈ l → y ∈ l → f x = Some z → f y = Some z → x = y) → NoDup l → NoDup (omap f l).
Proof.
  intros Hf H. induction H as [|x l Hx _ IH]; [constructor|].
  assert (NoDup (omap f l)) by (apply IH; intros; eapply Hf; eauto using list_elem_of_further).
  simpl. destruct (f x) as [z|] eqn:E; [|done].
  constructor; [|done]. intros (y & Hy & Ey)%list_elem_of_omap. apply Hx.
  by rewrite (Hf x y z) by eauto using list_elem_of_here, list_elem_of_further.
Qed.

(** Choose one witness for each of finitely many numbers. *)
Lemma finite_choice {A} (P : nat → A → Prop) n :
  (∀ k, (k < n)%nat → ∃ a, P k a) →
  ∃ l : list A, ∀ k, (k < n)%nat → ∃ a, l !! k = Some a ∧ P k a.
Proof.
  intros H. enough (∃ l : list A, length l = n ∧ ∀ k, (k < n)%nat → ∃ a, l !! k = Some a ∧ P k a)
    as (l & _ & Hl) by eauto.
  induction n as [|n IH]; [exists []; split; [done|lia]|].
  destruct IH as (l & Hlen & Hl); [eauto|]. destruct (H n) as [a Ha]; [lia|].
  exists (l ++ [a]). split; [rewrite length_app; simpl; lia|]. intros k Hk.
  destruct (decide (k = n)) as [->|].
  - exists a. by rewrite lookup_app_r, Hlen, Nat.sub_diag by lia.
  - destruct (Hl k) as (b & Hb & HP); [lia|]. exists b. by rewrite lookup_app_l by lia.
Qed.

(** ** Words *)
Fixpoint words64 (ws : list Z) : list Z :=
  match ws with
  | [] => []
  | w :: ws => le_bytes 8 w ++ words64 ws
  end.

Lemma length_words64 ws : length (words64 ws) = (8 * length ws)%nat.
Proof.
  induction ws as [|w ws IH]; [done|].
  cbn [words64]. rewrite length_app, length_le_bytes, IH. simpl. lia.
Qed.
#[export] Hint Rewrite length_words64 : ctlen.

Lemma words64_app a b : words64 (a ++ b) = words64 a ++ words64 b.
Proof. induction a; simpl; [done|]. by rewrite IHa, app_assoc. Qed.

Lemma words64_cons a b : words64 (a :: b) = le_bytes 8 a ++ words64 b.
Proof. done. Qed.

Lemma words64_bytesP ws : bytesP (words64 ws).
Proof.
  induction ws as [|w ws IH]; [constructor|].
  rewrite words64_cons. apply Forall_app; split; [apply le_bytes_bytesP|done].
Qed.

(** Evaluate the closed integer tests of the goal. *)
Ltac is_bool_lit b := match b with true => idtac | false => idtac end.
Ltac eval_tests :=
  repeat match goal with
  | |- context [Z.eqb ?a ?b] =>
      let r := eval vm_compute in (Z.eqb a b) in is_bool_lit r; change (Z.eqb a b) with r
  | |- context [Z.leb ?a ?b] =>
      let r := eval vm_compute in (Z.leb a b) in is_bool_lit r; change (Z.leb a b) with r
  | |- context [Z.ltb ?a ?b] =>
      let r := eval vm_compute in (Z.ltb a b) in is_bool_lit r; change (Z.ltb a b) with r
  end; cbn [orb andb negb].
