(* ===== verification/Version.v ===== *)
(** * Version header (src/version.c, include/coldtrace/version.h.in)

    The eight bytes that open every fragment.  The commit hash and the version
    numbers are filled in by the build ([configure_file] of version.h.in), so
    they are a class of values every later definition takes as an argument. *)

From stdpp Require Import base list numbers.
From Stdlib Require Import ZArith Lia.
From S2P Require Import Prelude.

(** The macros that the build writes into version.h. *)
Class BuildInfo := {
  GIT_COMMIT_HASH : Z;
  VERSION_MAJOR : Z;
  VERSION_MINOR : Z;
  VERSION_PATCH : Z;
}.

Definition VERSION_PADDING : Z := 5.

(** What the build promises about them: each fits the field that stores it. *)
Class BuildInfoOk (B : BuildInfo) : Prop := {
  git_hash_fits : is_u32 GIT_COMMIT_HASH;
  major_fits : is_u8 VERSION_MAJOR;
  minor_fits : is_u8 VERSION_MINOR;
  patch_fits : is_u8 VERSION_PATCH;
}.

Record version_header := VersionHeader {
  vh_git_hash : Z;
  vh_padding : Z;
  vh_major : Z;
  vh_minor : Z;
  vh_patch : Z;
}.

(** [sizeof(struct version_header)] *)
Definition sizeof_version_header : Z := 8.

Definition encode_version_header (h : version_header) : list Z :=
  le_bytes 4 (vh_git_hash h) ++ le_bytes 1 (vh_padding h) ++ le_bytes 1 (vh_major h)
  ++ le_bytes 1 (vh_minor h) ++ le_bytes 1 (vh_patch h).

(** Reading the struct at a pointer, as [*file_header] does. *)
Definition load_version_header (mem : list Z) (p : Z) : option version_header :=
  git ← load 4 mem p;
  pad ← load 1 mem (p + 4);
  maj ← load 1 mem (p + 5);
  min ← load 1 mem (p + 6);
  pat ← load 1 mem (p + 7);
  Some (VersionHeader git pad maj min pat).

Section Version.
Context `{B : BuildInfo}.

Definition current_version_header : version_header :=
  VersionHeader (u32 GIT_COMMIT_HASH) (u8 VERSION_PADDING) (u8 VERSION_MAJOR)
    (u8 VERSION_MINOR) (u8 VERSION_PATCH).

Definition version_header_equal (file_header : version_header) : bool :=
  (vh_git_hash file_header =? GIT_COMMIT_HASH) &&
  (vh_padding file_header =? VERSION_PADDING) &&
  (vh_major file_header =? VERSION_MAJOR) &&
  (vh_minor file_header =? VERSION_MINOR) &&
  (vh_patch file_header =? VERSION_PATCH).

(** The bytes a fresh fragment starts with. *)
Definition header_bytes : list Z := encode_version_header current_version_header.

Lemma length_header_bytes : length header_bytes = 8%nat.
Proof. done. Qed.

Lemma header_bytes_bytesP : bytesP header_bytes.
Proof.
  unfold bytesP, header_bytes, encode_version_header.
  rewrite !Forall_app. repeat split; apply le_bytes_bytesP.
Qed.

Lemma version_header_equal_spec `{!BuildInfoOk B} h :
  version_header_equal h = true ↔ h = current_version_header.
Proof.
  destruct h as [g p ma mi pa]. unfold version_header_equal, current_version_header. simpl.
  rewrite !andb_true_iff, !Z.eqb_eq.
  rewrite u32_id by apply git_hash_fits. rewrite !u8_id;
    [|apply patch_fits|apply minor_fits|apply major_fits|done].
  split; [intros [[[[-> ->] ->] ->] ->]; done | intros; simplify_eq; tauto].
Qed.
End Version.
#[export] Hint Rewrite @length_header_bytes : ctlen.

Lemma load_encode_version_header h rest :
  is_u32 (vh_git_hash h) → is_u8 (vh_padding h) → is_u8 (vh_major h) →
  is_u8 (vh_minor h) → is_u8 (vh_patch h) →
  load_version_header (encode_version_header h ++ rest) 0 = Some h.
Proof.
  destruct h as [g p ma mi pa]; simpl; intros.
  unfold load_version_header, encode_version_header; simpl. rewrite <- !app_assoc.
  do 5 (load_simpl; simpl).
  rewrite !le_join_le_bytes, !Z.mod_small by done. done.
Qed.

(** A fragment's first bytes parse back to a header the reader accepts. *)
Lemma current_header_accepted `{B : BuildInfo, !BuildInfoOk B} rest :
  ∃ h, load_version_header (header_bytes ++ rest) 0 = Some h ∧
       version_header_equal h = true.
Proof.
  exists current_version_header. split; [|by apply version_header_equal_spec].
  apply load_encode_version_header; simpl; eauto with ct.
Qed.

(** A build to evaluate examples with. *)
Definition demo_build : BuildInfo :=
  {| GIT_COMMIT_HASH := 0x00abcdef; VERSION_MAJOR := 1; VERSION_MINOR := 2; VERSION_PATCH := 3 |}.

Lemma demo_build_ok : BuildInfoOk demo_build.
Proof. by split. Qed.
