(* ===== verification/Counters.v ===== *)
(** * Shared counters and locks (src/counters.c)

    The two index counters every thread draws from, on top of the atomics and the
    spin lock of libvsync, which is a dependency outside the repository: its
    operations are a class, and its documentation the laws of the class. *)

From stdpp Require Import base list numbers.
From Stdlib Require Import ZArith Lia.
From S2P Require Import Prelude.

(** The libvsync operations the sources call.  A [caslock_acquire] that has to
    spin is [None]: within one handler nobody else can release the lock. *)
Class Vsync := {
  vatomic64_get_inc : Z → Z * Z;          (* value returned, value left behind *)
  vatomic64_get_inc_rlx : Z → Z * Z;
  caslock_t : Type;
  CASLOCK_INIT : caslock_t;
  caslock_acquire : caslock_t → option caslock_t;
  caslock_release : caslock_t → caslock_t;
  caslock_held : caslock_t → bool;
}.

Class VsyncLaws (V : Vsync) : Prop := {
  (** "Returns the previous value and increments" *)
  get_inc_spec : ∀ v, is_u64 v → vatomic64_get_inc v = (v, u64 (v + 1));
  get_inc_rlx_spec : ∀ v, is_u64 v → vatomic64_get_inc_rlx v = (v, u64 (v + 1));
  lock_init_free : caslock_held CASLOCK_INIT = false;
  (** mutual exclusion: a held lock cannot be acquired, a free one can *)
  acquire_held : ∀ l, caslock_held l = true → caslock_acquire l = None;
  acquire_free : ∀ l, caslock_held l = false →
    ∃ l', caslock_acquire l = Some l' ∧ caslock_held l' = true;
  release_free : ∀ l, caslock_held (caslock_release l) = false;
}.

(** Compare-and-swap lock and fetch-and-add as they are documented. *)
#[export] Instance plain_vsync : Vsync := {|
  vatomic64_get_inc v := (v, u64 (v + 1));
  vatomic64_get_inc_rlx v := (v, u64 (v + 1));
  caslock_t := bool;
  CASLOCK_INIT := false;
  caslock_acquire l := if l then None else Some true;
  caslock_release _ := false;
  caslock_held l := l;
|}.

#[export] Instance plain_vsync_laws : VsyncLaws plain_vsync.
Proof. split; simpl; try done; intros []; try done. intros _. by exists true. Qed.

Section Counters.
Context `{V : Vsync}.

(** The static variables [next_alloc_index.v] and [next_atomic_index.v]; the
    padding of [struct padded_index] has no contents. *)
Record counters := Counters {
  next_alloc_index : Z;
  next_atomic_index : Z;
}.

Definition coldtrace_next_alloc_idx (k : counters) : Z * counters :=
  let '(r, v) := vatomic64_get_inc (next_alloc_index k) in
  (r, Counters v (next_atomic_index k)).

Definition coldtrace_next_atomic_idx (k : counters) : Z * counters :=
  let '(r, v) := vatomic64_get_inc_rlx (next_atomic_index k) in
  (r, Counters (next_alloc_index k) v).

Definition counters_ok (k : counters) : Prop :=
  is_u64 (next_alloc_index k) ∧ is_u64 (next_atomic_index k).

Context `{!VsyncLaws V}.

Lemma next_alloc_spec k :
  counters_ok k →
  coldtrace_next_alloc_idx k =
    (next_alloc_index k, Counters (u64 (next_alloc_index k + 1)) (next_atomic_index k)).
Proof. intros [H _]. unfold coldtrace_next_alloc_idx. by rewrite get_inc_spec. Qed.

Lemma next_atomic_spec k :
  counters_ok k →
  coldtrace_next_atomic_idx k =
    (next_atomic_index k, Counters (next_alloc_index k) (u64 (next_atomic_index k + 1))).
Proof. intros [_ H]. unfold coldtrace_next_atomic_idx. by rewrite get_inc_rlx_spec. Qed.

(** [n] draws in a row, by whichever threads. *)
Fixpoint draw (next : counters → Z * counters) (n : nat) (k : counters) : list Z * counters :=
  match n with
  | O => ([], k)
  | S n => let '(i, k) := next k in let '(ids, k) := draw next n k in (i :: ids, k)
  end.

Lemma draw_atomic n : ∀ k,
  counters_ok k → next_atomic_index k + Z.of_nat n < 2 ^ 64 →
  draw coldtrace_next_atomic_idx n k =
    (seqZ (next_atomic_index k) (Z.of_nat n),
     Counters (next_alloc_index k) (next_atomic_index k + Z.of_nat n)).
Proof.
  induction n as [|n IH]; intros k Hk Hb; cbn [draw].
  - rewrite Z.add_0_r. by destruct k.
  - rewrite next_atomic_spec by done. destruct Hk as [H1 H2]. rewrite IH; simpl.
    + rewrite u64_id by ulia. rewrite (seqZ_cons (next_atomic_index k)) by lia.
      do 2 f_equal; [f_equal; lia|lia].
    + split; [done|apply u64_range].
    + rewrite u64_id by ulia. lia.
Qed.

(** Every draw of an atomic index before the counter wraps gives a different
    value, whichever threads draw: [n] consecutive draws give exactly the next
    [n] integers. *)
Theorem atomic_indices_distinct n k :
  counters_ok k → next_atomic_index k + Z.of_nat n < 2 ^ 64 →
  let '(ids, k') := draw coldtrace_next_atomic_idx n k in
  NoDup ids ∧ ids = seqZ (next_atomic_index k) (Z.of_nat n) ∧
  next_atomic_index k' = next_atomic_index k + Z.of_nat n ∧
  next_alloc_index k' = next_alloc_index k.
Proof. intros Hk Hb. rewrite draw_atomic by done. by split; [apply NoDup_seqZ|]. Qed.
End Counters.

Lemma atomic_indices_distinct_witness :
  let '(ids, _) := draw coldtrace_next_atomic_idx 5 (Counters 0 7) in NoDup ids.
Proof.
  assert (counters_ok (Counters 0 7)) as Hk by (split; vm_compute; split; congruence).
  pose proof (atomic_indices_distinct 5 (Counters 0 7) Hk eq_refl) as H.
  destruct (draw coldtrace_next_atomic_idx 5 (Counters 0 7)) as [ids k']. exact (proj1 H).
Defined.
