(* ===== verification/Entries.v ===== *)
(** * Trace entries (src/entries.c, include/coldtrace/entries.h)

    The binary layout of an entry: a packed header word (48-bit pointer, type
    byte with the zero flag), fixed-size fields, and for the entries that carry
    a stack, the stack diff.  A pointer into a trace is a memory object and a
    byte offset. *)

From stdpp Require Import base list numbers strings.
From Stdlib Require Import ZArith Lia.
From S2P Require Import Prelude.

(** ** Constants of entries.h *)
Definition TYPE_MASK : Z := 0x00000000000000FF.
Definition PTR_MASK : Z := 0xFFFFFFFFFFFF0000.
Definition PTR_SHIFT_VALUE : Z := 16.
Definition ZERO_FLAG : Z := 0x80.
Definition INVALID_SIZE : Z := -1.
Definition INVALID_ALLOC_INDEX : Z := -1.
Definition INVALID_ATOMIC_INDEX : Z := -1.

Definition COLDTRACE_FREE : Z := 0.
Definition COLDTRACE_ALLOC : Z := 1.
Definition COLDTRACE_READ : Z := 2.
Definition COLDTRACE_WRITE : Z := 3.
Definition COLDTRACE_ATOMIC_READ : Z := 4.
Definition COLDTRACE_ATOMIC_WRITE : Z := 5.
Definition COLDTRACE_LOCK_ACQUIRE : Z := 6.
Definition COLDTRACE_LOCK_RELEASE : Z := 7.
Definition COLDTRACE_THREAD_CREATE : Z := 8.
Definition COLDTRACE_THREAD_START : Z := 9.
Definition COLDTRACE_RW_LOCK_CREATE : Z := 10.
Definition COLDTRACE_RW_LOCK_DESTROY : Z := 11.
Definition COLDTRACE_RW_LOCK_ACQ_SHR : Z := 12.
Definition COLDTRACE_RW_LOCK_ACQ_EXC : Z := 13.
Definition COLDTRACE_RW_LOCK_REL_SHR : Z := 14.
Definition COLDTRACE_RW_LOCK_REL_EXC : Z := 15.
Definition COLDTRACE_RW_LOCK_REL : Z := 16.
Definition COLDTRACE_CXA_GUARD_ACQUIRE : Z := 17.
Definition COLDTRACE_CXA_GUARD_RELEASE : Z := 18.
Definition COLDTRACE_THREAD_JOIN : Z := 19.
Definition COLDTRACE_THREAD_EXIT : Z := 20.
Definition COLDTRACE_FENCE : Z := 21.
Definition COLDTRACE_MMAP : Z := 22.
Definition COLDTRACE_MUNMAP : Z := 23.
Definition COLDTRACE_TEST_MARKER : Z := 24.
Definition COLDTRACE_END_ : Z := 25.

(** [sizeof] of the entry structs; a flexible array member counts 0. *)
Definition sizeof_stack_diff : Z := 8.
Definition sizeof_marker_entry : Z := 8.
Definition sizeof_access_entry : Z := 8 + 8 + 8 + sizeof_stack_diff.
Definition sizeof_alloc_entry : Z := 8 + 8 + 8 + 8 + sizeof_stack_diff.
Definition sizeof_free_entry : Z := 8 + 8 + 8 + sizeof_stack_diff.
Definition sizeof_atomic_access_entry : Z := 8 + 8 + 8.
Definition sizeof_atomic_entry : Z := 8 + 8.
Definition sizeof_thread_init_entry : Z := 8 + 8 + 8 + 8.

Ltac unfold_sizes :=
  unfold sizeof_access_entry, sizeof_alloc_entry, sizeof_free_entry,
    sizeof_atomic_access_entry, sizeof_atomic_entry, sizeof_thread_init_entry,
    sizeof_marker_entry, sizeof_stack_diff in *.

(** ** Packing the header word *)
Definition coldtrace_make_entry_header (type ptr : Z) : Z :=
  let ptr64 := ptr in
  let type_masked_shifted := Z.land type TYPE_MASK in
  let ptr_masked_shifted := Z.land (u64 (Z.shiftl ptr64 PTR_SHIFT_VALUE)) PTR_MASK in
  Z.lor ptr_masked_shifted type_masked_shifted.

Definition coldtrace_entry_init (type ptr : Z) : Z :=
  let ptr64 := u64 ptr in
  coldtrace_make_entry_header (u8 type) ptr64.

(** ** Tables indexed by entry type

    A C array with designated initialisers: the pairs in source order, indices
    that no initialiser names hold the default, the length is the largest index
    plus one. *)
Definition array_length {A} (l : list (Z * A)) : Z :=
  foldr (fun p n => Z.max (p.1 + 1) n) 0 l.

Definition designated {A} (dflt : A) (l : list (Z * A)) (i : Z) : outcome A :=
  if (0 <=? i) && (i <? array_length l)
  then Ret (foldl (fun a p => if p.1 =? i then p.2 else a) dflt l)
  else Undef OutOfBounds.

Definition type_map_ : list (Z * option string) := [
  (COLDTRACE_FREE, Some "COLDTRACE_FREE"%string);
  (COLDTRACE_ALLOC, Some "COLDTRACE_ALLOC"%string);
  (COLDTRACE_READ, Some "COLDTRACE_READ"%string);
  (COLDTRACE_WRITE, Some "COLDTRACE_WRITE"%string);
  (COLDTRACE_ATOMIC_READ, Some "COLDTRACE_ATOMIC_READ"%string);
  (COLDTRACE_ATOMIC_WRITE, Some "COLDTRACE_ATOMIC_WRITE"%string);
  (COLDTRACE_LOCK_ACQUIRE, Some "COLDTRACE_LOCK_ACQUIRE"%string);
  (COLDTRACE_LOCK_RELEASE, Some "COLDTRACE_LOCK_RELEASE"%string);
  (COLDTRACE_THREAD_CREATE, Some "COLDTRACE_THREAD_CREATE"%string);
  (COLDTRACE_THREAD_START, Some "COLDTRACE_THREAD_START"%string);
  (COLDTRACE_RW_LOCK_CREATE, Some "COLDTRACE_RW_LOCK_CREATE"%string);
  (COLDTRACE_RW_LOCK_DESTROY, Some "COLDTRACE_RW_LOCK_DESTROY"%string);
  (COLDTRACE_RW_LOCK_ACQ_SHR, Some "COLDTRACE_RW_LOCK_ACQ_SHR"%string);
  (COLDTRACE_RW_LOCK_ACQ_EXC, Some "COLDTRACE_RW_LOCK_ACQ_EXC"%string);
  (COLDTRACE_RW_LOCK_REL_SHR, Some "COLDTRACE_RW_LOCK_REL_SHR"%string);
  (COLDTRACE_RW_LOCK_REL_EXC, Some "COLDTRACE_RW_LOCK_REL_EXC"%string);
  (COLDTRACE_RW_LOCK_REL, Some "COLDTRACE_RW_LOCK_REL"%string);
  (COLDTRACE_CXA_GUARD_ACQUIRE, Some "COLDTRACE_CXA_GUARD_ACQUIRE"%string);
  (COLDTRACE_CXA_GUARD_RELEASE, Some "COLDTRACE_CXA_GUARD_RELEASE"%string);
  (COLDTRACE_THREAD_JOIN, Some "COLDTRACE_THREAD_JOIN"%string);
  (COLDTRACE_THREAD_EXIT, Some "COLDTRACE_THREAD_EXIT"%string);
  (COLDTRACE_FENCE, Some "COLDTRACE_FENCE"%string);
  (COLDTRACE_MMAP, Some "COLDTRACE_MMAP"%string);
  (COLDTRACE_MUNMAP, Some "COLDTRACE_MUNMAP"%string);
  (COLDTRACE_TEST_MARKER, Some "COLDTRACE_TEST_MARKER"%string) ].

Definition is_type_valid (type : Z) : bool :=
  Z.land type (Z.lnot ZERO_FLAG) <? COLDTRACE_END_.

(** The returned [char *] is [None] when it is NULL. *)
Definition coldtrace_entry_type_str (type : Z) : outcome (option string) :=
  if negb (is_type_valid type) then Ret (Some "INVALID_EVENT"%string)
  else designated None type_map_ (Z.land type (Z.lnot ZERO_FLAG)).

Definition space_map_ : list (Z * Z) := [
  (COLDTRACE_FREE, sizeof_free_entry);
  (COLDTRACE_ALLOC, sizeof_alloc_entry);
  (COLDTRACE_MMAP, sizeof_alloc_entry);
  (COLDTRACE_MUNMAP, sizeof_alloc_entry);
  (COLDTRACE_READ, sizeof_access_entry);
  (COLDTRACE_WRITE, sizeof_access_entry);
  (COLDTRACE_ATOMIC_READ, sizeof_atomic_access_entry);
  (COLDTRACE_ATOMIC_WRITE, sizeof_atomic_access_entry);
  (COLDTRACE_LOCK_ACQUIRE, sizeof_atomic_entry);
  (COLDTRACE_LOCK_RELEASE, sizeof_atomic_entry);
  (COLDTRACE_RW_LOCK_CREATE, sizeof_atomic_entry);
  (COLDTRACE_RW_LOCK_DESTROY, sizeof_atomic_entry);
  (COLDTRACE_RW_LOCK_ACQ_SHR, sizeof_atomic_entry);
  (COLDTRACE_RW_LOCK_ACQ_EXC, sizeof_atomic_entry);
  (COLDTRACE_RW_LOCK_REL_SHR, sizeof_atomic_entry);
  (COLDTRACE_RW_LOCK_REL_EXC, sizeof_atomic_entry);
  (COLDTRACE_RW_LOCK_REL, sizeof_atomic_entry);
  (COLDTRACE_CXA_GUARD_ACQUIRE, sizeof_atomic_entry);
  (COLDTRACE_CXA_GUARD_RELEASE, sizeof_atomic_entry);
  (COLDTRACE_THREAD_JOIN, sizeof_atomic_entry);
  (COLDTRACE_THREAD_EXIT, sizeof_atomic_entry);
  (COLDTRACE_FENCE, sizeof_atomic_entry);
  (COLDTRACE_THREAD_CREATE, sizeof_atomic_entry);
  (COLDTRACE_THREAD_START, sizeof_thread_init_entry);
  (COLDTRACE_TEST_MARKER, sizeof_marker_entry) ].

Definition coldtrace_entry_fixed_size (type : Z) : outcome Z :=
  if negb (is_type_valid type) then Ret 0
  else designated 0 space_map_ (Z.land type (Z.lnot ZERO_FLAG)).

(** ** Parsing an entry at a pointer *)

(** The [k]-th [uint64_t] of the array that starts at [buf]. *)
Definition word_at (mem : list Z) (buf k : Z) : outcome Z :=
  or_undef OutOfBounds (load 8 mem (buf + 8 * k)).

Definition coldtrace_entry_parse_type (mem : list Z) (buf : Z) : outcome Z :=
  let! ptr := word_at mem buf 0 in
  let type := u8 (Z.land (Z.land ptr TYPE_MASK) (Z.lnot ZERO_FLAG)) in
  if negb (is_type_valid type) then Ret COLDTRACE_END_ else Ret type.

Definition coldtrace_entry_parse_ptr (mem : list Z) (buf : Z) : outcome Z :=
  let! typed_ptr := word_at mem buf 0 in
  Ret (Z.shiftr (Z.land typed_ptr PTR_MASK) PTR_SHIFT_VALUE).

Definition coldtrace_entry_parse_alloc_index (mem : list Z) (buf : Z) : outcome Z :=
  let! type := coldtrace_entry_parse_type mem buf in
  if (type =? COLDTRACE_ALLOC) || (type =? COLDTRACE_MMAP) || (type =? COLDTRACE_MUNMAP)
  then word_at mem buf 2
  else if type =? COLDTRACE_FREE then word_at mem buf 1
  else Ret (u64 INVALID_ALLOC_INDEX).

Definition coldtrace_entry_parse_atomic_index (mem : list Z) (buf : Z) : outcome Z :=
  let! type := coldtrace_entry_parse_type mem buf in
  if (COLDTRACE_MMAP <=? type) || (type <? COLDTRACE_ATOMIC_READ)
  then Ret (u64 INVALID_ATOMIC_INDEX)
  else if (type =? COLDTRACE_ATOMIC_READ) || (type =? COLDTRACE_ATOMIC_WRITE)
  then word_at mem buf 2
  else word_at mem buf 1.

Definition coldtrace_entry_parse_size (mem : list Z) (buf : Z) : outcome Z :=
  let! type := coldtrace_entry_parse_type mem buf in
  if (type =? COLDTRACE_ALLOC) || (type =? COLDTRACE_READ) || (type =? COLDTRACE_WRITE)
     || (type =? COLDTRACE_MMAP) || (type =? COLDTRACE_ATOMIC_READ)
     || (type =? COLDTRACE_ATOMIC_WRITE) || (type =? COLDTRACE_MUNMAP)
  then word_at mem buf 1
  else Ret (u64 INVALID_SIZE).

(** [(e->stack.depth - e->stack.popped) * sizeof(uint64_t)] for a struct whose
    stack diff starts at byte [off]: the difference is taken in [uint32_t]. *)
Definition stack_diff_bytes (mem : list Z) (buf off : Z) : outcome Z :=
  let! popped := or_undef OutOfBounds (load 4 mem (buf + off)) in
  let! depth := or_undef OutOfBounds (load 4 mem (buf + off + 4)) in
  Ret (u64 (u32 (depth - popped) * 8)).

Definition coldtrace_entry_get_size (mem : list Z) (buf : Z) : outcome Z :=
  let! type := coldtrace_entry_parse_type mem buf in
  if type =? COLDTRACE_FREE then
    let! d := stack_diff_bytes mem buf (sizeof_free_entry - sizeof_stack_diff) in
    Ret (u64 (sizeof_free_entry + d))
  else if (type =? COLDTRACE_ALLOC) || (type =? COLDTRACE_MMAP) || (type =? COLDTRACE_MUNMAP) then
    let! d := stack_diff_bytes mem buf (sizeof_alloc_entry - sizeof_stack_diff) in
    Ret (u64 (sizeof_alloc_entry + d))
  else if (type =? COLDTRACE_READ) || (type =? COLDTRACE_WRITE) then
    let! d := stack_diff_bytes mem buf (sizeof_access_entry - sizeof_stack_diff) in
    Ret (u64 (sizeof_access_entry + d))
  else if type =? COLDTRACE_THREAD_START then Ret sizeof_thread_init_entry
  else if (type =? COLDTRACE_ATOMIC_READ) || (type =? COLDTRACE_ATOMIC_WRITE) then
    Ret sizeof_atomic_access_entry
  else if (type =? COLDTRACE_LOCK_ACQUIRE) || (type =? COLDTRACE_LOCK_RELEASE)
       || (type =? COLDTRACE_RW_LOCK_CREATE) || (type =? COLDTRACE_RW_LOCK_DESTROY)
       || (type =? COLDTRACE_RW_LOCK_ACQ_SHR) || (type =? COLDTRACE_RW_LOCK_ACQ_EXC)
       || (type =? COLDTRACE_RW_LOCK_REL_SHR) || (type =? COLDTRACE_RW_LOCK_REL_EXC)
       || (type =? COLDTRACE_RW_LOCK_REL) || (type =? COLDTRACE_CXA_GUARD_ACQUIRE)
       || (type =? COLDTRACE_CXA_GUARD_RELEASE) || (type =? COLDTRACE_THREAD_JOIN)
       || (type =? COLDTRACE_THREAD_EXIT) || (type =? COLDTRACE_FENCE)
       || (type =? COLDTRACE_THREAD_CREATE) then
    Ret sizeof_atomic_entry
  else if type =? COLDTRACE_TEST_MARKER then Ret sizeof_marker_entry
  else Ret 0.

(** ** Arithmetic of the header word *)

Lemma ptr_bits_spec p :
  Z.land (u64 (Z.shiftl p PTR_SHIFT_VALUE)) PTR_MASK = (p mod 2 ^ 48) * 2 ^ 16.
Proof.
  unfold u64, PTR_SHIFT_VALUE. change PTR_MASK with (Z.shiftl (Z.ones 48) 16).
  rewrite <- !Z.land_ones, <- Z.shiftl_mul_pow2 by lia.
  apply Z.bits_inj'. intros n Hn.
  rewrite !Z.land_spec, !Z.shiftl_spec, Z.land_spec, !Z.testbit_ones by lia.
  destruct (Z.ltb_spec n 16).
  - rewrite (Z.testbit_neg_r p) by lia. done.
  - destruct (Z.testbit p (n - 16)); simpl; [|done].
    repeat match goal with |- context [?a <=? ?b] => destruct (Z.leb_spec a b) end;
    repeat match goal with |- context [?a <? ?b] => destruct (Z.ltb_spec a b) end;
    simpl; lia || done.
Qed.

(** The header word is the 48-bit pointer above two bytes, the lower of which
    is the type; the byte between them stays zero. *)
Lemma make_entry_header_arith type ptr :
  is_u8 type →
  coldtrace_make_entry_header type ptr = (ptr mod 2 ^ 48) * 2 ^ 16 + type.
Proof.
  intros Ht. unfold coldtrace_make_entry_header. rewrite ptr_bits_spec.
  assert (Z.land type TYPE_MASK = type) as ->.
  { change TYPE_MASK with (Z.ones 8). rewrite Z.land_ones by lia. by apply Z.mod_small. }
  symmetry. apply Z.add_nocarry_lor.
  rewrite <- Z.shiftl_mul_pow2 by lia. apply Z.bits_inj'. intros n Hn.
  rewrite Z.land_spec, Z.shiftl_spec, Z.bits_0 by lia.
  destruct (Z.ltb_spec n 16).
  - by rewrite (Z.testbit_neg_r _ (n - 16)) by lia.
  - rewrite <- (Z.mod_small type (2 ^ 8)) by ulia.
    rewrite (Z.mod_pow2_bits_high type) by lia. apply andb_false_r.
Qed.

Lemma make_entry_header_u64 type ptr :
  is_u8 type → is_u64 (coldtrace_make_entry_header type ptr).
Proof.
  intros Ht. rewrite make_entry_header_arith by done.
  pose proof (Z.mod_pos_bound ptr (2 ^ 48) ltac:(lia)). ulia.
Qed.

(** Finite case analysis on a byte: a boolean test that holds of all 256 values
    holds of every [uint8_t]. *)
Lemma u8_forallb (P : Z → bool) :
  forallb P (seqZ 0 256) = true → ∀ t, is_u8 t → P t = true.
Proof.
  intros H t Ht. rewrite forallb_forall in H. apply H.
  apply list_elem_of_In, elem_of_seqZ. ulia.
Qed.

Lemma land_type_mask typed :
  Z.land typed TYPE_MASK = typed mod 2 ^ 8.
Proof. change TYPE_MASK with (Z.ones 8). by rewrite Z.land_ones by lia. Qed.

(** The type field of a header word, with the zero flag stripped. *)
Definition base_type (type : Z) : Z := Z.land type (Z.lnot ZERO_FLAG).

Lemma base_type_range t : is_u8 t → 0 <= base_type t < 128.
Proof.
  intros Ht.
  assert ((0 <=? base_type t) && (base_type t <? 128) = true) as H.
  { revert t Ht. apply u8_forallb. vm_compute. done. }
  apply andb_true_iff in H. rewrite Z.leb_le, Z.ltb_lt in H. done.
Qed.

Lemma base_type_idem t : is_u8 t → base_type (base_type t) = base_type t.
Proof.
  intros Ht. apply Z.eqb_eq. revert t Ht. apply u8_forallb. vm_compute. done.
Qed.

Lemma header_type_bits type ptr :
  is_u8 type → Z.land (coldtrace_make_entry_header type ptr) TYPE_MASK = type.
Proof.
  intros Ht. rewrite land_type_mask, make_entry_header_arith by done.
  replace (ptr mod 2 ^ 48 * 2 ^ 16 + type) with (type + ptr mod 2 ^ 48 * 2 ^ 8 * 2 ^ 8) by lia.
  rewrite Z.mod_add by lia. by apply Z.mod_small.
Qed.

Lemma header_ptr_bits type ptr :
  is_u8 type →
  Z.shiftr (Z.land (coldtrace_make_entry_header type ptr) PTR_MASK) PTR_SHIFT_VALUE
  = ptr mod 2 ^ 48.
Proof.
  intros Ht.
  assert (is_u64 (coldtrace_make_entry_header type ptr)) as Hu by by apply make_entry_header_u64.
  assert (Z.land (coldtrace_make_entry_header type ptr) PTR_MASK
          = Z.land (u64 (Z.shiftl (Z.shiftr (coldtrace_make_entry_header type ptr) 16) 16)) PTR_MASK) as ->.
  { unfold u64. change PTR_MASK with (Z.shiftl (Z.ones 48) 16).
    rewrite <- Z.land_ones by lia. apply Z.bits_inj'. intros n Hn.
    rewrite !Z.land_spec, !Z.shiftl_spec, !Z.testbit_ones by lia.
    destruct (Z.ltb_spec n 16).
    - rewrite !(Z.testbit_neg_r _ (n - 16)) by lia.
      destruct (Z.leb_spec 0 (n - 16)); [lia|]. by rewrite !andb_false_r.
    - rewrite Z.shiftr_spec by lia. replace (n - 16 + 16) with n by lia.
      destruct (Z.ltb_spec (n - 16) 48); [|by rewrite !andb_false_r].
      destruct (Z.leb_spec 0 n); [|lia]. destruct (Z.ltb_spec n 64); [|lia].
      simpl. by rewrite !andb_true_r. }
  pose proof (ptr_bits_spec (Z.shiftr (coldtrace_make_entry_header type ptr) 16)) as Hb.
  unfold PTR_SHIFT_VALUE in *. rewrite Hb.
  rewrite (Z.shiftr_div_pow2 (_ * _)), Z.div_mul by lia.
  rewrite Z.shiftr_div_pow2, make_entry_header_arith by (done || lia).
  rewrite Z.div_add_l, (Z.div_small type) by ulia. rewrite Z.add_0_r.
  apply Z.mod_mod. lia.
Qed.

(** ** Entries as values

    The types whose struct ends in a stack diff ([with_stack_] of thread.c). *)
Definition with_stack_ (type : Z) : bool :=
  let t := Z.land type (Z.lnot ZERO_FLAG) in
  (t =? COLDTRACE_FREE) || (t =? COLDTRACE_ALLOC) || (t =? COLDTRACE_MMAP)
  || (t =? COLDTRACE_MUNMAP) || (t =? COLDTRACE_READ) || (t =? COLDTRACE_WRITE).

(** One entry: its type byte (zero flag included), its 48-bit pointer, the
    64-bit fields between the header and the stack diff, and the stack diff as
    the number of retained frames and the frames above them. *)
Record entry := Entry {
  en_type : Z;
  en_ptr : Z;
  en_fields : list Z;
  en_stack : option (Z * list Z);
}.

(** How many 64-bit fields the struct of each type has. *)
Definition field_count (t : Z) : nat :=
  if (t =? COLDTRACE_ALLOC) || (t =? COLDTRACE_MMAP) || (t =? COLDTRACE_MUNMAP)
     || (t =? COLDTRACE_THREAD_START) then 3
  else if (t =? COLDTRACE_FREE) || (t =? COLDTRACE_READ) || (t =? COLDTRACE_WRITE)
     || (t =? COLDTRACE_ATOMIC_READ) || (t =? COLDTRACE_ATOMIC_WRITE) then 2
  else if t =? COLDTRACE_TEST_MARKER then 0
  else 1.

Definition encode_stack (s : option (Z * list Z)) : list Z :=
  match s with
  | None => []
  | Some (popped, diff) =>
      le_bytes 4 popped ++ le_bytes 4 (popped + len diff) ++ words64 diff
  end.

Definition encode_entry (e : entry) : list Z :=
  le_bytes 8 (coldtrace_make_entry_header (en_type e) (en_ptr e))
  ++ words64 (en_fields e) ++ encode_stack (en_stack e).

Definition stack_wf (t : Z) (s : option (Z * list Z)) : Prop :=
  match s with
  | None => with_stack_ t = false
  | Some (popped, diff) =>
      with_stack_ t = true ∧ 0 <= popped ∧ is_u32 (popped + len diff) ∧ Forall is_u64 diff
  end.

Record entry_wf (e : entry) : Prop := {
  wf_type : is_u8 (en_type e);
  wf_valid : base_type (en_type e) < COLDTRACE_END_;
  wf_ptr : 0 <= en_ptr e < 2 ^ 48;
  wf_count : length (en_fields e) = field_count (base_type (en_type e));
  wf_fields : Forall is_u64 (en_fields e);
  wf_stack : stack_wf (en_type e) (en_stack e);
}.

(** Split on the 25 entry types. *)
Lemma entry_type_cases (t : Z) : 0 <= t < 25 →
  t = 0 ∨ t = 1 ∨ t = 2 ∨ t = 3 ∨ t = 4 ∨ t = 5 ∨ t = 6 ∨ t = 7 ∨ t = 8 ∨ t = 9 ∨
  t = 10 ∨ t = 11 ∨ t = 12 ∨ t = 13 ∨ t = 14 ∨ t = 15 ∨ t = 16 ∨ t = 17 ∨ t = 18 ∨
  t = 19 ∨ t = 20 ∨ t = 21 ∨ t = 22 ∨ t = 23 ∨ t = 24.
Proof. lia. Qed.
Ltac type_cases t :=
  let H := fresh in
  assert (0 <= t < 25) as H by (unfold COLDTRACE_END_ in *; lia);
  apply entry_type_cases in H;
  repeat match type of H with _ ∨ _ => destruct H as [H|H] end.

(** The fixed size of a struct is its header, its fields and its diff header. *)
Definition diff_header (t : Z) : Z := if with_stack_ t then sizeof_stack_diff else 0.

Lemma with_stack_base t : is_u8 t → with_stack_ (base_type t) = with_stack_ t.
Proof. intros. unfold with_stack_. fold (base_type t). fold (base_type (base_type t)). by rewrite base_type_idem. Qed.

Lemma fixed_size_fields type :
  is_u8 type → base_type type < COLDTRACE_END_ →
  coldtrace_entry_fixed_size type =
    Ret (8 + 8 * Z.of_nat (field_count (base_type type)) + diff_header type).
Proof.
  intros Ht Hv. unfold coldtrace_entry_fixed_size, is_type_valid, diff_header.
  rewrite <- with_stack_base by done. fold (base_type type).
  pose proof (base_type_range type Ht). generalize dependent (base_type type). intros t Hv Hr.
  destruct (Z.ltb_spec t COLDTRACE_END_); [|lia]. type_cases t; subst; done.
Qed.

(** An invalid type has fixed size 0, which the appender takes as "unknown". *)
Lemma fixed_size_invalid type :
  COLDTRACE_END_ <= base_type type → coldtrace_entry_fixed_size type = Ret 0.
Proof.
  intros H. unfold coldtrace_entry_fixed_size, is_type_valid. fold (base_type type).
  destruct (Z.ltb_spec (base_type type) COLDTRACE_END_); [lia|done].
Qed.

Definition diff_words (s : option (Z * list Z)) : Z :=
  match s with None => 0 | Some (_, diff) => len diff end.

Lemma len_encode_entry e :
  entry_wf e →
  len (encode_entry e) =
    8 + 8 * Z.of_nat (field_count (base_type (en_type e))) + diff_header (en_type e)
    + 8 * diff_words (en_stack e).
Proof.
  intros [_ _ _ Hc _ Hs]. unfold encode_entry, diff_header, sizeof_stack_diff.
  rewrite <- Hc. destruct (en_stack e) as [[p d]|]; simpl in *.
  - destruct Hs as (-> & _). llia.
  - rewrite Hs. llia.
Qed.

Lemma encode_entry_bytesP e : bytesP (encode_entry e).
Proof.
  unfold encode_entry, bytesP. rewrite !Forall_app. repeat split.
  - apply le_bytes_bytesP.
  - apply words64_bytesP.
  - destruct (en_stack e) as [[p d]|]; simpl; [|constructor].
    rewrite !Forall_app. repeat split; [apply le_bytes_bytesP..|apply words64_bytesP].
Qed.

(** Reading the [k]-th of a run of words. *)
Lemma load_words64 ws rest k w :
  ws !! k = Some w → is_u64 w →
  load 8 (words64 ws ++ rest) (8 * Z.of_nat k) = Some w.
Proof.
  intros Hk Hw. apply list_elem_of_split_length in Hk as (l1 & l2 & -> & ->).
  rewrite words64_app, words64_cons, <- !app_assoc.
  rewrite load_skip by llia. rewrite load_here by llia.
  by rewrite le_join_u64.
Qed.

(** ** The parsers on an encoded entry *)
Section Parse.
Context (pre post : list Z) (e : entry) (Hwf : entry_wf e).
Let mem := pre ++ encode_entry e ++ post.

Lemma word_at_header :
  word_at mem (len pre) 0 = Ret (coldtrace_make_entry_header (en_type e) (en_ptr e)).
Proof.
  unfold word_at, mem, encode_entry. rewrite <- !app_assoc.
  load_simpl. simpl. by rewrite le_join_u64 by (apply make_entry_header_u64, Hwf).
Qed.

Lemma word_at_field k w :
  en_fields e !! k = Some w → word_at mem (len pre) (Z.of_nat (S k)) = Ret w.
Proof.
  intros Hk. unfold word_at, mem, encode_entry. rewrite <- !app_assoc.
  rewrite load_skip by llia. rewrite load_skip by llia.
  replace (len pre + 8 * Z.of_nat (S k) - len pre
           - len (le_bytes 8 (coldtrace_make_entry_header (en_type e) (en_ptr e))))
    with (8 * Z.of_nat k) by llia.
  assert (is_u64 w) by (eapply Forall_lookup_1; [apply (wf_fields e Hwf)|done]).
  by rewrite (load_words64 _ _ k w).
Qed.

(** The same, with the position given as the index the C code uses. *)
Lemma word_at_nth k i :
  i = Z.of_nat (S k) → (k < length (en_fields e))%nat →
  word_at mem (len pre) i = Ret (default 0 (en_fields e !! k)).
Proof.
  intros -> Hk. apply lookup_lt_is_Some in Hk as [w Hw].
  rewrite Hw. by apply word_at_field.
Qed.

Lemma parse_type_encode :
  coldtrace_entry_parse_type mem (len pre) = Ret (base_type (en_type e)).
Proof.
  destruct Hwf as [Ht Hv _ _ _ _]. unfold coldtrace_entry_parse_type.
  rewrite word_at_header. simpl. rewrite header_type_bits by done.
  fold (base_type (en_type e)). pose proof (base_type_range _ Ht).
  rewrite u8_id by ulia. unfold is_type_valid. fold (base_type (base_type (en_type e))).
  rewrite base_type_idem by done. destruct (Z.ltb_spec (base_type (en_type e)) COLDTRACE_END_);
    [done|lia].
Qed.

Lemma parse_ptr_encode :
  coldtrace_entry_parse_ptr mem (len pre) = Ret (en_ptr e).
Proof.
  unfold coldtrace_entry_parse_ptr. rewrite word_at_header. simpl.
  rewrite header_ptr_bits by apply Hwf. by rewrite Z.mod_small by apply Hwf.
Qed.

Lemma stack_diff_bytes_encode p d off :
  en_stack e = Some (p, d) → off = 8 + 8 * len (en_fields e) →
  stack_diff_bytes mem (len pre) off = Ret (8 * len d).
Proof.
  intros Hs ->. pose proof (wf_stack e Hwf) as Hst. rewrite Hs in Hst. simpl in Hst.
  destruct Hst as (_ & Hp & Hu & _).
  unfold stack_diff_bytes, mem, encode_entry. rewrite Hs. simpl. rewrite <- !app_assoc.
  load_simpl. simpl. load_simpl. simpl. rewrite !le_join_u32 by ulia.
  replace (p + len d - p) with (len d) by lia. rewrite u32_id by ulia.
  rewrite u64_id by ulia. f_equal. lia.
Qed.

(** The size a reader advances by is the number of bytes written. *)
Lemma get_size_encode :
  coldtrace_entry_get_size mem (len pre) = Ret (len (encode_entry e)).
Proof.
  rewrite len_encode_entry by done. unfold coldtrace_entry_get_size.
  rewrite parse_type_encode. simpl.
  pose proof (base_type_range _ (wf_type e Hwf)) as Hr.
  pose proof (wf_valid e Hwf) as Hv. pose proof (wf_count e Hwf) as Hc.
  pose proof (wf_stack e Hwf) as Hs. unfold diff_header.
  assert (∀ p d, en_stack e = Some (p, d) → 0 <= len d < 2 ^ 32) as Hd.
  { intros p d E. rewrite E in Hs. simpl in Hs. destruct Hs as (_&?&?&_). ulia. }
  assert (∀ off, off = 8 + 8 * len (en_fields e) → with_stack_ (en_type e) = true →
      stack_diff_bytes mem (len pre) off = Ret (8 * diff_words (en_stack e))) as Hdiff.
  { intros off -> Hw. destruct (en_stack e) as [[p d]|] eqn:E; simpl in Hs; [|congruence].
    by apply (stack_diff_bytes_encode p). }
  destruct (en_stack e) as [[p d]|]; simpl in *.
  - destruct Hs as (Hw & _). specialize (Hd p d eq_refl). rewrite Hw.
    assert (Hdiff' := fun off E => Hdiff off E Hw). clear Hdiff. rename Hdiff' into Hdiff.
    rewrite <- with_stack_base in Hw by apply Hwf.
    rewrite Hc in Hdiff. clear Hc. generalize dependent (base_type (en_type e)). intros t.
    intros. type_cases t; subst; try discriminate Hw; simpl;
      (rewrite Hdiff; [|reflexivity..]); simpl; unfold_sizes;
      rewrite u64_id by ulia; f_equal; lia.
  - rewrite Hs. rewrite <- with_stack_base in Hs by apply Hwf. clear Hdiff Hc.
    generalize dependent (base_type (en_type e)). intros t.
    intros. type_cases t; subst; done || discriminate Hs.
Qed.

(** The position of each named field among the struct's 64-bit fields. *)
Definition alloc_index_of (t : Z) (fs : list Z) : Z :=
  if (t =? COLDTRACE_ALLOC) || (t =? COLDTRACE_MMAP) || (t =? COLDTRACE_MUNMAP)
  then default 0 (fs !! 1%nat)
  else if t =? COLDTRACE_FREE then default 0 (fs !! 0%nat)
  else 2 ^ 64 - 1.

Definition atomic_index_of (t : Z) (fs : list Z) : Z :=
  if (t =? COLDTRACE_ATOMIC_READ) || (t =? COLDTRACE_ATOMIC_WRITE)
  then default 0 (fs !! 1%nat)
  else if with_stack_ t || (t =? COLDTRACE_TEST_MARKER) then 2 ^ 64 - 1
  else default 0 (fs !! 0%nat).

Definition size_of (t : Z) (fs : list Z) : Z :=
  if (with_stack_ t && negb (t =? COLDTRACE_FREE))
     || (t =? COLDTRACE_ATOMIC_READ) || (t =? COLDTRACE_ATOMIC_WRITE)
  then default 0 (fs !! 0%nat)
  else 2 ^ 64 - 1.

Ltac field_parser :=
  rewrite parse_type_encode; simpl;
  pose proof (base_type_range _ (wf_type e Hwf)); pose proof (wf_valid e Hwf);
  pose proof (wf_count e Hwf) as Hc; revert Hc;
  generalize dependent (base_type (en_type e)); intros t ? ?;
  type_cases t; subst; cbv [field_count with_stack_]; eval_tests; intros Hc; try done;
  first [apply (word_at_nth 0); lia | apply (word_at_nth 1); lia].

Lemma parse_alloc_index_encode :
  coldtrace_entry_parse_alloc_index mem (len pre) =
  Ret (alloc_index_of (base_type (en_type e)) (en_fields e)).
Proof. unfold coldtrace_entry_parse_alloc_index, alloc_index_of. field_parser. Qed.

Lemma parse_atomic_index_encode :
  coldtrace_entry_parse_atomic_index mem (len pre) =
  Ret (atomic_index_of (base_type (en_type e)) (en_fields e)).
Proof. unfold coldtrace_entry_parse_atomic_index, atomic_index_of. field_parser. Qed.

Lemma parse_size_encode :
  coldtrace_entry_parse_size mem (len pre) =
  Ret (size_of (base_type (en_type e)) (en_fields e)).
Proof. unfold coldtrace_entry_parse_size, size_of. field_parser. Qed.
End Parse.

(** ** Theorems *)

(** The header word keeps the type byte and the low 48 bits of the pointer:
    unpacking the word the way the parsers do returns both. *)
Theorem header_roundtrip type ptr :
  is_u8 type →
  let h := coldtrace_make_entry_header type ptr in
  is_u64 h ∧ Z.land h TYPE_MASK = type ∧
  Z.shiftr (Z.land h PTR_MASK) PTR_SHIFT_VALUE = ptr mod 2 ^ 48.
Proof.
  intros Ht h. split; [by apply make_entry_header_u64|].
  split; [by apply header_type_bits|by apply header_ptr_bits].
Qed.

Lemma header_roundtrip_witness :
  Z.land (coldtrace_make_entry_header 0x82 0xffff7f0012345678) TYPE_MASK = 0x82.
Proof.
  destruct (header_roundtrip 0x82 0xffff7f0012345678) as (_ & H & _); [ulia|exact H].
Defined.

(** C24: every parser reads back what was encoded.  For a well-formed entry of any
    of the 25 types at any place of a memory object, the parsers return its type,
    pointer, size, allocation index and atomic index (or the documented invalid
    value when the type has no such field), and [coldtrace_entry_get_size] returns
    exactly the number of bytes the entry occupies, stack frames included. *)
Theorem entry_roundtrip pre post e :
  entry_wf e →
  let mem := pre ++ encode_entry e ++ post in
  let t := base_type (en_type e) in
  coldtrace_entry_parse_type mem (len pre) = Ret t ∧
  coldtrace_entry_parse_ptr mem (len pre) = Ret (en_ptr e) ∧
  coldtrace_entry_parse_size mem (len pre) = Ret (size_of t (en_fields e)) ∧
  coldtrace_entry_parse_alloc_index mem (len pre) = Ret (alloc_index_of t (en_fields e)) ∧
  coldtrace_entry_parse_atomic_index mem (len pre) = Ret (atomic_index_of t (en_fields e)) ∧
  coldtrace_entry_get_size mem (len pre) = Ret (len (encode_entry e)).
Proof.
  intros Hwf mem t. split_and!.
  - by apply parse_type_encode.
  - by apply parse_ptr_encode.
  - by apply parse_size_encode.
  - by apply parse_alloc_index_encode.
  - by apply parse_atomic_index_encode.
  - by apply get_size_encode.
Qed.

Lemma entry_roundtrip_witness :
  coldtrace_entry_get_size
    ([1; 2] ++ encode_entry (Entry 0x82 64 [8; 7] (Some (1, [10; 11]))) ++ [3]) 2 = Ret 48.
Proof.
  assert (entry_wf (Entry 0x82 64 [8; 7] (Some (1, [10; 11])))) as Hwf.
  { split; simpl; [ulia|by vm_compute|lia|reflexivity| |split; [reflexivity|split; [lia|split; [ulia|]]]];
      repeat apply Forall_cons_2; try apply Forall_nil_2; ulia. }
  destruct (entry_roundtrip [1; 2] [3] _ Hwf) as (_ & _ & _ & _ & _ & H). exact H.
Defined.

(** The table lookups on one byte, as a test. *)
Definition tables_ok (t : Z) : bool :=
  match coldtrace_entry_type_str t, coldtrace_entry_fixed_size t with
  | Ret (Some s), Ret n =>
      Bool.eqb (String.eqb s "INVALID_EVENT") (COLDTRACE_END_ <=? base_type t)
      && Bool.eqb (n =? 0) (COLDTRACE_END_ <=? base_type t)
      && (n mod 8 =? 0) && (n <=? 40)
  | _, _ => false
  end.

(** C37: the tables indexed by entry type are total on [uint8_t]: for every byte
    the lookups stay inside their arrays and never yield NULL; a type outside the
    enumeration is named INVALID_EVENT and has size 0, every other type has a name
    of its own and a positive size that is a multiple of 8. *)
Theorem type_tables_total t :
  is_u8 t →
  ∃ s n, coldtrace_entry_type_str t = Ret (Some s) ∧ coldtrace_entry_fixed_size t = Ret n ∧
    (s = "INVALID_EVENT"%string ↔ COLDTRACE_END_ <= base_type t) ∧
    (n = 0 ↔ COLDTRACE_END_ <= base_type t) ∧ n mod 8 = 0 ∧ n <= 40.
Proof.
  intros Ht. assert (tables_ok t = true) as H
    by (revert t Ht; apply u8_forallb; vm_compute; reflexivity).
  unfold tables_ok in H.
  destruct (coldtrace_entry_type_str t) as [[s|]|u|]; try discriminate H.
  destruct (coldtrace_entry_fixed_size t) as [n|u|]; try discriminate H.
  rewrite !andb_true_iff in H. destruct H as [[[H1 H2] H3] H4].
  apply eqb_prop in H1, H2. apply Z.eqb_eq in H3. apply Z.leb_le in H4.
  exists s, n. do 2 (split; [done|]). rewrite <- (Z.leb_le COLDTRACE_END_).
  split; [by rewrite <- H1, String.eqb_eq|]. split; [by rewrite <- H2, Z.eqb_eq|]. done.
Qed.

Lemma type_tables_total_witness :
  ∃ s n, coldtrace_entry_type_str 0x99 = Ret (Some s) ∧ coldtrace_entry_fixed_size 0x99 = Ret n.
Proof.
  destruct (type_tables_total 0x99) as (s & n & H1 & H2 & _); [by vm_compute|].
  exists s, n. exact (conj H1 H2).
Defined.
