(* ===== verification/Libc.v ===== *)
(** * The C library and the operating system as the tracer uses them

    Strings ([sprintf] with [%d], [strtoul], [strrchr]), and the world outside
    the process: a file system and the outcome of every call that can fail.

    Each fallible call takes its outcome from the head of a list: an explicit
    failure with its [errno], a short count for [write], or success; an empty
    list means success.  A theorem that quantifies over the list covers every
    finite sequence of failures. *)

From stdpp Require Import base list numbers strings pretty gmap.
From Stdlib Require Import ZArith Lia Ascii.
From S2P Require Import Prelude.

(** ** Strings *)

(** [strlen] *)
Definition strlen (s : string) : Z := Z.of_nat (String.length s).

Fixpoint has_char (c : ascii) (s : string) : bool :=
  match s with
  | EmptyString => false
  | String d s => Ascii.eqb c d || has_char c s
  end.

(** [strrchr]: the suffix from the last occurrence of [c] on. *)
Fixpoint strrchr (s : string) (c : ascii) : option string :=
  match s with
  | EmptyString => None
  | String d s' =>
      match strrchr s' c with
      | Some r => Some r
      | None => if Ascii.eqb c d then Some s else None
      end
  end.

(** [strchr]: the suffix from the first occurrence of [c] on. *)
Fixpoint strchr (s : string) (c : ascii) : option string :=
  match s with
  | EmptyString => None
  | String d s' => if Ascii.eqb c d then Some s else strchr s' c
  end.

(** [strcmp(a, b) == 0] *)
Definition streq (a b : string) : bool := String.eqb a b.

(** The [printf] family for formats whose only conversions are [%d] and [%%].
    An argument is read as an [int], the low 32 bits of what was passed.  A
    conversion without an argument, and any other conversion, is undefined. *)
Fixpoint c_format (fmt : string) (args : list Z) : option string :=
  match fmt with
  | EmptyString => Some ""%string
  | String "%" (String "d" rest) =>
      match args with
      | [] => None
      | a :: args => (fun s => pretty (i32 a) +:+ s) <$> c_format rest args
      end
  | String "%" (String "%" rest) => String "%" <$> c_format rest args
  | String "%" _ => None
  | String c rest => String c <$> c_format rest args
  end.

(** [sprintf] into a [char] array of [cap] bytes: the text and its NUL must fit. *)
Definition sprintf (cap : Z) (fmt : string) (args : list Z) : outcome string :=
  match c_format fmt args with
  | None => Undef BadFormat
  | Some s => if strlen s + 1 <=? cap then Ret s else Undef OutOfBounds
  end.

(** [strcpy] into a [char] array of [cap] bytes, from index [at_] on: what the
    array holds afterwards, as a C string that starts at index 0. *)
Definition strcpy_at (cap : Z) (old : string) (at_ : Z) (src : string) : outcome string :=
  if at_ + strlen src + 1 <=? cap
  then Ret (String.substring 0 (Z.to_nat at_) old +:+ src)
  else Undef OutOfBounds.

(** [isspace] in the C locale *)
Definition isspace (c : ascii) : bool :=
  let n := N_of_ascii c in ((n =? 32) || ((9 <=? n) && (n <=? 13)))%N.

Definition digit_of (c : ascii) : option Z :=
  let n := Z.of_N (N_of_ascii c) in
  if (48 <=? n) && (n <=? 57) then Some (n - 48) else None.

Fixpoint scan_digits (acc : Z) (s : string) : Z :=
  match s with
  | EmptyString => acc
  | String c s =>
      match digit_of c with
      | Some d => scan_digits (10 * acc + d) s
      | None => acc
      end
  end.

Fixpoint skip_spaces (s : string) : string :=
  match s with
  | String c s' => if isspace c then skip_spaces s' else s
  | EmptyString => s
  end.

(** [strtoul(s, NULL, 10)] and [strtoull] with a 64-bit [unsigned long]: white
    space, an optional sign, digits; a value out of range gives the maximum. *)
Definition strtoul (s : string) : Z :=
  let s := skip_spaces s in
  let '(neg, s) :=
    match s with
    | String "-" s' => (true, s')
    | String "+" s' => (false, s')
    | _ => (false, s)
    end in
  let v := scan_digits 0 s in
  if 2 ^ 64 <=? v then 2 ^ 64 - 1 else if neg : bool then u64 (- v) else v.

(** ** The world *)

Definition EINTR : Z := 4.
Definition EEXIST : Z := 17.
Definition ENOENT : Z := 2.
Definition ENOTDIR : Z := 20.
Definition EISDIR : Z := 21.

Inductive inode :=
| Reg (data : list Z)
| Dir.

Inductive fault :=
| Succeed
| Fail (errno : Z)
| Short (n : Z).

(** One call of the hook [coldtrace_writer_close(page, size, md)]. *)
Record close_call := CloseCall {
  cl_page : list Z;
  cl_size : Z;
  cl_md : option Z;
}.

(** The world: the files, the outcomes of the calls to come, and the calls of
    the close hook so far (the hook is a weak symbol that does nothing unless a
    client links its own; recording its calls is how the model observes them). *)
Record world := World {
  w_fs : gmap string inode;
  w_faults : list fault;
  w_closed : list close_call;
}.

Definition with_fs (w : world) (fs : gmap string inode) : world :=
  World fs (w_faults w) (w_closed w).

Definition next_fault (w : world) : fault * world :=
  match w_faults w with
  | [] => (Succeed, w)
  | f :: fs => (f, World (w_fs w) fs (w_closed w))
  end.

(** A call that either works or fails: memory allocation, [mmap], [mkdir]... *)
Definition attempt (w : world) : bool * world :=
  match next_fault w with
  | (Fail _, w') => (false, w')
  | (_, w') => (true, w')
  end.

Inductive sysres (A : Type) :=
| SOk (a : A)
| SErr (errno : Z).
Arguments SOk {A} a.
Arguments SErr {A} errno.

(** [open(name, O_WRONLY | O_CREAT | O_EXCL)] *)
Definition open_excl (w : world) (name : string) : sysres unit * world :=
  match next_fault w with
  | (Fail e, w) => (SErr e, w)
  | (_, w) =>
      match w_fs w !! name with
      | Some _ => (SErr EEXIST, w)
      | None => (SOk tt, with_fs w (<[name := Reg []]> (w_fs w)))
      end
  end.

(** [open(name, O_WRONLY | O_CREAT | O_TRUNC)] *)
Definition open_trunc (w : world) (name : string) : sysres unit * world :=
  match next_fault w with
  | (Fail e, w) => (SErr e, w)
  | (_, w) =>
      match w_fs w !! name with
      | Some Dir => (SErr EISDIR, w)
      | _ => (SOk tt, with_fs w (<[name := Reg []]> (w_fs w)))
      end
  end.

(** [write(fd, p, n)] to a file opened by [open_trunc] and written from its
    start: the bytes are appended; a short write appends only a prefix. *)
Definition sys_write (w : world) (name : string) (bs : list Z) : sysres Z * world :=
  let append w n :=
    let fs := match w_fs w !! name with
              | Some (Reg d) => <[name := Reg (d ++ take n bs)]> (w_fs w)
              | _ => w_fs w
              end in
    with_fs w fs in
  match next_fault w with
  | (Fail e, w) => (SErr e, w)
  | (Short n, w) =>
      let n := Z.to_nat (Z.min (Z.max 0 n) (len bs)) in (SOk (Z.of_nat n), append w n)
  | (Succeed, w) => (SOk (len bs), append w (length bs))
  end.

Definition sys_unlink (w : world) (name : string) : world :=
  with_fs w (delete name (w_fs w)).

(** ** Lemmas on strings *)
#[global] Arguments String.append : simpl nomatch.

Lemma strlen_app a b : strlen (a +:+ b) = strlen a + strlen b.
Proof.
  unfold strlen. rewrite <- Nat2Z.inj_add. f_equal.
  induction a; simpl; [done|]. by f_equal.
Qed.

Lemma has_char_app c a b : has_char c (a +:+ b) = has_char c a || has_char c b.
Proof. induction a; simpl; [done|]. by rewrite IHa, orb_assoc. Qed.

Lemma string_app_assoc a b c : (a +:+ b) +:+ c = a +:+ (b +:+ c).
Proof. induction a; simpl; [done|]. by rewrite IHa. Qed.

(** Text without a [%] is copied. *)
Lemma c_format_app a b args :
  has_char "%" a = false → c_format (a +:+ b) args = (fun s => a +:+ s) <$> c_format b args.
Proof.
  induction a as [|c a IH]; intros H; [simpl; by destruct (c_format b args)|].
  simpl in H. change (String c a +:+ b) with (String c (a +:+ b)). apply orb_false_iff in H as [Hc Ha]. specialize (IH Ha).
  assert (c_format (String c (a +:+ b)) args = String c <$> c_format (a +:+ b) args) as ->.
  { destruct c as [[] [] [] [] [] [] [] []]; try done. }
  rewrite IH. by destruct (c_format b args).
Qed.

(** Where a separator that the first parts lack occurs is where they end. *)
Lemma split_at_char c a1 a2 b1 b2 :
  has_char c a1 = false → has_char c a2 = false →
  a1 +:+ String c b1 = a2 +:+ String c b2 → a1 = a2 ∧ b1 = b2.
Proof.
  revert a2. induction a1 as [|d a1 IH]; intros [|d2 a2]; simpl; intros H1 H2 E.
  - by injection E as ->.
  - injection E as -> _. by rewrite Ascii.eqb_refl in H2.
  - injection E as -> _. by rewrite Ascii.eqb_refl in H1.
  - apply orb_false_iff in H1 as [_ H1]. apply orb_false_iff in H2 as [_ H2].
    injection E as -> E. destruct (IH a2 H1 H2 E) as [-> ->]. done.
Qed.

(** Decimal numerals: only digits and a sign, at most 11 characters for an
    [int], and different for different numbers. *)
Definition not_numeral (c : ascii) : Prop :=
  ¬ (48 <= N_of_ascii c <= 57)%N ∧ c ≠ "-"%char.

Lemma pretty_N_char_digit x : (48 <= N_of_ascii (pretty_N_char x) <= 57)%N.
Proof. unfold pretty_N_char. repeat case_match; simpl; lia. Qed.

Lemma pretty_N_go_no_char c x s :
  not_numeral c → has_char c s = false → has_char c (pretty_N_go x s) = false.
Proof.
  intros [Hc _]. revert s. induction (N.lt_wf_0 x) as [x _ IH]; intros s Hs.
  destruct (decide (x = 0%N)) as [->|]; [by rewrite pretty_N_go_0|].
  rewrite pretty_N_go_step by lia. apply IH; [apply N.div_lt; lia|].
  simpl. rewrite Hs, orb_false_r. apply Ascii.eqb_neq. intros ->.
  apply Hc, pretty_N_char_digit.
Qed.

Lemma pretty_Z_no_char c (z : Z) : not_numeral c → has_char c (pretty z) = false.
Proof.
  intros Hc. pose proof Hc as [Hd Hm]. assert (Ascii.eqb c "-" = false) by by apply Ascii.eqb_neq.
  destruct z as [|p|p]; unfold pretty, pretty_Z.
  - simpl. rewrite orb_false_r. apply Ascii.eqb_neq. intros ->. apply Hd. simpl. lia.
  - unfold pretty, pretty_positive, pretty, pretty_N. case_decide; [done|].
    by apply pretty_N_go_no_char.
  - rewrite has_char_app. simpl. rewrite H. simpl.
    unfold pretty, pretty_positive, pretty, pretty_N. case_decide; [done|].
    by apply pretty_N_go_no_char.
Qed.

Lemma pretty_N_go_length k x s :
  (x < 10 ^ N.of_nat k)%N →
  (String.length (pretty_N_go x s) ≤ k + String.length s)%nat.
Proof.
  revert x s. induction k as [|k IH]; intros x s Hx.
  { replace x with 0%N by (simpl in Hx; lia). by rewrite pretty_N_go_0. }
  destruct (decide (x = 0%N)) as [->|]; [rewrite pretty_N_go_0; lia|].
  rewrite pretty_N_go_step by lia. etrans; [apply IH|simpl; lia].
  rewrite Nat2N.inj_succ, N.pow_succ_r' in Hx. apply N.Div0.div_lt_upper_bound; lia.
Qed.

Lemma pretty_int_length (z : Z) : - 2 ^ 31 <= z < 2 ^ 31 → 1 <= strlen (pretty z) <= 11.
Proof.
  intros Hz.
  assert (∀ p : positive, Z.pos p <= 2 ^ 31 → 1 <= strlen (pretty p) <= 10) as Hp.
  { intros p Hb. unfold pretty, pretty_positive, pretty, pretty_N.
    rewrite decide_False by done. split.
    - destruct (pretty_N_go (N.pos p) "") eqn:E; [|unfold strlen; simpl; lia].
      exfalso. revert E. rewrite pretty_N_go_step by lia.
      assert (∀ x s, s ≠ ""%string → pretty_N_go x s ≠ ""%string) as Hne.
      { intros x. induction (N.lt_wf_0 x) as [x _ IH]; intros s Hs.
        destruct (decide (x = 0%N)) as [->|]; [by rewrite pretty_N_go_0|].
        rewrite pretty_N_go_step by lia. apply IH; [apply N.div_lt; lia|done]. }
      by apply Hne.
    - pose proof (pretty_N_go_length 10 (N.pos p) "") as H. unfold strlen. simpl in H.
      assert (N.pos p < 10000000000)%N by lia. specialize (H H0). lia. }
  destruct z as [|p|p]; unfold pretty, pretty_Z.
  - unfold strlen. simpl. lia.
  - specialize (Hp p ltac:(lia)). lia.
  - rewrite strlen_app. specialize (Hp p ltac:(lia)). change (strlen "-") with 1. lia.
Qed.

Lemma sprintf_Ret cap fmt args s :
  c_format fmt args = Some s → strlen s + 1 <= cap → sprintf cap fmt args = Ret s.
Proof. unfold sprintf. intros -> H. apply Z.leb_le in H. by rewrite H. Qed.
