(* ===== verification/Utils.v ===== *)
(** * Directory helpers (src/utils.c)

    [has_ext], [ensure_dir_empty], [ensure_dir_exists] over the file system of
    the world.  Paths are in the form the caller gives them: a directory and its
    entries are related by ["dir/name"]. *)

From stdpp Require Import base list numbers strings gmap.
From Stdlib Require Import ZArith Lia Ascii.
From S2P Require Import Prelude Libc.

(** ** Calls on the file system *)

(** [stat(path)]: what kind of file it is, or an error. *)
Definition sys_stat (w : world) (path : string) : sysres inode * world :=
  match next_fault w with
  | (Fail e, w) => (SErr e, w)
  | (_, w) => (match w_fs w !! path with Some i => SOk i | None => SErr ENOENT end, w)
  end.

Definition sys_mkdir (w : world) (path : string) : sysres unit * world :=
  match next_fault w with
  | (Fail e, w) => (SErr e, w)
  | (_, w) =>
      match w_fs w !! path with
      | Some _ => (SErr EEXIST, w)
      | None => (SOk tt, with_fs w (<[path := Dir]> (w_fs w)))
      end
  end.

(** [remove(path)] of a regular file *)
Definition sys_remove (w : world) (path : string) : sysres unit * world :=
  match next_fault w with
  | (Fail e, w) => (SErr e, w)
  | (_, w) =>
      match w_fs w !! path with
      | None => (SErr ENOENT, w)
      | Some _ => (SOk tt, with_fs w (delete path (w_fs w)))
      end
  end.

(** [readdir] enumerates "." and ".." and the names of the direct children. *)
Definition child_name (dir key : string) : option string :=
  if String.prefix (dir +:+ "/") key then
    let n := String.substring (S (String.length dir)) (String.length key) key in
    if has_char "/" n then None else Some n
  else None.

Definition dir_names (fs : gmap string inode) (dir : string) : list string :=
  "."%string :: ".."%string :: omap (fun p => child_name dir p.1) (map_to_list fs).

(** [opendir(path)]: the names it will enumerate, or an error. *)
Definition sys_opendir (w : world) (path : string) : sysres (list string) * world :=
  match next_fault w with
  | (Fail e, w) => (SErr e, w)
  | (_, w) =>
      match w_fs w !! path with
      | Some Dir => (SOk (dir_names (w_fs w) path), w)
      | Some (Reg _) => (SErr ENOTDIR, w)
      | None => (SErr ENOENT, w)
      end
  end.

(** ** The functions of utils.c *)

Definition MAX_PATH_LENGTH : Z := 4096.

Definition has_ext (fname ext : string) : bool :=
  match strrchr fname "." with
  | Some base => streq base ext
  | None => false
  end.

(** [snprintf(filepath, sizeof(filepath), "%s/%s", path, name)] truncates. *)
Definition join_path (path name : string) : string :=
  String.substring 0 (Z.to_nat (MAX_PATH_LENGTH - 1)) (path +:+ "/" +:+ name).

(** The body of the [readdir] loop, over the names still to come. *)
Fixpoint empty_loop (w : world) (path : string) (names : list string) : Z * world :=
  match names with
  | [] => (0, w)
  | name :: names =>
      if streq name "." || streq name ".." then empty_loop w path names
      else if negb (has_ext name ".bin") then empty_loop w path names
      else
        let filepath := join_path path name in
        match sys_stat w filepath with
        | (SOk (Reg _), w) =>
            match sys_remove w filepath with
            | (SErr _, w) => (-1, w)
            | (SOk _, w) => empty_loop w path names
            end
        | (_, w) => empty_loop w path names
        end
  end.

Definition ensure_dir_empty (w : world) (path : string) : Z * world :=
  match sys_opendir w path with
  | (SErr _, w) => (-1, w)
  | (SOk names, w) => empty_loop w path names
  end.

Definition ensure_dir_exists (w : world) (path : string) : Z * world :=
  match sys_stat w path with
  | (SOk Dir, w) => (0, w)
  | (SOk (Reg _), w) => (-1, w)
  | (SErr _, w) =>
      match sys_mkdir w path with
      | (SErr _, w) => (-1, w)
      | (SOk _, w) => (0, w)
      end
  end.

(** ** Properties *)

Lemma strrchr_none s c : strrchr s c = None ↔ has_char c s = false.
Proof.
  induction s as [|d s IH]; simpl; [done|].
  destruct (strrchr s c) eqn:E.
  - split; [done|]. intros H. apply orb_false_iff in H as [_ H]. by apply IH in H.
  - destruct (Ascii.eqb c d); simpl; [done|]. by rewrite <- IH.
Qed.

Lemma strrchr_some s c r :
  strrchr s c = Some r ↔ ∃ b e, s = b +:+ String c e ∧ r = String c e ∧ has_char c e = false.
Proof.
  revert r. induction s as [|d s IH]; intros r; simpl.
  { split; [done|]. intros (b & e & E & _). by destruct b. }
  destruct (strrchr s c) as [r'|] eqn:E.
  - split.
    + intros [= ->]. destruct (proj1 (IH r) eq_refl) as (b & e & -> & -> & He).
      by exists (String d b), e.
    + intros (b & e & Hs & -> & He). destruct b as [|d' b]; simpl in Hs.
      * injection Hs as -> ->. apply strrchr_none in He. congruence.
      * injection Hs as -> ->. f_equal.
        enough (Some r' = Some (String c e)) by congruence.
        apply IH. by exists b, e.
  - destruct (Ascii.eqb c d) eqn:Ec.
    + apply Ascii.eqb_eq in Ec as <-. split.
      * intros [= <-]. exists ""%string, s. repeat split. by apply strrchr_none.
      * intros (b & e & Hs & -> & He). destruct b as [|d' b]; simpl in Hs; [congruence|].
        injection Hs as -> ->. apply strrchr_none in E. rewrite has_char_app in E. simpl in E.
        rewrite Ascii.eqb_refl in E. by destruct (has_char d' b).
    + split; [done|]. intros (b & e & Hs & _ & _). destruct b as [|d' b]; simpl in Hs.
      * injection Hs as -> _. by rewrite Ascii.eqb_refl in Ec.
      * injection Hs as -> ->. apply strrchr_none in E. rewrite has_char_app in E. simpl in E.
        rewrite Ascii.eqb_refl in E. by destruct (has_char c b).
Qed.

(** The extension test is "ends in [ext]" for an extension that is a dot
    followed by dot-free text. *)
Lemma has_ext_iff fname e :
  has_char "." e = false →
  has_ext fname (String "." e) = true ↔ ∃ b, fname = b +:+ String "." e.
Proof.
  intros He. unfold has_ext, streq. destruct (strrchr fname ".") as [r|] eqn:E.
  - rewrite String.eqb_eq. split.
    + intros ->. apply strrchr_some in E as (b & e' & -> & [= <-] & _). by exists b.
    + intros (b & ->). assert (strrchr (b +:+ String "." e) "." = Some (String "." e)) as H.
      { apply strrchr_some. by exists b, e. } congruence.
  - split; [done|]. intros (b & ->). apply strrchr_none in E.
    rewrite has_char_app in E. simpl in E. by destruct (has_char "." b).
Qed.

(** A path that fits the buffer is joined without truncation. *)
Lemma substring_all n s : (String.length s ≤ n)%nat → String.substring 0 n s = s.
Proof.
  revert n. induction s as [|c s IH]; intros [|n]; simpl; intros H; try done; try lia.
  f_equal. apply IH. lia.
Qed.

Lemma join_path_short path name :
  strlen path + 1 + strlen name < MAX_PATH_LENGTH → join_path path name = path +:+ "/" +:+ name.
Proof.
  intros H. unfold join_path. apply substring_all.
  pose proof (strlen_app path ("/" +:+ name)) as E. rewrite (strlen_app "/" name) in E.
  change (strlen "/") with 1 in E. unfold strlen, MAX_PATH_LENGTH in *. lia.
Qed.

(** The names [readdir] yields are those of the direct children. *)
Lemma prefix_app p s : String.prefix p (p +:+ s) = true.
Proof. induction p; simpl; [by destruct s|]. by destruct (ascii_dec a a). Qed.

Lemma substring_app a b n :
  (String.length b ≤ n)%nat → String.substring (String.length a) n (a +:+ b) = b.
Proof. induction a; simpl; intros H; [by apply substring_all|auto]. Qed.

Lemma child_name_join dir n :
  has_char "/" n = false → child_name dir (dir +:+ "/" +:+ n) = Some n.
Proof.
  intros H. unfold child_name. rewrite <- string_app_assoc, prefix_app.
  pose proof (substring_app (dir +:+ "/") n
    (String.length ((dir +:+ "/") +:+ n))) as E.
  pose proof (strlen_app (dir +:+ "/") n) as L1. pose proof (strlen_app dir "/") as L2.
  unfold strlen in L1, L2. change (Z.of_nat (String.length "/")) with 1 in L2.
  replace (String.length (dir +:+ "/")) with (S (String.length dir)) in E by lia.
  rewrite E by lia. by rewrite H.
Qed.

Lemma prefix_inv p s : String.prefix p s = true → ∃ r, s = p +:+ r.
Proof.
  revert s. induction p as [|c p IH]; intros s H; [by exists s|]. destruct s as [|d s]; [done|].
  simpl in H. destruct (ascii_dec c d) as [->|]; [|done]. destruct (IH s H) as [r ->]. by exists r.
Qed.

Lemma child_name_inv dir key n :
  child_name dir key = Some n → key = dir +:+ "/" +:+ n ∧ has_char "/" n = false.
Proof.
  intros H. unfold child_name in H.
  destruct (String.prefix (dir +:+ "/") key) eqn:E; [|done]. apply prefix_inv in E as [r ->].
  assert (String.substring (S (String.length dir)) (String.length ((dir +:+ "/") +:+ r)) ((dir +:+ "/") +:+ r) = r) as Er.
  { pose proof (strlen_app (dir +:+ "/") r) as L1. pose proof (strlen_app dir "/") as L2.
    unfold strlen in L1, L2. change (Z.of_nat (String.length "/")) with 1 in L2.
    replace (S (String.length dir)) with (String.length (dir +:+ "/")) by lia. apply substring_app. lia. }
  rewrite Er in H. destruct (has_char "/" r) eqn:Hs; [done|]. injection H as <-.
  by rewrite string_app_assoc.
Qed.

Lemma dir_names_child fs dir n i :
  has_char "/" n = false → fs !! (dir +:+ "/" +:+ n) = Some i → n ∈ dir_names fs dir.
Proof.
  intros Hn Hi. unfold dir_names. do 2 right. apply list_elem_of_omap.
  exists (dir +:+ "/" +:+ n, i). split; [by apply elem_of_map_to_list|].
  by apply child_name_join.
Qed.

(** How the calls act on the files. *)
Lemma next_fault_fs w f w' : next_fault w = (f, w') → w_fs w' = w_fs w.
Proof. unfold next_fault. destruct (w_faults w); intros; simplify_eq; done. Qed.

Lemma next_fault_nil w f w' : next_fault w = (f, w') → w_faults w = [] → f = Succeed ∧ w' = w.
Proof. unfold next_fault. intros H E. rewrite E in H. by simplify_eq. Qed.

Lemma sys_stat_fs w p r w' : sys_stat w p = (r, w') → w_fs w' = w_fs w.
Proof.
  unfold sys_stat. destruct (next_fault w) as [f w1] eqn:E. apply next_fault_fs in E.
  destruct f; intros; simplify_eq; done.
Qed.

Lemma sys_stat_ok w p i w' : sys_stat w p = (SOk i, w') → w_fs w !! p = Some i.
Proof.
  unfold sys_stat. destruct (next_fault w) as [f w1] eqn:E. apply next_fault_fs in E.
  destruct f; intros; simplify_eq; repeat case_match; congruence.
Qed.

Lemma sys_remove_fs w p r w' :
  sys_remove w p = (r, w') →
  match r with SOk _ => w_fs w' = delete p (w_fs w) | SErr _ => w_fs w' = w_fs w end.
Proof.
  unfold sys_remove. destruct (next_fault w) as [f w1] eqn:E. apply next_fault_fs in E.
  destruct f; intros; repeat case_match; simplify_eq; simpl; congruence.
Qed.

(** A file the clean-up may delete when it goes over [names]. *)
Definition deletable (names : list string) (fs : gmap string inode) (path k : string) : Prop :=
  ∃ name d, name ∈ names ∧ k = join_path path name ∧ has_ext name ".bin" = true ∧ fs !! k = Some (Reg d).

Lemma deletable_further name names fs path k : deletable names fs path k → deletable (name :: names) fs path k.
Proof. intros (n & d & Hn & H). exists n, d. split; [by apply list_elem_of_further|done]. Qed.

Lemma empty_loop_safe path names : ∀ w r w',
  empty_loop w path names = (r, w') →
  ∀ k, w_fs w' !! k = w_fs w !! k ∨ (w_fs w' !! k = None ∧ deletable names (w_fs w) path k).
Proof.
  induction names as [|name names IH]; intros w r w' H k; cbn [empty_loop] in H.
  { simplify_eq. by left. }
  assert (∀ w1, w_fs w1 = w_fs w → empty_loop w1 path names = (r, w') →
    w_fs w' !! k = w_fs w !! k ∨ w_fs w' !! k = None ∧ deletable (name :: names) (w_fs w) path k) as Hskip.
  { intros w1 E1 H1. destruct (IH _ _ _ H1 k) as [E|[E Hd]]; rewrite E1 in *; [by left|right].
    split; [done|]. by apply deletable_further. }
  destruct (streq name "." || streq name ".."); [by apply (Hskip w)|].
  destruct (has_ext name ".bin") eqn:Hx; simpl in H; [|by apply (Hskip w)].
  destruct (sys_stat w (join_path path name)) as [[[d|]|] w1] eqn:Es;
    pose proof (sys_stat_fs _ _ _ _ Es) as Hfs; [|by apply (Hskip w1)..].
  destruct (sys_remove w1 (join_path path name)) as [[u|] w2] eqn:Er;
    pose proof (sys_remove_fs _ _ _ _ Er) as Hr; simpl in Hr; rewrite Hfs in Hr;
    [|simplify_eq; left; congruence].
  apply sys_stat_ok in Es.
  destruct (decide (k = join_path path name)) as [->|Hne].
  - right. split; [|exists name, d; split; [apply list_elem_of_here|done]].
    destruct (IH _ _ _ H (join_path path name)) as [E|[E _]]; [|done].
    by rewrite E, Hr, lookup_delete_eq.
  - destruct (IH _ _ _ H k) as [E|[E (n & d' & Hn & -> & ? & Hd)]]; rewrite Hr in *.
    + left. by rewrite E, lookup_delete_ne.
    + right. split; [done|]. rewrite lookup_delete_ne in Hd by done.
      apply deletable_further. by exists n, d'.
Qed.

Lemma empty_loop_complete path names : ∀ w r w',
  empty_loop w path names = (r, w') → w_faults w = [] →
  r = 0 ∧ w_faults w' = [] ∧
  ∀ name, name ∈ names → has_ext name ".bin" = true →
    ∀ d, w_fs w' !! join_path path name ≠ Some (Reg d).
Proof.
  induction names as [|name names IH]; intros w r w' H Hf; cbn [empty_loop] in H.
  { simplify_eq. split_and!; [done..|]. intros ? []%not_elem_of_nil. }
  assert (∀ r w', empty_loop w path names = (r, w') →
    (has_ext name ".bin" = true → ∀ d, w_fs w !! join_path path name ≠ Some (Reg d)) →
    r = 0 ∧ w_faults w' = [] ∧ ∀ n, n ∈ name :: names → has_ext n ".bin" = true →
    ∀ d, w_fs w' !! join_path path n ≠ Some (Reg d)) as Hskip.
  { intros r0 w0 H0 Hn. destruct (IH _ _ _ H0 Hf) as (-> & ? & Hall). split_and!; [done..|].
    intros n [->|Hin]%elem_of_cons Hx d; [|by apply Hall].
    destruct (empty_loop_safe _ _ _ _ _ H0 (join_path path name)) as [E|[E _]];
      rewrite E; [by apply Hn|done]. }
  destruct (streq name "." || streq name "..") eqn:Edot.
  { apply Hskip; [done|]. intros Hx. exfalso.
    apply orb_true_iff in Edot as [E|E]; apply String.eqb_eq in E as ->; done. }
  destruct (has_ext name ".bin") eqn:Hx; simpl in H; [|by apply Hskip].
  unfold sys_stat, sys_remove, next_fault in H. rewrite Hf in H. simpl in H. rewrite ?Hf in H.
  destruct (w_fs w !! join_path path name) as [[d|]|] eqn:El; simpl in H.
  - destruct (IH _ _ _ H ltac:(done)) as (-> & ? & Hall). split_and!; [done..|].
    intros n [->|Hin]%elem_of_cons Hx' d'; [|by apply Hall].
    destruct (empty_loop_safe _ _ _ _ _ H (join_path path name)) as [E|[E _]];
      rewrite E; [|done]. simpl. by rewrite lookup_delete_eq.
  - apply Hskip; [done|]. intros _ d'. congruence.
  - apply Hskip; [done|]. intros _ d'. congruence.
Qed.

(** The files that belong to old traces: the regular files with the extension
    [.bin] that are direct children of the directory. *)
Definition old_trace (fs : gmap string inode) (path k : string) : bool :=
  match child_name path k, fs !! k with
  | Some name, Some (Reg _) => has_ext name ".bin"
  | _, _ => false
  end.

(** Paths are shorter than PATH_MAX. *)
Definition paths_short (fs : gmap string inode) : Prop :=
  ∀ k, is_Some (fs !! k) → strlen k < MAX_PATH_LENGTH.

Lemma child_join fs path k name :
  paths_short fs → is_Some (fs !! k) → child_name path k = Some name → join_path path name = k.
Proof.
  intros Hs Hk Hc. apply Hs in Hk. apply child_name_inv in Hc as [-> _]. apply join_path_short.
  rewrite !strlen_app in Hk. change (strlen "/") with 1 in Hk. lia.
Qed.

Lemma dir_names_inv fs dir n :
  n ∈ dir_names fs dir → n = "."%string ∨ n = ".."%string ∨ ∃ k, is_Some (fs !! k) ∧ child_name dir k = Some n.
Proof.
  unfold dir_names. rewrite !elem_of_cons, list_elem_of_omap. intros [->|[->|([k i] & Hk & Hc)]]; [auto..|].
  right. right. exists k. apply elem_of_map_to_list in Hk. eauto.
Qed.

Lemma deletable_old fs path k : paths_short fs → deletable (dir_names fs path) fs path k → old_trace fs path k = true.
Proof.
  intros Hs (n & d & Hn & -> & Hx & Hd). apply dir_names_inv in Hn as [->|[->|(k & Hk & Hc)]]; [done..|].
  rewrite (child_join _ _ _ _ Hs Hk Hc) in *. unfold old_trace. by rewrite Hc, Hd.
Qed.

(** C33: [ensure_dir_empty] removes the old traces and nothing else.  Let the paths
    in the file system be shorter than PATH_MAX.  Whatever calls fail, every path is
    as it was or was an old trace, a regular .bin file directly in the directory, and
    is gone: files in subdirectories, other files and directories are never touched.
    When no call fails and the path is a directory, the result is 0 and all old traces
    are gone; when it is not a directory, the result is -1 and nothing has changed. *)
Theorem ensure_dir_empty_exact w path :
  paths_short (w_fs w) →
  ∃ r w', ensure_dir_empty w path = (r, w') ∧
    (∀ k, w_fs w' !! k = w_fs w !! k ∨ old_trace (w_fs w) path k = true ∧ w_fs w' !! k = None) ∧
    (w_faults w = [] → w_fs w !! path = Some Dir →
       r = 0 ∧ ∀ k, w_fs w' !! k = if old_trace (w_fs w) path k then None else w_fs w !! k) ∧
    (w_faults w = [] → w_fs w !! path ≠ Some Dir → r = -1 ∧ w' = w).
Proof.
  intros Hs. destruct (ensure_dir_empty w path) as [r w'] eqn:H. exists r, w'. split; [done|].
  assert (∀ k, w_fs w' !! k = w_fs w !! k ∨ old_trace (w_fs w) path k = true ∧ w_fs w' !! k = None) as Hsafe.
  { intros k. unfold ensure_dir_empty, sys_opendir in H. destruct (next_fault w) as [f w1] eqn:Ef.
    apply next_fault_fs in Ef.
    destruct f; [|simplify_eq; left; congruence|];
      (destruct (w_fs w1 !! path) as [[|]|]; [simplify_eq; left; congruence| |simplify_eq; left; congruence]);
      (destruct (empty_loop_safe _ _ _ _ _ H k) as [E|[E Hd]]; rewrite Ef in *; [by left|right];
       split; [by apply deletable_old|done]). }
  split; [done|]. unfold ensure_dir_empty, sys_opendir, next_fault in H.
  split; intros Hf Hd; rewrite Hf in H; [rewrite Hd in H|].
  - destruct (empty_loop_complete _ _ _ _ _ H Hf) as (-> & _ & Hall). split; [done|]. intros k.
    destruct (Hsafe k) as [E|[-> E]]; [|done]. destruct (old_trace (w_fs w) path k) eqn:Eo; [|done].
    unfold old_trace in Eo. destruct (child_name path k) as [name|] eqn:Ec; [|done].
    destruct (w_fs w !! k) as [[d|]|] eqn:Ek; [|done..]. exfalso.
    assert (join_path path name = k) as Ej by (eapply child_join; eauto).
    eapply (Hall name); [|done|rewrite Ej; exact E]. apply child_name_inv in Ec as [-> Hsl].
    by eapply dir_names_child.
  - destruct (w_fs w !! path) as [[|]|]; by simplify_eq.
Qed.

Definition demo_fs : gmap string inode :=
  list_to_map [ ("t", Dir); ("t/freezer_log_1_0.bin", Reg [1; 2]); ("t/maps", Reg [3]) ]%string.

(** The trace is removed, the file in the subdirectory is not. *)
Lemma ensure_dir_empty_exact_witness :
  let fs := <["t/sub/x.bin"%string := Reg [4]]> demo_fs in
  ∃ w', ensure_dir_empty (World fs [] []) "t" = (0, w') ∧
    w_fs w' !! "t/freezer_log_1_0.bin"%string = None ∧ w_fs w' !! "t/sub/x.bin"%string = Some (Reg [4]) ∧
    w_fs w' !! "t/maps"%string = Some (Reg [3]).
Proof.
  intros fs. destruct (ensure_dir_empty_exact (World fs [] []) "t") as (r & w' & E & _ & H & _).
  - intros k [i Hk]. apply elem_of_map_to_list in Hk. vm_compute in Hk.
    repeat (apply elem_of_cons in Hk as [Hk|Hk]; [injection Hk as -> _; reflexivity|]). destruct (not_elem_of_nil _ Hk).
  - destruct H as [-> H]; [reflexivity|vm_compute; reflexivity|]. exists w'. split; [exact E|].
    rewrite !H. split; [|split]; vm_compute; reflexivity.
Defined.

(** Success means that the directory is there. *)
Lemma ensure_dir_exists_dir w path w' :
  ensure_dir_exists w path = (0, w') → w_fs w' !! path = Some Dir.
Proof.
  unfold ensure_dir_exists. destruct (sys_stat w path) as [[[d|]|e] w1] eqn:Es.
  - done.
  - intros. simplify_eq. rewrite (sys_stat_fs _ _ _ _ Es). by eapply sys_stat_ok.
  - unfold sys_mkdir. destruct (next_fault w1) as [[| |] w2]; intros; simplify_eq;
      repeat case_match; simplify_eq; simpl; by rewrite lookup_insert_eq.
Qed.

Lemma ensure_dir_exists_effect w path r w' :
  ensure_dir_exists w path = (r, w') →
  r = 0 ∧ w_fs w' !! path = Some Dir ∧ (∀ k, k ≠ path → w_fs w' !! k = w_fs w !! k)
  ∨ r = -1 ∧ w_fs w' = w_fs w.
Proof.
  unfold ensure_dir_exists.
  destruct (sys_stat w path) as [[[d|]|e] w1] eqn:Es; pose proof (sys_stat_fs _ _ _ _ Es) as Hfs.
  - intros. simplify_eq. by right.
  - apply sys_stat_ok in Es. intros. simplify_eq. left. rewrite Hfs. auto.
  - unfold sys_mkdir. destruct (next_fault w1) as [f w2] eqn:En.
    pose proof (next_fault_fs _ _ _ En) as Hfs2. rewrite Hfs in Hfs2.
    assert (w_fs (with_fs w2 (<[path := Dir]> (w_fs w2))) !! path = Some Dir ∧
      ∀ k, k ≠ path → w_fs (with_fs w2 (<[path := Dir]> (w_fs w2))) !! k = w_fs w !! k) as Hnew.
    { simpl. rewrite lookup_insert_eq. split; [done|]. intros k Hk. rewrite lookup_insert_ne by done. congruence. }
    destruct f; try destruct (w_fs w2 !! path); intros; simplify_eq; first [by left|right; split; [done|congruence]].
Qed.

Lemma ensure_dir_exists_ok w path :
  w_faults w = [] →
  ensure_dir_exists w path =
  match w_fs w !! path with
  | Some Dir => (0, w)
  | Some (Reg _) => (-1, w)
  | None => (0, with_fs w (<[path := Dir]> (w_fs w)))
  end.
Proof.
  intros Hf. unfold ensure_dir_exists, sys_stat, sys_mkdir, next_fault. rewrite Hf.
  destruct (w_fs w !! path) as [[|]|] eqn:E; [done..|]. by rewrite Hf, E.
Qed.

(** C34: [ensure_dir_exists] returns 0 only when [path] names a directory
    afterwards, with every other path as it was, and otherwise -1 with the files
    unchanged, also when a directory exists but the call that looks at it fails.
    When no call fails it returns 0 if and only if [path] was not a regular file. *)
Theorem ensure_dir_exists_correct w path :
  let '(r, w') := ensure_dir_exists w path in
  (r = 0 ∧ w_fs w' !! path = Some Dir ∧ (∀ k, k ≠ path → w_fs w' !! k = w_fs w !! k)
   ∨ r = -1 ∧ w_fs w' = w_fs w) ∧
  (w_faults w = [] → r = 0 ↔ ¬ ∃ d, w_fs w !! path = Some (Reg d)).
Proof.
  pose proof (ensure_dir_exists_effect w path) as He. pose proof (ensure_dir_exists_ok w path) as Hk.
  destruct (ensure_dir_exists w path) as [r w']. split; [by apply He|]. intros Hf. specialize (Hk Hf).
  destruct (w_fs w !! path) as [[d|]|]; injection Hk as -> _; split; try done; try (by intros _ [??]).
  intros []. eauto.
Qed.
