(* ===== verification/Config.v ===== *)
(** * Configuration (src/config.c, include/coldtrace/config.h)

    The global variables, their setters and getters, and the module initialiser
    that reads the environment.  The file-name pattern it builds is the format
    string the writer passes to [sprintf]. *)

From stdpp Require Import base list numbers strings pretty gmap.
From Stdlib Require Import ZArith Lia Ascii.
From S2P Require Import Prelude Libc Utils.

Definition DEFAULT_PATH_SIZE : Z := 128.
Definition COLDTRACE_DEFAULT_TRACE_SIZE : Z := 2097152.
Definition COLDTRACE_FILE_SUFFIX : string := "/freezer_log_%d_%d.bin".
(** [sizeof(COLDTRACE_FILE_SUFFIX)] counts the terminating NUL. *)
Definition sizeof_file_suffix : Z := strlen COLDTRACE_FILE_SUFFIX + 1.

Record config := Config {
  max_file_count_ : Z;
  trace_size_ : Z;
  disable_writes_ : bool;
  path_ : string;
  pattern_ : string;
}.

(** The initial values of the globals. *)
Definition initial_config : config :=
  Config (u32 (-1)) COLDTRACE_DEFAULT_TRACE_SIZE false "" "".

Definition coldtrace_set_path (c : config) (path : string) : outcome (bool * config) :=
  if DEFAULT_PATH_SIZE - sizeof_file_suffix <=? strlen path then Ret (false, c)
  else
    let! p := strcpy_at DEFAULT_PATH_SIZE (path_ c) 0 path in
    let! q := strcpy_at DEFAULT_PATH_SIZE (pattern_ c) 0 path in
    let! q := strcpy_at DEFAULT_PATH_SIZE q (strlen path) COLDTRACE_FILE_SUFFIX in
    Ret (true, Config (max_file_count_ c) (trace_size_ c) (disable_writes_ c) p q).

Definition coldtrace_get_path (c : config) : string := path_ c.
Definition coldtrace_get_file_pattern (c : config) : string := pattern_ c.

Definition coldtrace_disable_writes (c : config) : config :=
  Config (max_file_count_ c) (trace_size_ c) true (path_ c) (pattern_ c).
Definition coldtrace_writes_disabled (c : config) : bool := disable_writes_ c.

Definition coldtrace_set_trace_size (c : config) (size : Z) : config :=
  Config (max_file_count_ c) size (disable_writes_ c) (path_ c) (pattern_ c).
Definition coldtrace_get_trace_size (c : config) : Z := trace_size_ c.

Definition coldtrace_set_max (c : config) (max_file_count : Z) : config :=
  Config (u32 max_file_count) (trace_size_ c) (disable_writes_ c) (path_ c) (pattern_ c).
Definition coldtrace_get_max (c : config) : Z := max_file_count_ c.

(** [DICE_MODULE_INIT], first part: the numeric and boolean settings; [env] is
    the process environment. *)
Definition config_init_values (env : gmap string string) (c : config) : config :=
  let c := match env !! "COLDTRACE_MAX_FILES"%string with
           | Some var => coldtrace_set_max c (u32 (strtoul var))
           | None => c
           end in
  let c := match env !! "COLDTRACE_DISABLE_WRITES"%string with
           | Some var => if streq var "yes" || streq var "true"
                         then coldtrace_disable_writes c else c
           | None => c
           end in
  match env !! "COLDTRACE_TRACE_SIZE"%string with
  | Some var => coldtrace_set_trace_size c (strtoul var)
  | None => c
  end.

(** Second part: the output directory. *)
Definition config_init_path (env : gmap string string) (c : config) (w : world) :
    outcome (config * world) :=
  match env !! "COLDTRACE_PATH"%string with
  | None => Ret (coldtrace_disable_writes c, w)
  | Some var =>
      let! (ok, c) := coldtrace_set_path c var in
      if negb ok then Ret (coldtrace_disable_writes c, w)
      else
        let '(r, w) := ensure_dir_exists w var in
        if negb (r =? 0) then Ret (coldtrace_disable_writes c, w)
        else
          match env !! "COLDTRACE_DISABLE_CLEANUP"%string with
          | Some _ => Ret (c, w)
          | None =>
              let '(r, w) := ensure_dir_empty w var in
              if negb (r =? 0) then Ret (coldtrace_disable_writes c, w) else Ret (c, w)
          end
  end.

Definition config_init (env : gmap string string) (c : config) (w : world) :
    outcome (config * world) :=
  config_init_path env (config_init_values env c) w.

(** ** Properties *)

Lemma substring_0 s : String.substring 0 0 s = ""%string.
Proof. by destruct s. Qed.

Lemma substring_prefix a n : n = String.length a → String.substring 0 n a = a.
Proof. intros ->. by apply substring_all. Qed.

Lemma strlen_suffix : strlen COLDTRACE_FILE_SUFFIX = 22.
Proof. done. Qed.

Lemma set_path_short c path :
  strlen path < 105 →
  coldtrace_set_path c path =
    Ret (true, Config (max_file_count_ c) (trace_size_ c) (disable_writes_ c)
                 path (path +:+ COLDTRACE_FILE_SUFFIX)).
Proof.
  intros. unfold coldtrace_set_path, sizeof_file_suffix, DEFAULT_PATH_SIZE. rewrite strlen_suffix.
  destruct (Z.leb_spec (128 - (22 + 1)) (strlen path)); [lia|].
  unfold strcpy_at. rewrite strlen_suffix.
  repeat (match goal with |- context [?a <=? ?b] => destruct (Z.leb_spec a b); [|lia] end; simpl).
  rewrite !substring_0. simpl. do 3 f_equal.
  f_equal. apply substring_prefix. unfold strlen. lia.
Qed.

Lemma set_path_long c path : 105 <= strlen path → coldtrace_set_path c path = Ret (false, c).
Proof.
  intros. unfold coldtrace_set_path, sizeof_file_suffix, DEFAULT_PATH_SIZE. rewrite strlen_suffix.
  destruct (Z.leb_spec (128 - (22 + 1)) (strlen path)); [done|lia].
Qed.

(** [coldtrace_set_path] never writes past its two 128-byte arrays: a path
    of 105 bytes or more is refused and leaves the configuration alone, and any
    other path is stored with the pattern [path ++ "/freezer_log_%d_%d.bin"],
    which with its NUL fits the array. *)
Theorem set_path_total c path :
  coldtrace_set_path c path =
    (if strlen path <? 105 then
       Ret (true, Config (max_file_count_ c) (trace_size_ c) (disable_writes_ c)
                    path (path +:+ COLDTRACE_FILE_SUFFIX))
     else Ret (false, c))
  ∧ (if strlen path <? 105
     then strlen (path +:+ COLDTRACE_FILE_SUFFIX) + 1 <= DEFAULT_PATH_SIZE
     else 105 <= strlen path).
Proof.
  rewrite strlen_app, strlen_suffix. unfold DEFAULT_PATH_SIZE.
  destruct (Z.ltb_spec (strlen path) 105) as [H|H].
  - rewrite set_path_short by done. split; [done|lia].
  - by rewrite set_path_long.
Qed.

Lemma ensure_dir_empty_keeps_dir w path r w' :
  ensure_dir_empty w path = (r, w') → w_fs w !! path = Some Dir → w_fs w' !! path = Some Dir.
Proof.
  unfold ensure_dir_empty. intros H Hd.
  destruct (sys_opendir w path) as [[names|] w1] eqn:E;
    assert (w_fs w1 = w_fs w) as Hfs by
      (unfold sys_opendir in E; destruct (next_fault w) as [f w2] eqn:En;
       apply next_fault_fs in En; destruct f; repeat case_match; congruence).
  - destruct (empty_loop_safe _ _ _ _ _ H path) as [->|[_ (n & d & _ & _ & _ & Hr)]]; congruence.
  - congruence.
Qed.

(** C31: module initialisation always returns, and it leaves writing enabled only
    when [COLDTRACE_PATH] is set to a path shorter than 105 bytes that names a
    directory, in which case the fragment pattern is built from that path. *)
Theorem config_init_enabled env w :
  ∃ c w', config_init env initial_config w = Ret (c, w') ∧
    (coldtrace_writes_disabled c = false →
     ∃ p, env !! "COLDTRACE_PATH"%string = Some p ∧ strlen p < 105 ∧
          coldtrace_get_path c = p ∧
          coldtrace_get_file_pattern c = p +:+ COLDTRACE_FILE_SUFFIX ∧
          w_fs w' !! p = Some Dir).
Proof.
  unfold config_init, config_init_path.
  generalize (config_init_values env initial_config). intros c3.
  destruct (env !! "COLDTRACE_PATH"%string) as [p|]; [|eexists _, _; split; [done|]; done].
  destruct (Z.lt_ge_cases (strlen p) 105) as [Hl|Hl];
    [rewrite set_path_short by done|rewrite set_path_long by done];
    simpl; [|eexists _, _; split; [done|]; done].
  destruct (ensure_dir_exists w p) as [r w1] eqn:Hex.
  destruct (Z.eqb_spec r 0) as [->|]; simpl; [|eexists _, _; split; [done|]; done].
  apply ensure_dir_exists_dir in Hex as Hd.
  destruct (env !! "COLDTRACE_DISABLE_CLEANUP"%string).
  { eexists _, _; split; [done|]. intros _. exists p. done. }
  destruct (ensure_dir_empty w1 p) as [r w2] eqn:Ee.
  apply ensure_dir_empty_keeps_dir in Ee; [|done].
  destruct (Z.eqb_spec r 0) as [->|]; simpl; eexists _, _; (split; [done|]); [|done].
  intros _. exists p. done.
Qed.

(** ** Fragment file names *)

(** [FORMAT_EXPANSION_SPACE] of writer.c: what the formatted name may exceed the
    pattern by, NUL included. *)
Definition FORMAT_EXPANSION_SPACE : Z := 20.

(** [sprintf(file_name, pattern, tid, enumerator)] into
    [char file_name[strlen(pattern) + FORMAT_EXPANSION_SPACE]]. *)
Definition fragment_name (c : config) (tid enumerator : Z) : outcome string :=
  let pattern := coldtrace_get_file_pattern c in
  sprintf (strlen pattern + FORMAT_EXPANSION_SPACE) pattern [tid; enumerator].

(** The pattern of a configured tracer whose path holds no conversion. *)
Definition pattern_ok (c : config) : Prop :=
  pattern_ c = path_ c +:+ COLDTRACE_FILE_SUFFIX ∧ has_char "%" (path_ c) = false.

Definition name_of (path : string) (tid enumerator : Z) : string :=
  path +:+ "/freezer_log_" +:+ pretty (i32 tid) +:+ "_" +:+ pretty (i32 enumerator) +:+ ".bin".

Lemma i32_range z : - 2 ^ 31 <= i32 z < 2 ^ 31.
Proof.
  unfold i32. pose proof (Z.mod_pos_bound (z + 2 ^ 31) (2 ^ 32) ltac:(lia)). lia.
Qed.

Lemma i32_inj_u32 a b : is_u32 a → is_u32 b → i32 a = i32 b → a = b.
Proof.
  unfold i32. intros Ha Hb E. assert ((a + 2 ^ 31) mod 2 ^ 32 = (b + 2 ^ 31) mod 2 ^ 32) as Em by lia.
  destruct (decide (a < 2 ^ 31)), (decide (b < 2 ^ 31)); unfold is_u32 in *;
    repeat match type of Em with
    | context [?x mod ?y] =>
        first [ rewrite (Z.mod_small x y) in Em by lia
              | rewrite <- (Z.mod_unique x y 1 (x - 2 ^ 32)) in Em by lia ]
    end; lia.
Qed.

Lemma fragment_name_spec c tid en :
  pattern_ok c → fragment_name c tid en = Ret (name_of (path_ c) tid en).
Proof.
  intros [Hp Hn]. unfold fragment_name, coldtrace_get_file_pattern. rewrite Hp.
  apply sprintf_Ret; [by rewrite c_format_app|].
  unfold name_of, FORMAT_EXPANSION_SPACE. rewrite !strlen_app.
  pose proof (pretty_int_length _ (i32_range tid)). pose proof (pretty_int_length _ (i32_range en)).
  change (strlen COLDTRACE_FILE_SUFFIX) with 22. change (strlen "/freezer_log_") with 13.
  change (strlen "_") with 1. change (strlen ".bin") with 4. lia.
Qed.

Lemma name_of_inj path t1 e1 t2 e2 :
  name_of path t1 e1 = name_of path t2 e2 → i32 t1 = i32 t2 ∧ i32 e1 = i32 e2.
Proof.
  unfold name_of. intros E. apply (inj (String.append path)) in E.
  apply (inj (String.append "/freezer_log_")) in E.
  apply split_at_char in E as [Et Ee];
    [|apply pretty_Z_no_char; split; [vm_compute; tauto|discriminate]..].
  simpl in Ee. apply (split_at_char "."%char (pretty (i32 e1)) (pretty (i32 e2)) "bin" "bin")
    in Ee as [Ee _]; [|apply pretty_Z_no_char; split; [vm_compute; tauto|discriminate]..].
  split; by apply (inj pretty).
Qed.

(** C30: fragment names never overflow their buffer and never collide.  With a
    pattern built from a path without conversions, [sprintf] fills at most
    [strlen(pattern) + FORMAT_EXPANSION_SPACE] bytes, NUL included, for every
    thread identifier and enumerator, and two names are equal only if both
    numbers agree as [int]s. *)
Theorem fragment_names_safe c tid en tid' en' :
  pattern_ok c →
  ∃ n n', fragment_name c tid en = Ret n ∧ fragment_name c tid' en' = Ret n' ∧
    strlen n + 1 <= strlen (pattern_ c) + FORMAT_EXPANSION_SPACE ∧
    (n = n' → i32 tid = i32 tid' ∧ i32 en = i32 en').
Proof.
  intros Hp. exists (name_of (path_ c) tid en), (name_of (path_ c) tid' en').
  split; [by apply fragment_name_spec|]. split; [by apply fragment_name_spec|].
  split; [|apply name_of_inj]. pose proof (fragment_name_spec c tid en Hp) as H.
  unfold fragment_name, coldtrace_get_file_pattern, sprintf in H.
  destruct (c_format (pattern_ c) [tid; en]) as [s|]; [|done].
  destruct (Z.leb_spec (strlen s + 1) (strlen (pattern_ c) + FORMAT_EXPANSION_SPACE)); [|done].
  by injection H as <-.
Qed.

Lemma fragment_names_safe_witness :
  ∃ n, fragment_name (Config 4 64 false "t" ("t" +:+ COLDTRACE_FILE_SUFFIX)) 7 (2 ^ 32 - 1) = Ret n.
Proof.
  destruct (fragment_names_safe (Config 4 64 false "t" ("t" +:+ COLDTRACE_FILE_SUFFIX))
    7 (2 ^ 32 - 1) 7 0) as (n & _ & H & _); [by vm_compute|].
  exists n. exact H.
Defined.
