(* ===== verification/Procmaps.v ===== *)
(** * Copying the memory map and the mapped files (src/procmaps.c)

    At the first event of a thread other than the main one, or at the end of the
    main thread, the tracer copies [/proc/self/maps] and every file named there
    into the trace directory, so that addresses can be resolved later. *)

From stdpp Require Import base list numbers strings pretty gmap.
From Stdlib Require Import ZArith Lia Ascii.
From S2P Require Import Prelude Libc Utils Config.

(** ** More of the C library *)

Definition newline : ascii := "010"%char.

(** [snprintf(buf, cap, "%s...", ...)] *)
Definition snprintf (cap : Z) (s : string) : string := String.substring 0 (Z.to_nat (cap - 1)) s.

(** The part of a buffer in front of the first [c]. *)
Fixpoint until (c : ascii) (s : string) : string :=
  match s with
  | EmptyString => ""
  | String d s => if Ascii.eqb c d then "" else String d (until c s)
  end.

(** [strstr(hay, needle) != NULL] *)
Fixpoint strstr (hay needle : string) : bool :=
  String.prefix needle hay ||
  match hay with EmptyString => false | String _ hay => strstr hay needle end.

(** [fgets] with room for [n] characters: the line and what is left to read. *)
Fixpoint fgets (n : nat) (s : string) : string * string :=
  match n, s with
  | O, _ | _, EmptyString => ("", s)%string
  | S n, String c s =>
      if Ascii.eqb c newline then (String c "", s)
      else let '(l, r) := fgets n s in (String c l, r)
  end.

(** All the lines [fgets] returns until the end of the file. *)
Fixpoint read_lines (fuel n : nat) (s : string) : list string :=
  match fuel, s with
  | O, _ | _, EmptyString => []
  | S fuel, _ => let '(l, r) := fgets n s in l :: read_lines fuel n r
  end.

Definition text_of (data : list Z) : string :=
  String.string_of_list_ascii ((fun z => ascii_of_N (Z.to_N z)) <$> data).

(** [fopen(name, "rb")]: opening a directory succeeds, reading it does not. *)
Definition fopen_read (w : world) (name : string) : bool * world :=
  match next_fault w with
  | (Fail _, w) => (false, w)
  | (_, w) => (bool_decide (is_Some (w_fs w !! name)), w)
  end.

Definition contents (w : world) (name : string) : list Z :=
  match w_fs w !! name with Some (Reg d) => d | _ => [] end.

(** [fwrite]: the library retries short writes and reports errors, which the
    callers ignore. *)
Definition fwrite (w : world) (name : string) (bs : list Z) : world :=
  match next_fault w with
  | (Fail _, w) => w
  | (_, w) => with_fs w (match w_fs w !! name with
                         | Some (Reg d) => <[name := Reg (d ++ bs)]> (w_fs w)
                         | _ => w_fs w
                         end)
  end.

(** [mkdir]; the empty path is an error. *)
Definition mkdir (w : world) (path : string) : sysres unit * world :=
  if streq path "" then (SErr ENOENT, w) else sys_mkdir w path.

(** ** The functions of procmaps.c *)

Definition MAX_LINE_LENGTH : Z := 256.
Definition MAX_PATH_LENGTH : Z := 1024.
Definition MAX_BUFFER_SIZE : Z := 4096.
Definition MAX_UNIQUE_PATHS : Z := 1000.

(** [mkdir(path, S_IRWXU) && errno != EEXIST] *)
Definition mkdir_fails (w : world) (path : string) : bool * world :=
  match mkdir w path with
  | (SOk _, w) => (false, w)
  | (SErr e, w) => (negb (e =? EEXIST), w)
  end.

(** The [for]: [done] is what lies in front of [p]. *)
Fixpoint mkdir_loop (w : world) (done rest : string) : bool * world :=
  match rest with
  | EmptyString => (true, w)
  | String c rest =>
      if Ascii.eqb c "/" then
        let '(failed, w) := mkdir_fails w done in
        if failed then (false, w) else mkdir_loop w (done +:+ String c "") rest
      else mkdir_loop w (done +:+ String c "") rest
  end.

(** [if (temp[len - 1] == '/') temp[len - 1] = 0;] *)
Definition strip_slash (temp : string) : string :=
  let n := pred (String.length temp) in
  if streq (String.substring n 1 temp) "/" then String.substring 0 n temp else temp.

Definition mkdir_ (w : world) (path : string) : outcome (Z * world) :=
  let temp := snprintf MAX_PATH_LENGTH path in
  if strlen temp =? 0 then Undef OutOfBounds
  else
    let temp := strip_slash temp in
    let '(ok, w) :=
      match temp with
      | EmptyString => (true, w)
      | String c rest => mkdir_loop w (String c "") rest
      end in
    if negb ok then Ret (-1, w)
    else
      let '(failed, w) := mkdir_fails w temp in
      Ret (if failed then -1 else 0, w).

(** The [fread] loop over what is left of the source. *)
Fixpoint cp_loop (fuel : nat) (w : world) (dst : string) (data : list Z) : outcome world :=
  match data with
  | [] => Ret w
  | _ =>
      match fuel with
      | O => NoFuel
      | S fuel =>
          let n := Z.to_nat MAX_BUFFER_SIZE in
          cp_loop fuel (fwrite w dst (take n data)) dst (drop n data)
      end
  end.

Definition cp_ (w : world) (src dst : string) : outcome (Z * world) :=
  let '(ok, w) := fopen_read w src in
  if negb ok then Ret (-1, w)
  else
    match open_trunc w dst with
    | (SErr _, w) => Ret (-1, w)
    | (SOk _, w) =>
        let data := contents w src in
        let! w := cp_loop (length data) w dst data in
        Ret (0, w)
    end.

Definition copy_proc_maps_ (w : world) (pid : Z) (path : string) : outcome (Z * world) :=
  let src := snprintf MAX_PATH_LENGTH ("/proc/" +:+ pretty (i32 pid) +:+ "/maps") in
  let dst := snprintf MAX_PATH_LENGTH (path +:+ "/maps") in
  let! (r, w) := mkdir_ w path in
  if negb (r =? 0) then Ret (-1, w)
  else
    let! (r, w) := cp_ w src dst in
    if negb (r =? 0) then Ret (-1, w) else Ret (0, w).

(** [src] of a line, if it names a file. *)
Definition line_source (line : string) : option string :=
  until newline <$> strchr (until "000" line) "/".

(** [strcat(unique, ":"); strcat(unique, src);] *)
Definition mark_copied (unique src : string) : outcome string :=
  let unique := unique +:+ ":" +:+ src in
  if strlen unique + 1 <=? MAX_PATH_LENGTH * MAX_UNIQUE_PATHS then Ret unique else Undef OutOfBounds.

(** The directory a path is in: up to the last slash. *)
Definition dir_of (dst : string) : option string :=
  (fun tail => String.substring 0 (String.length dst - String.length tail) dst) <$> strrchr dst "/".

Fixpoint copy_loop (w : world) (path : string) (lines : list string) (unique : string) (ret : Z) :
    outcome (Z * world) :=
  match lines with
  | [] => Ret (ret, w)
  | line :: lines =>
      match line_source line with
      | None => copy_loop w path lines unique ret
      | Some src =>
          if strstr unique src then copy_loop w path lines unique ret
          else if has_ext src ".bin" then copy_loop w path lines unique ret
          else
            let dst := snprintf MAX_PATH_LENGTH (path +:+ src) in
            let! (r, w) := match dir_of dst with Some d => mkdir_ w d | None => Ret (0, w) end in
            if negb (r =? 0) then Ret (-1, w)
            else
              let! (r, w) := cp_ w src dst in
              if negb (r =? 0) then copy_loop w path lines unique (-1)
              else
                let! unique := mark_copied unique src in
                copy_loop w path lines unique ret
      end
  end.

Definition copy_mapped_files_ (w : world) (path : string) : outcome (Z * world) :=
  let proc_maps := snprintf MAX_PATH_LENGTH (path +:+ "/maps") in
  let '(ok, w) := fopen_read w proc_maps in
  if negb ok then Ret (-1, w)
  else
    let text := text_of (contents w proc_maps) in
    copy_loop w path (read_lines (String.length text) (Z.to_nat (MAX_LINE_LENGTH - 1)) text) "" 0.

(** [maps_copied_] with the module initialiser and the two subscribers; the lock
    makes each of them atomic. *)
Definition procmaps_init (env : gmap string string) (maps_copied_ : bool) : bool :=
  if decide (is_Some (env !! "COLDTRACE_DISABLE_COPY"%string)) then true else maps_copied_.

Definition copy_maps_and_mapped_files_ (c : config) (pid : Z) (w : world) : outcome (bool * world) :=
  let path := coldtrace_get_path c in
  if streq path "" then Ret (true, w)
  else
    let! (_, w) := copy_proc_maps_ w pid path in
    let! (_, w) := copy_mapped_files_ w path in
    Ret (true, w).

Definition procmaps_self_init (c : config) (pid : Z) (is_main maps_copied_ : bool) (w : world) :
    outcome (bool * world) :=
  if maps_copied_ || is_main then Ret (maps_copied_, w) else copy_maps_and_mapped_files_ c pid w.

Definition procmaps_self_fini (c : config) (pid : Z) (maps_copied_ : bool) (w : world) :
    outcome (bool * world) :=
  if maps_copied_ then Ret (maps_copied_, w) else copy_maps_and_mapped_files_ c pid w.

(** ** Strings *)

Lemma substring_full s n : (String.length s <= n)%nat → String.substring 0 n s = s.
Proof.
  revert n. induction s as [|c s IH]; intros [|n] H; simpl in *; try done; [lia|].
  f_equal. apply IH. lia.
Qed.

Lemma snprintf_fits cap s : strlen s < cap → snprintf cap s = s.
Proof. intros H. apply substring_full. unfold strlen in H. lia. Qed.

Lemma prefix_refl_app a b : String.prefix a (a +:+ b) = true.
Proof.
  induction a as [|c a IH]; [by destruct b|].
  change (String c a +:+ b) with (String c (a +:+ b)). simpl. by destruct (ascii_dec c c).
Qed.

Lemma strstr_app_l a b n : strstr b n = true → strstr (a +:+ b) n = true.
Proof.
  intros H. induction a as [|c a IH]; [done|].
  change (String c a +:+ b) with (String c (a +:+ b)). cbn [strstr]. by rewrite IH, orb_true_r.
Qed.

Lemma strstr_prefix a b : strstr (a +:+ b) a = true.
Proof. destruct (a +:+ b) eqn:E; cbn [strstr]; rewrite <- E, prefix_refl_app; done. Qed.

Lemma prefix_app_mono n a b : String.prefix n a = true → String.prefix n (a +:+ b) = true.
Proof.
  revert n. induction a as [|c a IH]; intros [|d n] H; simpl in *; try done; [by destruct b|].
  change (String c a +:+ b) with (String c (a +:+ b)). simpl.
  destruct (ascii_dec d c); [by apply IH|done].
Qed.

Lemma strstr_app_r a b n : strstr a n = true → strstr (a +:+ b) n = true.
Proof.
  induction a as [|c a IH]; intros H.
  - cbn [strstr] in H. rewrite orb_false_r in H. destruct n; [|done]. by destruct b.
  - change (String c a +:+ b) with (String c (a +:+ b)). cbn [strstr] in *.
    apply orb_true_iff in H as [H|H]; [|by rewrite IH, orb_true_r].
    apply (prefix_app_mono n (String c a) b) in H.
    change (String c a +:+ b) with (String c (a +:+ b)) in H. by rewrite H.
Qed.

Lemma string_app_nil_r a : a +:+ "" = a.
Proof. induction a as [|c a IH]; [done|]. change (String c a +:+ "") with (String c (a +:+ "")). by rewrite IH. Qed.

Lemma string_app_inj a b b' : a +:+ b = a +:+ b' → b = b'.
Proof. induction a as [|c a IH]; [done|]. intros [= H]. auto. Qed.

Lemma until_le c s : strlen (until c s) <= strlen s.
Proof.
  unfold strlen. induction s as [|d s IH]; simpl; [done|]. destruct (Ascii.eqb c d); simpl; lia.
Qed.

Lemma strchr_le s c r : strchr s c = Some r → strlen r <= strlen s ∧ ∃ r', r = String c r'.
Proof.
  unfold strlen. induction s as [|d s IH]; simpl; [done|].
  destruct (Ascii.eqb_spec c d) as [->|]; intros H; simplify_eq.
  - split; [simpl; lia|eauto].
  - destruct (IH H) as [? ?]. split; [lia|done].
Qed.

Lemma line_source_spec line src :
  line_source line = Some src → strlen src <= strlen line ∧ ∃ r, src = String "/" r.
Proof.
  unfold line_source. intros (s & Hs & ->)%fmap_Some.
  apply strchr_le in Hs as [Hl [r ->]]. pose proof (until_le "000" line).
  pose proof (until_le newline (String "/" r)). split; [lia|]. simpl. eauto.
Qed.

Lemma strlen_nil : strlen "" = 0.
Proof. done. Qed.
Lemma strlen_cons c s : strlen (String c s) = strlen s + 1.
Proof. unfold strlen. simpl. lia. Qed.

Lemma fgets_spec n s : strlen (fgets n s).1 <= Z.of_nat n ∧
  strlen (fgets n s).1 + strlen (fgets n s).2 = strlen s.
Proof.
  revert s. induction n as [|n IH]; intros [|c s]; cbn [fgets fst snd]; rewrite ?strlen_cons, ?strlen_nil;
    try lia; try (unfold strlen; lia).
  destruct (Ascii.eqb c newline); cbn [fst snd]; [rewrite !strlen_cons, strlen_nil; lia|].
  specialize (IH s). destruct (fgets n s) as [l r]. simpl in *. rewrite !strlen_cons. lia.
Qed.

(** The sum of the lengths, one separator each. *)
Fixpoint total_length (ss : list string) : Z :=
  match ss with [] => 0 | s :: ss => strlen s + 1 + total_length ss end.

Lemma total_length_pos ss : 0 <= total_length ss.
Proof. induction ss; simpl; unfold strlen; lia. Qed.

Lemma read_lines_spec fuel n : ∀ s,
  Forall (fun l => strlen l <= Z.of_nat n) (read_lines fuel n s) ∧
  total_length (omap line_source (read_lines fuel n s)) <= 2 * strlen s.
Proof.
  induction fuel as [|fuel IH]; intros s; simpl; [split; [constructor|]; unfold strlen; simpl; lia|].
  destruct s as [|c s]; [split; [constructor|]; done|].
  pose proof (fgets_spec n (String c s)) as [Hn Hs]. destruct (fgets n (String c s)) as [l r]. csimpl in *.
  destruct (IH r) as [Hf Ht]. split; [by constructor|].
  destruct (line_source l) as [src|] eqn:E; csimpl.
  - apply line_source_spec in E as [Hl [r' ->]]. rewrite !strlen_cons in *.
    assert (0 <= strlen r') by (unfold strlen; lia). lia.
  - assert (0 <= strlen l) by (unfold strlen; lia). lia.
Qed.

(** ** Directories and copies, when no call fails *)

(** Only directories are created, at places with [P]. *)
Definition grows (P : string → Prop) (w w' : world) : Prop :=
  w_faults w' = [] ∧
  ∀ k, w_fs w' !! k = w_fs w !! k ∨ (w_fs w !! k = None ∧ w_fs w' !! k = Some Dir ∧ P k).

Lemma grows_refl P w : w_faults w = [] → grows P w w.
Proof. intros Hf. split; auto. Qed.

Lemma grows_trans P w1 w2 w3 : grows P w1 w2 → grows P w2 w3 → grows P w1 w3.
Proof.
  intros [_ A1] [F A2]. split; [done|]. intros k.
  destruct (A2 k) as [->|(E & -> & HP)]; [apply A1|]. destruct (A1 k) as [E1|(_ & E1 & _)]; [|congruence].
  right. split; [congruence|done].
Qed.

Lemma grows_reg P w w' k d : grows P w w' → w_fs w' !! k = Some (Reg d) ↔ w_fs w !! k = Some (Reg d).
Proof. intros [_ Hg]. destruct (Hg k) as [->|(-> & -> & _)]; [done|]. by split. Qed.

Lemma grows_elsewhere P w w' k : grows P w w' → ¬ P k → w_fs w' !! k = w_fs w !! k.
Proof. intros [_ Hg] Hk. by destruct (Hg k) as [->|(_ & _ & ?)]. Qed.

Lemma mkdir_fails_ok P w path :
  w_faults w = [] → path ≠ ""%string → P path → ∃ w', mkdir_fails w path = (false, w') ∧ grows P w w'.
Proof.
  intros Hf Hp HP. unfold mkdir_fails, mkdir, streq, sys_mkdir, next_fault.
  destruct (String.eqb_spec path ""); [done|]. rewrite Hf.
  destruct (w_fs w !! path) as [i|] eqn:E.
  - exists w. split; [done|]. by apply grows_refl.
  - eexists. split; [done|]. split; [done|]. intros k. simpl. rewrite lookup_insert.
    case_decide; [subst; by right|by left].
Qed.

Lemma mkdir_loop_ok P rest : ∀ w pre,
  w_faults w = [] → pre ≠ ""%string → (∀ a b, rest = a +:+ String "/" b → P (pre +:+ a)) →
  ∃ w', mkdir_loop w pre rest = (true, w') ∧ grows P w w'.
Proof.
  induction rest as [|c rest IH]; intros w pre Hf Hp HP; cbn [mkdir_loop].
  { exists w. split; [done|]. by apply grows_refl. }
  assert (pre +:+ String c "" ≠ ""%string) by (by destruct pre).
  assert (∀ a b, rest = a +:+ String "/" b → P ((pre +:+ String c "") +:+ a)) as HP'.
  { intros a b ->. rewrite string_app_assoc. by apply (HP (String c a) b). }
  destruct (Ascii.eqb_spec c "/") as [->|_]; [|by apply IH].
  destruct (mkdir_fails_ok P w pre Hf Hp) as (w1 & -> & Hg).
  { rewrite <- (string_app_nil_r pre). by apply (HP ""%string rest). }
  destruct (IH w1 (pre +:+ String "/" "")) as (w' & -> & Hg'); [apply Hg|done..|].
  exists w'. split; [done|]. by eapply grows_trans.
Qed.

Lemma strip_slash_nonempty s : s ≠ ""%string → s ≠ "/"%string → strip_slash s ≠ ""%string.
Proof.
  intros H1 H2. unfold strip_slash. destruct s as [|c [|d s]]; [done| |].
  - change (String.substring (pred (String.length (String c ""))) 1 (String c "")) with (String c ""). unfold streq. destruct (String.eqb_spec (String c "") "/") as [E|E]; [by destruct H2|done].
  - cbn [String.length pred]. destruct (streq _ _); done.
Qed.

Lemma substring_split n : ∀ s, String.length s = S n → s = String.substring 0 n s +:+ String.substring n 1 s.
Proof.
  induction n as [|n IH]; intros [|c s] H; try done; injection H as H.
  - by destruct s.
  - change (String c s = String c (String.substring 0 n s +:+ String.substring n 1 s)). f_equal. by apply IH.
Qed.

Lemma strip_slash_spec s : s ≠ ""%string → strip_slash s = s ∨ s = strip_slash s +:+ "/".
Proof.
  intros Hs. unfold strip_slash. destruct (String.length s) as [|n] eqn:E; [by destruct s|]. cbn [pred].
  unfold streq. destruct (String.eqb_spec (String.substring n 1 s) "/") as [Es|]; [right|by left].
  rewrite <- Es. by apply substring_split.
Qed.

(** The directories on the way to [dst]. *)
Definition above (dst k : string) : Prop := ∃ r, dst = k +:+ String "/" r.

Lemma mkdir_ok w dir e :
  w_faults w = [] → dir ≠ ""%string → dir ≠ "/"%string → strlen dir < MAX_PATH_LENGTH →
  ∃ w', mkdir_ w dir = Ret (0, w') ∧ grows (above (dir +:+ String "/" e)) w w'.
Proof.
  intros Hf H1 H2 Hl. unfold mkdir_. rewrite snprintf_fits by done.
  destruct (Z.eqb_spec (strlen dir) 0) as [E|_]; [by destruct dir|].
  assert (above (dir +:+ String "/" e) (strip_slash dir)) as [x Hx].
  { destruct (strip_slash_spec dir H1) as [->|Hd]; [by exists e|].
    exists (String "/" e). rewrite Hd at 1. by rewrite string_app_assoc. }
  pose proof (strip_slash_nonempty dir H1 H2) as Hne.
  destruct (strip_slash dir) as [|c rest]; [done|].
  destruct (mkdir_loop_ok (above (dir +:+ String "/" e)) rest w (String c "") Hf) as (w1 & -> & Hg); [done| |].
  { intros a b ->. exists (b +:+ String "/" x). rewrite Hx. simpl. f_equal. by rewrite string_app_assoc. }
  simpl. destruct (mkdir_fails_ok (above (dir +:+ String "/" e)) w1 (String c rest)) as (w' & -> & Hg');
    [apply Hg|done|by exists x|].
  exists w'. split; [done|]. by eapply grows_trans.
Qed.

Lemma cp_loop_ok fuel dst : ∀ w d data,
  w_faults w = [] → w_fs w !! dst = Some (Reg d) → (length data <= fuel)%nat →
  ∃ w', cp_loop fuel w dst data = Ret w' ∧ w_faults w' = [] ∧ w_closed w' = w_closed w ∧
    w_fs w' = <[dst := Reg (d ++ data)]> (w_fs w).
Proof.
  induction fuel as [|fuel IH]; intros w d data Hf Hd Hl; destruct data as [|b data]; simpl in Hl; try lia;
    cbn [cp_loop]; try (exists w; rewrite app_nil_r, insert_id; done).
  set (n := Z.to_nat MAX_BUFFER_SIZE). unfold fwrite, next_fault. rewrite Hf, Hd.
  destruct (IH (with_fs w (<[dst:=Reg (d ++ take n (b :: data))]> (w_fs w))) (d ++ take n (b :: data))
    (drop n (b :: data))) as (w' & E & Hf' & Hc' & Hfs).
  - done.
  - simpl. by rewrite lookup_insert_eq.
  - rewrite length_drop. simpl. unfold n, MAX_BUFFER_SIZE. lia.
  - exists w'. split; [done|]. split; [done|]. split; [done|].
    rewrite Hfs. cbn [with_fs w_fs]. by rewrite insert_insert_eq, <- app_assoc, take_drop.
Qed.

(** [cp_] copies the file or reports that it could not. *)
Lemma cp_ok w src dst :
  w_faults w = [] → src ≠ dst →
  ∃ r w', cp_ w src dst = Ret (r, w') ∧ w_faults w' = [] ∧
    (r = 0 ∧ w_fs w' = <[dst := Reg (contents w src)]> (w_fs w) ∧ is_Some (w_fs w !! src) ∧ w_fs w !! dst ≠ Some Dir ∨
     r = -1 ∧ w_fs w' = w_fs w ∧ (w_fs w !! src = None ∨ w_fs w !! dst = Some Dir)).
Proof.
  intros Hf Hne. unfold cp_, fopen_read, next_fault. rewrite Hf.
  destruct (w_fs w !! src) as [i|] eqn:Es.
  2: { rewrite bool_decide_eq_false_2 by (intros [? ?]; done). simpl. exists (-1), w.
       do 2 (split; [done|]). right. auto. }
  rewrite bool_decide_eq_true_2 by eauto. simpl. unfold open_trunc, next_fault. rewrite Hf.
  destruct (w_fs w !! dst) as [[d|]|] eqn:Ed;
    try (exists (-1), w; do 2 (split; [done|]); right; by auto).
  all: set (w1 := with_fs w (<[dst:=Reg []]> (w_fs w)));
    assert (contents w1 src = contents w src) as ->
      by (unfold contents, w1; simpl; by rewrite lookup_insert_ne);
    destruct (cp_loop_ok (length (contents w src)) dst w1 [] (contents w src))
      as (w' & -> & Hf' & _ & Hfs); [done|by simpl; rewrite lookup_insert_eq|done|];
    exists 0, w'; split; [done|]; split; [done|]; left; split; [done|];
    rewrite Hfs; simpl; rewrite insert_insert_eq; split_and!; [done|eauto|congruence].
Qed.

Lemma substring_front a b : String.substring 0 (String.length a) (a +:+ b) = a.
Proof. induction a as [|c a IH]; [by destruct b|]. cbn. f_equal. apply IH. Qed.

Lemma last_slash path r b e :
  path +:+ String "/" r = b +:+ String "/" e → has_char "/" e = false → ∃ x, b = path +:+ x.
Proof.
  revert b. induction path as [|c path IH]; intros b H He; [by exists b|].
  destruct b as [|d b].
  - exfalso. injection H as -> H. rewrite <- H, has_char_app in He. simpl in He.
    by rewrite orb_true_r in He.
  - injection H as -> H. destruct (IH b H He) as [x ->]. by exists x.
Qed.

Lemma dir_of_spec path r :
  path ≠ ""%string → path ≠ "/"%string →
  ∃ d e, dir_of (path +:+ String "/" r) = Some d ∧ d ≠ ""%string ∧ d ≠ "/"%string ∧
    path +:+ String "/" r = d +:+ String "/" e ∧ strlen d <= strlen (path +:+ String "/" r).
Proof.
  intros H1 H2. unfold dir_of. destruct (strrchr (path +:+ String "/" r) "/") as [t|] eqn:E.
  2: { apply strrchr_none in E. rewrite has_char_app in E. simpl in E. by rewrite orb_true_r in E. }
  apply strrchr_some in E as (b & e & Hs & -> & He). exists b, e. simpl.
  assert (String.substring 0 (String.length (path +:+ String "/" r) - S (String.length e))
    (path +:+ String "/" r) = b) as ->.
  { rewrite Hs. assert (String.length (b +:+ String "/" e) - S (String.length e) = String.length b)%nat as ->.
    { pose proof (strlen_app b (String "/" e)) as Hl. unfold strlen in Hl. simpl in Hl. lia. }
    apply substring_front. }
  destruct (last_slash _ _ _ _ Hs He) as [x Hb]. split; [done|].
  split; [rewrite Hb; by destruct path|]. split.
  - rewrite Hb. destruct path as [|c [|c' p]]; [done| |done]. intros [= -> ->]. done.
  - split; [done|]. rewrite Hs, strlen_app. unfold strlen. lia.
Qed.

(** The contents of [unique]. *)
Definition joined (copied : list string) : string :=
  foldl (fun u s => u +:+ ":" +:+ s) ""%string copied.

Lemma joined_snoc copied s : joined (copied ++ [s]) = joined copied +:+ ":" +:+ s.
Proof. unfold joined. by rewrite foldl_app. Qed.

Lemma joined_within copied s n : s ∈ copied → strstr s n = true → strstr (joined copied) n = true.
Proof.
  intros Hs Hn. induction copied as [|x copied IH] using rev_ind; [by apply elem_of_nil in Hs|].
  rewrite joined_snoc. apply elem_of_app in Hs as [H|H]; [by apply strstr_app_r, IH|].
  apply list_elem_of_singleton in H as ->. by do 2 apply strstr_app_l.
Qed.

Lemma strstr_refl s : strstr s s = true.
Proof. rewrite <- (string_app_nil_r s) at 1. apply strstr_prefix. Qed.

(** ** What is to be copied *)

Section Selection.
Context (fs : gmap string inode) (path : string).

(** The file can be opened, and no directory stands where its copy goes. *)
Definition copyable (src : string) : bool :=
  match fs !! src, fs !! (path +:+ src) with
  | None, _ | _, Some Dir => false
  | _, _ => true
  end.

(** The names that are copied, in order, when those in [copied] have been before, and
    whether all that were tried could be. *)
Fixpoint selected (copied srcs : list string) : list string * bool :=
  match srcs with
  | [] => (copied, true)
  | src :: srcs =>
      if strstr (joined copied) src || has_ext src ".bin" then selected copied srcs
      else if copyable src then selected (copied ++ [src]) srcs
      else ((selected copied srcs).1, false)
  end.

Lemma selected_extends srcs : ∀ copied, ∃ x, (selected copied srcs).1 = copied ++ x ∧ ∀ s, s ∈ x → s ∈ srcs.
Proof.
  induction srcs as [|src srcs IH]; intros copied; cbn [selected].
  { exists []. rewrite app_nil_r. done. }
  assert (∃ x, (selected copied srcs).1 = copied ++ x ∧ ∀ s, s ∈ x → s ∈ src :: srcs) as Hskip.
  { destruct (IH copied) as (x & E & Hx). exists x. split; [done|]. intros s Hs. by apply list_elem_of_further, Hx. }
  destruct (strstr (joined copied) src || has_ext src ".bin"); [done|]. destruct (copyable src); [|done].
  destruct (IH (copied ++ [src])) as (x & E & Hx). exists (src :: x). split; [by rewrite E, <- app_assoc|].
  intros s [->|Hs]%elem_of_cons; [apply list_elem_of_here|by apply list_elem_of_further, Hx].
Qed.

Lemma selected_app pre post : ∀ copied,
  (selected copied (pre ++ post)).1 = (selected (selected copied pre).1 post).1.
Proof.
  induction pre as [|src pre IH]; intros copied; cbn [app selected]; [done|].
  destruct (strstr (joined copied) src || has_ext src ".bin"); [apply IH|].
  destruct (copyable src); [apply IH|]. simpl. apply IH.
Qed.

Lemma selected_ok srcs : ∀ copied, (∀ s, s ∈ srcs → copyable s = true) → (selected copied srcs).2 = true.
Proof.
  induction srcs as [|src srcs IH]; intros copied H; cbn [selected]; [done|].
  assert (∀ s, s ∈ srcs → copyable s = true) by (intros s Hs; by apply H, list_elem_of_further).
  destruct (strstr (joined copied) src || has_ext src ".bin"); [by apply IH|].
  rewrite (H src) by apply list_elem_of_here. by apply IH.
Qed.

(** Nothing else is left out. *)
Lemma selected_complete srcs src : ∀ copied,
  src ∈ srcs → copyable src = true →
  let l := (selected copied srcs).1 in src ∈ l ∨ has_ext src ".bin" = true ∨ strstr (joined l) src = true.
Proof.
  induction srcs as [|x srcs IH]; intros copied Hs Hc; [by apply elem_of_nil in Hs|].
  apply elem_of_cons in Hs as [->|Hs]; cbn [selected].
  - assert (∀ c, strstr (joined c) x = true → strstr (joined (selected c srcs).1) x = true) as Hkeep.
    { intros c H. destruct (selected_extends srcs c) as (y & -> & _). clear -H.
      induction y as [|z y IH] using rev_ind; [by rewrite app_nil_r|].
      rewrite app_assoc, joined_snoc. by apply strstr_app_r. }
    destruct (strstr (joined copied) x) eqn:E; [right; right; by apply Hkeep|].
    destruct (has_ext x ".bin"); [by right; left|]. rewrite Hc. cbn [orb]. left.
    destruct (selected_extends srcs (copied ++ [x])) as (y & -> & _). rewrite !elem_of_app.
    left. right. apply list_elem_of_here.
  - destruct (strstr (joined copied) x || has_ext x ".bin"); [by apply IH|].
    destruct (copyable x); [by apply IH|]. simpl. by apply IH.
Qed.

(** A name within one that has been copied is left out. *)
Lemma selected_not_within srcs s n : ∀ copied,
  s ∈ copied → strstr s n = true → n ∉ copied → n ∉ (selected copied srcs).1.
Proof.
  induction srcs as [|x srcs IH]; intros copied Hs Hn Hnot; cbn [selected]; [done|].
  destruct (strstr (joined copied) x) eqn:E; cbn [orb]; [by apply IH|].
  destruct (has_ext x ".bin"); [by apply IH|]. destruct (copyable x); [|by apply IH].
  apply IH; [apply elem_of_app; by left|done|]. rewrite elem_of_app, list_elem_of_singleton.
  intros [?| ->]; [done|]. by rewrite (joined_within _ _ _ Hs Hn) in E.
Qed.
End Selection.

(** ** The loop copies them *)

Section Copy.
Context (w0 : world) (path : string) (all : list string).
Context (Hp1 : path ≠ ""%string) (Hp2 : path ≠ "/"%string) (Hp3 : strlen path < 128).
Context (Hdisj : ∀ s s', s ∈ all → s' ∈ all → s' ≠ path +:+ s ∧ ¬ above (path +:+ s) s').
Context (Hnest : ∀ s s', s ∈ all → s' ∈ all → ¬ above s s').

(** The mapped files are as they were, the copies made so far have their contents,
    and no other regular file has appeared, changed or gone. *)
Record copying (w : world) (copied : list string) : Prop := {
  cy_faults : w_faults w = [];
  cy_all : ∀ s, s ∈ copied → s ∈ all;
  cy_kept : ∀ s, s ∈ all → w_fs w !! s = w_fs w0 !! s;
  cy_have : ∀ s, s ∈ copied → w_fs w !! (path +:+ s) = Some (Reg (contents w0 s));
  cy_dirs : ∀ s, s ∈ all → s ∉ copied → w_fs w !! (path +:+ s) = Some Dir ↔ w_fs w0 !! (path +:+ s) = Some Dir;
  cy_frame : ∀ k d, (∀ s, s ∈ copied → k ≠ path +:+ s) → w_fs w !! k = Some (Reg d) ↔ w_fs w0 !! k = Some (Reg d);
}.

(** The directories on the way to a copy are no mapped files and no places of copies. *)
Lemma copying_grows w w' copied src :
  src ∈ all → grows (above (path +:+ src)) w w' → copying w copied → copying w' copied.
Proof.
  intros Hsrc Hg [H1 H2 H3 H4 H5 H6]. split; [apply Hg|done|..].
  - intros s Hs. rewrite (grows_elsewhere _ _ _ _ Hg); [auto|]. by apply Hdisj.
  - intros s Hs. apply (grows_reg _ _ _ _ _ Hg). auto.
  - intros s Hs Hn. rewrite (grows_elsewhere _ _ _ _ Hg); [auto|].
    intros [r Hr]. rewrite string_app_assoc in Hr. apply string_app_inj in Hr. apply (Hnest src s); [done..|]. by exists r.
  - intros k d Hk. rewrite (grows_reg _ _ _ _ _ Hg). auto.
Qed.

(** One file that is not skipped. *)
Lemma copy_one w copied src :
  copying w copied → src ∈ all → src ∉ copied →
  ∃ w', cp_ w src (path +:+ src) = Ret (if copyable (w_fs w0) path src then 0 else -1, w') ∧
    copying w' (if copyable (w_fs w0) path src then copied ++ [src] else copied).
Proof.
  intros [H1 H2 H3 H4 H5 H6] Hin Hnew. destruct (Hdisj src src Hin Hin) as [Hne _].
  destruct (cp_ok w src (path +:+ src) H1 Hne) as (r & w' & E & Hf & Hcase). rewrite E. exists w'.
  assert (contents w src = contents w0 src) as Ec by (unfold contents; by rewrite H3).
  rewrite (H3 _ Hin) in Hcase. unfold copyable. destruct Hcase as [(-> & Hfs & [i Hi] & Hnd)|(-> & Hfs & Hwhy)].
  - rewrite Hi. rewrite (H5 _ Hin Hnew) in Hnd.
    assert (match w_fs w0 !! (path +:+ src) with Some Dir => false | _ => true end = true) as ->
      by (destruct (w_fs w0 !! (path +:+ src)) as [[|]|]; done).
    split; [done|]. split; [done|..].
    + intros s [Hs|Hs]%elem_of_app; [by apply H2|]. by apply list_elem_of_singleton in Hs as ->.
    + intros s Hs. rewrite Hfs, lookup_insert_ne; [by apply H3|]. intros Heq. by destruct (Hdisj src s Hin Hs) as [[] _].
    + intros s Hs. rewrite Hfs. destruct (decide (s = src)) as [->|Hd]; [by rewrite lookup_insert_eq, Ec|].
      rewrite lookup_insert_ne by (intros ?%string_app_inj; congruence). apply H4.
      apply elem_of_app in Hs as [Hs|Hs]; [done|]. by apply list_elem_of_singleton in Hs.
    + intros s Hs Hn. rewrite elem_of_app, list_elem_of_singleton in Hn. rewrite Hfs, lookup_insert_ne; [auto|].
      intros ?%string_app_inj. subst. by destruct Hn; right.
    + intros k d Hk. rewrite Hfs, lookup_insert_ne; [|].
      * apply H6. intros s Hs. apply Hk, elem_of_app. by left.
      * intros <-. apply (Hk src); [|done]. apply elem_of_app. right. apply list_elem_of_here.
  - assert (match w_fs w0 !! src, w_fs w0 !! (path +:+ src) with None, _ | _, Some Dir => false | _, _ => true end = false) as ->.
    { destruct Hwhy as [->|Hd]; [done|]. apply (H5 _ Hin Hnew) in Hd. rewrite Hd. by destruct (w_fs w0 !! src). }
    split; [done|]. by split; rewrite ?Hfs.
Qed.

Lemma strlen_joined copied src : strlen (joined (copied ++ [src])) = strlen (joined copied) + 1 + strlen src.
Proof. rewrite joined_snoc, !strlen_app. change (strlen ":") with 1. lia. Qed.

Lemma copy_loop_ok lines : ∀ w copied ret,
  Forall (fun l => strlen l <= 255) lines → (∀ s, s ∈ omap line_source lines → s ∈ all) →
  strlen (joined copied) + total_length (omap line_source lines) + 1 <= MAX_PATH_LENGTH * MAX_UNIQUE_PATHS →
  copying w copied →
  let sel := selected (w_fs w0) path copied (omap line_source lines) in
  ∃ w', copy_loop w path lines (joined copied) ret = Ret (if sel.2 then ret else -1, w') ∧ copying w' sel.1.
Proof.
  induction lines as [|line lines IH]; intros w copied ret Hlen Hin Hcap Hcy; cbn [copy_loop].
  { by exists w. }
  apply Forall_cons in Hlen as [Hl Hlen]. csimpl in *.
  destruct (line_source line) as [src|] eqn:Es; [|by apply IH].
  pose proof (line_source_spec _ _ Es) as [Hsl [r0 Hr0]]. cbn [selected total_length] in *.
  assert (0 <= strlen src) by (unfold strlen; lia).
  assert (src ∈ all) as Hsrc by (apply Hin, list_elem_of_here).
  assert (∀ s, s ∈ omap line_source lines → s ∈ all) as Hin' by (intros s Hs; by apply Hin, list_elem_of_further).
  destruct (strstr (joined copied) src) eqn:Est; cbn [orb]; [apply IH; try done; lia|].
  destruct (has_ext src ".bin"); [apply IH; try done; lia|].
  assert (strlen (path +:+ src) < MAX_PATH_LENGTH) as Hdst by (rewrite strlen_app; unfold MAX_PATH_LENGTH; lia).
  rewrite snprintf_fits by done.
  destruct (dir_of_spec path r0 Hp1 Hp2) as (dir & e & Hdir & Hd1 & Hd2 & Hd3 & Hd4). rewrite <- Hr0 in *. rewrite Hdir.
  destruct (mkdir_ok w dir e (cy_faults _ _ Hcy) Hd1 Hd2) as (w1 & -> & Hg); [lia|]. cbn [obind Z.eqb negb].
  rewrite <- Hd3 in Hg. pose proof (copying_grows _ _ _ _ Hsrc Hg Hcy) as Hcy1.
  assert (src ∉ copied) as Hnew.
  { intros Hs. by rewrite (joined_within _ _ _ Hs (strstr_refl src)) in Est. }
  destruct (copy_one w1 copied src Hcy1 Hsrc Hnew) as (w2 & -> & Hcy2). cbn [obind].
  destruct (copyable (w_fs w0) path src); cbn [Z.eqb negb].
  - unfold mark_copied. rewrite <- joined_snoc. pose proof (strlen_joined copied src) as Hjl.
    pose proof (total_length_pos (omap line_source lines)).
    destruct (Z.leb_spec (strlen (joined (copied ++ [src])) + 1) (MAX_PATH_LENGTH * MAX_UNIQUE_PATHS));
      [|lia]. cbn [obind]. apply IH; try done. lia.
  - destruct (IH w2 copied (-1)) as (w' & E & Hcy'); [done|done|lia|done|]. exists w'. split; [|done].
    rewrite E. cbn [snd]. by destruct (selected (w_fs w0) path copied (omap line_source lines)).2.
Qed.
End Copy.

(** The names in the memory map. *)
Definition sources (maps : list Z) : list string :=
  omap line_source (read_lines (String.length (text_of maps)) 255 (text_of maps)).

Section Mapped.
Context (w : world) (path : string) (maps : list Z).
Context (Hf : w_faults w = []) (Hp1 : path ≠ ""%string) (Hp2 : path ≠ "/"%string) (Hp3 : strlen path < 105).
Context (Hm : w_fs w !! (path +:+ "/maps") = Some (Reg maps)) (Hl : len maps <= 500000).
Context (Hdisj : ∀ s s', s ∈ sources maps → s' ∈ sources maps → s' ≠ path +:+ s ∧ ¬ above (path +:+ s) s').
Context (Hnest : ∀ s s', s ∈ sources maps → s' ∈ sources maps → ¬ above s s').

Lemma mapped_files_selected :
  let sel := selected (w_fs w) path [] (sources maps) in
  ∃ w', copy_mapped_files_ w path = Ret (if sel.2 then 0 else -1, w') ∧ copying w path (sources maps) w' sel.1.
Proof.
  unfold copy_mapped_files_.
  rewrite snprintf_fits by (rewrite strlen_app; unfold MAX_PATH_LENGTH; simpl; change (strlen "/maps") with 5; lia).
  unfold fopen_read, next_fault. rewrite Hf, bool_decide_eq_true_2 by eauto. cbn [negb].
  unfold contents at 1 2. rewrite Hm. change (Z.to_nat (MAX_LINE_LENGTH - 1)) with 255%nat.
  assert (strlen (text_of maps) = len maps) as Ht.
  { unfold strlen, text_of. f_equal. generalize maps. intros l. induction l; csimpl; [done|]. by f_equal. }
  destruct (read_lines_spec (String.length (text_of maps)) 255 (text_of maps)) as [Hlines Htot].
  apply (copy_loop_ok w path (sources maps) Hp1 Hp2 ltac:(lia) Hdisj Hnest _ w [] 0); [done|done| |].
  - change (joined []) with ""%string. rewrite strlen_nil. unfold MAX_PATH_LENGTH, MAX_UNIQUE_PATHS. lia.
  - split; try done; by intros s ?%elem_of_nil.
Qed.

(** C35: the mapped files are copied.  Let no call fail, the path of the trace
    directory fit its buffer, the memory map be shorter than 500000 bytes, no mapped
    file lie at or above the place of a copy, and none be a directory above another.
    Then [copy_mapped_files_] returns; its copies are exactly those of the reference
    selection [selected], a function of the file system at the start: each selected
    name has, below the trace directory, a file with the contents of the original,
    every other regular file is as it was and no other has appeared, and the result is
    0 if and only if every file that was tried could be copied.  The selection has
    every copyable name of the map but those that end in .bin and those that occur
    within the list of the names copied. *)
Theorem mapped_files_copied :
  let '(copied, ok) := selected (w_fs w) path [] (sources maps) in
  ∃ w', copy_mapped_files_ w path = Ret (if ok then 0 else -1, w') ∧
    (∀ src, src ∈ copied → w_fs w' !! (path +:+ src) = Some (Reg (contents w src))) ∧
    (∀ k d, (∀ src, src ∈ copied → k ≠ path +:+ src) →
       w_fs w' !! k = Some (Reg d) ↔ w_fs w !! k = Some (Reg d)) ∧
    (∀ src, src ∈ sources maps → copyable (w_fs w) path src = true →
       src ∈ copied ∨ has_ext src ".bin" = true ∨ strstr (joined copied) src = true).
Proof.
  pose proof mapped_files_selected as (w' & E & Hcy).
  pose proof (fun src => selected_complete (w_fs w) path (sources maps) src []) as Hall.
  destruct (selected (w_fs w) path [] (sources maps)) as [copied ok]. exists w'. split; [done|].
  split; [apply Hcy|]. split; [apply Hcy|done].
Qed.

(** C40: a mapped file whose path occurs within the path of a file copied earlier is
    taken for a duplicate and not copied, although the comment only speaks of
    duplicates and the result is 0 when all files can be copied.  Under the
    assumptions of [mapped_files_copied], let the path [s2] first appear in the map
    behind the lines [pre] for which [s1] has been selected, and let it be a part of
    [s1]: the place of its copy holds afterwards what it held before. *)
Theorem substring_not_copied pre post s1 s2 :
  sources maps = pre ++ post → s1 ∈ (selected (w_fs w) path [] pre).1 → s2 ∉ pre → strstr s1 s2 = true →
  ∃ ret w', copy_mapped_files_ w path = Ret (ret, w') ∧
    w_fs w' !! (path +:+ s1) = Some (Reg (contents w s1)) ∧
    (∀ d, w_fs w' !! (path +:+ s2) = Some (Reg d) ↔ w_fs w !! (path +:+ s2) = Some (Reg d)) ∧
    ((∀ s, s ∈ sources maps → copyable (w_fs w) path s = true) → ret = 0).
Proof.
  intros Hs H1 H2 H12. pose proof mapped_files_selected as (w' & E & Hcy).
  pose proof (selected_ok (w_fs w) path (sources maps) []) as Hok.
  assert (s2 ∉ (selected (w_fs w) path [] pre).1) as Hpre.
  { destruct (selected_extends (w_fs w) path pre []) as (x & -> & Hx). intros ?%Hx. done. }
  assert (s1 ∈ (selected (w_fs w) path [] (sources maps)).1) as Hs1.
  { rewrite Hs, selected_app. destruct (selected_extends (w_fs w) path post (selected (w_fs w) path [] pre).1) as (x & -> & _).
    apply elem_of_app. by left. }
  assert (s2 ∉ (selected (w_fs w) path [] (sources maps)).1) as Hs2.
  { rewrite Hs, selected_app. by apply (selected_not_within _ _ _ s1). }
  eexists _, w'. split; [exact E|]. split; [by apply Hcy|]. split.
  - intros d. apply Hcy. intros s Hin Heq. apply string_app_inj in Heq. by subst.
  - intros Hall. by rewrite Hok.
Qed.
End Mapped.

(** ** Once per process *)

Inductive self_event :=
| SelfInit (is_main : bool)
| SelfFini.

Fixpoint procmaps_run (c : config) (pid : Z) (evs : list self_event) (s : bool * world) :
    outcome (bool * world) :=
  match evs with
  | [] => Ret s
  | ev :: evs =>
      let! s := match ev with
                | SelfInit is_main => procmaps_self_init c pid is_main s.1 s.2
                | SelfFini => procmaps_self_fini c pid s.1 s.2
                end in
      procmaps_run c pid evs s
  end.

Definition triggers (ev : self_event) : bool :=
  match ev with SelfInit is_main => negb is_main | SelfFini => true end.

Lemma procmaps_done c pid evs w : procmaps_run c pid evs (true, w) = Ret (true, w).
Proof. induction evs as [|[is_main|] evs IH]; simpl; [done|exact IH|exact IH]. Qed.

Lemma procmaps_copy c pid evs w :
  (let! s := copy_maps_and_mapped_files_ c pid w in procmaps_run c pid evs s) =
  copy_maps_and_mapped_files_ c pid w.
Proof.
  unfold copy_maps_and_mapped_files_. destruct (streq _ _); [apply procmaps_done|].
  destruct (copy_proc_maps_ w pid _) as [[r1 w1]|u|]; [|done..]. cbn [obind].
  destruct (copy_mapped_files_ w1 _) as [[r2 w2]|u|]; [|done..]. apply procmaps_done.
Qed.

(** The copy happens at most once.  Over any sequence of thread starts and ends
    in a process, the two subscribers together do what a single call of
    [copy_maps_and_mapped_files_] does if some event is not the start of the main
    thread, and nothing otherwise or when COLDTRACE_DISABLE_COPY is set. *)
Theorem copied_once c pid env evs w :
  procmaps_run c pid evs (procmaps_init env false, w) =
  if decide (is_Some (env !! "COLDTRACE_DISABLE_COPY"%string)) then Ret (true, w)
  else if existsb triggers evs then copy_maps_and_mapped_files_ c pid w else Ret (false, w).
Proof.
  unfold procmaps_init. destruct (decide _); [apply procmaps_done|].
  induction evs as [|[[]|] evs IH]; [done|exact IH|apply procmaps_copy|apply procmaps_copy].
Qed.

(** A library and the versioned name it is a prefix of, in this order. *)
Definition demo_maps : list Z :=
  (fun c => Z.of_N (N_of_ascii c)) <$>
    String.list_ascii_of_string ("7f00-7f10 r-xp 0 08:01 7 /lib/c.so.6" +:+ String newline
      ("7f20-7f30 r-xp 0 08:01 9 /lib/c.so" +:+ String newline
      ("7f40-7f50 r-xp 0 08:01 8 /lib/m.so" +:+ String newline ""))).

Definition demo_mapped : world :=
  World (<["/lib/c.so.6"%string := Reg [1; 2]]> (<["/lib/c.so"%string := Reg [3]]>
    (<["/lib/m.so"%string := Reg [4; 5]]> (<["t/maps"%string := Reg demo_maps]>
      {["t"%string := Dir]})))) [] [].

Lemma demo_sources : sources demo_maps = ["/lib/c.so.6"; "/lib/c.so"; "/lib/m.so"]%string.
Proof. vm_compute. reflexivity. Qed.

Lemma demo_apart s s' :
  s ∈ sources demo_maps → s' ∈ sources demo_maps → s' ≠ "t" +:+ s ∧ ¬ above ("t" +:+ s) s' ∧ ¬ above s s'.
Proof.
  rewrite demo_sources, !elem_of_cons, !elem_of_nil. intros Hs Hs'.
  destruct Hs as [->|[->|[->|[]]]]; destruct Hs' as [->|[->|[->|[]]]];
    (split; [intros Hr; vm_compute in Hr; discriminate Hr|]; split; intros [r Hr]; vm_compute in Hr; discriminate Hr).
Qed.

Lemma mapped_files_copied_witness :
  ∃ w', copy_mapped_files_ demo_mapped "t" = Ret (0, w') ∧
    w_fs w' !! "t/lib/c.so.6"%string = Some (Reg [1; 2]) ∧ w_fs w' !! "t/lib/m.so"%string = Some (Reg [4; 5]).
Proof.
  pose proof (mapped_files_copied demo_mapped "t" demo_maps) as H.
  assert (selected (w_fs demo_mapped) "t" [] (sources demo_maps) = (["/lib/c.so.6"; "/lib/m.so"]%string, true)) as Es
    by (vm_compute; reflexivity).
  rewrite Es in H. destruct H as (w' & E & Hc & _).
  - reflexivity.
  - discriminate.
  - discriminate.
  - reflexivity.
  - vm_compute. reflexivity.
  - vm_compute. discriminate.
  - intros s s' Hs Hs'. destruct (demo_apart s s' Hs Hs') as (H1 & H2 & _). split; [exact H1|exact H2].
  - intros s s' Hs Hs'. apply (demo_apart s s' Hs Hs').
  - exists w'. split; [exact E|]. split.
    + apply (Hc "/lib/c.so.6"%string). rewrite !elem_of_cons. left. reflexivity.
    + apply (Hc "/lib/m.so"%string). rewrite !elem_of_cons. right. left. reflexivity.
Defined.

(** /lib/c.so is missing because /lib/c.so.6 came first. *)
Lemma substring_not_copied_witness :
  ∃ w', copy_mapped_files_ demo_mapped "t" = Ret (0, w') ∧
    w_fs demo_mapped !! "/lib/c.so"%string = Some (Reg [3]) ∧
    ∀ d, w_fs w' !! "t/lib/c.so"%string ≠ Some (Reg d).
Proof.
  destruct (substring_not_copied demo_mapped "t" demo_maps) with (pre := ["/lib/c.so.6"%string])
    (post := ["/lib/c.so"; "/lib/m.so"]%string) (s1 := "/lib/c.so.6"%string) (s2 := "/lib/c.so"%string)
    as (ret & w' & E & _ & Hd & Hr).
  - reflexivity.
  - discriminate.
  - discriminate.
  - reflexivity.
  - vm_compute. reflexivity.
  - vm_compute. discriminate.
  - intros s s' Hs Hs'. destruct (demo_apart s s' Hs Hs') as (H1 & H2 & _). split; [exact H1|exact H2].
  - intros s s' Hs Hs'. apply (demo_apart s s' Hs Hs').
  - apply demo_sources.
  - vm_compute. apply elem_of_cons. left. reflexivity.
  - rewrite elem_of_cons. intros [H|H]; [discriminate H|]. destruct (not_elem_of_nil _ H).
  - vm_compute. reflexivity.
  - assert (ret = 0) as ->.
    { apply Hr. rewrite demo_sources. intros s Hs. rewrite !elem_of_cons, elem_of_nil in Hs.
      destruct Hs as [->|[->|[->|[]]]]; vm_compute; reflexivity. }
    exists w'. split; [exact E|]. split; [vm_compute; reflexivity|].
    intros d H. apply Hd in H. vm_compute in H. discriminate H.
Defined.
