(* ===== verification/Codec.v ===== *)
(** * The block compressor as the writer sees it (deps/lz4/lz4.h)

    [LZ4_compressBound] is modelled; compression and decompression are the
    operations of a class whose laws are what lz4.h documents.  The theorems of
    the writer and of the reader are proved against the class; [Lz4] gives the
    instance, the model of lz4.c, and proves the laws of it. *)

From stdpp Require Import base list numbers.
From Stdlib Require Import ZArith Lia.
From S2P Require Import Prelude.

Definition LZ4_MAX_INPUT_SIZE : Z := 0x7E000000.

(** [LZ4_COMPRESSBOUND(isize)] with an [int] argument, in [int] arithmetic. *)
Definition LZ4_compressBound (isize : Z) : Z :=
  if LZ4_MAX_INPUT_SIZE <? u32 isize then 0 else isize + Z.quot isize 255 + 16.

(** [LZ4_compress_fast] returns the bytes it wrote to [dst]; none when it fails
    and returns 0.  [LZ4_decompress_safe] returns the decoded bytes, or nothing
    when it reports an error. *)
Class Lz4 := {
  LZ4_compress_fast : ∀ (src : list Z) (dstCapacity acceleration : Z), list Z;
  LZ4_decompress_safe : ∀ (src : list Z) (dstCapacity : Z), option (list Z);
}.

Class Lz4Laws (L : Lz4) : Prop := {
  (** never more than [dstCapacity] bytes are written *)
  lz4_fits : ∀ src cap acc,
    0 <= cap → len (LZ4_compress_fast src cap acc) <= cap;
  (** "Compression is guaranteed to succeed if dstCapacity >= LZ4_compressBound(srcSize)" *)
  lz4_succeeds : ∀ src cap acc,
    len src <= LZ4_MAX_INPUT_SIZE → LZ4_compressBound (len src) <= cap →
    LZ4_compress_fast src cap acc ≠ [];
  (** decompression restores the input *)
  lz4_roundtrip : ∀ src cap acc,
    bytesP src → LZ4_compress_fast src cap acc ≠ [] →
    LZ4_decompress_safe (LZ4_compress_fast src cap acc) (len src) = Some src;
  (** a block expands by less than 255 to 1 *)
  lz4_ratio : ∀ src cap acc,
    LZ4_compress_fast src cap acc ≠ [] →
    len src <= 255 * len (LZ4_compress_fast src cap acc);
  lz4_bytes : ∀ src cap acc, bytesP src → bytesP (LZ4_compress_fast src cap acc);
  lz4_decoded : ∀ src cap out, LZ4_decompress_safe src cap = Some out → bytesP out;
}.

Lemma compressBound_spec n :
  0 <= n <= LZ4_MAX_INPUT_SIZE → LZ4_compressBound n = n + n / 255 + 16.
Proof.
  unfold LZ4_compressBound, LZ4_MAX_INPUT_SIZE. intros H. rewrite u32_id by ulia.
  destruct (Z.ltb_spec 2113929216 n); [lia|]. rewrite Z.quot_div_nonneg by lia. lia.
Qed.

(** The bound grows with the input, so a buffer sized for the largest fragment
    is large enough for every fragment. *)
Lemma compressBound_mono a b :
  0 <= a <= b → b <= LZ4_MAX_INPUT_SIZE → LZ4_compressBound a <= LZ4_compressBound b.
Proof.
  intros. rewrite !compressBound_spec by lia.
  pose proof (Z.div_le_mono a b 255 ltac:(lia) ltac:(lia)). lia.
Qed.
