(* ===== verification/Indirect.v ===== *)
(** * The libc indirection (include/coldtrace/libc.h, deps/lz4/libc.h)

    The tracer intercepts [malloc], [memcpy], [mmap], ... of the traced program,
    so it must not call these symbols itself.  Its wrappers look the real function
    up on the first use and cache the address in a static variable that all
    threads share without a lock.

    A wrapper is a small program over atomic loads and stores of its cell, symbol
    lookups and calls.  Threads interleave arbitrarily.  A relaxed view of the
    cell is allowed: an acquire load returns NULL or any value stored so far, in
    particular NULL after another thread has stored the address. *)

From stdpp Require Import base list numbers strings gmap relations.
From Stdlib Require Import ZArith Lia.
From S2P Require Import Prelude.

(** ** Programs *)

(** [real_sym] of Dice, and [dlsym(RTLD_NEXT, .)]. *)
Inductive resolver := RealSym | DlsymNext.

#[global] Instance resolver_dec : EqDecision resolver.
Proof. solve_decision. Defined.

#[global] Instance resolver_countable : Countable resolver :=
  inj_countable' (fun r => match r with RealSym => true | DlsymNext => false end)
    (fun b : bool => if b then RealSym else DlsymNext) ltac:(by intros []).

(** The variable [cached_] of one wrapper: the wrappers are [static inline], so
    each translation unit has its own. *)
Definition site : Type := string * (resolver * string).

Inductive prog :=
| Return
| Load (s : site) (k : Z → prog)
| Lookup (how : resolver) (name : string) (k : Z → prog)
| Store (s : site) (v : Z) (k : prog)
| Call (fn : Z) (args : list Z) (k : Z → prog).

(** ** The wrappers *)

Section Wrappers.
Context (tu : string).

Definition COLDTRACE_REAL_ (name : string) (k : Z → prog) : prog :=
  let cached_ := (tu, (RealSym, name)) in
  Load cached_ (fun p_ =>
    if p_ =? 0 then Lookup RealSym name (fun p_ => Store cached_ p_ (k p_)) else k p_).

Definition COLDTRACE_LZ4_REAL_ (name : string) (k : Z → prog) : prog :=
  let cached_ := (tu, (DlsymNext, name)) in
  Load cached_ (fun p_ =>
    if p_ =? 0 then Lookup DlsymNext name (fun p_ => Store cached_ p_ (k p_)) else k p_).

Definition coldtrace_malloc (size : Z) (k : Z → prog) : prog :=
  COLDTRACE_REAL_ "malloc" (fun fn => Call fn [size] k).
Definition coldtrace_calloc (number size : Z) (k : Z → prog) : prog :=
  COLDTRACE_REAL_ "calloc" (fun fn => Call fn [number; size] k).
Definition coldtrace_realloc (ptr size : Z) (k : Z → prog) : prog :=
  COLDTRACE_REAL_ "realloc" (fun fn => Call fn [ptr; size] k).
Definition coldtrace_free (ptr : Z) (k : Z → prog) : prog :=
  COLDTRACE_REAL_ "free" (fun fn => Call fn [ptr] k).
Definition coldtrace_memcpy (dest src n : Z) (k : Z → prog) : prog :=
  COLDTRACE_REAL_ "memcpy" (fun fn => Call fn [dest; src; n] k).
Definition coldtrace_memmove (dest src n : Z) (k : Z → prog) : prog :=
  COLDTRACE_REAL_ "memmove" (fun fn => Call fn [dest; src; n] k).
Definition coldtrace_memset (ptr value n : Z) (k : Z → prog) : prog :=
  COLDTRACE_REAL_ "memset" (fun fn => Call fn [ptr; value; n] k).
Definition coldtrace_mmap (addr length prot flags fd offset : Z) (k : Z → prog) : prog :=
  COLDTRACE_REAL_ "mmap" (fun fn => Call fn [addr; length; prot; flags; fd; offset] k).
Definition coldtrace_munmap (addr length : Z) (k : Z → prog) : prog :=
  COLDTRACE_REAL_ "munmap" (fun fn => Call fn [addr; length] k).

Definition lz4_real_memcpy (dest src n : Z) (k : Z → prog) : prog :=
  COLDTRACE_LZ4_REAL_ "memcpy" (fun fn => Call fn [dest; src; n] k).
Definition lz4_real_memmove (dest src n : Z) (k : Z → prog) : prog :=
  COLDTRACE_LZ4_REAL_ "memmove" (fun fn => Call fn [dest; src; n] k).
Definition lz4_real_memset (ptr value n : Z) (k : Z → prog) : prog :=
  COLDTRACE_LZ4_REAL_ "memset" (fun fn => Call fn [ptr; value; n] k).
End Wrappers.

(** ** Clients

    What the tracer and LZ4 ask for, without the indirection. *)
Inductive request :=
| R_malloc (size : Z)
| R_calloc (number size : Z)
| R_realloc (ptr size : Z)
| R_free (ptr : Z)
| R_memcpy (dest src n : Z)
| R_memmove (dest src n : Z)
| R_memset (ptr value n : Z)
| R_mmap (addr length prot flags fd offset : Z)
| R_munmap (addr length : Z)
| R_lz4_memcpy (dest src n : Z)
| R_lz4_memmove (dest src n : Z)
| R_lz4_memset (ptr value n : Z).

Definition through (tu : string) (r : request) : (Z → prog) → prog :=
  match r with
  | R_malloc size => coldtrace_malloc tu size
  | R_calloc number size => coldtrace_calloc tu number size
  | R_realloc ptr size => coldtrace_realloc tu ptr size
  | R_free ptr => coldtrace_free tu ptr
  | R_memcpy dest src n => coldtrace_memcpy tu dest src n
  | R_memmove dest src n => coldtrace_memmove tu dest src n
  | R_memset ptr value n => coldtrace_memset tu ptr value n
  | R_mmap addr length prot flags fd offset => coldtrace_mmap tu addr length prot flags fd offset
  | R_munmap addr length => coldtrace_munmap tu addr length
  | R_lz4_memcpy dest src n => lz4_real_memcpy tu dest src n
  | R_lz4_memmove dest src n => lz4_real_memmove tu dest src n
  | R_lz4_memset ptr value n => lz4_real_memset tu ptr value n
  end.

(** The C function that is meant, and its arguments. *)
Definition meant (r : request) : resolver * string :=
  match r with
  | R_malloc _ => (RealSym, "malloc"%string)
  | R_calloc _ _ => (RealSym, "calloc"%string)
  | R_realloc _ _ => (RealSym, "realloc"%string)
  | R_free _ => (RealSym, "free"%string)
  | R_memcpy _ _ _ => (RealSym, "memcpy"%string)
  | R_memmove _ _ _ => (RealSym, "memmove"%string)
  | R_memset _ _ _ => (RealSym, "memset"%string)
  | R_mmap _ _ _ _ _ _ => (RealSym, "mmap"%string)
  | R_munmap _ _ => (RealSym, "munmap"%string)
  | R_lz4_memcpy _ _ _ => (DlsymNext, "memcpy"%string)
  | R_lz4_memmove _ _ _ => (DlsymNext, "memmove"%string)
  | R_lz4_memset _ _ _ => (DlsymNext, "memset"%string)
  end.

Definition arguments (r : request) : list Z :=
  match r with
  | R_malloc size => [size]
  | R_calloc number size => [number; size]
  | R_realloc ptr size | R_munmap ptr size => [ptr; size]
  | R_free ptr => [ptr]
  | R_memcpy a b n | R_memmove a b n | R_memset a b n
  | R_lz4_memcpy a b n | R_lz4_memmove a b n | R_lz4_memset a b n => [a; b; n]
  | R_mmap addr length prot flags fd offset => [addr; length; prot; flags; fd; offset]
  end.

(** A client goes on with the result of each call. *)
Inductive client :=
| Finished
| Invoke (tu : string) (r : request) (k : Z → client).

Fixpoint compile (c : client) : prog :=
  match c with
  | Finished => Return
  | Invoke tu r k => through tu r (fun v => compile (k v))
  end.

(** ** Execution *)

(** The dynamic linker: the address of the next definition of a symbol, after
    the interposed one. *)
Class Linker := resolve : resolver → string → Z.

Class LinkerOk (K : Linker) : Prop :=
  resolve_found : ∀ r, resolve (meant r).1 (meant r).2 ≠ 0.

(** One call that was made: thread, function, arguments, result. *)
Definition made : Type := Z * Z * list Z * Z.

Section Run.
Context `{K : Linker}.

Record state := State {
  st_cells : gmap site (list Z);
  st_progs : gmap Z prog;
  st_made : list made;
}.

(** The values stored in a cell; it is NULL before. *)
Definition stored (st : state) (s : site) : list Z := default [] (st_cells st !! s).

Definition set_prog (t : Z) (p : prog) (st : state) : state :=
  State (st_cells st) (<[t := p]> (st_progs st)) (st_made st).

(** The steps that only deal with the cell. *)
Inductive internal : state → state → Prop :=
| step_load t s k v st :
    st_progs st !! t = Some (Load s k) → v = 0 ∨ v ∈ stored st s →
    internal st (set_prog t (k v) st)
| step_lookup t how name k st :
    st_progs st !! t = Some (Lookup how name k) →
    internal st (set_prog t (k (resolve how name)) st)
| step_store t s v k st :
    st_progs st !! t = Some (Store s v k) →
    internal st (State (<[s := stored st s ++ [v]]> (st_cells st)) (<[t := k]> (st_progs st)) (st_made st)).

(** The call itself; its result is up to the function. *)
Inductive calls : state → state → Prop :=
| step_call t fn args k v st :
    st_progs st !! t = Some (Call fn args k) →
    calls st (State (st_cells st) (<[t := k v]> (st_progs st)) (st_made st ++ [(t, fn, args, v)])).

Definition step (a b : state) : Prop := internal a b ∨ calls a b.

(** The specification: clients that call the real functions directly. *)
Record direct := Direct {
  di_clients : gmap Z client;
  di_made : list made;
}.

Inductive direct_step : direct → direct → Prop :=
| direct_call t tu r k v d :
    di_clients d !! t = Some (Invoke tu r k) →
    direct_step d (Direct (<[t := k v]> (di_clients d))
      (di_made d ++ [(t, resolve (meant r).1 (meant r).2, arguments r, v)])).

Definition start (cs : gmap Z client) : state := State ∅ (compile <$> cs) [].
End Run.

(** ** The wrappers call what is meant *)

(** Every wrapper has the same shape. *)
Lemma through_eq tu r k :
  through tu r k =
  Load (tu, meant r) (fun p =>
    if p =? 0 then Lookup (meant r).1 (meant r).2 (fun p => Store (tu, meant r) p (Call p (arguments r) k))
    else Call p (arguments r) k).
Proof. by destruct r. Qed.

Section Refine.
Context `{K : Linker}.

Definition real (r : request) : Z := resolve (meant r).1 (meant r).2.

(** How far a thread is in the request of its client. *)
Inductive stage : client → prog → Prop :=
| stage_finished : stage Finished Return
| stage_load tu r k : stage (Invoke tu r k) (through tu r (fun v => compile (k v)))
| stage_lookup tu r k :
    stage (Invoke tu r k)
      (Lookup (meant r).1 (meant r).2
         (fun p => Store (tu, meant r) p (Call p (arguments r) (fun v => compile (k v)))))
| stage_store tu r k :
    stage (Invoke tu r k)
      (Store (tu, meant r) (real r) (Call (real r) (arguments r) (fun v => compile (k v))))
| stage_call tu r k : stage (Invoke tu r k) (Call (real r) (arguments r) (fun v => compile (k v))).

Lemma stage_compile c : stage c (compile c).
Proof. destruct c; constructor. Qed.

(** The cells only ever hold the address that belongs to them. *)
Definition cells_ok (st : state) : Prop :=
  ∀ s v, v ∈ stored st s → v = resolve s.2.1 s.2.2.

Record agrees (st : state) (d : direct) : Prop := {
  ag_made : st_made st = di_made d;
  ag_threads : map_Forall2 (fun _ => stage) (di_clients d) (st_progs st);
  ag_cells : cells_ok st;
}.

Lemma agrees_start cs : agrees (start cs) (Direct cs []).
Proof.
  split; [done| |].
  - intros t. simpl. rewrite lookup_fmap. destruct (cs !! t); constructor. apply stage_compile.
  - intros s v Hv. unfold stored in Hv. simpl in Hv. rewrite lookup_empty in Hv. by apply not_elem_of_nil in Hv.
Qed.

(** The client of a running thread. *)
Lemma agrees_thread st d t p :
  agrees st d → st_progs st !! t = Some p → ∃ c, di_clients d !! t = Some c ∧ stage c p.
Proof.
  intros Ha Hp. pose proof (ag_threads _ _ Ha t) as H. rewrite Hp in H.
  inversion H as [c ? Hs Ec|]; subst. eauto.
Qed.

Lemma agrees_prog st d t c p cells :
  agrees st d → di_clients d !! t = Some c → stage c p →
  (∀ s v, v ∈ default [] (cells !! s) → v = resolve s.2.1 s.2.2) →
  agrees (State cells (<[t := p]> (st_progs st)) (st_made st)) d.
Proof.
  intros [Hm Ht Hc] Hct Hs Hcells. split; [done| |done]. simpl. rewrite <- (insert_id _ _ _ Hct).
  by apply map_Forall2_insert_2.
Qed.

Lemma internal_agrees st st' d : agrees st d → internal st st' → agrees st' d.
Proof.
  intros Ha Hi. destruct Hi as [t s k v st Hp Hv|t how name k st Hp|t s v k st Hp];
    destruct (agrees_thread _ _ _ _ Ha Hp) as (c & Hc & Hs).
  - eapply agrees_prog; [done..| |apply Ha]. inversion Hs as [|tu r k' Ec Ek| | |]; subst.
    rewrite through_eq in Ek. injection Ek as <- <-.
    destruct (Z.eqb_spec v 0); [constructor|]. destruct Hv as [->|Hv]; [done|].
    rewrite (ag_cells _ _ Ha _ _ Hv). constructor.
  - eapply agrees_prog; [done..| |apply Ha].
    inversion Hs as [|tu r k' Ec Ek|tu r k' Ec Ek| |]; subst; [by rewrite through_eq in Ek|].
    apply (stage_store tu r k').
  - inversion Hs as [|tu r k' Ec Ek| |tu r k' Ec Ek|]; subst; [by rewrite through_eq in Ek|].
    eapply agrees_prog; [done..|constructor|]. intros s v Hv.
    destruct (decide (s = (tu, meant r))) as [->|Hne].
    + rewrite lookup_insert_eq in Hv. simpl in Hv. apply elem_of_app in Hv as [Hv|Hv].
      * by apply (ag_cells _ _ Ha).
      * by apply list_elem_of_singleton in Hv.
    + rewrite lookup_insert_ne in Hv by done. by apply (ag_cells _ _ Ha).
Qed.

Lemma calls_agrees st st' d :
  agrees st d → calls st st' → ∃ d', direct_step d d' ∧ agrees st' d'.
Proof.
  intros Ha Hi. destruct Hi as [t fn args k v st Hp].
  destruct (agrees_thread _ _ _ _ Ha Hp) as (c & Hc & Hs).
  inversion Hs as [|tu r k' Ec Ek| | |tu r k' Ec Ek]; subst; [by rewrite through_eq in Ek|].
  eexists. split; [by econstructor|]. split; simpl.
  - by rewrite (ag_made _ _ Ha).
  - apply map_Forall2_insert_2; [apply stage_compile|apply Ha].
  - apply Ha.
Qed.

Lemma run_agrees st st' d :
  agrees st d → rtc step st st' → ∃ d', rtc direct_step d d' ∧ agrees st' d'.
Proof.
  intros Ha H. revert d Ha. induction H as [st|st st1 st2 [Hi|Hc] _ IH]; intros d Ha.
  - by exists d.
  - apply IH. by eapply internal_agrees.
  - destruct (calls_agrees _ _ _ Ha Hc) as (d1 & Hd & Ha1). destruct (IH d1 Ha1) as (d2 & Hd2 & Ha2).
    exists d2. split; [by eapply rtc_l|done].
Qed.

(** A thread that has not returned can always go on. *)
Lemma thread_steps st t p : st_progs st !! t = Some p → p ≠ Return → ∃ st', step st st'.
Proof.
  intros Hp Hne. destruct p as [|s k|how name k|s v k|fn args k]; [done|..].
  - eexists. left. eapply step_load; [done|by left].
  - eexists. left. by eapply step_lookup.
  - eexists. left. by eapply step_store.
  - eexists. right. by eapply (step_call t fn args k 0).
Qed.

(** Calls of direct clients have a target. *)
Lemma direct_found `{!LinkerOk K} d d' :
  rtc direct_step d d' → Forall (fun m : made => m.1.1.2 ≠ 0) (di_made d) →
  Forall (fun m : made => m.1.1.2 ≠ 0) (di_made d').
Proof.
  induction 1 as [d|d d1 d2 Hs _ IH]; [done|]. intros H. apply IH. destruct Hs. simpl.
  apply Forall_app. split; [done|]. constructor; [|constructor]. apply resolve_found.
Qed.

(** ** Looking up ends *)

Definition left_of (p : prog) : nat :=
  match p with Load _ _ => 3 | Lookup _ _ _ => 2 | Store _ _ _ => 1 | _ => 0 end.

Definition add_left (_ : Z) (p : prog) (n : nat) : nat := (left_of p + n)%nat.
Definition total_left (m : gmap Z prog) : nat := map_fold add_left 0%nat m.

Lemma total_left_new m t p :
  m !! t = None → total_left (<[t := p]> m) = (left_of p + total_left m)%nat.
Proof. apply (map_fold_insert_L add_left). intros. unfold add_left. lia. Qed.

Lemma total_left_insert m t p p' :
  m !! t = Some p → (total_left (<[t := p']> m) + left_of p = total_left m + left_of p')%nat.
Proof.
  intros Hp. pose proof (lookup_delete_eq m t) as Hd.
  pose proof (total_left_new (delete t m) t p Hd) as H1.
  pose proof (total_left_new (delete t m) t p' Hd) as H2. rewrite insert_delete_eq in H1, H2.
  rewrite (insert_id _ _ _ Hp) in H1. lia.
Qed.

Lemma total_left_bound m : (total_left m ≤ 3 * size m)%nat.
Proof.
  induction m as [|t p m Hn IH] using map_ind; [done|].
  rewrite total_left_new, map_size_insert_None by done. destruct p; simpl; lia.
Qed.

Lemma internal_left st st' d :
  agrees st d → internal st st' → (total_left (st_progs st') < total_left (st_progs st))%nat.
Proof.
  intros Ha Hi. destruct Hi as [t s k v st Hp Hv|t how name k st Hp|t s v k st Hp];
    destruct (agrees_thread _ _ _ _ Ha Hp) as (c & Hc & Hs); simpl;
    match goal with |- (total_left (<[_ := ?q]> _) < _)%nat => pose proof (total_left_insert _ _ _ q Hp) as E end;
    simpl in E.
  - inversion Hs as [|tu r k' Ec Ek| | |]; subst. rewrite through_eq in Ek. injection Ek as <- <-.
    destruct (v =? 0); simpl in E; lia.
  - inversion Hs as [|tu r k' Ec Ek| | |]; subst; [by rewrite through_eq in Ek|]. simpl in E. lia.
  - inversion Hs as [|tu r k' Ec Ek| | |]; subst; [by rewrite through_eq in Ek|]. simpl in E. lia.
Qed.

Lemma run_size st st' : rtc step st st' → size (st_progs st') = size (st_progs st).
Proof.
  induction 1 as [st|st st1 st2 [Hi|Hc] _ IH]; [done|rewrite IH..].
  - destruct Hi; simpl; by apply map_size_insert_Some; eauto.
  - destruct Hc; simpl; by apply map_size_insert_Some; eauto.
Qed.

Lemma lookups_end st d n st' :
  agrees st d → nsteps internal n st st' → (n ≤ 3 * size (st_progs st))%nat.
Proof.
  intros Ha Hn. etrans; [|apply total_left_bound].
  induction Hn as [st|n st st1 st2 Hi _ IH]; [lia|].
  pose proof (internal_left _ _ _ Ha Hi). specialize (IH (internal_agrees _ _ _ Ha Hi)). lia.
Qed.

(** C20: the indirection is invisible.  Assume that the lookup of every real
    function finds its symbol ([LinkerOk]), which the wrappers do not check.  Let any
    number of threads make any calls through the wrappers of the two libc.h, each
    going on with the results it gets, in any interleaving and with loads of the
    shared cell that may miss the stores of other threads.  The calls that are made,
    with their functions, arguments, results and order, are those of clients that call
    the real functions directly; no call goes to NULL; at most three steps per thread
    pass before the next call, so no thread waits for another; and the threads stop
    only when all clients have finished. *)
Theorem wrappers_refine_direct `{!LinkerOk K} cs st :
  rtc step (start cs) st →
  ∃ d, rtc direct_step (Direct cs []) d ∧ st_made st = di_made d ∧
    Forall (fun m : made => m.1.1.2 ≠ 0) (st_made st) ∧
    (∀ n st', nsteps internal n st st' → (n ≤ 3 * size cs)%nat) ∧
    ((∀ st', ¬ step st st') → ∀ t c, di_clients d !! t = Some c → c = Finished).
Proof.
  intros H. destruct (run_agrees _ _ _ (agrees_start cs) H) as (d & Hd & Ha). exists d.
  rewrite (ag_made _ _ Ha). split_and!; [done|done|by eapply direct_found; [done|constructor]| |].
  - intros n st' Hn. apply run_size in H. simpl in H. rewrite map_size_fmap in H. rewrite <- H.
    by eapply lookups_end.
  - intros Hstuck t c Hc. pose proof (ag_threads _ _ Ha t) as Ht. rewrite Hc in Ht.
    inversion Ht as [? p Hs Ep|]; subst.
    destruct Hs as [|tu r k|tu r k|tu r k|tu r k]; [done|exfalso..];
      destruct (thread_steps st t _ ltac:(eauto)) as [st' Hst]; rewrite ?through_eq; try done; by eapply Hstuck.
Qed.
End Refine.

(** ** Two threads race for the cell of [malloc] in writer.c *)

Section Demo.
Definition demo_resolve (how : resolver) (name : string) : Z :=
  match how with RealSym => 4096 + Z.of_nat (String.length name) | DlsymNext => 8192 + Z.of_nat (String.length name) end.
#[local] Instance demo_linker : Linker := demo_resolve.
#[local] Instance demo_linker_ok : LinkerOk demo_linker.
Proof. intros []; by vm_compute. Qed.

Definition demo_clients : gmap Z client :=
  <[1 := Invoke "writer.c" (R_malloc 64) (fun p => Invoke "writer.c" (R_free p) (fun _ => Finished))]>
  {[2 := Invoke "writer.c" (R_malloc 32) (fun _ => Finished)]}.

(** Both threads find the cell empty, both look [malloc] up and store it; thread 1
    then calls it before thread 2. *)
Lemma demo_race : ∃ st, rtc step (start demo_clients) st ∧
  st_made st = [(1, 4102, [64], 7000); (2, 4102, [32], 8000)].
Proof.
  eexists. split.
  - eapply rtc_l; [left; eapply (step_load 1 _ _ 0); [reflexivity|by left]|].
    eapply rtc_l; [left; eapply (step_load 2 _ _ 0); [reflexivity|by left]|].
    eapply rtc_l; [left; eapply (step_lookup 1); reflexivity|].
    eapply rtc_l; [left; eapply (step_lookup 2); reflexivity|].
    eapply rtc_l; [left; eapply (step_store 1); reflexivity|].
    eapply rtc_l; [right; eapply (step_call 1 _ _ _ 7000); reflexivity|].
    eapply rtc_l; [left; eapply (step_store 2); reflexivity|].
    eapply rtc_l; [right; eapply (step_call 2 _ _ _ 8000); reflexivity|].
    apply rtc_refl.
  - reflexivity.
Qed.

Lemma wrappers_refine_direct_witness :
  ∃ st d, rtc step (start demo_clients) st ∧ rtc direct_step (Direct demo_clients []) d ∧
    di_made d = [(1, 4102, [64], 7000); (2, 4102, [32], 8000)].
Proof.
  destruct demo_race as (st & H & E).
  destruct (wrappers_refine_direct demo_clients st H) as (d & Hd & Hm & _).
  exists st, d. split; [exact H|]. split; [exact Hd|]. rewrite <- Hm. exact E.
Defined.
End Demo.
