(* ===== verification/Lz4Block.v ===== *)
(** * The LZ4 block format

    What the compressor of deps/lz4/lz4.c writes and its decompressor reads: a
    block is a list of sequences, each a run of literals and a match that repeats
    earlier output, followed by a last run of literals.  [encode_block] is the
    byte layout, [expand] the data a block stands for, and [block_wf] the parsing
    restrictions at the end of a block.  The file also holds the lemmas on output
    buffers the two directions share. *)

From stdpp Require Import base list numbers option.
From Stdlib Require Import ZArith Lia.
From S2P Require Import Prelude.

(** ** Constants *)
Definition MINMATCH : Z := 4.
Definition WILDCOPYLENGTH : Z := 8.
Definition LASTLITERALS : Z := 5.
Definition MFLIMIT : Z := 12.
Definition MATCH_SAFEGUARD_DISTANCE : Z := 2 * WILDCOPYLENGTH - MINMATCH.
Definition FASTLOOP_SAFE_DISTANCE : Z := 64.
Definition ML_BITS : Z := 4.
Definition ML_MASK : Z := Z.shiftl 1 ML_BITS - 1.
Definition RUN_BITS : Z := 8 - ML_BITS.
Definition RUN_MASK : Z := Z.shiftl 1 RUN_BITS - 1.

(** ** Blocks *)
Record sequence := Sequence {
  sq_literals : list Z;
  sq_offset : Z;
  sq_length : Z;       (* of the match, at least [MINMATCH] *)
}.

(** The bytes that continue a length of 15 or more in the token. *)
Definition length_bytes (n : Z) : list Z :=
  if n <? 15 then [] else replicate (Z.to_nat ((n - 15) / 255)) 255 ++ [(n - 15) mod 255].

Definition encode_sequence (s : sequence) : list Z :=
  let l := len (sq_literals s) in
  let m := sq_length s - 4 in
  [16 * Z.min l 15 + Z.min m 15] ++ length_bytes l ++ sq_literals s ++
  le_bytes 2 (sq_offset s) ++ length_bytes m.

Definition encode_last (l : list Z) : list Z :=
  [16 * Z.min (len l) 15] ++ length_bytes (len l) ++ l.

Definition encode_sequences (ss : list sequence) : list Z := ss ≫= encode_sequence.

Definition encode_block (ss : list sequence) (last : list Z) : list Z :=
  encode_sequences ss ++ encode_last last.

(** A match appends [n] bytes, each a copy of the one [off] before it. *)
Fixpoint copy_match (n : nat) (out : list Z) (off : Z) : list Z :=
  match n with
  | O => out
  | S n => copy_match n (out ++ [out !!! Z.to_nat (len out - off)]) off
  end.

Definition expand_sequence (out : list Z) (s : sequence) : list Z :=
  copy_match (Z.to_nat (sq_length s)) (out ++ sq_literals s) (sq_offset s).

Definition expand_sequences (ss : list sequence) : list Z := foldl expand_sequence [] ss.

Definition expand (ss : list sequence) (last : list Z) : list Z := expand_sequences ss ++ last.

(** A sequence whose literals start after [n] bytes of output, in a block of [size]
    bytes: the offset stays inside the output, no match starts in the last 12
    bytes nor ends in the last 5. *)
Record sequence_wf (size n : Z) (s : sequence) : Prop := SequenceWf {
  wf_offset : 1 <= sq_offset s <= n + len (sq_literals s);
  wf_offset16 : sq_offset s < 2 ^ 16;
  wf_length : 4 <= sq_length s;
  wf_start : n + len (sq_literals s) <= size - 12;
  wf_end : n + len (sq_literals s) + sq_length s <= size - 5;
}.

Fixpoint sequences_wf (size n : Z) (ss : list sequence) : Prop :=
  match ss with
  | [] => n <= size
  | s :: ss => sequence_wf size n s ∧
      sequences_wf size (n + len (sq_literals s) + sq_length s) ss
  end.

(** ** Lengths *)
Lemma len_length_bytes n :
  0 <= n → len (length_bytes n) = if n <? 15 then 0 else (n - 15) / 255 + 1.
Proof.
  intros. unfold length_bytes. destruct (Z.ltb_spec n 15); [done|].
  pose proof (Z.div_pos (n - 15) 255 ltac:(lia) ltac:(lia)). llia.
Qed.

(** Upper and lower bound of the number of length bytes, free of division. *)
Lemma length_bytes_bounds n :
  0 <= n → n - 14 <= 255 * len (length_bytes n) ∧ 255 * len (length_bytes n) <= n + 240 ∧
  (n < 15 → len (length_bytes n) = 0).
Proof.
  intros. rewrite len_length_bytes by done. destruct (Z.ltb_spec n 15); [lia|].
  pose proof (Z.div_mod (n - 15) 255 ltac:(lia)).
  pose proof (Z.mod_pos_bound (n - 15) 255 ltac:(lia)). lia.
Qed.

(** The length bytes of a length of 15 and [m] more. *)
Definition length_tail (m : Z) : list Z := replicate (Z.to_nat (m / 255)) 255 ++ [m mod 255].

Lemma len_length_tail m : 0 <= m → len (length_tail m) = m / 255 + 1.
Proof. intros. pose proof (Z.div_pos m 255 ltac:(lia) ltac:(lia)). unfold length_tail. llia. Qed.

Lemma length_tail_step m : 255 <= m → length_tail m = 255 :: length_tail (m - 255).
Proof.
  intros. unfold length_tail. replace m with (m - 255 + 1 * 255) by lia.
  rewrite Z.div_add, Z.mod_add by lia.
  replace (m - 255 + 1 * 255 - 255) with (m - 255) by lia.
  pose proof (Z.div_pos (m - 255) 255 ltac:(lia) ltac:(lia)).
  by replace (Z.to_nat ((m - 255) / 255 + 1)) with (S (Z.to_nat ((m - 255) / 255))) by lia.
Qed.

Lemma length_bytes_tail n : 15 <= n → length_bytes n = length_tail (n - 15).
Proof. intros. unfold length_bytes. destruct (Z.ltb_spec n 15); [lia|done]. Qed.

Lemma len_encode_sequence s :
  len (encode_sequence s) =
  3 + len (length_bytes (len (sq_literals s))) + len (sq_literals s) +
  len (length_bytes (sq_length s - 4)).
Proof. unfold encode_sequence. llia. Qed.

Lemma len_encode_last l :
  len (encode_last l) = 1 + len (length_bytes (len l)) + len l.
Proof. unfold encode_last. llia. Qed.

Lemma encode_sequences_cons s ss :
  encode_sequences (s :: ss) = encode_sequence s ++ encode_sequences ss.
Proof. done. Qed.

Lemma encode_sequences_snoc ss s :
  encode_sequences (ss ++ [s]) = encode_sequences ss ++ encode_sequence s.
Proof. unfold encode_sequences. rewrite bind_app. simpl. by rewrite app_nil_r. Qed.

Lemma expand_sequences_snoc ss s :
  expand_sequences (ss ++ [s]) = expand_sequence (expand_sequences ss) s.
Proof. unfold expand_sequences. by rewrite foldl_app. Qed.

Lemma length_copy_match n out off : length (copy_match n out off) = (length out + n)%nat.
Proof.
  revert out. induction n as [|n IH]; intros out; simpl; [lia|]. rewrite IH. llia.
Qed.
#[export] Hint Rewrite length_copy_match : ctlen.

(** The number of bytes the sequences stand for. *)
Definition sequences_size (ss : list sequence) : Z :=
  foldr (fun s k => len (sq_literals s) + sq_length s + k) 0 ss.

Lemma sequences_wf_snoc size n ss s :
  sequences_wf size n ss → sequence_wf size (n + sequences_size ss) s →
  sequences_wf size n (ss ++ [s]).
Proof.
  revert n. induction ss as [|s' ss IH]; intros n Hss Hs; simpl in *.
  - rewrite Z.add_0_r in Hs. split; [done|]. destruct Hs. lia.
  - destruct Hss. split; [done|]. apply IH; [done|].
    by replace (n + len (sq_literals s') + sq_length s' + sequences_size ss)
      with (n + (len (sq_literals s') + sq_length s' + sequences_size ss)) by lia.
Qed.

Lemma len_expand_sequences size n ss :
  sequences_wf size n ss → len (expand_sequences ss) = sequences_size ss.
Proof.
  unfold expand_sequences. change (sequences_size ss) with (len (@nil Z) + sequences_size ss).
  revert n. generalize (@nil Z). induction ss as [|s ss IH]; intros out n; simpl; [lia|].
  intros [Hs Hss]. rewrite (IH _ _ Hss). unfold expand_sequence. destruct Hs. llia.
Qed.

(** The block ends with at least five literals. *)
Lemma sequences_wf_end size n ss :
  sequences_wf size n ss → n + sequences_size ss <= size - (if decide (ss = []) then 0 else 5).
Proof.
  revert n. induction ss as [|s ss IH]; intros n; [simpl; lia|]. intros [Hs Hss].
  specialize (IH _ Hss). cbn [sequences_size foldr]. fold (sequences_size ss).
  rewrite decide_False by done. destruct Hs. destruct (decide (ss = [])) as [->|]; simpl in *; lia.
Qed.

Lemma bytesP_length_bytes n : 0 <= n → bytesP (length_bytes n).
Proof.
  intros. unfold length_bytes. destruct (Z.ltb_spec n 15); [constructor|].
  apply Forall_app. split; [apply Forall_replicate; ulia|].
  pose proof (Z.mod_pos_bound (n - 15) 255 ltac:(lia)). apply Forall_singleton. ulia.
Qed.

(** ** Matches *)
Lemma copy_match_add n m out off :
  copy_match (n + m) out off = copy_match m (copy_match n out off) off.
Proof. revert out. induction n as [|n IH]; intros out; simpl; [done|]. apply IH. Qed.

Lemma copy_match_prefix n out off : out `prefix_of` copy_match n out off.
Proof.
  revert out. induction n as [|n IH]; intros out; simpl; [done|].
  eapply prefix_app_l, IH.
Qed.

(** Every byte of a match equals the one [off] positions before it. *)
Lemma copy_match_period n out off i :
  1 <= off <= len out → (length out ≤ i < length out + n)%nat →
  copy_match n out off !! i = copy_match n out off !! (i - Z.to_nat off)%nat.
Proof.
  revert out. induction n as [|n IH]; intros out Ho Hi; [lia|]. simpl.
  destruct (decide (i = length out)) as [->|Hne].
  - set (b := out !!! _).
    rewrite (prefix_lookup_Some (out ++ [b]) _ (length out) b).
    2: { rewrite lookup_app_r by lia. by rewrite Nat.sub_diag. }
    2: apply copy_match_prefix.
    symmetry. eapply prefix_lookup_Some; [|apply copy_match_prefix].
    rewrite lookup_app_l by lia.
    replace (length out - Z.to_nat off)%nat with (Z.to_nat (len out - off)) by lia.
    apply list_lookup_lookup_total_lt. lia.
  - apply IH; rewrite length_app; simpl; lia.
Qed.

Lemma copy_match_periods m n out off i :
  1 <= off <= len out → (length out + m * Z.to_nat off ≤ i + Z.to_nat off)%nat →
  (i < length out + n)%nat →
  copy_match n out off !! i = copy_match n out off !! (i - m * Z.to_nat off)%nat.
Proof.
  intros Ho. revert i. induction m as [|m IH]; intros i Hi Hn; [f_equal; lia|].
  rewrite copy_match_period by lia. rewrite IH by lia. f_equal. lia.
Qed.

(** A part of a match that repeats the data [src] at both places is a part of it. *)
Lemma copy_match_src src n out off :
  out `prefix_of` src → 1 <= off <= len out → (length out + n <= length src)%nat →
  (∀ j, (j < n)%nat → src !! (length out + j)%nat = src !! (length out + j - Z.to_nat off)%nat) →
  copy_match n out off = take (length out + n) src.
Proof.
  revert out. induction n as [|n IH]; intros out Hp Ho Hl Hs; simpl.
  - destruct Hp as [r ->]. by rewrite Nat.add_0_r, take_app_length.
  - assert (out ++ [out !!! Z.to_nat (len out - off)] `prefix_of` src) as Hp'.
    { pose proof (Hs 0%nat ltac:(lia)) as H0. rewrite Nat.add_0_r in H0.
      destruct Hp as [r ->]. apply prefix_app. destruct r as [|b r]; [rewrite app_nil_r in Hl; lia|].
      rewrite lookup_app_r, Nat.sub_diag in H0 by lia. simpl in H0.
      rewrite lookup_app_l in H0 by lia.
      replace (length out - Z.to_nat off)%nat with (Z.to_nat (len out - off)) in H0 by lia.
      apply eq_sym, list_lookup_total_correct in H0. rewrite H0.
      apply prefix_cons, prefix_nil. }
    rewrite IH; [f_equal|done|..].
    + rewrite length_app. simpl. lia.
    + rewrite length_app. simpl. lia.
    + rewrite length_app. simpl. lia.
    + intros j Hj. rewrite length_app. simpl.
      replace (length out + 1 + j)%nat with (length out + S j)%nat by lia. apply Hs. lia.
Qed.
