(* ===== verification/Lz4Mem.v ===== *)
(** * Memory accesses of deps/lz4/lz4.c

    Unaligned reads, [memcpy] and the copy in steps of 8 bytes that may write past
    its end, on buffers whose accesses are checked.  The correctness lemmas are
    stated for output buffers: a list of bytes that is known to be a prefix of the
    buffer is extended.  Little-endian, 64-bit. *)

From stdpp Require Import base list numbers option.
From Stdlib Require Import ZArith Lia.
From S2P Require Import Prelude Lz4Block.

Definition LZ4_read16 (mem : list Z) (p : Z) : outcome Z := or_undef OutOfBounds (load 2 mem p).
Definition LZ4_read32 (mem : list Z) (p : Z) : outcome Z := or_undef OutOfBounds (load 4 mem p).
Definition LZ4_read_ARCH (mem : list Z) (p : Z) : outcome Z := or_undef OutOfBounds (load 8 mem p).
Definition read_byte (mem : list Z) (p : Z) : outcome Z := or_undef OutOfBounds (load 1 mem p).
Definition LZ4_readLE16 (mem : list Z) (p : Z) : outcome Z := LZ4_read16 mem p.

(** [n] bytes at [p]. *)
Definition read_bytes (mem : list Z) (p n : Z) : outcome (list Z) :=
  if in_range mem p n then Ret (slice p n mem) else Undef OutOfBounds.

Definition write_bytes (mem : list Z) (p : Z) (bs : list Z) : outcome (list Z) :=
  or_undef OutOfBounds (store mem p bs).
Definition write_byte (mem : list Z) (p v : Z) : outcome (list Z) := write_bytes mem p [u8 v].
Definition LZ4_write32 (mem : list Z) (p v : Z) : outcome (list Z) := write_bytes mem p (le_bytes 4 v).
Definition LZ4_writeLE16 (mem : list Z) (p v : Z) : outcome (list Z) := write_bytes mem p (le_bytes 2 v).

(** [memcpy(dst + d, from + s, n)].  The source is another object, or [dst] itself
    when [from] is [None]; in that case the two regions must not overlap. *)
Definition LZ4_memcpy (from : option (list Z)) (dst : list Z) (d s n : Z) : outcome (list Z) :=
  let src := default dst from in
  if negb (in_range src s n) then Undef OutOfBounds
  else match from with
  | None => if Z.abs (d - s) <? n then Undef Overlap else write_bytes dst d (slice s n src)
  | Some _ => write_bytes dst d (slice s n src)
  end.

(** [do { memcpy(d,s,8); d+=8; s+=8; } while (d<e)] *)
Fixpoint wildCopy8_loop (fuel : nat) (from : option (list Z)) (dst : list Z) (d s e : Z) :
    outcome (list Z) :=
  match fuel with
  | O => NoFuel
  | S fuel =>
      let! dst := LZ4_memcpy from dst d s 8 in
      let d := d + 8 in
      let s := s + 8 in
      if d <? e then wildCopy8_loop fuel from dst d s e else Ret dst
  end.

Definition LZ4_wildCopy8 (from : option (list Z)) (dst : list Z) (d s e : Z) : outcome (list Z) :=
  wildCopy8_loop (S (Z.to_nat (e - d))) from dst d s e.

(** ** Reads *)
Lemma load_in_range n mem p :
  0 <= p → p + Z.of_nat n <= len mem → load n mem p = Some (le_join (slice p (Z.of_nat n) mem)).
Proof.
  intros. unfold load, slice. rewrite (proj2 (in_range_spec _ _ _)) by lia. by rewrite Nat2Z.id.
Qed.

Lemma slice_one (mem : list Z) p b : mem !! Z.to_nat p = Some b → slice p 1 mem = [b].
Proof.
  intros H. unfold slice. rewrite (drop_S _ _ _ H). done.
Qed.

Lemma read_byte_spec (mem : list Z) p b :
  0 <= p → mem !! Z.to_nat p = Some b → read_byte mem p = Ret b.
Proof.
  intros Hp H. pose proof (lookup_lt_Some _ _ _ H). unfold read_byte.
  rewrite load_in_range by lia. change (Z.of_nat 1) with 1.
  rewrite (slice_one _ _ _ H). simpl. f_equal. lia.
Qed.

(** ** Slices *)
Lemma lookup_slice {A} off n (l : list A) (i : nat) :
  0 <= off → (i < Z.to_nat n)%nat → slice off n l !! i = l !! (Z.to_nat off + i)%nat.
Proof. intros. unfold slice. rewrite lookup_take_lt by lia. apply lookup_drop. Qed.

Lemma slice_app {A} off n m (l : list A) :
  0 <= off → 0 <= n → 0 <= m → slice off (n + m) l = slice off n l ++ slice (off + n) m l.
Proof.
  intros. unfold slice. rewrite Z2Nat.inj_add by lia.
  replace (Z.to_nat (off + n)) with (Z.to_nat off + Z.to_nat n)%nat by lia.
  rewrite <- drop_drop. by rewrite take_take_drop.
Qed.

Lemma slice_prefix {A} off n m (l : list A) :
  0 <= off → 0 <= n <= m → slice off n l `prefix_of` slice off m l.
Proof.
  intros. replace m with (n + (m - n)) by lia. rewrite slice_app by lia. by apply prefix_app_r.
Qed.

Lemma take_slice {A} off n (l : list A) :
  0 <= off → 0 <= n → take (Z.to_nat (off + n)) l = take (Z.to_nat off) l ++ slice off n l.
Proof.
  intros. unfold slice. rewrite Z2Nat.inj_add by lia. symmetry. apply take_take_drop.
Qed.

(** ** Writing at the end of a known prefix

    [holds dst out n]: the buffer has [n] bytes and starts with [out]. *)
Definition holds (dst out : list Z) (n : Z) : Prop := out `prefix_of` dst ∧ len dst = n.

Lemma holds_app dst a b n : holds dst (a ++ b) n → holds dst a n.
Proof. intros [? ?]. split; [by eapply prefix_app_l|done]. Qed.

Lemma holds_prefix dst a b n : holds dst a n → b `prefix_of` a → holds dst b n.
Proof. intros [? ?] ?. split; [by etrans|done]. Qed.

Lemma holds_length dst out n : holds dst out n → len out <= n.
Proof. intros [H%prefix_length <-]. lia. Qed.

Lemma write_bytes_holds dst out bs n p :
  holds dst out n → p = len out → p + len bs <= n →
  ∃ dst', write_bytes dst p bs = Ret dst' ∧ holds dst' (out ++ bs) n.
Proof.
  intros [[rest ->] Hn] -> Hl. destruct (chunk (length bs) rest) as (c & r & -> & Hc); [llia|].
  unfold write_bytes. rewrite store_chunk by done. eexists. split; [done|]. split; [|llia].
  rewrite app_assoc. by apply prefix_app_r.
Qed.

(** Overwriting one byte inside the prefix. *)
Lemma write_byte_inside dst out b v post n p :
  holds dst (out ++ [b] ++ post) n → p = len out → 0 <= v < 256 →
  ∃ dst', write_byte dst p v = Ret dst' ∧ holds dst' (out ++ [v] ++ post) n.
Proof.
  intros [[rest ->] Hn] -> Hv. unfold write_byte, write_bytes.
  rewrite u8_id by ulia. rewrite <- !app_assoc. rewrite store_chunk by done.
  eexists. split; [done|]. split; [|llia]. rewrite !app_assoc. by apply prefix_app_r.
Qed.

(** Any write inside the buffer leaves its size alone. *)
Lemma write_bytes_safe dst p bs :
  0 <= p → p + len bs <= len dst →
  ∃ dst', write_bytes dst p bs = Ret dst' ∧ len dst' = len dst.
Proof.
  intros. unfold write_bytes. destruct (store dst p bs) as [d|] eqn:E.
  - exists d. split; [done|]. apply length_store in E. lia.
  - unfold store in E. by rewrite (proj2 (in_range_spec _ _ _)) in E by lia.
Qed.

Lemma memcpy_safe from dst d s n :
  0 <= d → d + n <= len dst → 0 <= n → 0 <= s → s + n <= len (default dst from) →
  (from = None → n <= Z.abs (d - s)) →
  ∃ dst', LZ4_memcpy from dst d s n = Ret dst' ∧ len dst' = len dst.
Proof.
  intros Hd Hn Hn0 Hs Hsn Ho. unfold LZ4_memcpy. rewrite (proj2 (in_range_spec _ _ _)) by lia.
  simpl. assert (len (slice s n (default dst from)) = n) by (apply length_slice; lia).
  destruct from as [src|]; simpl in *.
  - apply write_bytes_safe; lia.
  - specialize (Ho eq_refl). destruct (Z.ltb_spec (Z.abs (d - s)) n); [lia|].
    apply write_bytes_safe; lia.
Qed.

(** The copy of 8 bytes at a time writes up to 7 bytes past its end, and 8 when
    there is nothing to copy.  An invariant of the single steps is one of the copy. *)
Lemma wildCopy8_ind (P : Z → list Z → Prop) from dst d s e :
  P 0 dst →
  (∀ k dst, 0 <= k → k = 0 ∨ d + k < e → P k dst →
    ∃ dst', LZ4_memcpy from dst (d + k) (s + k) 8 = Ret dst' ∧ P (k + 8) dst') →
  ∃ k dst', LZ4_wildCopy8 from dst d s e = Ret dst' ∧ e - d <= k ∧ P k dst'.
Proof.
  intros H0 Hstep. unfold LZ4_wildCopy8.
  assert (∀ fuel k dst, 0 <= k → k = 0 ∨ d + k < e → e - d - k < Z.of_nat fuel → (0 < fuel)%nat → P k dst →
    ∃ k' dst', wildCopy8_loop fuel from dst (d + k) (s + k) e = Ret dst' ∧ e - d <= k' ∧ P k' dst') as H.
  { induction fuel as [|fuel IH]; intros k dst' Hk Hc Hf Hp HP; [lia|]. cbn [wildCopy8_loop].
    destruct (Hstep k dst' Hk Hc HP) as (dst2 & -> & HP2). simpl.
    destruct (Z.ltb_spec (d + k + 8) e).
    - replace (d + k + 8) with (d + (k + 8)) by lia. replace (s + k + 8) with (s + (k + 8)) by lia.
      apply IH; [lia|lia|lia|lia|done].
    - exists (k + 8), dst2. split; [done|]. split; [lia|done]. }
  destruct (H (S (Z.to_nat (e - d))) 0 dst) as (k & dst' & E & Hk & HP); [lia|by left|lia|lia|done|].
  rewrite !Z.add_0_r in E. eauto.
Qed.

Lemma wildCopy8_safe from dst d s e :
  0 <= d → d + 8 <= len dst → e + 7 <= len dst → 0 <= s →
  s + 8 <= len (default dst from) → s + (e - d) + 7 <= len (default dst from) →
  (from = None → 8 <= Z.abs (d - s)) →
  ∃ dst', LZ4_wildCopy8 from dst d s e = Ret dst' ∧ len dst' = len dst.
Proof.
  intros Hd Hd8 He Hs Hs8 Hse Ho.
  destruct (wildCopy8_ind (fun _ m => len m = len dst) from dst d s e)
    as (k & dst' & E & _ & Hl); [done| |by eauto].
  intros k m Hk Hc Hm.
  assert (len (default m from) = len (default dst from)) as Hdef by (destruct from; done).
  destruct (memcpy_safe from m (d + k) (s + k) 8) as (m' & E & Hm'); [lia..| |].
  - intros Hn. specialize (Ho Hn). lia.
  - exists m'. split; [done|lia].
Qed.

Lemma memcpy_holds src dst out n d s k :
  holds dst out n → d = len out → d + k <= n → 0 <= k → 0 <= s → s + k <= len src →
  ∃ dst', LZ4_memcpy (Some src) dst d s k = Ret dst' ∧ holds dst' (out ++ slice s k src) n.
Proof.
  intros Hh -> Hn Hk Hs Hsk. unfold LZ4_memcpy. simpl.
  rewrite (proj2 (in_range_spec _ _ _)) by lia. simpl.
  apply write_bytes_holds; [done|done|]. rewrite length_slice; lia.
Qed.

Lemma wildCopy8_holds src dst out n d s k :
  holds dst out n → d = len out → 0 <= k → d + 8 <= n → d + k + 7 <= n →
  0 <= s → s + 8 <= len src → s + k + 7 <= len src →
  ∃ dst', LZ4_wildCopy8 (Some src) dst d s (d + k) = Ret dst' ∧
    holds dst' (out ++ slice s k src) n.
Proof.
  intros Hh -> Hk Hd Hdk Hs Hs8 Hsk.
  destruct (wildCopy8_ind (fun j m => 0 <= j ∧ holds m (out ++ slice s j src) n)
    (Some src) dst (len out) s (len out + k)) as (j & dst' & E & Hj & _ & Hm).
  - split; [done|]. unfold slice. by rewrite app_nil_r.
  - intros j m Hj Hc [_ Hm].
    assert (len (slice s j src) = j) by (apply length_slice; lia).
    destruct (memcpy_holds src m (out ++ slice s j src) n (len out + j) (s + j) 8)
      as (m' & E & Hm'); [done|llia|lia..|].
    exists m'. split; [done|]. split; [lia|]. rewrite slice_app by lia. by rewrite app_assoc.
  - exists dst'. split; [done|]. eapply holds_prefix; [done|]. apply prefix_app, slice_prefix; lia.
Qed.
