(* ===== verification/Lz4Compress.v ===== *)
(** * The LZ4 compressor (deps/lz4/lz4.c)

    [LZ4_compress_fast] and what it calls, on a 64-bit little-endian machine.
    [LZ4_compress_generic_validated] is always inlined with constant directives;
    this is its body for the ones [LZ4_compress_fast_extState] passes: [noDict],
    [noDictIssue], [notLimited] or [limitedOutput], [byU16] or [byU32].

    Pointers into the source and the destination are byte offsets.  The labels of
    the function are the constructors of [label]: the head of the main loop,
    [_next_match], and [_last_literals]; every arrow between them is one step. *)

From stdpp Require Import base list numbers option.
From Stdlib Require Import ZArith Lia.
From S2P Require Import Prelude Codec Lz4Block Lz4Mem.

Definition LZ4_minLength : Z := MFLIMIT + 1.
Definition LZ4_64Klimit : Z := 64 * 1024 + (MFLIMIT - 1).
Definition LZ4_skipTrigger : Z := 6.
Definition LZ4_DISTANCE_ABSOLUTE_MAX : Z := 65535.
Definition LZ4_DISTANCE_MAX : Z := 65535.
Definition LZ4_ACCELERATION_DEFAULT : Z := 1.
Definition LZ4_ACCELERATION_MAX : Z := 65537.
Definition LZ4_MEMORY_USAGE : Z := 14.
Definition LZ4_HASHLOG : Z := LZ4_MEMORY_USAGE - 2.

(** The table types of the 64-bit build. *)
Inductive tableType_t := clearedTable | byU32 | byU16.
Inductive limitedOutput_directive := notLimited | limitedOutput.

#[export] Instance tableType_eq_dec : EqDecision tableType_t.
Proof. solve_decision. Defined.

(** [LZ4_stream_t_internal].  The table is an array of 4096 or of 8192 entries
    over the same 16 KB, depending on the type it is used at. *)
Record LZ4_stream := Stream {
  hashTable : list Z;
  currentOffset : Z;
  tableType : tableType_t;
  dictSize : Z;
}.

Definition table_entries (tt : tableType_t) : Z :=
  match tt with byU16 => Z.shiftl 1 (LZ4_MEMORY_USAGE - 1) | _ => Z.shiftl 1 (LZ4_MEMORY_USAGE - 2) end.

(** All bytes zero; read as an array of the type [tt]. *)
Definition LZ4_initStream (tt : tableType_t) : LZ4_stream :=
  Stream (replicate (Z.to_nat (table_entries tt)) 0) 0 clearedTable 0.

(** ** Hashing *)
Definition LZ4_hash4 (sequence : Z) (tt : tableType_t) : Z :=
  if decide (tt = byU16)
  then Z.shiftr (u32 (sequence * 2654435761)) (MINMATCH * 8 - (LZ4_HASHLOG + 1))
  else Z.shiftr (u32 (sequence * 2654435761)) (MINMATCH * 8 - LZ4_HASHLOG).

Definition LZ4_hash5 (sequence : Z) (tt : tableType_t) : Z :=
  let hashLog := if decide (tt = byU16) then LZ4_HASHLOG + 1 else LZ4_HASHLOG in
  u32 (Z.shiftr (u64 (u64 (Z.shiftl sequence 24) * 889523592379)) (64 - hashLog)).

Definition LZ4_hashPosition (src : list Z) (p : Z) (tt : tableType_t) : outcome Z :=
  if decide (tt ≠ byU16)
  then let! v := LZ4_read_ARCH src p in Ret (LZ4_hash5 v tt)
  else let! v := LZ4_read32 src p in Ret (LZ4_hash4 v tt).

Definition LZ4_putIndexOnHash (idx h : Z) (table : list Z) (tt : tableType_t) : outcome (list Z) :=
  match tt with
  | clearedTable => Ret table
  | byU32 =>
      if in_range table h 1 then Ret (<[Z.to_nat h := idx]> table) else Undef OutOfBounds
  | byU16 =>
      if in_range table h 1 then Ret (<[Z.to_nat h := idx mod 2 ^ 16]> table) else Undef OutOfBounds
  end.

Definition LZ4_getIndexOnHash (h : Z) (table : list Z) (tt : tableType_t) : outcome Z :=
  match tt with
  | byU32 | byU16 =>
      if in_range table h 1 then or_undef OutOfBounds (table !! Z.to_nat h) else Undef OutOfBounds
  | clearedTable => Ret 0
  end.

(** ** Common bytes *)
Fixpoint ctz_pos (p : positive) : Z :=
  match p with xO p => 1 + ctz_pos p | _ => 0 end.

(** [__builtin_ctzll] *)
Definition ctzll (v : Z) : Z := match v with Z.pos p => ctz_pos p | _ => 0 end.

Definition LZ4_NbCommonBytes (val : Z) : Z := Z.shiftr (ctzll val) 3.

Definition STEPSIZE : Z := 8.

(** The [while] loop of [LZ4_count]: [inl] is a value it returns, [inr] the two
    pointers when the loop ends. *)
Fixpoint count_loop (fuel : nat) (mem : list Z) (pStart pIn pMatch pInLimit : Z) :
    outcome (Z + Z * Z) :=
  match fuel with
  | O => NoFuel
  | S fuel =>
      if pIn <? pInLimit - (STEPSIZE - 1) then
        let! a := LZ4_read_ARCH mem pMatch in
        let! b := LZ4_read_ARCH mem pIn in
        let diff := Z.lxor a b in
        if diff =? 0
        then count_loop fuel mem pStart (pIn + STEPSIZE) (pMatch + STEPSIZE) pInLimit
        else Ret (inl (u32 (pIn + LZ4_NbCommonBytes diff - pStart)))
      else Ret (inr (pIn, pMatch))
  end.

(** The three comparisons of 4, 2 and 1 bytes at the end. *)
Definition count_tail (mem : list Z) (pStart pIn pMatch pInLimit : Z) : outcome Z :=
  let! (pIn, pMatch) :=
    if pIn <? pInLimit - 3 then
      let! a := LZ4_read32 mem pMatch in
      let! b := LZ4_read32 mem pIn in
      Ret (if a =? b then (pIn + 4, pMatch + 4) else (pIn, pMatch))
    else Ret (pIn, pMatch) in
  let! (pIn, pMatch) :=
    if pIn <? pInLimit - 1 then
      let! a := LZ4_read16 mem pMatch in
      let! b := LZ4_read16 mem pIn in
      Ret (if a =? b then (pIn + 2, pMatch + 2) else (pIn, pMatch))
    else Ret (pIn, pMatch) in
  let! pIn :=
    if pIn <? pInLimit then
      let! a := read_byte mem pMatch in
      let! b := read_byte mem pIn in
      Ret (if a =? b then pIn + 1 else pIn)
    else Ret pIn in
  Ret (u32 (pIn - pStart)).

Definition LZ4_count (mem : list Z) (pIn pMatch pInLimit : Z) : outcome Z :=
  let pStart := pIn in
  let! first :=
    if pIn <? pInLimit - (STEPSIZE - 1) then
      let! a := LZ4_read_ARCH mem pMatch in
      let! b := LZ4_read_ARCH mem pIn in
      let diff := Z.lxor a b in
      if diff =? 0 then Ret (inr (pIn + STEPSIZE, pMatch + STEPSIZE))
      else Ret (inl (LZ4_NbCommonBytes diff))
    else Ret (inr (pIn, pMatch)) in
  match first with
  | inl n => Ret n
  | inr (pIn, pMatch) =>
      let! r := count_loop (S (length mem)) mem pStart pIn pMatch pInLimit in
      match r with
      | inl n => Ret n
      | inr (pIn, pMatch) => count_tail mem pStart pIn pMatch pInLimit
      end
  end.

(** [for(; len >= 255 ; len-=255) *op++ = 255;  *op++ = (BYTE)len;] *)
Fixpoint put_length (fuel : nat) (dst : list Z) (op n : Z) : outcome (list Z * Z) :=
  match fuel with
  | O => NoFuel
  | S fuel =>
      if 255 <=? n then
        let! dst := write_byte dst op 255 in
        put_length fuel dst (op + 1) (n - 255)
      else
        let! dst := write_byte dst op n in
        Ret (dst, op + 1)
  end.

(** [while (matchCode >= 4*255) { op+=4; LZ4_write32(op, 0xFFFFFFFF); matchCode -= 4*255; }] *)
Fixpoint put_match_length (fuel : nat) (dst : list Z) (op matchCode : Z) :
    outcome (list Z * Z * Z) :=
  match fuel with
  | O => NoFuel
  | S fuel =>
      if 4 * 255 <=? matchCode then
        let op := op + 4 in
        let! dst := LZ4_write32 dst op 0xFFFFFFFF in
        put_match_length fuel dst op (matchCode - 4 * 255)
      else Ret (dst, op, matchCode)
  end.

(** ** The compression function *)
Section Generic.
Context (src : list Z) (inputSize maxOutputSize : Z) (outputDirective : limitedOutput_directive)
  (tt : tableType_t) (startIndex acceleration : Z).

Definition iend : Z := inputSize.
Definition mflimitPlusOne : Z := iend - MFLIMIT + 1.
Definition matchlimit : Z := iend - LASTLITERALS.
Definition olimit : Z := maxOutputSize.
Definition limited : bool := match outputDirective with limitedOutput => true | notLimited => false end.

(** What the function keeps across labels: the table, the destination, [op] and
    [anchor]. *)
Record cstate := CState {
  c_table : list Z;
  c_dst : list Z;
  c_op : Z;
  c_anchor : Z;
}.

Inductive label :=
| MainLoop (ip forwardH : Z)
| NextMatch (ip mtch token : Z)
| LastLiterals.

(** A step jumps to a label, or returns with the number of bytes written. *)
Inductive jump :=
| Goto (l : label) (c : cstate)
| Return (result : Z) (dst : list Z).

(** Find a match.  [None]: the search hit the end of the input. *)
Fixpoint find_match (fuel : nat) (table : list Z) (forwardIp step searchMatchNb forwardH : Z) :
    outcome (list Z * option (Z * Z)) :=
  match fuel with
  | O => NoFuel
  | S fuel =>
      let h := forwardH in
      let current := u32 (forwardIp + startIndex) in
      let! matchIndex := LZ4_getIndexOnHash h table tt in
      let ip := forwardIp in
      let forwardIp := forwardIp + step in
      let step := Z.shiftr searchMatchNb LZ4_skipTrigger in
      let searchMatchNb := i32 (searchMatchNb + 1) in
      if mflimitPlusOne <? forwardIp then Ret (table, None) else
      let mtch := matchIndex - startIndex in
      let! forwardH := LZ4_hashPosition src forwardIp tt in
      let! table := LZ4_putIndexOnHash current h table tt in
      if (negb (bool_decide (tt = byU16)) || (LZ4_DISTANCE_MAX <? LZ4_DISTANCE_ABSOLUTE_MAX))
         && (u32 (matchIndex + LZ4_DISTANCE_MAX) <? current)
      then find_match fuel table forwardIp step searchMatchNb forwardH
      else
        let! a := LZ4_read32 src mtch in
        let! b := LZ4_read32 src ip in
        if a =? b then Ret (table, Some (ip, mtch))
        else find_match fuel table forwardIp step searchMatchNb forwardH
  end.

(** [do { ip--; match--; } while (((ip > anchor) & (match > lowLimit)) && (ip[-1] == match[-1]))],
    where [lowLimit] is the start of the source. *)
Fixpoint catch_up_loop (fuel : nat) (anchor ip mtch : Z) : outcome (Z * Z) :=
  match fuel with
  | O => NoFuel
  | S fuel =>
      let ip := ip - 1 in
      let mtch := mtch - 1 in
      if (anchor <? ip) && (0 <? mtch) then
        let! a := read_byte src (ip - 1) in
        let! b := read_byte src (mtch - 1) in
        if a =? b then catch_up_loop fuel anchor ip mtch else Ret (ip, mtch)
      else Ret (ip, mtch)
  end.

Definition catch_up (anchor ip mtch : Z) : outcome (Z * Z) :=
  if 0 <? mtch then
    let! a := read_byte src (ip - 1) in
    let! b := read_byte src (mtch - 1) in
    if a =? b then catch_up_loop (S (Z.to_nat mtch)) anchor ip mtch else Ret (ip, mtch)
  else Ret (ip, mtch).

(** Encode literals. *)
Definition encode_literals (c : cstate) (ip mtch : Z) : outcome jump :=
  let litLength := u32 (ip - c_anchor c) in
  let token := c_op c in
  let op := c_op c + 1 in
  if limited && (olimit <? op + litLength + (2 + 1 + LASTLITERALS) + litLength / 255)
  then Ret (Return 0 (c_dst c))
  else
    let! (dst, op) :=
      if RUN_MASK <=? litLength then
        let n := litLength - RUN_MASK in
        let! dst := write_byte (c_dst c) token (Z.shiftl RUN_MASK ML_BITS) in
        put_length (S (Z.to_nat n)) dst op n
      else
        let! dst := write_byte (c_dst c) token (Z.shiftl litLength ML_BITS) in
        Ret (dst, op) in
    let! dst := LZ4_wildCopy8 (Some src) dst op (c_anchor c) (op + litLength) in
    Ret (Goto (NextMatch ip mtch token) (CState (c_table c) dst (op + litLength) (c_anchor c))).

(** The main loop up to [_next_match]. *)
Definition main_loop (c : cstate) (ip forwardH : Z) : outcome jump :=
  let! (table, found) :=
    find_match (S (length src)) (c_table c) ip 1 (Z.shiftl acceleration LZ4_skipTrigger) forwardH in
  let c := CState table (c_dst c) (c_op c) (c_anchor c) in
  match found with
  | None => Ret (Goto LastLiterals c)
  | Some (ip, mtch) =>
      let! (ip, mtch) := catch_up (c_anchor c) ip mtch in
      encode_literals c ip mtch
  end.

(** Encode the offset and the length of a match: the new [ip] and state, or only the
    destination when it is too small. *)
Definition encode_match (c : cstate) (ip mtch token : Z) : outcome (Z * cstate + list Z) :=
  let! dst := LZ4_writeLE16 (c_dst c) (c_op c) ((ip - mtch) mod 2 ^ 16) in
  let op := c_op c + 2 in
  let! matchCode := LZ4_count src (ip + MINMATCH) (mtch + MINMATCH) matchlimit in
  let ip := ip + (matchCode + MINMATCH) in
  if limited && (olimit <? op + (1 + LASTLITERALS) + (matchCode + 240) / 255)
  then Ret (inr dst)
  else
    let! t := read_byte dst token in
    if ML_MASK <=? matchCode then
      let! dst := write_byte dst token (t + ML_MASK) in
      let matchCode := matchCode - ML_MASK in
      let! dst := LZ4_write32 dst op 0xFFFFFFFF in
      let! (dst, op, matchCode) := put_match_length (S (Z.to_nat matchCode)) dst op matchCode in
      let op := op + matchCode / 255 in
      let! dst := write_byte dst op (matchCode mod 255) in
      Ret (inl (ip, CState (c_table c) dst (op + 1) ip))
    else
      let! dst := write_byte dst token (t + u8 matchCode) in
      Ret (inl (ip, CState (c_table c) dst op ip)).

(** After a match: end of the input, a match at the next position, or a new search. *)
Definition next_position (c : cstate) (ip : Z) : outcome jump :=
  if mflimitPlusOne <=? ip then Ret (Goto LastLiterals c) else
  let! h := LZ4_hashPosition src (ip - 2) tt in
  let idx := u32 (ip - 2 + startIndex) in
  let! table := LZ4_putIndexOnHash idx h (c_table c) tt in
  let! h := LZ4_hashPosition src ip tt in
  let current := u32 (ip + startIndex) in
  let! matchIndex := LZ4_getIndexOnHash h table tt in
  let mtch := matchIndex - startIndex in
  let! table := LZ4_putIndexOnHash current h table tt in
  let! found :=
    if (bool_decide (tt = byU16) && (LZ4_DISTANCE_MAX =? LZ4_DISTANCE_ABSOLUTE_MAX))
       || (current <=? u32 (matchIndex + LZ4_DISTANCE_MAX))
    then
      let! a := LZ4_read32 src mtch in
      let! b := LZ4_read32 src ip in
      Ret (a =? b)
    else Ret false in
  if found : bool then
    let token := c_op c in
    let! dst := write_byte (c_dst c) token 0 in
    Ret (Goto (NextMatch ip mtch token) (CState table dst (c_op c + 1) (c_anchor c)))
  else
    let ip := ip + 1 in
    let! forwardH := LZ4_hashPosition src ip tt in
    Ret (Goto (MainLoop ip forwardH) (CState table (c_dst c) (c_op c) (c_anchor c))).

Definition next_match (c : cstate) (ip mtch token : Z) : outcome jump :=
  let! r := encode_match c ip mtch token in
  match r with
  | inr dst => Ret (Return 0 dst)
  | inl (ip, c) => next_position c ip
  end.

(** Encode last literals. *)
Definition last_literals (c : cstate) : outcome jump :=
  let lastRun := iend - c_anchor c in
  let op := c_op c in
  if limited && (olimit <? op + lastRun + 1 + (lastRun + 255 - RUN_MASK) / 255)
  then Ret (Return 0 (c_dst c))
  else
    let! (dst, op) :=
      if RUN_MASK <=? lastRun then
        let accumulator := lastRun - RUN_MASK in
        let! dst := write_byte (c_dst c) op (Z.shiftl RUN_MASK ML_BITS) in
        put_length (S (Z.to_nat accumulator)) dst (op + 1) accumulator
      else
        let! dst := write_byte (c_dst c) op (Z.shiftl lastRun ML_BITS) in
        Ret (dst, op + 1) in
    let! dst := LZ4_memcpy (Some src) dst op (c_anchor c) lastRun in
    Ret (Return (op + lastRun) dst).

Definition compress_step (l : label) (c : cstate) : outcome jump :=
  match l with
  | MainLoop ip forwardH => main_loop c ip forwardH
  | NextMatch ip mtch token => next_match c ip mtch token
  | LastLiterals => last_literals c
  end.

Fixpoint compress_loop (fuel : nat) (l : label) (c : cstate) : outcome (Z * list Z) :=
  match fuel with
  | O => NoFuel
  | S fuel =>
      let! j := compress_step l c in
      match j with
      | Goto l c => compress_loop fuel l c
      | Return n dst => Ret (n, dst)
      end
  end.

End Generic.

(** The result and the destination; the context is local to the call. *)
Definition LZ4_compress_generic_validated (cctx : LZ4_stream) (src dst : list Z)
    (inputSize maxOutputSize : Z) (od : limitedOutput_directive) (tt : tableType_t)
    (acceleration : Z) : outcome (Z * list Z) :=
  let startIndex := currentOffset cctx in
  let cctx := Stream (hashTable cctx) (u32 (startIndex + inputSize)) tt (u32 (dictSize cctx + inputSize)) in
  let run := compress_loop src inputSize maxOutputSize od tt startIndex acceleration
    (2 * length src + 2) in
  if inputSize <? LZ4_minLength then run LastLiterals (CState (hashTable cctx) dst 0 0)
  else
    let! h := LZ4_hashPosition src 0 tt in
    let! table := LZ4_putIndexOnHash startIndex h (hashTable cctx) tt in
    let! forwardH := LZ4_hashPosition src 1 tt in
    run (MainLoop 1 forwardH) (CState table dst 0 0).

Definition LZ4_compress_generic (cctx : LZ4_stream) (src dst : list Z) (srcSize dstCapacity : Z)
    (od : limitedOutput_directive) (tt : tableType_t) (acceleration : Z) : outcome (Z * list Z) :=
  if LZ4_MAX_INPUT_SIZE <? u32 srcSize then Ret (0, dst)
  else if srcSize =? 0 then
    if limited od && (dstCapacity <=? 0) then Ret (0, dst)
    else let! dst := write_byte dst 0 0 in Ret (1, dst)
  else LZ4_compress_generic_validated cctx src dst srcSize dstCapacity od tt acceleration.

Definition LZ4_compress_fast_extState (src dst : list Z) (inputSize maxOutputSize acceleration : Z) :
    outcome (Z * list Z) :=
  let tt := if inputSize <? LZ4_64Klimit then byU16 else byU32 in
  let ctx := LZ4_initStream tt in
  let acceleration := if acceleration <? 1 then LZ4_ACCELERATION_DEFAULT else acceleration in
  let acceleration :=
    if LZ4_ACCELERATION_MAX <? acceleration then LZ4_ACCELERATION_MAX else acceleration in
  if LZ4_compressBound inputSize <=? maxOutputSize
  then LZ4_compress_generic ctx src dst inputSize 0 notLimited tt acceleration
  else LZ4_compress_generic ctx src dst inputSize maxOutputSize limitedOutput tt acceleration.

Definition lz4_compress_fast (src dst : list Z) (srcSize dstCapacity acceleration : Z) :
    outcome (Z * list Z) :=
  LZ4_compress_fast_extState src dst srcSize dstCapacity acceleration.

(** ** Common bytes *)
Lemma testbit_small u k n : 0 <= u < 2 ^ k → 0 <= k <= n → Z.testbit u n = false.
Proof.
  intros Hu Hk. destruct (Z.eq_dec u 0) as [->|]; [apply Z.bits_0|].
  apply Z.bits_above_log2; [lia|]. apply Z.log2_lt_pow2; [lia|].
  eapply Z.lt_le_trans; [apply Hu|]. apply Z.pow_le_mono_r; lia.
Qed.

Lemma lor_byte a x : 0 <= a < 2 ^ 8 → a + Z.shiftl x 8 = Z.lor a (Z.shiftl x 8).
Proof.
  intros Ha.
  assert (Z.land a (Z.shiftl x 8) = 0) as Hl.
  { apply Z.bits_inj'. intros n Hn. rewrite Z.land_spec, Z.bits_0.
    destruct (Z.ltb_spec n 8).
    - by rewrite Z.shiftl_spec_low, andb_false_r.
    - by rewrite (testbit_small a 8) by lia. }
  by rewrite Z.add_nocarry_lxor, Z.lxor_lor.
Qed.

Lemma lxor_range a b : 0 <= a < 2 ^ 8 → 0 <= b < 2 ^ 8 → 0 <= Z.lxor a b < 2 ^ 8.
Proof.
  intros Ha Hb. split; [apply Z.lxor_nonneg; lia|]. apply Z.nle_gt. intros Hge.
  assert (8 <= Z.log2 (Z.lxor a b)) by (apply Z.log2_le_pow2; lia).
  assert (Z.testbit (Z.lxor a b) (Z.log2 (Z.lxor a b)) = true) as Ht by (apply Z.bit_log2; lia).
  by rewrite Z.lxor_spec, !(testbit_small _ 8) in Ht by lia.
Qed.

Lemma lxor_byte a b x y :
  0 <= a < 2 ^ 8 → 0 <= b < 2 ^ 8 →
  Z.lxor (a + 256 * x) (b + 256 * y) = Z.lxor a b + 256 * Z.lxor x y.
Proof.
  intros Ha Hb. change 256 with (2 ^ 8). rewrite !(Z.mul_comm (2 ^ 8)).
  rewrite <- !Z.shiftl_mul_pow2 by lia.
  pose proof (lxor_range a b Ha Hb).
  rewrite !lor_byte by done.
  apply Z.bits_inj'. intros n Hn. rewrite Z.lxor_spec, !Z.lor_spec, Z.lxor_spec.
  destruct (Z.ltb_spec n 8).
  - rewrite !Z.shiftl_spec_low by done. by rewrite !orb_false_r.
  - rewrite !Z.shiftl_spec, Z.lxor_spec by lia. by rewrite (testbit_small a 8), (testbit_small b 8) by lia.
Qed.

Lemma ctz_pos_nonneg p : 0 <= ctz_pos p.
Proof. induction p; simpl; lia. Qed.

Lemma ctz_shift n p : ctz_pos (Nat.iter n xO p) = Z.of_nat n + ctz_pos p.
Proof. induction n as [|n IH]; simpl; [lia|]. rewrite IH. lia. Qed.

Lemma ctzll_256 v : 0 < v → ctzll (256 * v) = 8 + ctzll v.
Proof. intros. destruct v as [|p|]; [lia| |lia]. apply (ctz_shift 8 p). Qed.

(** A bit below the first 8 is set: fewer than 8 trailing zeros. *)
Lemma ctzll_low v : 0 < v → v mod 256 ≠ 0 → 0 <= ctzll v < 8.
Proof.
  intros Hv Hm. destruct v as [|p|]; [done| |done]. simpl.
  split; [apply ctz_pos_nonneg|]. apply Z.nle_gt. intros Hge. apply Hm. clear Hm Hv.
  assert (∀ k p, Z.of_nat k <= ctz_pos p → (2 ^ Z.of_nat k | Z.pos p)) as H.
  { clear. induction k as [|k IH]; intros p Hk; [exists (Z.pos p); simpl; lia|].
    destruct p as [p|p|]; simpl in Hk; try lia.
    destruct (IH p) as [q Hq]; [lia|]. exists q.
    rewrite Nat2Z.inj_succ, Z.pow_succ_r by lia. lia. }
  apply Z.mod_divide; [done|]. apply (H 8%nat p). done.
Qed.

(** The number of trailing zero bytes of the difference of two words is the number
    of equal bytes they start with. *)
Lemma NbCommonBytes_spec a b :
  bytesP a → bytesP b → length a = length b → a ≠ b →
  ∃ k : nat, LZ4_NbCommonBytes (Z.lxor (le_join a) (le_join b)) = Z.of_nat k ∧
    (k < length a)%nat ∧ take k a = take k b ∧ a !! k ≠ b !! k.
Proof.
  intros Ha. revert b. induction Ha as [|x a Hx Ha IH]; intros b Hb Hl Hne.
  { by destruct b. }
  destruct Hb as [|y b Hy Hb]; [done|]. simpl. simpl in Hl.
  pose proof (le_join_bound a Ha). pose proof (le_join_bound b Hb).
  rewrite lxor_byte by done. unfold LZ4_NbCommonBytes in *.
  destruct (Z.eq_dec x y) as [->|Hxy].
  - destruct (IH b) as (k & Hk & Hlt & Ht & Hn); [done|lia|by intros ->|].
    rewrite Z.lxor_nilpotent. exists (S k).
    assert (0 < Z.lxor (le_join a) (le_join b)).
    { assert (0 <= Z.lxor (le_join a) (le_join b)) by (apply Z.lxor_nonneg; lia).
      assert (Z.lxor (le_join a) (le_join b) ≠ 0); [|lia].
      intros E%Z.lxor_eq. apply Hne. f_equal.
      rewrite <- (le_bytes_le_join a), <- (le_bytes_le_join b) by done. rewrite E. f_equal. lia. }
    rewrite Z.add_0_l, ctzll_256 by done. split_and!; [|simpl; lia|simpl; by f_equal|done].
    rewrite Z.shiftr_div_pow2 in * by lia. change (2 ^ 3) with 8 in *.
    replace (8 + ctzll (Z.lxor (le_join a) (le_join b)))
      with (ctzll (Z.lxor (le_join a) (le_join b)) + 1 * 8) by lia.
    rewrite Z.div_add by lia. lia.
  - exists 0%nat. split_and!; [|simpl; lia|done|simpl; congruence].
    assert (0 <= Z.lxor x y) by (apply Z.lxor_nonneg; ulia).
    assert (Z.lxor x y ≠ 0) by (by intros ?%Z.lxor_eq).
    assert (0 <= Z.lxor (le_join a) (le_join b)) by (apply Z.lxor_nonneg; lia).
    pose proof (lxor_range x y Hx Hy).
    pose proof (ctzll_low (Z.lxor x y + 256 * Z.lxor (le_join a) (le_join b))) as Hc.
    rewrite Z.mul_comm, Z.mod_add, Z.mod_small, Z.mul_comm in Hc by lia.
    rewrite Z.shiftr_div_pow2, Z.div_small by lia. done.
Qed.

(** ** Comparing two places of the input *)
Definition common (mem : list Z) (a b n : Z) : Prop :=
  ∀ j, 0 <= j < n → mem !! Z.to_nat (a + j) = mem !! Z.to_nat (b + j).

Lemma common_add mem a b n m :
  0 <= n → common mem a b n → common mem (a + n) (b + n) m → common mem a b (n + m).
Proof.
  intros Hn H1 H2 j Hj. destruct (Z.ltb_spec j n); [by apply H1; lia|].
  specialize (H2 (j - n) ltac:(lia)).
  by replace (a + n + (j - n)) with (a + j) in H2 by lia;
     replace (b + n + (j - n)) with (b + j) in H2 by lia.
Qed.

Lemma common_slice mem a b n :
  0 <= a → 0 <= b → a + n <= len mem → b + n <= len mem →
  slice a n mem = slice b n mem ↔ common mem a b n.
Proof.
  intros Ha Hb Han Hbn. split.
  - intros E j Hj. pose proof (f_equal (.!! Z.to_nat j) E) as Ej. simpl in Ej.
    rewrite !lookup_slice in Ej by lia. by rewrite !Z2Nat.inj_add by lia.
  - intros H. apply list_eq. intros i. destruct (Z.ltb_spec (Z.of_nat i) n).
    + rewrite !lookup_slice by lia. specialize (H (Z.of_nat i) ltac:(lia)).
      by rewrite !Z2Nat.inj_add, Nat2Z.id in H by lia.
    + rewrite !lookup_ge_None_2; [done|unfold slice; llia..].
Qed.

Lemma bytesP_slice off n mem : bytesP mem → bytesP (slice off n mem).
Proof. intros. by apply Forall_take, Forall_drop. Qed.

(** Two words are equal when their bytes are. *)
Lemma le_join_inj a b :
  bytesP a → bytesP b → length a = length b → le_join a = le_join b → a = b.
Proof.
  intros Ha Hb Hl E. rewrite <- (le_bytes_le_join a), <- (le_bytes_le_join b) by done. congruence.
Qed.

(** Comparing two words of [w] bytes. *)
Lemma load_eqb mem a b (w : nat) :
  bytesP mem → 0 <= a → 0 <= b → a + Z.of_nat w <= len mem → b + Z.of_nat w <= len mem →
  ∃ x y, load w mem a = Some x ∧ load w mem b = Some y ∧
    (x = y → common mem b a (Z.of_nat w)) ∧
    (x ≠ y → ¬ common mem b a (Z.of_nat w)).
Proof.
  intros Hm Ha Hb Haw Hbw. rewrite !load_in_range by lia. do 2 eexists. split; [done|]. split; [done|].
  rewrite <- common_slice by lia. split.
  - intros E. symmetry. apply le_join_inj; eauto using bytesP_slice.
    pose proof (length_slice a (Z.of_nat w) mem). pose proof (length_slice b (Z.of_nat w) mem). lia.
  - intros Hne E. by rewrite E in Hne.
Qed.

(** [n] is the number of common bytes at [p] and [q] up to [limit]. *)
Record count_spec (mem : list Z) (p q limit n : Z) : Prop := {
  count_nonneg : 0 <= n;
  count_limit : p + n <= limit;
  count_common : common mem p q n;
  count_max : p + n < limit → mem !! Z.to_nat (p + n) ≠ mem !! Z.to_nat (q + n);
}.

(** No more than [w] common bytes are left. *)
Definition near (mem : list Z) (p q limit w : Z) : Prop :=
  p <= limit ∧ (limit - p < w ∨ ∃ j, 0 <= j < w ∧ p + j < limit ∧
    mem !! Z.to_nat (p + j) ≠ mem !! Z.to_nat (q + j)).

Section Count.
Context (mem : list Z) (p q limit : Z).
Hypotheses (Hmem : bytesP mem) (Hq : 0 <= q) (Hpq : q < p) (Hlimit : limit <= len mem)
  (Hsize : len mem < 2 ^ 32).

Lemma near_here k :
  0 <= k → common mem p q k → near mem (p + k) (q + k) limit 1 → count_spec mem p q limit k.
Proof.
  intros Hk Hc [Hl Hn]. split; [lia|lia|done|].
  intros Hlt. destruct Hn as [?|(j & Hj & _ & Hne)]; [lia|].
  replace j with 0 in Hne by lia. by rewrite !Z.add_0_r in Hne.
Qed.

(** Bytes differ where their positions are not common. *)
Lemma not_common_near k w :
  0 <= k → p + k + w <= limit → ¬ common mem (p + k) (q + k) w → near mem (p + k) (q + k) limit w.
Proof.
  intros Hk Hl Hnc. split; [destruct (Z.ltb_spec w 0); [|lia]|].
  { exfalso. apply Hnc. intros j Hj. lia. }
  right. destruct (decide (Exists (fun j => mem !! Z.to_nat (p + k + Z.of_nat j) ≠
      mem !! Z.to_nat (q + k + Z.of_nat j)) (seq 0 (Z.to_nat w)))) as [He|He].
  - apply Exists_exists in He as (j & Hj & Hne). apply in_seq in Hj.
    exists (Z.of_nat j). split; [lia|]. split; [lia|done].
  - exfalso. apply Hnc. intros j Hj. apply dec_stable. intros Hne. apply He.
    apply Exists_exists. exists (Z.to_nat j). split; [apply in_seq; lia|].
    by rewrite Z2Nat.id by lia.
Qed.

(** Comparing half of what is left. *)
Lemma near_half k w x y :
  0 <= k → 0 < w → near mem (p + k) (q + k) limit (2 * w) → common mem p q k →
  (x = y → common mem (p + k) (q + k) w) → (x ≠ y → ¬ common mem (p + k) (q + k) w) →
  p + k + w <= limit →
  let k' := if x =? y then k + w else k in
  k <= k' ∧ common mem p q k' ∧ near mem (p + k') (q + k') limit w.
Proof.
  intros Hk Hw [Hl Hn] Hc Heq Hne Hle. destruct (Z.eqb_spec x y) as [E|E]; simpl.
  - specialize (Heq E). split; [lia|]. split; [by apply common_add|]. split; [lia|].
    destruct Hn as [?|(j & Hj & Hjl & Hd)]; [left; lia|]. right.
    destruct (Z.ltb_spec j w); [by rewrite Heq in Hd by lia|].
    exists (j - w). split; [lia|]. split; [lia|].
    by replace (p + (k + w) + (j - w)) with (p + k + j) by lia;
       replace (q + (k + w) + (j - w)) with (q + k + j) by lia.
  - split; [lia|]. split; [done|]. apply not_common_near; auto.
Qed.

Lemma near_small k w : p + k <= limit → limit - (p + k) < w → near mem (p + k) (q + k) limit w.
Proof. intros. split; [lia|by left]. Qed.
Lemma count_tail_spec k :
  0 <= k → common mem p q k → p + k <= limit → limit - (p + k) < 8 →
  ∃ n, count_tail mem p (p + k) (q + k) limit = Ret n ∧ count_spec mem p q limit n.
Proof.
  intros Hk Hc Hkl Hk8. unfold count_tail, LZ4_read32, LZ4_read16, read_byte.
  assert (∃ k', k <= k' ∧ common mem p q k' ∧ near mem (p + k') (q + k') limit 4 ∧
    (if p + k <? limit - 3 then
      let! a := or_undef OutOfBounds (load 4 mem (q + k)) in
      let! b := or_undef OutOfBounds (load 4 mem (p + k)) in
      Ret (if a =? b then (p + k + 4, q + k + 4) else (p + k, q + k))
    else Ret (p + k, q + k)) = Ret (p + k', q + k')) as (k1 & Hk1 & Hc1 & Hn1 & ->).
  { destruct (Z.ltb_spec (p + k) (limit - 3)).
    - destruct (load_eqb mem (q + k) (p + k) 4) as (x & y & -> & -> & Heq & Hne); [done|lia..|].
      simpl. edestruct (near_half k 4 x y) as (? & ? & ?);
        [lia|lia|by apply near_small; lia|done|exact Heq|exact Hne|lia|].
      eexists. split_and!; [done..|]. destruct (x =? y); by rewrite ?Z.add_assoc.
    - exists k. split_and!; [lia|done|by apply near_small; lia|done]. }
  cbn [obind].
  assert (∃ k2, k1 <= k2 ∧ common mem p q k2 ∧ near mem (p + k2) (q + k2) limit 2 ∧
    (if p + k1 <? limit - 1 then
      let! a := or_undef OutOfBounds (load 2 mem (q + k1)) in
      let! b := or_undef OutOfBounds (load 2 mem (p + k1)) in
      Ret (if a =? b then (p + k1 + 2, q + k1 + 2) else (p + k1, q + k1))
    else Ret (p + k1, q + k1)) = Ret (p + k2, q + k2)) as (k2 & Hk2 & Hc2 & Hn2 & ->).
  { destruct (Z.ltb_spec (p + k1) (limit - 1)).
    - destruct (load_eqb mem (q + k1) (p + k1) 2) as (x & y & -> & -> & Heq & Hne); [done|lia..|].
      simpl. edestruct (near_half k1 2 x y) as (? & ? & ?);
        [lia|lia|done|done|exact Heq|exact Hne|lia|].
      eexists. split_and!; [done..|]. destruct (x =? y); by rewrite ?Z.add_assoc.
    - exists k1. destruct Hn1. split_and!; [lia|done|apply near_small; lia|done]. }
  cbn [obind].
  destruct Hn2 as [Hl2 Hn2].
  destruct (Z.ltb_spec (p + k2) limit).
  - destruct (load_eqb mem (q + k2) (p + k2) 1) as (x & y & -> & -> & Heq & Hne); [done|lia..|].
    simpl. edestruct (near_half k2 1 x y) as (? & ? & Hn3);
      [lia|lia|by split|done|exact Heq|exact Hne|lia|].
    set (k3 := if x =? y then k2 + 1 else k2) in *. exists k3.
    split; [|by apply near_here; [lia|..]].
    f_equal. assert (p + k3 <= limit) by apply Hn3.
    replace ((if x =? y then p + k2 + 1 else p + k2) - p) with k3
      by (unfold k3; destruct (x =? y); lia).
    apply u32_id. ulia.
  - exists k2. simpl. split; [f_equal; replace (p + k2 - p) with k2 by lia; apply u32_id; ulia|].
    apply near_here; [lia|done|]. apply near_small; lia.
Qed.

(** Comparing 8 bytes at once. *)
Lemma word_step k :
  0 <= k → common mem p q k → p + k < limit - 7 →
  ∃ a b, LZ4_read_ARCH mem (q + k) = Ret a ∧ LZ4_read_ARCH mem (p + k) = Ret b ∧
    (Z.lxor a b = 0 → common mem p q (k + 8)) ∧
    (Z.lxor a b ≠ 0 → count_spec mem p q limit (k + LZ4_NbCommonBytes (Z.lxor a b)) ∧
       LZ4_NbCommonBytes (Z.lxor a b) < 8).
Proof.
  intros Hk Hc Hl. unfold LZ4_read_ARCH. rewrite !load_in_range by lia. change (Z.of_nat 8) with 8.
  do 2 eexists. split; [done|]. split; [done|].
  set (a := slice (q + k) 8 mem). set (b := slice (p + k) 8 mem).
  assert (len a = 8) as La by (apply length_slice; lia).
  assert (len b = 8) as Lb by (apply length_slice; lia).
  assert (bytesP a ∧ bytesP b) as [Ba Bb] by (split; by apply bytesP_slice).
  split.
  - intros E%Z.lxor_eq. apply common_add; [done|done|]. apply common_slice; [lia..|].
    change (b = a). symmetry. apply le_join_inj; [done|done|lia|done].
  - intros Hne. destruct (NbCommonBytes_spec a b) as (j & -> & Hj & Ht & Hd); [done|done|lia|..].
    { intros E. apply Hne. rewrite E. apply Z.lxor_nilpotent. }
    split; [|lia].
    assert (∀ i, (i < 8)%nat → a !! i = mem !! Z.to_nat (q + k + Z.of_nat i)) as Ea.
    { intros i Hi. unfold a. rewrite lookup_slice by lia. f_equal. lia. }
    assert (∀ i, (i < 8)%nat → b !! i = mem !! Z.to_nat (p + k + Z.of_nat i)) as Eb.
    { intros i Hi. unfold b. rewrite lookup_slice by lia. f_equal. lia. }
    split; [lia|lia|apply common_add; [done|done|]|].
    + intros i Hi. replace i with (Z.of_nat (Z.to_nat i)) by lia.
      rewrite <- Ea, <- Eb by lia. pose proof (f_equal (.!! Z.to_nat i) Ht) as E. simpl in E.
      by rewrite !lookup_take_lt in E by lia.
    + intros _ E. apply Hd. rewrite Ea, Eb by lia.
      by replace (q + k + Z.of_nat j) with (q + (k + Z.of_nat j)) by lia;
         replace (p + k + Z.of_nat j) with (p + (k + Z.of_nat j)) by lia.
Qed.

Lemma count_loop_spec fuel k :
  0 <= k → common mem p q k → p + k <= limit → limit - p - k < 8 * Z.of_nat fuel →
  (∃ n, count_loop fuel mem p (p + k) (q + k) limit = Ret (inl n) ∧ count_spec mem p q limit n) ∨
  (∃ k', count_loop fuel mem p (p + k) (q + k) limit = Ret (inr (p + k', q + k')) ∧
     0 <= k' ∧ common mem p q k' ∧ p + k' <= limit ∧ limit - (p + k') < 8).
Proof.
  revert k. induction fuel as [|fuel IH]; intros k Hk Hc Hl Hf; [lia|].
  cbn [count_loop]. unfold STEPSIZE. destruct (Z.ltb_spec (p + k) (limit - (8 - 1))).
  - destruct (word_step k) as (a & b & -> & -> & Heq & Hne); [done|done|lia|]. cbn [obind].
    destruct (Z.eqb_spec (Z.lxor a b) 0) as [E|E].
    + replace (p + k + 8) with (p + (k + 8)) by lia. replace (q + k + 8) with (q + (k + 8)) by lia.
      apply IH; [lia|auto|lia|lia].
    + destruct (Hne E) as [Hs Hlt]. left. eexists. split; [|exact Hs]. do 2 f_equal.
      replace (p + k + LZ4_NbCommonBytes (Z.lxor a b) - p)
        with (k + LZ4_NbCommonBytes (Z.lxor a b)) by lia.
      apply u32_id. destruct Hs. ulia.
  - right. exists k. split_and!; [done|done|done|lia|lia].
Qed.

Lemma LZ4_count_spec :
  p <= limit → ∃ n, LZ4_count mem p q limit = Ret n ∧ count_spec mem p q limit n.
Proof.
  intros Hp. unfold LZ4_count, STEPSIZE.
  assert (common mem p q 0) as H0 by (intros j Hj; lia).
  assert (∀ k, 0 <= k → common mem p q k → p + k <= limit → ∃ n,
    (let! r := count_loop (S (length mem)) mem p (p + k) (q + k) limit in
     match r with
     | inl n => Ret n
     | inr (pIn, pMatch) => count_tail mem p pIn pMatch limit
     end) = Ret n ∧ count_spec mem p q limit n) as Hrest.
  { intros k Hk Hc Hl.
    destruct (count_loop_spec (S (length mem)) k) as [(n & -> & Hs)|(k' & -> & Hk' & Hc' & Hl' & H8)];
      [done|done|done|lia|by eauto|]. cbn [obind]. by apply count_tail_spec. }
  destruct (Z.ltb_spec p (limit - (8 - 1))).
  - destruct (word_step 0) as (a & b & Ea & Eb & Heq & Hne); [done|done|lia|].
    rewrite Z.add_0_r in Ea, Eb. rewrite Ea, Eb. cbn [obind].
    destruct (Z.eqb_spec (Z.lxor a b) 0) as [E|E]; cbn [obind].
    + apply (Hrest 8); [lia|auto|lia].
    + destruct (Hne E) as [Hs _]. eauto.
  - cbn [obind]. specialize (Hrest 0 ltac:(lia) H0 ltac:(lia)). by rewrite !Z.add_0_r in Hrest.
Qed.

End Count.

(** ** A reference for [LZ4_count] *)
Fixpoint common_length (a b : list Z) : Z :=
  match a, b with
  | x :: a, y :: b => if x =? y then 1 + common_length a b else 0
  | _, _ => 0
  end.

Lemma common_length_unique a b (n : nat) :
  (n ≤ length a)%nat → (∀ j, (j < n)%nat → a !! j = b !! j) →
  ((n < length a)%nat → a !! n ≠ b !! n) → common_length a b = Z.of_nat n.
Proof.
  revert b n. induction a as [|x a IH]; intros b n Hl Heq Hne; simpl in *.
  - lia.
  - destruct n as [|n].
    + specialize (Hne ltac:(lia)). destruct b as [|y b]; [done|].
      destruct (Z.eqb_spec x y); [by subst|done].
    + pose proof (Heq 0%nat ltac:(lia)) as H0. destruct b as [|y b]; [done|].
      injection H0 as ->. rewrite Z.eqb_refl. rewrite (IH b n); [lia|lia| |].
      * intros j Hj. apply (Heq (S j)). lia.
      * intros Hn. apply Hne. lia.
Qed.

(** C36: [LZ4_count], which compares 8, 4, 2 and 1 bytes at a time and finds the first
    difference from the trailing zeros of an exclusive or, computes the length of
    the common prefix of the two places, and stays inside the input. *)
Theorem LZ4_count_reference mem p q limit :
  bytesP mem → 0 <= q < p → p <= limit <= len mem → len mem < 2 ^ 32 →
  LZ4_count mem p q limit = Ret (common_length (slice p (limit - p) mem) (drop (Z.to_nat q) mem)).
Proof.
  intros Hm Hq Hp Hs. destruct (LZ4_count_spec mem p q limit) as (n & -> & [Hn Hl Hc Hx]); try lia; [done|].
  f_equal. rewrite (common_length_unique _ _ (Z.to_nat n)); [lia|..].
  - pose proof (length_slice p (limit - p) mem). lia.
  - intros j Hj. rewrite lookup_slice, lookup_drop by lia. specialize (Hc (Z.of_nat j) ltac:(lia)).
    by rewrite !Z2Nat.inj_add, !Nat2Z.id in Hc by lia.
  - intros Hlt. rewrite lookup_slice, lookup_drop by (pose proof (length_slice p (limit - p) mem); lia).
    rewrite <- !Z2Nat.inj_add by lia. apply Hx. pose proof (length_slice p (limit - p) mem). lia.
Qed.

Lemma LZ4_count_reference_witness :
  let mem := [1; 2; 3; 4; 5; 6; 7; 8; 9; 10; 11; 1; 2; 3; 4; 5; 6; 7; 8; 9; 10; 12] in
  bytesP mem ∧ LZ4_count mem 11 0 (len mem) = Ret 10 ∧
  LZ4_count mem 11 0 (len mem) = Ret (common_length (slice 11 (len mem - 11) mem) (drop 0 mem)).
Proof.
  intros mem.
  assert (bytesP mem) as Hb by (unfold mem; repeat (apply Forall_cons_2; [ulia|]); apply Forall_nil_2).
  split; [exact Hb|]. split; [vm_compute; reflexivity|].
  apply (LZ4_count_reference mem 11 0 (len mem) Hb); unfold mem; simpl; lia.
Defined.
