(* ===== verification/Lz4Encoder.v ===== *)
(** * Correctness of the LZ4 compressor

    Every run of [LZ4_compress_generic_validated] returns, stays inside the
    destination, and either reports that the destination is too small or has
    written a well-formed block that stands for the source.  The proof follows the
    labels of the function: one invariant, one lemma per step. *)

From stdpp Require Import base list numbers option.
From Stdlib Require Import ZArith Lia.
From S2P Require Import Prelude Codec Lz4Block Lz4Mem Lz4Compress.

(** ** Writing lengths *)
Lemma write_byte_holds dst out v n p :
  holds dst out n → p = len out → p + 1 <= n → 0 <= v < 256 →
  ∃ dst', write_byte dst p v = Ret dst' ∧ holds dst' (out ++ [v]) n.
Proof.
  intros Hh Hp Hn Hv. unfold write_byte. rewrite u8_id by ulia.
  by apply write_bytes_holds.
Qed.

Lemma put_length_spec fuel dst out n op m :
  holds dst out n → op = len out → 0 <= m → (Z.to_nat m < fuel)%nat →
  op + len (length_tail m) <= n →
  ∃ dst', put_length fuel dst op m = Ret (dst', op + len (length_tail m)) ∧
    holds dst' (out ++ length_tail m) n.
Proof.
  revert dst out op m. induction fuel as [|fuel IH]; intros dst out op m Hh -> Hm Hf Hn; [lia|].
  cbn [put_length]. destruct (Z.leb_spec 255 m).
  - rewrite length_tail_step in * by lia. rewrite length_cons in Hn.
    destruct (write_byte_holds dst out 255 n (len out)) as (d1 & -> & H1); [done|done|lia|lia|].
    cbn [obind]. destruct (IH d1 (out ++ [255]) (len out + 1) (m - 255)) as (d2 & -> & H2);
      [done|llia|lia|lia|lia|].
    exists d2. rewrite length_cons. split; [do 2 f_equal; lia|]. by rewrite <- app_assoc in H2.
  - assert (length_tail m = [m]) as E.
    { unfold length_tail. by rewrite Z.div_small, Z.mod_small by lia. }
    rewrite E in *. simpl in Hn.
    destruct (write_byte_holds dst out m n (len out)) as (d1 & -> & H1); [done|done|lia|lia|].
    exists d1. done.
Qed.

(** The words of four 255 that precede the last length byte of a match. *)
Lemma put_match_length_spec fuel dst out n op m :
  holds dst (out ++ replicate 4 255) n → op = len out → 0 <= m → (Z.to_nat m < fuel)%nat →
  op + len (length_tail m) + 3 <= n →
  ∃ dst' j, put_match_length fuel dst op m = Ret (dst', op + 4 * j, m - 1020 * j) ∧
    0 <= j ∧ 0 <= m - 1020 * j < 1020 ∧
    holds dst' (out ++ replicate (Z.to_nat (4 * j)) 255 ++ replicate 4 255) n.
Proof.
  revert dst out op m. induction fuel as [|fuel IH]; intros dst out op m Hh -> Hm Hf Hn; [lia|].
  cbn [put_match_length]. change (4 * 255) with 1020. destruct (Z.leb_spec 1020 m).
  - rewrite len_length_tail in Hn by lia.
    assert (m / 255 = (m - 1020) / 255 + 4) as E4.
    { replace m with (m - 1020 + 4 * 255) at 1 by lia. by rewrite Z.div_add by lia. }
    pose proof (Z.div_pos (m - 1020) 255 ltac:(lia) ltac:(lia)).
    destruct (write_bytes_holds dst (out ++ replicate 4 255) (le_bytes 4 0xFFFFFFFF) n (len out + 4))
      as (d1 & E1 & H1); [done|llia|llia|].
    unfold LZ4_write32. rewrite E1. cbn [obind].
    destruct (IH d1 (out ++ replicate 4 255) (len out + 4) (m - 1020))
      as (d2 & j & -> & Hj & Hr & H2); [done|llia|lia|lia|rewrite len_length_tail; lia|].
    exists d2, (j + 1). split; [do 2 f_equal; [f_equal|]; lia|]. split; [lia|]. split; [lia|].
    rewrite <- app_assoc in H2.
    by replace (replicate (Z.to_nat (4 * (j + 1))) 255)
      with (replicate 4 255 ++ replicate (Z.to_nat (4 * j)) 255)
      by (rewrite <- replicate_add; f_equal; lia); rewrite <- app_assoc.
  - exists dst, 0. split; [do 2 f_equal; [f_equal|]; lia|]. split; [lia|]. split; [lia|]. done.
Qed.

(** The token and the length bytes of a run of [n] literals. *)
Lemma put_run_spec dst out n lim op :
  holds dst out lim → op = len out → 0 <= n → op + 1 + len (length_bytes n) <= lim →
  ∃ dst',
    (if RUN_MASK <=? n then
       let! dst := write_byte dst op (Z.shiftl RUN_MASK ML_BITS) in
       put_length (S (Z.to_nat (n - RUN_MASK))) dst (op + 1) (n - RUN_MASK)
     else
       let! dst := write_byte dst op (Z.shiftl n ML_BITS) in
       Ret (dst, op + 1)) = Ret (dst', op + 1 + len (length_bytes n)) ∧
    holds dst' (out ++ [16 * Z.min n 15] ++ length_bytes n) lim.
Proof.
  intros Hh -> Hn Hl. change RUN_MASK with 15. unfold ML_BITS.
  destruct (Z.leb_spec 15 n).
  - rewrite length_bytes_tail in * by lia. rewrite len_length_tail in * by lia.
    pose proof (Z.div_pos (n - 15) 255 ltac:(lia) ltac:(lia)).
    destruct (write_byte_holds dst out 240 lim (len out)) as (d1 & E1 & H1); [done|done|lia|lia|].
    change (Z.shiftl 15 4) with 240. rewrite E1. cbn [obind].
    destruct (put_length_spec (S (Z.to_nat (n - 15))) d1 (out ++ [240]) lim (len out + 1) (n - 15))
      as (d2 & -> & H2); [done|llia|lia|lia|rewrite len_length_tail; lia|].
    exists d2. rewrite len_length_tail by lia. split; [done|].
    replace (16 * Z.min n 15) with 240 by lia. by rewrite <- app_assoc in H2.
  - assert (length_bytes n = []) as ->.
    { unfold length_bytes. destruct (Z.ltb_spec n 15); [done|lia]. }
    simpl in Hl. rewrite Z.shiftl_mul_pow2 by lia.
    destruct (write_byte_holds dst out (n * 2 ^ 4) lim (len out)) as (d1 & -> & H1);
      [done|done|lia|lia|].
    exists d1. simpl. split; [do 2 f_equal; lia|].
    by replace (16 * Z.min n 15) with (n * 2 ^ 4) by lia.
Qed.

(** The length bytes of a match, written four at a time. *)
Lemma put_match_tail dst out lim op m :
  holds dst out lim → op = len out → 0 <= m → op + len (length_tail m) + 3 <= lim →
  ∃ d1 d2 d3 op' m', LZ4_write32 dst op 0xFFFFFFFF = Ret d1 ∧
    put_match_length (S (Z.to_nat m)) d1 op m = Ret (d2, op', m') ∧
    write_byte d2 (op' + m' / 255) (m' mod 255) = Ret d3 ∧
    op' + m' / 255 + 1 = op + len (length_tail m) ∧
    holds d3 (out ++ length_tail m) lim.
Proof.
  intros Hh -> Hm Hl. rewrite len_length_tail in * by done.
  pose proof (Z.div_pos m 255 ltac:(lia) ltac:(lia)).
  destruct (write_bytes_holds dst out (le_bytes 4 0xFFFFFFFF) lim (len out)) as (d1 & E1 & H1);
    [done|done|llia|].
  assert (le_bytes 4 0xFFFFFFFF = replicate 4 255) as E4 by (vm_compute; reflexivity).
  rewrite E4 in H1.
  destruct (put_match_length_spec (S (Z.to_nat m)) d1 out lim (len out) m)
    as (d2 & j & E2 & Hj & Hr & H2); [done|done|done|lia|rewrite len_length_tail; lia|].
  set (r := m - 1020 * j) in *.
  assert (m / 255 = 4 * j + r / 255 ∧ m mod 255 = r mod 255) as [Ed Em].
  { replace m with (r + (4 * j) * 255) by lia. rewrite Z.div_add, Z.mod_add by lia. lia. }
  assert (0 <= r / 255 < 4) as Hq.
  { split; [apply Z.div_pos; lia|]. apply Z.div_lt_upper_bound; lia. }
  pose proof (Z.mod_pos_bound r 255 ltac:(lia)).
  destruct (write_byte_holds d2 (out ++ replicate (Z.to_nat (m / 255)) 255) (r mod 255) lim
    (len out + 4 * j + r / 255)) as (d3 & E3 & H3); [|llia|lia|lia|].
  { eapply holds_prefix; [exact H2|]. apply prefix_app. rewrite <- replicate_add.
    exists (replicate (4 - Z.to_nat (r / 255)) 255). rewrite <- replicate_add. f_equal. lia. }
  exists d1, d2, d3, (len out + 4 * j), r. split_and!; [done|done|done|lia|].
  unfold length_tail. by rewrite Em, app_assoc.
Qed.

(** ** The hash table *)
Record table_ok (tt : tableType_t) (table : list Z) (p : Z) : Prop := TableOk {
  table_len : len table = table_entries tt;
  table_below : Forall (fun x => 0 <= x < p) table;
}.

Lemma table_ok_mono tt table p p' : table_ok tt table p → p <= p' → table_ok tt table p'.
Proof. intros [? Hb] ?. split; [done|]. refine (Forall_impl _ _ Hb). intros. simpl in *. lia. Qed.

Lemma init_table_ok tt : tt ≠ clearedTable → table_ok tt (hashTable (LZ4_initStream tt)) 1.
Proof.
  intros. split; [by destruct tt|]. apply Forall_replicate. lia.
Qed.

Section Compress.
Context (src : list Z) (maxOutputSize : Z) (od : limitedOutput_directive)
  (tt : tableType_t) (acceleration cap : Z).

Abbreviation size := (len src).
Abbreviation limit := (matchlimit size).
Abbreviation mflimit1 := (mflimitPlusOne size).

Hypothesis Hsrc : bytesP src.
Hypothesis Htt : tt ≠ clearedTable.
Hypothesis H16 : tt = byU16 → size < LZ4_64Klimit.
Hypothesis Hsize : size <= LZ4_MAX_INPUT_SIZE.
Hypothesis Hacc : 1 <= acceleration <= LZ4_ACCELERATION_MAX.
(** What the caller guarantees of the destination of [cap] bytes. *)
Hypothesis Hlimited : limited od = true → maxOutputSize <= cap.
Hypothesis Hunlimited : limited od = false → 256 * size + 3826 <= 255 * cap.

Lemma size_small : size < 2 ^ 31 - 2 ^ 23.
Proof. unfold LZ4_MAX_INPUT_SIZE in Hsize. lia. Qed.

Lemma hash_range p :
  0 <= p → p + 8 <= size →
  ∃ h, LZ4_hashPosition src p tt = Ret h ∧ 0 <= h < table_entries tt.
Proof.
  intros Hp Hl. unfold LZ4_hashPosition, LZ4_read_ARCH, LZ4_read32, LZ4_hash4, LZ4_hash5.
  rewrite !load_in_range by lia. cbn [or_undef obind].
  clear H16. destruct tt; [done| |]; case_decide; try done; eexists; (split; [reflexivity|]);
    rewrite ?Z.shiftr_div_pow2 by (vm_compute; discriminate).
  - case_decide; [done|]. change (2 ^ (64 - LZ4_HASHLOG)) with (2 ^ 52).
    set (v := u64 (_ * 889523592379)). pose proof (u64_range (u64 (Z.shiftl (le_join (slice p (Z.of_nat 8) src)) 24) * 889523592379)) as Hv.
    fold v in Hv. change (table_entries byU32) with (2 ^ 12).
    assert (0 <= v / 2 ^ 52 < 2 ^ 12).
    { split; [apply Z.div_pos; ulia|]. apply Z.div_lt_upper_bound; ulia. }
    rewrite u32_id by ulia. done.
  - case_decide; [|done]. change (2 ^ (MINMATCH * 8 - (LZ4_HASHLOG + 1))) with (2 ^ 19).
    change (table_entries byU16) with (2 ^ 13).
    set (v := u32 _). assert (is_u32 v) by apply u32_range.
    split; [apply Z.div_pos; ulia|]. apply Z.div_lt_upper_bound; ulia.
Qed.

Lemma get_index_spec table p h :
  table_ok tt table p → 0 <= h < table_entries tt →
  ∃ i, LZ4_getIndexOnHash h table tt = Ret i ∧ 0 <= i < p.
Proof.
  intros [Hl Hb] Hh. assert (is_Some (table !! Z.to_nat h)) as [i Hi].
  { apply lookup_lt_is_Some. lia. }
  exists i. split; [|by eapply Forall_lookup_1 in Hb].
  unfold LZ4_getIndexOnHash. rewrite (proj2 (in_range_spec _ _ _)) by lia.
  rewrite Hi. by destruct tt.
Qed.

Lemma put_index_spec table p q idx h :
  table_ok tt table p → 0 <= h < table_entries tt → 0 <= idx < q → p <= q →
  (tt = byU16 → idx < 65536) →
  ∃ table', LZ4_putIndexOnHash idx h table tt = Ret table' ∧ table_ok tt table' q.
Proof.
  intros [Hl Hb] Hh Hi Hpq H2. unfold LZ4_putIndexOnHash.
  rewrite (proj2 (in_range_spec _ _ _)) by lia.
  assert (∀ v, v = idx → table_ok tt (<[Z.to_nat h := v]> table) q) as Hok.
  { intros v ->. split; [by rewrite length_insert|]. apply Forall_insert; [|lia].
    refine (Forall_impl _ _ Hb). intros. simpl in *. lia. }
  destruct tt; [done| |]; (eexists; split; [reflexivity|]); apply Hok; [done|].
  apply Z.mod_small. specialize (H2 eq_refl). lia.
Qed.

(** Comparing the four bytes at a candidate with those at [ip]. *)
Lemma read32_match m ip :
  0 <= m → m < ip → ip + 4 <= size →
  ∃ a b, LZ4_read32 src m = Ret a ∧ LZ4_read32 src ip = Ret b ∧ (a = b → common src ip m 4).
Proof.
  intros. destruct (load_eqb src m ip 4) as (a & b & Ea & Eb & Heq & _); [done|lia..|].
  exists a, b. unfold LZ4_read32. rewrite Ea, Eb. done.
Qed.

(** ** Searching *)

(** A match found at [ip]. *)
Record match_at (ip m : Z) : Prop := MatchAt {
  ma_m : 0 <= m < ip;
  ma_offset : ip - m < 2 ^ 16;
  ma_start : ip <= size - 12;
}.

Lemma mflimit1_eq : mflimit1 = size - 11.
Proof. unfold mflimitPlusOne, iend, MFLIMIT. lia. Qed.

Lemma find_match_spec fuel table fip step nb fh :
  table_ok tt table fip → 1 <= fip <= mflimit1 → LZ4_hashPosition src fip tt = Ret fh →
  1 <= step → 64 <= nb → nb + (size - fip) < 2 ^ 31 → size - fip < Z.of_nat fuel →
  ∃ table' r, find_match src size tt 0 fuel table fip step nb fh = Ret (table', r) ∧
    match r with
    | None => True
    | Some (ip, m) => fip <= ip ∧ match_at ip m ∧ common src ip m 4 ∧ table_ok tt table' (ip + 1)
    end.
Proof.
  pose proof size_small as Hss. pose proof mflimit1_eq as Em.
  revert table fip step nb fh. induction fuel as [|fuel IH];
    intros table fip step nb fh Ht Hf Hh Hst Hnb Hnbs Hfu; [lia|].
  cbn [find_match].
  destruct (hash_range fip) as (h & Eh & Hhr); [lia|lia|]. rewrite Hh in Eh. injection Eh as <-.
  destruct (get_index_spec table fip fh) as (i & -> & Hi); [done|done|]. cbn [obind].
  rewrite !Z.add_0_r, !Z.sub_0_r. rewrite (u32_id fip) by ulia.
  destruct (Z.ltb_spec mflimit1 (fip + step)); [by exists table, None|].
  destruct (hash_range (fip + step)) as (h2 & E2 & Hh2); [lia|lia|]. rewrite E2. cbn [obind].
  assert (tt = byU16 → fip < 65536) as Hf16.
  { intros E16. specialize (H16 E16). unfold LZ4_64Klimit, MFLIMIT in H16. lia. }
  destruct (put_index_spec table fip (fip + 1) fip fh) as (t1 & E1 & Ht1); [done|done|lia|lia|done|].
  rewrite E1. cbn [obind].
  assert (1 <= Z.shiftr nb LZ4_skipTrigger) as Hs1.
  { unfold LZ4_skipTrigger. rewrite Z.shiftr_div_pow2 by lia.
    apply Z.div_le_lower_bound; lia. }
  assert (i32 (nb + 1) = nb + 1) as -> by (apply i32_id; lia).
  assert (∃ table' r, find_match src size tt 0 fuel t1 (fip + step) (Z.shiftr nb LZ4_skipTrigger)
      (nb + 1) h2 = Ret (table', r) ∧
    match r with
    | None => True
    | Some (ip, m) => fip <= ip ∧ match_at ip m ∧ common src ip m 4 ∧ table_ok tt table' (ip + 1)
    end) as Hrec.
  { destruct (IH t1 (fip + step) (Z.shiftr nb LZ4_skipTrigger) (nb + 1) h2)
      as (t2 & r & E & Hr); [eapply table_ok_mono; [done|lia]|lia|done|done|lia|lia|lia|].
    exists t2, r. split; [done|]. destruct r as [[ip m]|]; [|done].
    destruct Hr as (? & ? & ? & ?). split; [lia|done]. }
  destruct ((_ || _) && _) eqn:Efar; [done|].
  destruct (read32_match i fip) as (a & b & -> & -> & Heq); [lia|lia|lia|]. cbn [obind].
  destruct (Z.eqb_spec a b) as [E|E]; [|done].
  exists t1, (Some (fip, i)). split; [done|]. split; [lia|]. split; [|split; [auto|done]].
  split; [lia| |lia].
  unfold LZ4_DISTANCE_MAX, LZ4_DISTANCE_ABSOLUTE_MAX in Efar. rewrite orb_false_r in Efar.
  apply andb_false_iff in Efar as [Hb|Hd].
  - apply negb_false_iff, bool_decide_eq_true in Hb. specialize (Hf16 Hb). lia.
  - apply Z.ltb_ge in Hd. rewrite u32_id in Hd by ulia. lia.
Qed.

Lemma catch_up_loop_spec fuel anchor ip m k :
  0 <= anchor < ip → 0 <= k → ip + k <= size → 0 < m < ip → (Z.to_nat m < fuel)%nat →
  src !! Z.to_nat (ip - 1) = src !! Z.to_nat (m - 1) → common src ip m k →
  ∃ j, catch_up_loop src fuel anchor ip m = Ret (ip - j, m - j) ∧
    0 <= j ∧ anchor <= ip - j ∧ 0 <= m - j ∧ common src (ip - j) (m - j) (k + j).
Proof.
  revert ip m k. induction fuel as [|fuel IH]; intros ip m k Ha Hk0 Hk Hm Hf Hb Hc; [lia|].
  cbn [catch_up_loop].
  assert (common src (ip - 1) (m - 1) (k + 1)) as Hc1.
  { rewrite Z.add_comm. apply common_add; [lia| |].
    - intros j Hj. replace j with 0 by lia. by rewrite !Z.add_0_r.
    - by replace (ip - 1 + 1) with ip by lia; replace (m - 1 + 1) with m by lia. }
  destruct (Z.ltb_spec anchor (ip - 1)), (Z.ltb_spec 0 (m - 1)); cbn [andb];
    try (exists 1; split_and!; [done|lia|lia|lia|done]).
  destruct (load_eqb src (ip - 1 - 1) (m - 1 - 1) 1) as (a & b & Ea & Eb & Heq & _); [done|lia..|].
  unfold read_byte. rewrite Ea, Eb. cbn [or_undef obind].
  destruct (Z.eqb_spec a b) as [E|E]; [|exists 1; split_and!; [done|lia|lia|lia|done]].
  destruct (IH (ip - 1) (m - 1) (k + 1)) as (j & -> & Hj & H1 & H2 & H3); [lia|lia|lia|lia|lia| |done|].
  { specialize (Heq E 0 ltac:(lia)). by rewrite !Z.add_0_r in Heq. }
  exists (j + 1). split; [do 2 f_equal; lia|]. split_and!; [lia|lia|lia|].
  by replace (ip - (j + 1)) with (ip - 1 - j) by lia; replace (m - (j + 1)) with (m - 1 - j) by lia;
     replace (k + (j + 1)) with (k + 1 + j) by lia.
Qed.

Lemma catch_up_spec anchor ip m k :
  0 <= anchor < ip → 0 <= k → ip + k <= size → 0 <= m < ip → common src ip m k →
  ∃ j, catch_up src anchor ip m = Ret (ip - j, m - j) ∧
    0 <= j ∧ anchor <= ip - j ∧ 0 <= m - j ∧ common src (ip - j) (m - j) (k + j).
Proof.
  intros Ha Hk0 Hk Hm Hc. unfold catch_up.
  assert (∃ j, Ret (ip, m) = Ret (ip - j, m - j) ∧
    0 <= j ∧ anchor <= ip - j ∧ 0 <= m - j ∧ common src (ip - j) (m - j) (k + j)) as H0.
  { exists 0. rewrite !Z.sub_0_r, Z.add_0_r. split_and!; [done|lia|lia|lia|done]. }
  destruct (Z.ltb_spec 0 m); [|done].
  destruct (load_eqb src (ip - 1) (m - 1) 1) as (a & b & Ea & Eb & Heq & _); [done|lia..|].
  unfold read_byte. rewrite Ea, Eb. cbn [or_undef obind].
  destruct (Z.eqb_spec a b) as [E|E]; [|done].
  apply catch_up_loop_spec; [done|lia|lia|lia|lia| |done].
  specialize (Heq E 0 ltac:(lia)). by rewrite !Z.add_0_r in Heq.
Qed.
(** ** One invariant per label *)

(** The sequences written so far stand for the source up to [anchor]. *)
Record progress (ss : list sequence) (anchor : Z) : Prop := Progress {
  pr_wf : sequences_wf size 0 ss;
  pr_expand : expand_sequences ss = take (Z.to_nat anchor) src;
  pr_anchor : 0 <= anchor <= size;
  pr_ratio : 255 * len (encode_sequences ss) <= 256 * anchor;
}.

Definition literals (anchor ip : Z) : list Z := slice anchor (ip - anchor) src.

Lemma len_literals anchor ip : 0 <= anchor <= ip → ip <= size → len (literals anchor ip) = ip - anchor.
Proof. intros. apply length_slice; lia. Qed.

Lemma encode_literals_spec ss table dst anchor ip m :
  progress ss anchor → holds dst (encode_sequences ss) cap →
  anchor <= ip <= size - 12 →
  let out := encode_sequences ss ++ encode_last (literals anchor ip) in
  let c := CState table dst (len (encode_sequences ss)) anchor in
  (encode_literals src maxOutputSize od c ip m = Ret (Return 0 dst) ∧ limited od = true) ∨
  (∃ dst', encode_literals src maxOutputSize od c ip m =
      Ret (Goto (NextMatch ip m (len (encode_sequences ss))) (CState table dst' (len out) anchor)) ∧
    holds dst' out cap ∧ len out + 2 <= cap).
Proof.
  intros [_ _ Ha Hr] Hh Hip out c. unfold encode_literals. cbn [c_anchor c_op c_dst c_table c].
  pose proof size_small. rewrite u32_id by ulia.
  set (E := len (encode_sequences ss)) in *. set (ll := ip - anchor).
  destruct (length_bytes_bounds ll) as (_ & HX & HX0); [lia|]. set (X := len (length_bytes ll)) in *.
  assert (0 <= X) by (unfold X; lia).
  pose proof (Z.div_mod ll 255 ltac:(lia)). pose proof (Z.mod_pos_bound ll 255 ltac:(lia)).
  destruct (limited od && _) eqn:El; [left; split; [done|by apply andb_true_iff in El as [? _]]|right].
  assert (E + 1 + X + ll + 8 <= cap + Z.min ll 1 ∧ E + 1 + X + 8 <= cap) as [Hroom Hroom8].
  { apply andb_false_iff in El as [El|El].
    - specialize (Hunlimited El). lia.
    - unfold olimit, LASTLITERALS in El. apply Z.ltb_ge in El.
      destruct (limited od) eqn:Eo; [|specialize (Hunlimited eq_refl); lia].
      specialize (Hlimited eq_refl). destruct (Z.ltb_spec ll 15); lia. }
  destruct (put_run_spec dst (encode_sequences ss) ll cap E) as (d1 & E1 & Hd1);
    [done|done|lia|fold X; lia|].
  fold X in E1. rewrite E1. cbn [obind].
  destruct (wildCopy8_holds src d1 (encode_sequences ss ++ [16 * Z.min ll 15] ++ length_bytes ll)
    cap (E + 1 + X) anchor ll) as (d2 & -> & Hd2); [done|unfold E, X; llia|lia..|].
  cbn [obind]. exists d2.
  assert (len (literals anchor ip) = ll) as Hll by (apply len_literals; lia).
  assert (len out = E + 1 + X + ll) as Hout.
  { unfold out. rewrite length_app, Nat2Z.inj_add, len_encode_last, Hll. fold E X. lia. }
  rewrite Hout. split; [done|]. split; [|lia].
  unfold out, encode_last. rewrite Hll. rewrite <- !app_assoc in Hd2. rewrite <- ?app_assoc. exact Hd2.
Qed.

(** A match extends the part of the source the sequences stand for. *)
Lemma progress_match ss anchor ip m n :
  progress ss anchor → anchor <= ip → match_at ip m → 4 <= n → ip + n <= size - 5 →
  common src ip m n →
  progress (ss ++ [Sequence (literals anchor ip) (ip - m) n]) (ip + n).
Proof.
  intros [Hwf He Ha Hr] Hip [Hm Ho Hs] Hn Hl Hc.
  assert (len (literals anchor ip) = ip - anchor) as Hll by (apply len_literals; lia).
  assert (sequences_size ss = anchor) as Hsz.
  { rewrite <- (len_expand_sequences size 0 ss), He by done. llia. }
  split; [..|lia|].
  - apply sequences_wf_snoc; [done|]. rewrite Hsz. split; cbn; lia.
  - rewrite expand_sequences_snoc. unfold expand_sequence. cbn. rewrite He.
    unfold literals. rewrite <- take_slice by lia. replace (anchor + (ip - anchor)) with ip by lia.
    rewrite (copy_match_src src).
    + f_equal. llia.
    + apply prefix_take.
    + llia.
    + llia.
    + intros j Hj. rewrite length_take, Nat.min_l by lia. specialize (Hc (Z.of_nat j) ltac:(lia)).
      replace (Z.to_nat ip + j)%nat with (Z.to_nat (ip + Z.of_nat j)) by lia. rewrite Hc. f_equal. lia.
  - rewrite encode_sequences_snoc, length_app, Nat2Z.inj_add, len_encode_sequence. cbn [sq_literals sq_length].
    rewrite Hll. destruct (length_bytes_bounds (ip - anchor)) as (_ & HX & _); [lia|].
    destruct (length_bytes_bounds (n - 4)) as (_ & HY & HY0); [lia|].
    destruct (Z.ltb_spec n 19); lia.
Qed.

(** Adding the match to the token and writing its length; [f] is what follows. *)
Lemma put_match_spec {A} (f : list Z → Z → A) ss lits off mc dst :
  let out := encode_sequences ss ++ encode_last lits ++ le_bytes 2 off in
  let token := len (encode_sequences ss) in
  let seq := encode_sequences (ss ++ [Sequence lits off (mc + 4)]) in
  holds dst out cap → 0 <= mc → (15 <= mc → len seq + 3 <= cap) →
  ∃ dst',
    (let! t := read_byte dst token in
     if ML_MASK <=? mc then
       let! dst := write_byte dst token (t + ML_MASK) in
       let matchCode := mc - ML_MASK in
       let! dst := LZ4_write32 dst (len out) 0xFFFFFFFF in
       let! (dst, op, matchCode) := put_match_length (S (Z.to_nat matchCode)) dst (len out) matchCode in
       let op := op + matchCode / 255 in
       let! dst := write_byte dst op (matchCode mod 255) in
       Ret (f dst (op + 1))
     else
       let! dst := write_byte dst token (t + u8 mc) in
       Ret (f dst (len out))) = Ret (f dst' (len seq)) ∧
    holds dst' seq cap.
Proof.
  intros out token seq Hh Hmc Hroom. set (ll := len lits) in *.
  set (post := length_bytes ll ++ lits ++ le_bytes 2 off).
  assert (out = encode_sequences ss ++ [16 * Z.min ll 15] ++ post) as Eout.
  { unfold out, encode_last, post. fold ll. by rewrite <- !app_assoc. }
  assert (seq = encode_sequences ss ++ [16 * Z.min ll 15 + Z.min mc 15] ++ post ++ length_bytes mc) as Eseq.
  { unfold seq. rewrite encode_sequences_snoc. unfold encode_sequence, post. cbn [sq_literals sq_length sq_offset].
    fold ll. replace (mc + 4 - 4) with mc by lia. by rewrite <- !app_assoc. }
  assert (len seq = len out + len (length_bytes mc)) as Hlen by (rewrite Eseq, Eout; llia).
  rewrite Eout in Hh. clearbody post seq.
  rewrite (read_byte_spec dst token (16 * Z.min ll 15)); [|lia|].
  2: { eapply prefix_lookup_Some; [|apply Hh]. unfold token. rewrite Nat2Z.id.
       by rewrite lookup_app_r, Nat.sub_diag by lia. }
  cbn [obind]. change ML_MASK with 15. destruct (Z.leb_spec 15 mc).
  - specialize (Hroom ltac:(lia)). rewrite length_bytes_tail in * by lia.
    destruct (write_byte_inside dst (encode_sequences ss) (16 * Z.min ll 15) (16 * Z.min ll 15 + 15) post cap token)
      as (d1 & -> & Hd1); [done|done|lia|]. cbn [obind]. cbv zeta.
    destruct (put_match_tail d1 (encode_sequences ss ++ [16 * Z.min ll 15 + 15] ++ post) cap (len out) (mc - 15))
      as (d2 & d3 & d4 & op' & m' & -> & E3 & E4 & Eop & Hd4); [done|rewrite Eout; llia|lia|lia|].
    cbn [obind]. rewrite E3. cbn [obind]. rewrite E4. cbn [obind].
    exists d4. rewrite Eop, Hlen. split; [done|]. rewrite Eseq.
    replace (Z.min mc 15) with 15 by lia. by rewrite <- !app_assoc in Hd4.
  - assert (length_bytes mc = []) as El.
    { unfold length_bytes. destruct (Z.ltb_spec mc 15); [done|lia]. }
    rewrite u8_id by ulia.
    destruct (write_byte_inside dst (encode_sequences ss) (16 * Z.min ll 15) (16 * Z.min ll 15 + mc) post cap token)
      as (d1 & -> & Hd1); [done|done|lia|]. cbn [obind].
    exists d1. rewrite Hlen, El. simpl. rewrite Z.add_0_r. split; [done|].
    rewrite Eseq, El, app_nil_r. by replace (Z.min mc 15) with mc by lia.
Qed.

Lemma encode_match_spec ss table dst anchor ip m k :
  let lits := literals anchor ip in
  let out := encode_sequences ss ++ encode_last lits in
  let c := CState table dst (len out) anchor in
  progress ss anchor → holds dst out cap → len out + 2 <= cap → anchor <= ip → match_at ip m →
  common src ip m k → 4 <= k → ip + k <= size - 5 →
  (∃ dst', encode_match src size maxOutputSize od c ip m (len (encode_sequences ss)) = Ret (inr dst') ∧
     len dst' = cap ∧ limited od = true) ∨
  (∃ n dst', let ss' := ss ++ [Sequence lits (ip - m) n] in
     encode_match src size maxOutputSize od c ip m (len (encode_sequences ss)) =
       Ret (inl (ip + n, CState table dst' (len (encode_sequences ss')) (ip + n))) ∧
     progress ss' (ip + n) ∧ holds dst' (encode_sequences ss') cap ∧
     k <= n ∧ ip + n <= size - 5 ∧ (limited od = true → len (encode_sequences ss') + 6 <= cap)).
Proof.
  intros lits out c Hp Hh Hroom Hip Hma Hc Hk Hkl. pose proof Hma as [Hm Hoff Hs].
  pose proof size_small as Hss. assert (0 <= anchor) as Ha by apply Hp.
  unfold encode_match. cbn [c_dst c_op c_table c].
  destruct (write_bytes_holds dst out (le_bytes 2 ((ip - m) mod 2 ^ 16)) cap (len out))
    as (d1 & E1 & Hd1); [done|done|llia|].
  rewrite Z.mod_small in * by lia. unfold LZ4_writeLE16. rewrite E1. cbn [obind].
  destruct (LZ4_count_spec src (ip + MINMATCH) (m + MINMATCH) limit) as (mc & -> & Hmc).
  { done. } { unfold MINMATCH; lia. } { unfold MINMATCH; lia. }
  { unfold matchlimit, iend, LASTLITERALS; lia. } { lia. }
  { unfold matchlimit, iend, LASTLITERALS, MINMATCH. lia. }
  cbn [obind].
  assert (ip + 4 + mc <= size - 5 ∧ 0 <= mc) as [Hmcl Hmc0].
  { destruct Hmc as [? Hl _ _]. unfold matchlimit, iend, LASTLITERALS, MINMATCH in Hl. lia. }
  assert (common src ip m (mc + 4)) as Hcn.
  { replace (mc + 4) with (4 + mc) by lia. apply common_add; [lia| |by destruct Hmc].
    intros j Hj. apply Hc. lia. }
  assert (k <= mc + 4) as Hkn.
  { apply Z.nlt_ge. intros Hlt. destruct Hmc as [_ _ _ Hmax].
    unfold matchlimit, iend, LASTLITERALS, MINMATCH in Hmax. apply Hmax; [lia|].
    specialize (Hc (4 + mc) ltac:(lia)). by rewrite !Z.add_assoc in Hc. }
  destruct (limited od && _) eqn:El.
  { left. exists d1. split_and!; [done|apply Hd1|by apply andb_true_iff in El as [? _]]. }
  right. set (ss' := ss ++ [Sequence lits (ip - m) (mc + 4)]).
  assert (progress ss' (ip + (mc + 4))) as Hp'.
  { apply progress_match; [done|done|done|lia|lia|done]. }
  assert (len (encode_sequences ss') = len out + 2 + len (length_bytes mc)) as Hlen.
  { unfold ss'. rewrite encode_sequences_snoc, length_app, Nat2Z.inj_add, len_encode_sequence.
    cbn [sq_literals sq_length]. replace (mc + 4 - 4) with mc by lia.
    unfold out. rewrite length_app, Nat2Z.inj_add, len_encode_last. lia. }
  destruct (length_bytes_bounds mc) as (_ & HX & HX0); [lia|].
  assert ((limited od = true → len (encode_sequences ss') + 6 <= cap) ∧
          (15 <= mc → len (encode_sequences ss') + 3 <= cap)) as [Hr6 Hr3].
  { assert (limited od = true → len (encode_sequences ss') + 6 <= cap) as H6.
    { intros Eo. rewrite Eo in El. unfold olimit, LASTLITERALS in El. apply Z.ltb_ge in El.
      specialize (Hlimited Eo). pose proof (Z.div_mod (mc + 240) 255 ltac:(lia)).
      pose proof (Z.mod_pos_bound (mc + 240) 255 ltac:(lia)). lia. }
    split; [done|]. intros H15. destruct (limited od) eqn:Eo; [specialize (H6 eq_refl); lia|].
    specialize (Hunlimited eq_refl). destruct Hp' as [_ _ _ Hr]. lia. }
  destruct (put_match_spec (fun d op => @inl _ (list Z) (ip + (mc + MINMATCH), CState table d op (ip + (mc + MINMATCH))))
    ss lits (ip - m) mc d1) as (d2 & E2 & Hd2); [unfold out in Hd1; by rewrite <- app_assoc in Hd1|done|done|].
  exists (mc + 4), d2. cbv zeta. fold ss'. split_and!; [|done|done|lia|lia|done].
  etrans; [|exact E2]. fold out.
  replace (len (encode_sequences ss ++ encode_last lits ++ le_bytes 2 (ip - m))) with (len out + 2); [done|].
  unfold out. llia.
Qed.

Definition label_inv (l : label) (c : cstate) : Prop :=
  match l with
  | MainLoop ip fh => ∃ ss,
      progress ss (c_anchor c) ∧ holds (c_dst c) (encode_sequences ss) cap ∧
      c_op c = len (encode_sequences ss) ∧ c_anchor c < ip <= size - 11 ∧
      table_ok tt (c_table c) ip ∧ LZ4_hashPosition src ip tt = Ret fh
  | NextMatch ip m token => ∃ ss k,
      let out := encode_sequences ss ++ encode_last (literals (c_anchor c) ip) in
      progress ss (c_anchor c) ∧ holds (c_dst c) out cap ∧ c_op c = len out ∧
      len out + 2 <= cap ∧ token = len (encode_sequences ss) ∧ c_anchor c <= ip ∧
      match_at ip m ∧ common src ip m k ∧ 4 <= k ∧ ip + k <= size - 5 ∧
      table_ok tt (c_table c) (ip + k)
  | LastLiterals => ∃ ss,
      progress ss (c_anchor c) ∧ holds (c_dst c) (encode_sequences ss) cap ∧
      c_op c = len (encode_sequences ss)
  end.

(** Enough steps for what is left of the input. *)
Definition measure (l : label) (c : cstate) : Z :=
  match l with
  | MainLoop _ _ => 2 * (size - c_anchor c) + 2
  | NextMatch _ _ _ => 2 * (size - c_anchor c) + 1
  | LastLiterals => 1
  end.

(** What the function returns: nothing, for want of space, or a block for the source. *)
Definition result_ok (n : Z) (dst : list Z) : Prop :=
  len dst = cap ∧
  ((n = 0 ∧ limited od = true) ∨
   ∃ ss last, expand ss last = src ∧ sequences_wf size 0 ss ∧
     n = len (encode_block ss last) ∧ holds dst (encode_block ss last) cap).

Definition jump_ok (m : Z) (j : jump) : Prop :=
  match j with
  | Goto l c => label_inv l c ∧ measure l c < m
  | Return n dst => result_ok n dst
  end.

Lemma main_loop_spec c ip fh :
  label_inv (MainLoop ip fh) c →
  ∃ j, main_loop src size maxOutputSize od tt 0 acceleration c ip fh = Ret j ∧
    jump_ok (measure (MainLoop ip fh) c) j.
Proof.
  intros (ss & Hp & Hh & Ho & Hip & Ht & Hf). pose proof mflimit1_eq. pose proof size_small.
  assert (0 <= c_anchor c <= size) as Ha by apply Hp.
  destruct (find_match_spec (S (length src)) (c_table c) ip 1 (Z.shiftl acceleration LZ4_skipTrigger) fh)
    as (t1 & r & E & Hr); [done|lia|done|lia|..|lia|].
  1,2: unfold LZ4_skipTrigger, LZ4_ACCELERATION_MAX in *; rewrite Z.shiftl_mul_pow2; lia.
  unfold main_loop. rewrite E. cbn [obind].
  destruct r as [[ip1 m]|].
  2: { eexists. split; [done|]. split; [by exists ss|]. simpl. lia. }
  destruct Hr as (Hge & Hma & Hc & Ht1). destruct Hma as [Hm Hoff Hs]. cbn [c_anchor].
  destruct (catch_up_spec (c_anchor c) ip1 m 4) as (j & -> & Hj & Hanc & Hmj & Hcj); [lia|lia|lia|lia|done|].
  cbn [obind c_op c_dst c_anchor].
  destruct (encode_literals_spec ss t1 (c_dst c) (c_anchor c) (ip1 - j) (m - j))
    as [[E1 El]|(d1 & E1 & Hd1 & Hroom)]; [done|done|lia|..]; rewrite Ho, E1; eexists; (split; [done|]).
  - split; [apply Hh|by left].
  - split; [|simpl; lia]. exists ss, (4 + j). cbn [c_anchor c_dst c_op c_table].
    split_and!; [done|done|done|done|done|lia| |done|lia|lia|].
    + split; lia.
    + eapply table_ok_mono; [done|lia].
Qed.

Lemma next_position_spec ss table dst anchor m0 :
  progress ss anchor → holds dst (encode_sequences ss) cap → 2 <= anchor <= size - 5 →
  (limited od = true → len (encode_sequences ss) + 6 <= cap) →
  table_ok tt table anchor → 2 * (size - anchor) + 2 < m0 →
  ∃ j, next_position src size tt 0 (CState table dst (len (encode_sequences ss)) anchor) anchor = Ret j ∧
    jump_ok m0 j.
Proof.
  intros Hp Hh Ha Hroom Ht Hm0. pose proof mflimit1_eq as Em. pose proof size_small.
  unfold next_position. cbn [c_table c_dst c_op c_anchor].
  destruct (Z.leb_spec mflimit1 anchor).
  { eexists. split; [done|]. split; [by exists ss|]. simpl. lia. }
  assert (tt = byU16 → anchor < 65536) as Hf16.
  { intros E16. specialize (H16 E16). unfold LZ4_64Klimit, MFLIMIT in H16. lia. }
  rewrite !Z.add_0_r.
  destruct (hash_range (anchor - 2)) as (h1 & -> & Hh1); [lia|lia|]. cbn [obind].
  rewrite (u32_id (anchor - 2)), (u32_id anchor) by ulia.
  destruct (put_index_spec table anchor anchor (anchor - 2) h1) as (t1 & -> & Ht1);
    [done|done|lia|lia|intros E16; specialize (Hf16 E16); lia|].
  cbn [obind]. destruct (hash_range anchor) as (h2 & -> & Hh2); [lia|lia|]. cbn [obind].
  destruct (get_index_spec t1 anchor h2) as (i & -> & Hi); [done|done|]. cbn [obind].
  destruct (put_index_spec t1 anchor (anchor + 1) anchor h2) as (t2 & -> & Ht2); [done|done|lia|lia|done|].
  cbn [obind]. rewrite !Z.sub_0_r.
  destruct (read32_match i anchor) as (a & b & Ea & Eb & Heq); [lia|lia|lia|].
  rewrite Ea, Eb. cbn [obind].
  destruct (hash_range (anchor + 1)) as (h3 & E3 & _); [lia|lia|]. rewrite E3. cbn [obind].
  assert (∃ j, Ret (Goto (MainLoop (anchor + 1) h3)
      (CState t2 dst (len (encode_sequences ss)) anchor)) = Ret j ∧ jump_ok m0 j) as Hmain.
  { eexists. split; [done|]. split; [|simpl; lia]. exists ss. cbn. split_and!; [done..|lia|lia|done|done]. }
  destruct ((_ && _) || _) eqn:Enear; [|done]. cbn [obind].
  destruct (Z.eqb_spec a b) as [E|E]; [|done].
  assert (len (encode_sequences ss) + 3 <= cap) as Hr3.
  { destruct (limited od) eqn:Eo; [specialize (Hroom eq_refl); lia|].
    specialize (Hunlimited eq_refl). destruct Hp as [_ _ _ Hr]. lia. }
  destruct (write_byte_holds dst (encode_sequences ss) 0 cap (len (encode_sequences ss)))
    as (d1 & -> & Hd1); [done|done|lia|lia|].
  cbn [obind]. eexists. split; [done|]. split; [|simpl; lia]. exists ss, 4. cbn [c_anchor c_dst c_op c_table].
  assert (encode_last (literals anchor anchor) = [0]) as ->.
  { unfold literals. by rewrite Z.sub_diag. }
  split_and!; [done|done|llia|llia|done|lia| |auto|lia|lia|eapply table_ok_mono; [done|lia]].
  split; [lia| |lia].
  unfold LZ4_DISTANCE_MAX, LZ4_DISTANCE_ABSOLUTE_MAX in Enear. rewrite andb_true_r in Enear.
  apply orb_true_iff in Enear as [Hb|Hd].
  - apply bool_decide_eq_true in Hb. specialize (Hf16 Hb). lia.
  - apply Z.leb_le in Hd. rewrite u32_id in Hd by ulia. lia.
Qed.

Lemma next_match_spec c ip m token :
  label_inv (NextMatch ip m token) c →
  ∃ j, next_match src size maxOutputSize od tt 0 c ip m token = Ret j ∧
    jump_ok (measure (NextMatch ip m token) c) j.
Proof.
  intros (ss & k & Hp & Hh & Ho & Hroom & -> & Hip & Hma & Hc & Hk & Hkl & Ht).
  assert (0 <= c_anchor c <= size) as Ha by apply Hp.
  destruct c as [table dst op anchor]. cbn [c_anchor c_op c_dst c_table] in *. subst op. unfold next_match.
  destruct (encode_match_spec ss table dst anchor ip m k)
    as [(d1 & E & Hd1 & El)|(n & d1 & E & Hp' & Hd1 & Hkn & Hl & Hr6)]; try done; rewrite E; cbn [obind].
  - eexists. split; [done|]. split; [done|by left].
  - apply next_position_spec; [done|done|lia|done|eapply table_ok_mono; [done|lia]|cbn [measure c_anchor]; lia].
Qed.

Lemma last_literals_spec c :
  label_inv LastLiterals c →
  ∃ j, last_literals src size maxOutputSize od c = Ret j ∧ jump_ok 1 j.
Proof.
  intros (ss & Hp & Hh & Ho). destruct c as [table dst op anchor]. cbn [c_anchor c_op c_dst c_table] in *. subst op.
  pose proof Hp as [Hwf He Ha Hr]. unfold last_literals. cbn [c_anchor c_op c_dst]. unfold iend.
  set (last := slice anchor (size - anchor) src).
  assert (len last = size - anchor) as Hl by (apply length_slice; lia).
  set (n := size - anchor) in *. set (E := len (encode_sequences ss)) in *.
  destruct (length_bytes_bounds n) as (_ & HX & HX0); [lia|]. set (X := len (length_bytes n)) in *.
  destruct (limited od && _) eqn:El.
  { eexists. split; [done|]. split; [apply Hh|]. left. by apply andb_true_iff in El as [? _]. }
  assert (E + 1 + X + n <= cap) as Hroom.
  { destruct (limited od) eqn:Eo; [|specialize (Hunlimited eq_refl); lia].
    specialize (Hlimited eq_refl). unfold olimit in El. change RUN_MASK with 15 in El.
    apply Z.ltb_ge in El. pose proof (Z.div_mod (n + 255 - 15) 255 ltac:(lia)).
    pose proof (Z.mod_pos_bound (n + 255 - 15) 255 ltac:(lia)). lia. }
  destruct (put_run_spec dst (encode_sequences ss) n cap E) as (d1 & E1 & Hd1); [done|done|lia|fold X; lia|].
  fold X in E1. rewrite E1. cbn [obind].
  destruct (memcpy_holds src d1 (encode_sequences ss ++ [16 * Z.min n 15] ++ length_bytes n) cap
    (E + 1 + X) anchor n) as (d2 & -> & Hd2); [done|unfold E, X; llia|lia..|].
  cbn [obind]. eexists. split; [done|].
  assert (encode_block ss last =
    (encode_sequences ss ++ [16 * Z.min n 15] ++ length_bytes n) ++ last) as Eb.
  { unfold encode_block, encode_last. rewrite Hl. by rewrite <- !app_assoc. }
  split; [apply Hd2|]. right. exists ss, last. split_and!.
  - unfold expand, last. rewrite He, <- take_slice by lia. apply take_ge. lia.
  - done.
  - rewrite Eb. unfold E, X. llia.
  - rewrite Eb. exact Hd2.
Qed.

Lemma compress_loop_spec fuel l c :
  label_inv l c → measure l c <= Z.of_nat fuel →
  ∃ n dst, compress_loop src size maxOutputSize od tt 0 acceleration fuel l c = Ret (n, dst) ∧
    result_ok n dst.
Proof.
  revert l c. induction fuel as [|fuel IH]; intros l c Hinv Hm.
  { exfalso. destruct l as [? ?|? ? ?|]; simpl in *; [..|lia];
      destruct Hinv as (ss & Hinv); [destruct Hinv as (Hp & _)|destruct Hinv as (k & Hp & _)];
      destruct Hp; lia. }
  cbn [compress_loop].
  assert (∃ j, compress_step src size maxOutputSize od tt 0 acceleration l c = Ret j ∧
    jump_ok (measure l c) j) as (j & -> & Hj).
  { destruct l; [by apply main_loop_spec|by apply next_match_spec|by apply last_literals_spec]. }
  cbn [obind]. destruct j as [l' c'|n dst]; [|by eauto].
  destruct Hj as [Hi' Hm']. apply IH; [done|lia].
Qed.

Lemma progress_nil : progress [] 0.
Proof. split; [simpl; lia|done|lia|simpl; lia]. Qed.

Theorem compress_validated_spec dst :
  len dst = cap →
  ∃ n dst', LZ4_compress_generic_validated (LZ4_initStream tt) src dst size maxOutputSize od tt
      acceleration = Ret (n, dst') ∧ result_ok n dst'.
Proof.
  intros Hd. unfold LZ4_compress_generic_validated. cbn [currentOffset hashTable LZ4_initStream dictSize].
  assert (holds dst (encode_sequences []) cap) as Hh by (split; [apply prefix_nil|done]).
  pose proof progress_nil. change LZ4_minLength with 13.
  destruct (Z.ltb_spec size 13).
  - apply compress_loop_spec; [by exists []|simpl; lia].
  - destruct (hash_range 0) as (h0 & -> & Hh0); [lia|lia|]. cbn [obind].
    destruct (put_index_spec (hashTable (LZ4_initStream tt)) 1 1 0 h0) as (t1 & E1 & Ht1);
      [by apply init_table_ok|done|lia|lia|lia|].
    cbn [hashTable LZ4_initStream] in E1. rewrite E1. cbn [obind].
    destruct (hash_range 1) as (h1 & Eh1 & _); [lia|lia|]. rewrite Eh1. cbn [obind].
    apply compress_loop_spec; [|simpl; lia].
    exists []. cbn [c_anchor c_dst c_op c_table]. split_and!; [done|done|done|lia|lia|done|done].
Qed.
End Compress.

(** ** The interface *)

(** [dst] starts with a well-formed block of [n] bytes that stands for [src]. *)
Definition block_of (src dst : list Z) (n : Z) : Prop :=
  ∃ ss last, expand ss last = src ∧ sequences_wf (len src) 0 ss ∧
    n = len (encode_block ss last) ∧ encode_block ss last `prefix_of` dst.

Lemma compress_generic_spec src dst maxOutputSize od tt acceleration :
  bytesP src → tt ≠ clearedTable → (tt = byU16 → len src < LZ4_64Klimit) → len src < 2 ^ 31 →
  1 <= acceleration <= LZ4_ACCELERATION_MAX →
  (limited od = true → maxOutputSize = len dst) →
  (limited od = false → LZ4_compressBound (len src) <= len dst) →
  ∃ n dst', LZ4_compress_generic (LZ4_initStream tt) src dst (len src) maxOutputSize od tt
      acceleration = Ret (n, dst') ∧ len dst' = len dst ∧
    ((n = 0 ∧ (limited od = true ∨ LZ4_MAX_INPUT_SIZE < len src)) ∨ block_of src dst' n).
Proof.
  intros Hb Htt H16 Hs Ha Hl Hu. unfold LZ4_compress_generic. rewrite u32_id by ulia.
  destruct (Z.ltb_spec LZ4_MAX_INPUT_SIZE (len src)).
  { exists 0, dst. split; [done|]. split; [done|]. left. split; [done|by right]. }
  destruct (Z.eqb_spec (len src) 0) as [E0|E0].
  - assert (src = []) as -> by (by destruct src).
    destruct (limited od && _) eqn:El.
    + exists 0, dst. split; [done|]. split; [done|]. left. split; [done|].
      left. by apply andb_true_iff in El as [? _].
    + assert (1 <= len dst).
      { destruct (limited od); [specialize (Hl eq_refl); apply Z.leb_gt in El; lia|].
        specialize (Hu eq_refl). change (LZ4_compressBound (len (@nil Z))) with 16 in Hu. lia. }
      destruct (write_byte_holds dst [] 0 (len dst) 0) as (d1 & -> & Hd1 & Hd2);
        [split; [apply prefix_nil|done]|done|lia|lia|].
      exists 1, d1. split; [done|]. split; [done|]. right. exists [], []. simpl. split_and!; [done|lia|done|done].
  - destruct (compress_validated_spec src maxOutputSize od tt acceleration (len dst))
      with (dst := dst) as (n & d1 & E1 & Hd1 & Hr); try done.
    + intros E. specialize (Hl E). lia.
    + intros E. specialize (Hu E). rewrite compressBound_spec in Hu by lia.
      pose proof (Z.div_mod (len src) 255 ltac:(lia)).
      pose proof (Z.mod_pos_bound (len src) 255 ltac:(lia)). lia.
    + exists n, d1. split; [done|]. split; [done|].
      destruct Hr as [[-> El]|(ss & last & He & Hw & Hn & Hh)]; [left; split; [done|by left]|].
      right. exists ss, last. split_and!; [done|done|done|apply Hh].
Qed.

Lemma compress_fast_spec src dst acceleration :
  bytesP src → len src < 2 ^ 31 →
  ∃ n dst', lz4_compress_fast src dst (len src) (len dst) acceleration = Ret (n, dst') ∧
    len dst' = len dst ∧
    ((n = 0 ∧ (len dst < LZ4_compressBound (len src) ∨ LZ4_MAX_INPUT_SIZE < len src)) ∨
     block_of src dst' n).
Proof.
  intros Hb Hs. unfold lz4_compress_fast, LZ4_compress_fast_extState.
  set (tt := if len src <? LZ4_64Klimit then byU16 else byU32).
  set (acc1 := if acceleration <? 1 then LZ4_ACCELERATION_DEFAULT else acceleration).
  set (acc := if LZ4_ACCELERATION_MAX <? acc1 then LZ4_ACCELERATION_MAX else acc1).
  assert (1 <= acc <= LZ4_ACCELERATION_MAX) as Hacc.
  { assert (1 <= acc1) by (unfold acc1, LZ4_ACCELERATION_DEFAULT; destruct (Z.ltb_spec acceleration 1); lia).
    unfold acc. destruct (Z.ltb_spec LZ4_ACCELERATION_MAX acc1); unfold LZ4_ACCELERATION_MAX in *; lia. }
  assert (tt ≠ clearedTable ∧ (tt = byU16 → len src < LZ4_64Klimit)) as [Htt H16].
  { unfold tt. destruct (Z.ltb_spec (len src) LZ4_64Klimit); done. }
  destruct (Z.leb_spec (LZ4_compressBound (len src)) (len dst)) as [Hc|Hc].
  - destruct (compress_generic_spec src dst 0 notLimited tt acc) as (n & d & E & Hd & Hr); try done.
    exists n, d. split; [done|]. split; [done|]. destruct Hr as [[-> [?|?]]|?]; [done| |by right].
    left. split; [done|by right].
  - destruct (compress_generic_spec src dst (len dst) limitedOutput tt acc) as (n & d & E & Hd & Hr);
      try done.
    exists n, d. split; [done|]. split; [done|]. destruct Hr as [[-> _]|?]; [|by right].
    left. split; [done|by left].
Qed.

(** C18: [LZ4_compress_fast] always returns, without an access outside the source and
    the destination.  It returns 0 only if the destination is smaller than
    [LZ4_compressBound] or the source is too large; otherwise the destination starts
    with a well-formed block of the returned size that stands for the source. *)
Theorem compress_fast_correct src dst acceleration :
  bytesP src → len src < 2 ^ 31 →
  ∃ n dst', lz4_compress_fast src dst (len src) (len dst) acceleration = Ret (n, dst') ∧
    len dst' = len dst ∧ 0 <= n <= len dst ∧
    (LZ4_compressBound (len src) <= len dst → len src <= LZ4_MAX_INPUT_SIZE → 0 < n) ∧
    (0 < n → block_of src dst' n).
Proof.
  intros Hb Hs. destruct (compress_fast_spec src dst acceleration Hb Hs) as (n & d & E & Hd & Hr).
  exists n, d. split; [done|]. split; [done|]. destruct Hr as [[-> Hwhy]|Hr].
  - split_and!; [lia|lia|lia|lia].
  - pose proof Hr as (ss & last & _ & _ & Hn & Hp%prefix_length).
    assert (0 < n) by (rewrite Hn; unfold encode_block; rewrite length_app, Nat2Z.inj_add, len_encode_last; lia).
    split_and!; [lia|lia|done|done].
Qed.

Lemma compress_fast_correct_witness :
  let src := replicate 40 7 in
  let dst := replicate 60 0 in
  bytesP src ∧ len src < 2 ^ 31 ∧
  ∃ n dst', lz4_compress_fast src dst (len src) (len dst) 1 = Ret (n, dst') ∧
    len dst' = len dst ∧ 0 <= n <= len dst ∧
    (LZ4_compressBound (len src) <= len dst → len src <= LZ4_MAX_INPUT_SIZE → 0 < n) ∧
    (0 < n → block_of src dst' n).
Proof.
  intros src dst.
  assert (bytesP src) as Hb by (apply Forall_replicate; ulia).
  assert (len src < 2 ^ 31) as Hs by (vm_compute; reflexivity).
  split; [exact Hb|]. split; [exact Hs|]. exact (compress_fast_correct src dst 1 Hb Hs).
Defined.
