(* ===== verification/Lz4Decompress.v ===== *)
(** * The LZ4 decompressor (deps/lz4/lz4.c)

    [LZ4_decompress_safe] on a 64-bit little-endian machine: the body of
    [LZ4_decompress_generic] for [decode_full_block] and [noDict].  Whether the fast
    decoding loop is compiled in ([LZ4_FAST_DEC_LOOP], on for x86-64) is an argument.
    Pointers are byte offsets into the source and the destination; the source is
    not the destination.  The tests for a wrap-around of the address space
    ([op + length < op]) are left out: a length is below [256 * srcSize]. *)

From stdpp Require Import base list numbers option.
From Stdlib Require Import ZArith Lia.
From S2P Require Import Prelude Codec Lz4Block Lz4Mem.

Definition inc32table : list Z := [0; 1; 2; 1; 0; 4; 4; 4].
Definition dec64table : list Z := [0; 0; 0; -1; -4; 1; 2; 3].

(** ** Lengths

    The new [ip], and the length unless the limit is reached. *)
Fixpoint rvl_loop (fuel : nat) (src : list Z) (ip ilimit length : Z) : outcome (Z * option Z) :=
  match fuel with
  | O => NoFuel
  | S fuel =>
      let! s := read_byte src ip in
      let ip := ip + 1 in
      let length := length + s in
      if ilimit <? ip then Ret (ip, None)
      else if s =? 255 then rvl_loop fuel src ip ilimit length
      else Ret (ip, Some length)
  end.

Definition read_variable_length (src : list Z) (ip ilimit : Z) (initial_check : bool) :
    outcome (Z * option Z) :=
  if initial_check && (ilimit <=? ip) then Ret (ip, None) else
  let! s := read_byte src ip in
  let ip := ip + 1 in
  let length := s in
  if ilimit <? ip then Ret (ip, None)
  else if negb (s =? 255) then Ret (ip, Some length)
  else rvl_loop (S (List.length src)) src ip ilimit length.

(** ** Copying a match *)

(** [while (op < cpy) { *op++ = *match++; }] *)
Fixpoint copy_bytes (n : nat) (dst : list Z) (op mtch : Z) : outcome (list Z) :=
  match n with
  | O => Ret dst
  | S n =>
      let! b := read_byte dst mtch in
      let! dst := write_bytes dst op [b] in
      copy_bytes n dst (op + 1) (mtch + 1)
  end.

(** The first 8 bytes; afterwards the distance is at least 8.  Returns the
    destination and [match]. *)
Definition copy_first (dst : list Z) (op mtch offset : Z) : outcome (list Z * Z) :=
  if offset <? 8 then
    let! dst := LZ4_write32 dst op 0 in
    let! dst := copy_bytes 4 dst op mtch in
    let! inc := or_undef OutOfBounds (inc32table !! Z.to_nat offset) in
    let! dec := or_undef OutOfBounds (dec64table !! Z.to_nat offset) in
    let mtch := mtch + inc in
    let! dst := LZ4_memcpy None dst (op + 4) mtch 4 in
    Ret (dst, mtch - dec)
  else
    let! dst := LZ4_memcpy None dst op mtch 8 in
    Ret (dst, mtch + 8).

(** [LZ4_memcpy_using_offset_base] *)
Definition LZ4_memcpy_using_offset_base (dst : list Z) (d s e offset : Z) : outcome (list Z) :=
  let! (dst, s) := copy_first dst d s offset in
  LZ4_wildCopy8 None dst (d + 8) s e.

(** [do { memcpy(d,s,16); memcpy(d+16,s+16,16); d+=32; s+=32; } while (d<e)] *)
Fixpoint wildCopy32_loop (fuel : nat) (from : option (list Z)) (dst : list Z) (d s e : Z) :
    outcome (list Z) :=
  match fuel with
  | O => NoFuel
  | S fuel =>
      let! dst := LZ4_memcpy from dst d s 16 in
      let! dst := LZ4_memcpy from dst (d + 16) (s + 16) 16 in
      let d := d + 32 in
      let s := s + 32 in
      if d <? e then wildCopy32_loop fuel from dst d s e else Ret dst
  end.

Definition LZ4_wildCopy32 (from : option (list Z)) (dst : list Z) (d s e : Z) : outcome (list Z) :=
  wildCopy32_loop (S (Z.to_nat (e - d))) from dst d s e.

(** [while (dstPtr < dstEnd) { memcpy(dstPtr, v, 8); dstPtr += 8; }] *)
Fixpoint fill_pattern (fuel : nat) (v dst : list Z) (d e : Z) : outcome (list Z) :=
  match fuel with
  | O => NoFuel
  | S fuel =>
      if d <? e then
        let! dst := write_bytes dst d v in
        fill_pattern fuel v dst (d + 8) e
      else Ret dst
  end.

(** The offsets 1, 2 and 4 fill an 8-byte pattern. *)
Definition LZ4_memcpy_using_offset (dst : list Z) (d s e offset : Z) : outcome (list Z) :=
  if (offset =? 1) || (offset =? 2) || (offset =? 4) then
    let! v :=
      if offset =? 1 then let! b := read_byte dst s in Ret (replicate 8 b)
      else if offset =? 2 then
        let! a := read_bytes dst s 2 in
        let! b := read_bytes dst s 2 in
        Ret ((a ++ b) ++ (a ++ b))
      else
        let! a := read_bytes dst s 4 in
        let! b := read_bytes dst s 4 in
        Ret (a ++ b) in
    let! dst := write_bytes dst d v in
    fill_pattern (S (Z.to_nat (e - d))) v dst (d + 8) e
  else LZ4_memcpy_using_offset_base dst d s e offset.

Section Generic.
Context (src : list Z) (srcSize outputSize : Z).

Definition iend : Z := srcSize.
Definition oend : Z := outputSize.
Definition shortiend : Z := iend - 14 - 2.
Definition shortoend : Z := oend - 14 - 18.

(** A sequence is decoded and the next token read, or the function returns. *)
Inductive dstep :=
| Next (ip op : Z) (dst : list Z)
| Return (result : Z) (dst : list Z).

Definition output_error (ip : Z) (dst : list Z) : dstep := Return (- ip - 1) dst.

(** Copying a match of [length] bytes within the block. *)
Definition copy_within (ip op mtch offset length : Z) (dst : list Z) : outcome dstep :=
  let cpy := op + length in
  let! (dst, mtch) := copy_first dst op mtch offset in
  let op := op + 8 in
  if oend - MATCH_SAFEGUARD_DISTANCE <? cpy then
    let oCopyLimit := oend - (WILDCOPYLENGTH - 1) in
    if oend - LASTLITERALS <? cpy then Ret (output_error ip dst)
    else
      let! (dst, mtch, op) :=
        if op <? oCopyLimit then
          let! dst := LZ4_wildCopy8 None dst op mtch oCopyLimit in
          Ret (dst, mtch + (oCopyLimit - op), oCopyLimit)
        else Ret (dst, mtch, op) in
      let! dst := copy_bytes (Z.to_nat (cpy - op)) dst op mtch in
      Ret (Next ip cpy dst)
  else
    let! dst := LZ4_memcpy None dst op mtch 8 in
    let! dst :=
      if 16 <? length then LZ4_wildCopy8 None dst (op + 8) (mtch + 8) cpy else Ret dst in
    Ret (Next ip cpy dst).

(** From [safe_match_copy]; [length] is the one of the match. *)
Definition match_copy (ip op mtch offset length : Z) (dst : list Z) : outcome dstep :=
  if mtch <? 0 then Ret (output_error ip dst)
  else copy_within ip op mtch offset length dst.

(** From [_copy_match]; [length] is the one of the token. *)
Definition decode_match (ip op mtch offset length : Z) (dst : list Z) : outcome dstep :=
  let! (ip, addl) :=
    if length =? ML_MASK then read_variable_length src ip (iend - LASTLITERALS + 1) false
    else Ret (ip, Some 0) in
  match addl with
  | None => Ret (output_error ip dst)
  | Some addl =>
      let length := length + addl in
      let length := length + MINMATCH in
      match_copy ip op mtch offset length dst
  end.

(** The shortcut for few literals and a short match, away from the ends. *)
Definition decode_short (token ip op length : Z) (dst : list Z) : outcome dstep :=
  let! dst := LZ4_memcpy (Some src) dst op ip 16 in
  let op := op + length in
  let ip := ip + length in
  let length := Z.land token ML_MASK in
  let! offset := LZ4_readLE16 src ip in
  let ip := ip + 2 in
  let mtch := op - offset in
  if negb (length =? ML_MASK) && (8 <=? offset) && (0 <=? mtch) then
    let! dst := LZ4_memcpy None dst op mtch 8 in
    let! dst := LZ4_memcpy None dst (op + 8) (mtch + 8) 8 in
    let! dst := LZ4_memcpy None dst (op + 16) (mtch + 16) 2 in
    Ret (Next ip (op + (length + MINMATCH)) dst)
  else decode_match ip op mtch offset length dst.

(** From [safe_literal_copy]. *)
Definition literal_copy (token ip op length : Z) (dst : list Z) : outcome dstep :=
  let cpy := op + length in
  if (oend - MFLIMIT <? cpy) || (iend - (2 + 1 + LASTLITERALS) <? ip + length) then
    if negb (ip + length =? iend) || (oend <? cpy) then Ret (output_error ip dst)
    else
      let! dst := LZ4_memcpy (Some src) dst op ip length in
      Ret (Return (op + length) dst)
  else
    let! dst := LZ4_wildCopy8 (Some src) dst op ip cpy in
    let ip := ip + length in
    let op := cpy in
    let! offset := LZ4_readLE16 src ip in
    let ip := ip + 2 in
    let mtch := op - offset in
    let length := Z.land token ML_MASK in
    decode_match ip op mtch offset length dst.

(** The general case. *)
Definition decode_long (token ip op length : Z) (dst : list Z) : outcome dstep :=
  let! (ip, addl) :=
    if length =? RUN_MASK then read_variable_length src ip (iend - RUN_MASK) true
    else Ret (ip, Some 0) in
  match addl with
  | None => Ret (output_error ip dst)
  | Some addl => literal_copy token ip op (length + addl) dst
  end.

(** One turn of the main loop. *)
Definition decode_sequence (ip op : Z) (dst : list Z) : outcome dstep :=
  let! token := read_byte src ip in
  let ip := ip + 1 in
  let length := Z.shiftr token ML_BITS in
  if negb (length =? RUN_MASK) && ((ip <? shortiend) && (op <=? shortoend))
  then decode_short token ip op length dst
  else decode_long token ip op length dst.

Fixpoint decode_loop (fuel : nat) (ip op : Z) (dst : list Z) : outcome (Z * list Z) :=
  match fuel with
  | O => NoFuel
  | S fuel =>
      let! st := decode_sequence ip op dst in
      match st with
      | Next ip op dst => decode_loop fuel ip op dst
      | Return r dst => Ret (r, dst)
      end
  end.

(** ** The fast loop

    The sequence is decoded and the next token read by the fast loop, or the safe
    loop takes over after [st]. *)
Inductive fstep :=
| Fast (ip op : Z) (dst : list Z)
| Safe (st : dstep).

(** Copying a match in the fast loop. *)
Definition fast_copy (ip op mtch offset length : Z) (dst : list Z) : outcome fstep :=
  if mtch <? 0 then Ret (Safe (output_error ip dst))
  else
    let cpy := op + length in
    let! dst :=
      if offset <? 16 then LZ4_memcpy_using_offset dst op mtch cpy offset
      else LZ4_wildCopy32 None dst op mtch cpy in
    Ret (Fast ip cpy dst).

Definition fast_match (token ip op : Z) (dst : list Z) : outcome fstep :=
  let! offset := LZ4_readLE16 src ip in
  let ip := ip + 2 in
  let mtch := op - offset in
  let length := Z.land token ML_MASK in
  if length =? ML_MASK then
    let! (ip, addl) := read_variable_length src ip (iend - LASTLITERALS + 1) false in
    match addl with
    | None => Ret (Safe (output_error ip dst))
    | Some addl =>
        let length := length + addl in
        let length := length + MINMATCH in
        if oend - FASTLOOP_SAFE_DISTANCE <=? op + length then
          let! st := match_copy ip op mtch offset length dst in Ret (Safe st)
        else fast_copy ip op mtch offset length dst
    end
  else
    let length := length + MINMATCH in
    if oend - FASTLOOP_SAFE_DISTANCE <=? op + length then
      let! st := match_copy ip op mtch offset length dst in Ret (Safe st)
    else if (0 <=? mtch) && (8 <=? offset) then
      let! dst := LZ4_memcpy None dst op mtch 8 in
      let! dst := LZ4_memcpy None dst (op + 8) (mtch + 8) 8 in
      let! dst := LZ4_memcpy None dst (op + 16) (mtch + 16) 2 in
      Ret (Fast ip (op + length) dst)
    else fast_copy ip op mtch offset length dst.

(** One turn of the fast loop. *)
Definition fast_sequence (ip op : Z) (dst : list Z) : outcome fstep :=
  let! token := read_byte src ip in
  let ip := ip + 1 in
  let length := Z.shiftr token ML_BITS in
  if length =? RUN_MASK then
    let! (ip, addl) := read_variable_length src ip (iend - RUN_MASK) true in
    match addl with
    | None => Ret (Safe (output_error ip dst))
    | Some addl =>
        let length := length + addl in
        if (oend - 32 <? op + length) || (iend - 32 <? ip + length) then
          let! st := literal_copy token ip op length dst in Ret (Safe st)
        else
          let! dst := LZ4_wildCopy32 (Some src) dst op ip (op + length) in
          fast_match token (ip + length) (op + length) dst
    end
  else if ip <=? iend - (16 + 1) then
    let! dst := LZ4_memcpy (Some src) dst op ip 16 in
    fast_match token (ip + length) (op + length) dst
  else
    let! st := literal_copy token ip op length dst in Ret (Safe st).

Fixpoint fast_loop (fuel : nat) (ip op : Z) (dst : list Z) : outcome (Z * list Z) :=
  match fuel with
  | O => NoFuel
  | S fuel =>
      let! f := fast_sequence ip op dst in
      match f with
      | Fast ip op dst => fast_loop fuel ip op dst
      | Safe (Next ip op dst) => decode_loop fuel ip op dst
      | Safe (Return r dst) => Ret (r, dst)
      end
  end.
End Generic.

Section Entry.
Context (LZ4_FAST_DEC_LOOP : bool).

Definition LZ4_decompress_generic (src dst : list Z) (srcSize outputSize : Z) : outcome (Z * list Z) :=
  if outputSize <? 0 then Ret (-1, dst)
  else if outputSize =? 0 then
    if srcSize =? 1 then
      let! b := read_byte src 0 in
      Ret (if b =? 0 then 0 else -1, dst)
    else Ret (-1, dst)
  else if srcSize =? 0 then Ret (-1, dst)
  else if LZ4_FAST_DEC_LOOP && negb (outputSize <? FASTLOOP_SAFE_DISTANCE)
  then fast_loop src srcSize outputSize (S (length src)) 0 0 dst
  else decode_loop src srcSize outputSize (S (length src)) 0 0 dst.

Definition lz4_decompress_safe (src dst : list Z) (compressedSize maxDecompressedSize : Z) :
    outcome (Z * list Z) :=
  LZ4_decompress_generic src dst compressedSize maxDecompressedSize.
End Entry.
