(* ===== verification/Lz4Safe.v ===== *)
(** * The LZ4 decompressor is safe on every input

    For every input, well-formed or not, and with or without the fast loop,
    [LZ4_decompress_safe] returns without an access outside its two buffers, which
    is what its name promises. *)

From stdpp Require Import base list numbers option.
From Stdlib Require Import ZArith Lia.
From S2P Require Import Prelude Codec Lz4Block Lz4Mem Lz4Decompress.

(** ** Every input is decoded within bounds *)
Lemma lookup_bytesP (mem : list Z) p :
  bytesP mem → 0 <= p < len mem → ∃ b, mem !! Z.to_nat p = Some b ∧ is_u8 b.
Proof.
  intros Hm Hp. destruct (lookup_lt_is_Some_2 mem (Z.to_nat p)) as [b Hb]; [lia|].
  exists b. split; [done|]. by eapply Forall_lookup_1.
Qed.

Lemma read_byte_safe mem p :
  0 <= p < len mem → ∃ b, read_byte mem p = Ret b ∧ mem !! Z.to_nat p = Some b.
Proof.
  intros Hp. destruct (lookup_lt_is_Some_2 mem (Z.to_nat p)) as [b Hb]; [lia|].
  exists b. split; [|done]. apply read_byte_spec; [lia|done].
Qed.

Lemma read_byte_range mem p :
  bytesP mem → 0 <= p < len mem → ∃ b, read_byte mem p = Ret b ∧ is_u8 b.
Proof.
  intros Hm Hp. destruct (lookup_bytesP mem p) as (b & Hb & Hr); [done|done|].
  exists b. split; [|done]. apply read_byte_spec; [lia|done].
Qed.

Lemma readLE16_range mem p :
  bytesP mem → 0 <= p → p + 2 <= len mem → ∃ v, LZ4_readLE16 mem p = Ret v ∧ 0 <= v < 2 ^ 16.
Proof.
  intros Hm Hp Hl. unfold LZ4_readLE16, LZ4_read16. rewrite load_in_range by lia.
  eexists. split; [done|].
  assert (bytesP (slice p (Z.of_nat 2) mem)) as Hb by (by apply Forall_take, Forall_drop).
  apply le_join_bound in Hb. by rewrite length_slice in Hb by lia.
Qed.

Section Lengths.
Context (src : list Z) (ilimit : Z).
Hypotheses (Hsrc : bytesP src) (Hlimit : ilimit < len src).

Definition rvl_safe (ip : Z) (r : Z * option Z) : Prop :=
  ip <= r.1 <= len src ∧ match r.2 with Some l => 0 <= l ∧ r.1 <= ilimit | None => True end.

Lemma rvl_loop_safe fuel ip n :
  0 <= ip <= ilimit → 0 <= n → ilimit - ip < Z.of_nat fuel →
  ∃ r, rvl_loop fuel src ip ilimit n = Ret r ∧ rvl_safe ip r.
Proof.
  revert ip n. induction fuel as [|fuel IH]; intros ip n Hip Hn Hf; [lia|]. cbn [rvl_loop].
  destruct (read_byte_range src ip) as (b & -> & Hb); [done|lia|]. cbn [obind].
  destruct (Z.ltb_spec ilimit (ip + 1)); [eexists; split; [done|]; split; simpl; [lia|done]|].
  destruct (Z.eqb_spec b 255).
  - destruct (IH (ip + 1) (n + b)) as (r & -> & Hr & Hl); [lia|ulia|lia|].
    exists r. split; [done|]. split; [lia|done].
  - eexists. split; [done|]. split; simpl; ulia.
Qed.

Lemma rvl_safe_spec ip check :
  0 <= ip < len src → ∃ r, read_variable_length src ip ilimit check = Ret r ∧ rvl_safe ip r.
Proof.
  intros Hip. unfold read_variable_length.
  destruct (check && _); [eexists; split; [done|]; split; simpl; [lia|done]|].
  destruct (read_byte_range src ip) as (b & -> & Hb); [done|lia|]. cbn [obind].
  destruct (Z.ltb_spec ilimit (ip + 1)); [eexists; split; [done|]; split; simpl; [lia|done]|].
  destruct (Z.eqb_spec b 255); cbn [negb].
  - destruct (rvl_loop_safe (S (length src)) (ip + 1) b) as (r & -> & Hr & Hl); [lia|ulia|lia|].
    exists r. split; [done|]. split; [lia|done].
  - eexists. split; [done|]. split; simpl; ulia.
Qed.
End Lengths.

Lemma copy_bytes_safe n dst op m :
  0 <= op → op + Z.of_nat n <= len dst → 0 <= m → m + Z.of_nat n <= len dst →
  ∃ dst', copy_bytes n dst op m = Ret dst' ∧ len dst' = len dst.
Proof.
  revert dst op m. induction n as [|n IH]; intros dst op m Ho Hol Hm Hml; [by exists dst|].
  cbn [copy_bytes]. destruct (read_byte_safe dst m) as (b & -> & _); [lia|]. cbn [obind].
  destruct (write_bytes_safe dst op [b]) as (d1 & -> & Hd); [lia|simpl; lia|]. cbn [obind].
  destruct (IH d1 (op + 1) (m + 1)) as (d2 & -> & Hd2); [lia..|]. exists d2. split; [done|lia].
Qed.

(** The entries of the two tables. *)
Lemma tables_spec offset :
  0 <= offset < 8 →
  ∃ inc dec, inc32table !! Z.to_nat offset = Some inc ∧ dec64table !! Z.to_nat offset = Some dec ∧
    0 <= inc <= offset ∧ 4 <= 4 + offset - inc ∧ 0 <= inc - dec <= offset ∧
    (1 <= offset → ∃ m m' : nat, 4 + offset - inc = Z.of_nat m * offset ∧ inc <= 4 ∧
       8 + offset - (inc - dec) = Z.of_nat m' * offset).
Proof.
  intros Ho.
  assert (offset = 0 ∨ offset = 1 ∨ offset = 2 ∨ offset = 3 ∨ offset = 4 ∨ offset = 5 ∨
    offset = 6 ∨ offset = 7) as Hc by lia.
  destruct Hc as [->|[->|[->|[->|[->|[->|[->| ->]]]]]]]; simpl;
    do 2 eexists; (split; [reflexivity|]); (split; [reflexivity|]); (split; [lia|]);
    (split; [lia|]); (split; [lia|]); intros H1; try lia.
  - exists 4%nat, 8%nat. lia.
  - exists 2%nat, 4%nat. lia.
  - exists 2%nat, 3%nat. lia.
  - exists 2%nat, 2%nat. lia.
  - exists 1%nat, 2%nat. lia.
  - exists 1%nat, 2%nat. lia.
  - exists 1%nat, 2%nat. lia.
Qed.

Lemma copy_first_safe dst op m offset :
  0 <= offset → m = op - offset → 0 <= m → op + 8 <= len dst →
  ∃ dst' m', copy_first dst op m offset = Ret (dst', m') ∧ len dst' = len dst ∧ m <= m' <= op.
Proof.
  intros Ho -> Hm Hl. unfold copy_first, LZ4_write32. destruct (Z.ltb_spec offset 8).
  - destruct (tables_spec offset) as (inc & dec & -> & -> & Hi & Hi4 & Hd & _); [lia|].
    destruct (write_bytes_safe dst op (le_bytes 4 0)) as (d1 & -> & Hd1); [lia|llia|]. cbn [obind].
    destruct (copy_bytes_safe 4 d1 op (op - offset)) as (d2 & -> & Hd2); [lia..|].
    cbn [obind or_undef].
    destruct (memcpy_safe None d2 (op + 4) (op - offset + inc) 4) as (d3 & -> & Hd3);
      [lia..|simpl; lia|lia|].
    cbn [obind]. exists d3, (op - offset + inc - dec). split; [done|]. lia.
  - destruct (memcpy_safe None dst op (op - offset) 8) as (d1 & -> & Hd1); [lia..|simpl; lia|lia|].
    cbn [obind]. exists d1, (op - offset + 8). split; [done|]. lia.
Qed.

(** The copy of 32 bytes at a time; an invariant of the 16-byte steps is one of it. *)
Lemma wildCopy32_ind (P : Z → list Z → Prop) from dst d s e :
  P 0 dst →
  (∀ k dst, 0 <= k → k <= 16 ∨ d + k < e + 16 → P k dst →
    ∃ dst', LZ4_memcpy from dst (d + k) (s + k) 16 = Ret dst' ∧ P (k + 16) dst') →
  ∃ k dst', LZ4_wildCopy32 from dst d s e = Ret dst' ∧ e - d <= k ∧ P k dst'.
Proof.
  intros H0 Hstep. unfold LZ4_wildCopy32.
  assert (∀ fuel k dst, 0 <= k → k = 0 ∨ d + k < e → e - d - k < Z.of_nat fuel → (0 < fuel)%nat → P k dst →
    ∃ k' dst', wildCopy32_loop fuel from dst (d + k) (s + k) e = Ret dst' ∧ e - d <= k' ∧ P k' dst') as H.
  { induction fuel as [|fuel IH]; intros k dst' Hk Hc Hf Hp HP; [lia|]. cbn [wildCopy32_loop].
    destruct (Hstep k dst' Hk ltac:(lia) HP) as (dst2 & -> & HP2). cbn [obind].
    destruct (Hstep (k + 16) dst2 ltac:(lia) ltac:(lia) HP2) as (dst3 & E3 & HP3).
    rewrite <- !Z.add_assoc. rewrite E3. cbn [obind].
    rewrite <- Z.add_assoc in HP3. change (16 + 16) with 32 in HP3.
    destruct (Z.ltb_spec (d + (k + 32)) e).
    - apply IH; [lia|lia|lia|lia|done].
    - exists (k + 32), dst3. split; [done|]. split; [lia|done]. }
  destruct (H (S (Z.to_nat (e - d))) 0 dst) as (k & dst' & E & Hk & HP); [lia|by left|lia|lia|done|].
  rewrite !Z.add_0_r in E. eauto.
Qed.

Lemma wildCopy32_safe from dst d s e :
  0 <= d → d + 32 <= len dst → e + 31 <= len dst → 0 <= s →
  s + 32 <= len (default dst from) → s + (e - d) + 31 <= len (default dst from) →
  (from = None → 16 <= Z.abs (d - s)) →
  ∃ dst', LZ4_wildCopy32 from dst d s e = Ret dst' ∧ len dst' = len dst.
Proof.
  intros Hd Hd8 He Hs Hs8 Hse Ho.
  destruct (wildCopy32_ind (fun _ m => len m = len dst) from dst d s e)
    as (k & dst' & E & _ & Hl); [done| |by eauto].
  intros k m Hk Hc Hm.
  assert (len (default m from) = len (default dst from)) as Hdef by (destruct from; done).
  destruct (memcpy_safe from m (d + k) (s + k) 16) as (m' & E & Hm'); [lia..| |].
  - intros Hn. specialize (Ho Hn). lia.
  - exists m'. split; [done|lia].
Qed.

(** Filling with an 8-byte pattern, step by step. *)
Lemma fill_pattern_ind (P : Z → list Z → Prop) fuel v dst d e :
  P 0 dst → (Z.to_nat (e - d) < fuel)%nat →
  (∀ k dst, 0 <= k → d + k < e → P k dst →
    ∃ dst', write_bytes dst (d + k) v = Ret dst' ∧ P (k + 8) dst') →
  ∃ k dst', fill_pattern fuel v dst d e = Ret dst' ∧ 0 <= k ∧ e - d <= k ∧ P k dst'.
Proof.
  intros H0 Hf Hstep.
  assert (∀ fuel k dst, 0 <= k → (Z.to_nat (e - d - k) < fuel)%nat → P k dst →
    ∃ k' dst', fill_pattern fuel v dst (d + k) e = Ret dst' ∧ 0 <= k' ∧ e - d <= k' ∧ P k' dst') as H.
  { clear dst fuel H0 Hf. induction fuel as [|fuel IH]; intros k dst Hk Hf HP; [lia|]. cbn [fill_pattern].
    destruct (Z.ltb_spec (d + k) e).
    - destruct (Hstep k dst Hk ltac:(lia) HP) as (dst2 & -> & HP2). cbn [obind].
      rewrite <- Z.add_assoc. apply IH; [lia|lia|done].
    - exists k, dst. split_and!; [done|lia|lia|done]. }
  specialize (H fuel 0 dst ltac:(lia) ltac:(rewrite Z.sub_0_r; lia) H0). by rewrite Z.add_0_r in H.
Qed.

Lemma read_bytes_safe mem p n :
  0 <= p → 0 <= n → p + n <= len mem →
  read_bytes mem p n = Ret (slice p n mem) ∧ len (slice p n mem) = n.
Proof.
  intros. unfold read_bytes. rewrite (proj2 (in_range_spec _ _ _)) by lia.
  split; [done|]. by apply length_slice.
Qed.

(** The pattern of the offsets 1, 2 and 4 repeats the bytes at [s]. *)
Lemma pattern_read dst s offset :
  0 <= s → s + offset <= len dst → offset = 1 ∨ offset = 2 ∨ offset = 4 →
  ∃ v m, (if offset =? 1 then let! b := read_byte dst s in Ret (replicate 8 b)
    else if offset =? 2 then
      let! a := read_bytes dst s 2 in
      let! b := read_bytes dst s 2 in
      Ret ((a ++ b) ++ (a ++ b))
    else
      let! a := read_bytes dst s 4 in
      let! b := read_bytes dst s 4 in
      Ret (a ++ b)) = Ret v ∧ len v = 8 ∧
    v = concat (replicate m (slice s offset dst)) ∧ 8 = Z.of_nat m * offset.
Proof.
  intros Hs Hl [->|[->| ->]]; cbn [Z.eqb Pos.eqb].
  - destruct (read_byte_safe dst s) as (b & -> & Hb); [lia|]. exists (replicate 8 b), 8%nat.
    split; [done|]. split; [done|]. split; [|done]. by rewrite (slice_one _ _ _ Hb).
  - destruct (read_bytes_safe dst s 2) as [-> Hl2]; [lia..|]. cbn [obind].
    eexists _, 4%nat. split; [done|]. split; [llia|]. split; [|done]. simpl. by rewrite app_nil_r, <- !app_assoc.
  - destruct (read_bytes_safe dst s 4) as [-> Hl2]; [lia..|]. cbn [obind].
    eexists _, 2%nat. split; [done|]. split; [llia|]. split; [|done]. simpl. by rewrite app_nil_r.
Qed.

Lemma using_offset_safe dst d s e offset :
  0 <= offset → s = d - offset → 0 <= s → d + 16 <= len dst → e + 7 <= len dst →
  ∃ dst', LZ4_memcpy_using_offset dst d s e offset = Ret dst' ∧ len dst' = len dst.
Proof.
  intros Ho Hs Hs0 Hd He. unfold LZ4_memcpy_using_offset.
  destruct (_ || _) eqn:Epat.
  - assert (offset = 1 ∨ offset = 2 ∨ offset = 4) as Hc.
    { apply orb_true_iff in Epat as [[E|E]%orb_true_iff|E]; apply Z.eqb_eq in E; lia. }
    destruct (pattern_read dst s offset) as (v & m & -> & Hv & _); [lia|lia|done|]. cbn [obind].
    destruct (write_bytes_safe dst d v) as (d1 & -> & Hd1); [lia|lia|]. cbn [obind].
    destruct (fill_pattern_ind (fun _ m => len m = len dst) (S (Z.to_nat (e - d))) v d1 (d + 8) e)
      as (k & d2 & -> & _ & _ & Hd2); [lia|lia| |by eauto].
    intros k m' Hk Hlt Hm. destruct (write_bytes_safe m' (d + 8 + k) v) as (m2 & -> & Hm2); [lia|lia|].
    exists m2. split; [done|lia].
  - unfold LZ4_memcpy_using_offset_base.
    destruct (copy_first_safe dst d s offset) as (d1 & s' & -> & Hd1 & Hs'); [lia|lia|lia|lia|].
    cbn [obind]. destruct (wildCopy8_safe None d1 (d + 8) s' e) as (d2 & -> & Hd2);
      [lia..|simpl; lia|simpl; lia|lia|].
    exists d2. split; [done|lia].
Qed.

Section Safe.
Context (src : list Z) (cap : Z).
Hypothesis Hsrc : bytesP src.
Abbreviation isize := (len src).

(** A step that continues has consumed input and left room for its token. *)
Definition step_safe (ip0 : Z) (st : dstep) : Prop :=
  match st with
  | Next ip op dst => ip0 < ip < isize ∧ 0 <= op <= cap ∧ len dst = cap
  | Return r dst => len dst = cap ∧ r <= cap
  end.

Lemma error_safe ip0 ip dst : 0 <= ip → 0 <= cap → len dst = cap → step_safe ip0 (output_error ip dst).
Proof. intros. split; [done|lia]. Qed.

Lemma copy_within_safe ip0 ip op offset n dst :
  len dst = cap → 0 <= ip0 < ip → ip < isize → 0 <= offset <= op → op <= cap - 12 → 4 <= n →
  ∃ st, copy_within cap ip op (op - offset) offset n dst = Ret st ∧ step_safe ip0 st.
Proof.
  intros Hd Hip Hipl Ho Hop Hn. unfold copy_within, oend.
  destruct (copy_first_safe dst op (op - offset) offset) as (d1 & m & -> & Hd1 & Hm); [lia..|].
  cbn [obind]. change MATCH_SAFEGUARD_DISTANCE with 12. change (WILDCOPYLENGTH - 1) with 7.
  change LASTLITERALS with 5.
  destruct (Z.ltb_spec (cap - 12) (op + n)).
  - destruct (Z.ltb_spec (cap - 5) (op + n)); [eexists; split; [done|]; apply error_safe; lia|].
    destruct (Z.ltb_spec (op + 8) (cap - 7)).
    + destruct (wildCopy8_safe None d1 (op + 8) m (cap - 7)) as (d2 & -> & Hd2);
        [lia..|simpl; lia|simpl; lia|lia|].
      cbn [obind]. destruct (copy_bytes_safe (Z.to_nat (op + n - (cap - 7))) d2 (cap - 7)
        (m + (cap - 7 - (op + 8)))) as (d3 & -> & Hd3); [lia..|].
      cbn [obind]. eexists. split; [done|]. split_and!; lia.
    + cbn [obind]. destruct (copy_bytes_safe (Z.to_nat (op + n - (op + 8))) d1 (op + 8) m)
        as (d3 & -> & Hd3); [lia..|].
      cbn [obind]. eexists. split; [done|]. split_and!; lia.
  - destruct (memcpy_safe None d1 (op + 8) m 8) as (d2 & -> & Hd2); [lia..|simpl; lia|lia|].
    cbn [obind]. destruct (Z.ltb_spec 16 n).
    + destruct (wildCopy8_safe None d2 (op + 8 + 8) (m + 8) (op + n)) as (d3 & -> & Hd3);
        [lia..|simpl; lia|simpl; lia|lia|].
      cbn [obind]. eexists. split; [done|]. split_and!; lia.
    + cbn [obind]. eexists. split; [done|]. split_and!; lia.
Qed.

Lemma match_copy_safe ip0 ip op offset n dst :
  len dst = cap → 0 <= ip0 < ip → ip < isize → 0 <= offset → 0 <= op <= cap - 12 → 4 <= n →
  ∃ st, match_copy cap ip op (op - offset) offset n dst = Ret st ∧ step_safe ip0 st.
Proof.
  intros Hd Hip Hipl Ho Hop Hn. unfold match_copy.
  destruct (Z.ltb_spec (op - offset) 0); [eexists; split; [done|]; apply error_safe; lia|].
  apply copy_within_safe; lia.
Qed.

Lemma decode_match_safe ip0 ip op offset n dst :
  len dst = cap → 0 <= ip0 < ip → ip < isize → 0 <= offset → 0 <= op <= cap - 12 → 0 <= n →
  ∃ st, decode_match src isize cap ip op (op - offset) offset n dst = Ret st ∧ step_safe ip0 st.
Proof.
  intros Hd Hip Hipl Ho Hop Hn. unfold decode_match, iend.
  assert (∃ r, (if n =? ML_MASK then read_variable_length src ip (isize - LASTLITERALS + 1) false
    else Ret (ip, Some 0)) = Ret r ∧ ip <= r.1 <= isize ∧
    (∀ l, r.2 = Some l → 0 <= l ∧ r.1 < isize)) as ([ip1 l] & -> & Hip1 & Hl).
  { destruct (n =? ML_MASK).
    - destruct (rvl_safe_spec src (isize - LASTLITERALS + 1) Hsrc) with (ip := ip) (check := false)
        as (r & -> & Hr & Hl); [unfold LASTLITERALS; lia|lia|].
      exists r. split; [done|]. split; [done|]. intros l El. rewrite El in Hl.
      unfold LASTLITERALS in Hl. lia.
    - eexists. split; [done|]. simpl. split; [lia|]. intros l [= <-]. lia. }
  simpl in *. destruct l as [l|]; [|eexists; split; [done|]; apply error_safe; lia].
  destruct (Hl l eq_refl) as [Hl0 Hl1].
  apply match_copy_safe; [done|lia|lia|lia|lia|unfold MINMATCH; lia].
Qed.
Lemma land_mask_range token : 0 <= Z.land token ML_MASK <= 15.
Proof.
  change ML_MASK with (Z.ones 4). rewrite Z.land_ones by lia.
  pose proof (Z.mod_pos_bound token (2 ^ 4) ltac:(lia)). lia.
Qed.

Lemma token_length_range token : is_u8 token → 0 <= Z.shiftr token ML_BITS <= 15.
Proof.
  intros. unfold ML_BITS. rewrite Z.shiftr_div_pow2 by lia.
  split; [apply Z.div_pos; ulia|]. apply Z.lt_succ_r. apply Z.div_lt_upper_bound; ulia.
Qed.

Lemma decode_short_safe ip0 token ip op n dst :
  len dst = cap → 0 <= ip0 < ip → ip < isize - 16 → 0 <= op <= cap - 32 → 0 <= n <= 14 → 0 <= token →
  ∃ st, decode_short src isize cap token ip op n dst = Ret st ∧ step_safe ip0 st.
Proof.
  intros Hd Hip Hipl Hop Hn Ht. unfold decode_short.
  destruct (memcpy_safe (Some src) dst op ip 16) as (d1 & -> & Hd1); [lia..|simpl; lia|done|].
  cbn [obind]. destruct (readLE16_range src (ip + n)) as (off & -> & Hoff); [done|lia|lia|].
  cbn [obind].
  pose proof (land_mask_range token) as Htm.
  destruct (_ && _) eqn:Ec.
  - apply andb_true_iff in Ec as [[E15%negb_true_iff%Z.eqb_neq E8%Z.leb_le]%andb_true_iff E0%Z.leb_le].
    change ML_MASK with 15 in *.
    destruct (memcpy_safe None d1 (op + n) (op + n - off) 8) as (d2 & -> & Hd2); [lia..|simpl; lia|lia|].
    cbn [obind].
    destruct (memcpy_safe None d2 (op + n + 8) (op + n - off + 8) 8) as (d3 & -> & Hd3);
      [lia..|simpl; lia|lia|].
    cbn [obind].
    destruct (memcpy_safe None d3 (op + n + 16) (op + n - off + 16) 2) as (d4 & -> & Hd4);
      [lia..|simpl; lia|lia|].
    cbn [obind]. eexists. split; [done|]. unfold MINMATCH. split_and!; lia.
  - apply decode_match_safe; lia.
Qed.

Lemma literal_copy_safe ip0 token ip op n dst :
  len dst = cap → 0 <= ip0 < ip → ip <= isize → 0 <= op <= cap → 0 <= n →
  ∃ st, literal_copy src isize cap token ip op n dst = Ret st ∧ step_safe ip0 st.
Proof.
  intros Hd Hip Hipl Hop Hn. unfold literal_copy, iend, oend.
  change MFLIMIT with 12. change (2 + 1 + LASTLITERALS) with 8.
  destruct (_ || _) eqn:Eend.
  - destruct (negb _ || _) eqn:Eerr; [eexists; split; [done|]; apply error_safe; lia|].
    apply orb_false_iff in Eerr as [E1%negb_false_iff%Z.eqb_eq E2%Z.ltb_ge].
    destruct (memcpy_safe (Some src) dst op ip n) as (d1 & -> & Hd1); [lia..|simpl; lia|done|].
    cbn [obind]. eexists. split; [done|]. split; lia.
  - apply orb_false_iff in Eend as [E1%Z.ltb_ge E2%Z.ltb_ge].
    destruct (wildCopy8_safe (Some src) dst op ip (op + n)) as (d1 & -> & Hd1);
      [lia..|simpl; lia|simpl; lia|done|].
    cbn [obind]. destruct (readLE16_range src (ip + n)) as (off & -> & Hoff); [done|lia|lia|].
    cbn [obind]. apply decode_match_safe; [lia..|apply land_mask_range].
Qed.

Lemma decode_long_safe ip0 token ip op n dst :
  len dst = cap → 0 <= ip0 < ip → ip <= isize → 0 <= op <= cap → 0 <= n → 0 <= token →
  ∃ st, decode_long src isize cap token ip op n dst = Ret st ∧ step_safe ip0 st.
Proof.
  intros Hd Hip Hipl Hop Hn Ht. unfold decode_long, iend, oend.
  assert (∃ r, (if n =? RUN_MASK then read_variable_length src ip (isize - RUN_MASK) true
    else Ret (ip, Some 0)) = Ret r ∧ ip <= r.1 <= isize ∧
    (∀ l, r.2 = Some l → 0 <= l)) as ([ip1 l] & -> & Hip1 & Hl).
  { destruct (n =? RUN_MASK).
    - destruct (Z.ltb_spec ip isize).
      + destruct (rvl_safe_spec src (isize - RUN_MASK) Hsrc) with (ip := ip) (check := true)
          as (r & -> & Hr & Hl); [change RUN_MASK with 15; lia|lia|].
        exists r. split; [done|]. split; [done|]. intros l El. rewrite El in Hl. lia.
      + unfold read_variable_length. destruct (Z.leb_spec (isize - RUN_MASK) ip).
        2: { change RUN_MASK with 15 in *. lia. }
        eexists. split; [done|]. done.
    - eexists. split; [done|]. simpl. split; [lia|]. intros l [= <-]. lia. }
  simpl in *. destruct l as [l|]; [|eexists; split; [done|]; apply error_safe; lia].
  specialize (Hl l eq_refl). apply literal_copy_safe; lia.
Qed.

Lemma decode_loop_safe fuel ip op dst :
  len dst = cap → 0 <= ip < isize → 0 <= op <= cap → isize - ip < Z.of_nat fuel →
  ∃ r dst', decode_loop src isize cap fuel ip op dst = Ret (r, dst') ∧ len dst' = cap ∧ r <= cap.
Proof.
  revert ip op dst. induction fuel as [|fuel IH]; intros ip op dst Hd Hip Hop Hf; [lia|].
  cbn [decode_loop]. unfold decode_sequence.
  destruct (read_byte_range src ip) as (token & -> & Htok); [done|done|]. cbn [obind].
  pose proof (token_length_range token Htok) as Hn.
  assert (∃ st, (if negb (Z.shiftr token ML_BITS =? RUN_MASK) &&
      ((ip + 1 <? shortiend isize) && (op <=? shortoend cap))
    then decode_short src isize cap token (ip + 1) op (Z.shiftr token ML_BITS) dst
    else decode_long src isize cap token (ip + 1) op (Z.shiftr token ML_BITS) dst) = Ret st ∧
    step_safe ip st) as (st & -> & Hst).
  { destruct (negb _ && _) eqn:Ec.
    - apply andb_true_iff in Ec as [E15%negb_true_iff%Z.eqb_neq [E1%Z.ltb_lt E2%Z.leb_le]%andb_true_iff].
      unfold shortiend, shortoend, iend, oend in *. change RUN_MASK with 15 in E15.
      apply decode_short_safe; ulia.
    - apply decode_long_safe; ulia. }
  cbn [obind]. destruct st as [ip' op' dst'|r dst']; simpl in Hst.
  - apply IH; lia.
  - exists r, dst'. split; [done|]. lia.
Qed.

(** A turn of the fast loop leaves room for the next, or hands over to the safe loop. *)
Definition fstep_safe (ip0 : Z) (f : fstep) : Prop :=
  match f with
  | Fast ip op dst => ip0 < ip < isize ∧ 0 <= op <= cap - 64 ∧ len dst = cap
  | Safe st => step_safe ip0 st
  end.

Lemma fast_copy_safe ip0 ip op offset n dst :
  len dst = cap → 0 <= ip0 < ip → ip < isize → 0 <= offset → 0 <= op → 4 <= n → op + n < cap - 64 →
  ∃ f, fast_copy ip op (op - offset) offset n dst = Ret f ∧ fstep_safe ip0 f.
Proof.
  intros Hd Hip Hipl Ho Hop Hn Hl. unfold fast_copy.
  destruct (Z.ltb_spec (op - offset) 0); [eexists; split; [done|]; apply error_safe; lia|].
  destruct (Z.ltb_spec offset 16).
  - destruct (using_offset_safe dst op (op - offset) (op + n) offset) as (d1 & -> & Hd1); [lia..|].
    cbn [obind]. eexists. split; [done|]. split_and!; lia.
  - destruct (wildCopy32_safe None dst op (op - offset) (op + n)) as (d1 & -> & Hd1);
      [lia..|simpl; lia|simpl; lia|lia|].
    cbn [obind]. eexists. split; [done|]. split_and!; lia.
Qed.

(** The safe code as the end of a turn of the fast loop. *)
Lemma safe_of_step ip0 (m : outcome dstep) :
  (∃ st, m = Ret st ∧ step_safe ip0 st) → ∃ f, (let! st := m in Ret (Safe st)) = Ret f ∧ fstep_safe ip0 f.
Proof. intros (st & -> & Hst). by exists (Safe st). Qed.

Lemma fast_match_safe ip0 token ip op dst :
  len dst = cap → 0 <= ip0 < ip → ip + 2 < isize → 0 <= op <= cap - 32 →
  ∃ f, fast_match src isize cap token ip op dst = Ret f ∧ fstep_safe ip0 f.
Proof.
  intros Hd Hip Hipl Hop. unfold fast_match, iend, oend, FASTLOOP_SAFE_DISTANCE.
  destruct (readLE16_range src ip) as (off & -> & Hoff); [done|lia|lia|]. cbn [obind].
  pose proof (land_mask_range token) as Htm. set (n := Z.land token ML_MASK) in *.
  change ML_MASK with 15. change MINMATCH with 4. destruct (Z.eqb_spec n 15).
  - destruct (rvl_safe_spec src (isize - LASTLITERALS + 1) Hsrc) with (ip := ip + 2) (check := false)
      as ([ip1 l] & -> & Hr & Hl); [unfold LASTLITERALS; lia|lia|].
    cbn [obind fst snd] in *. unfold LASTLITERALS in Hl.
    destruct l as [l|]; [|eexists; split; [done|]; apply error_safe; lia].
    destruct (Z.leb_spec (cap - 64) (op + (n + l + 4))).
    + apply safe_of_step, match_copy_safe; lia.
    + apply fast_copy_safe; lia.
  - destruct (Z.leb_spec (cap - 64) (op + (n + 4))); [apply safe_of_step, match_copy_safe; lia|].
    destruct (_ && _) eqn:Ec; [|apply fast_copy_safe; lia].
    apply andb_true_iff in Ec as [E0%Z.leb_le E8%Z.leb_le].
    destruct (memcpy_safe None dst op (op - off) 8) as (d1 & -> & Hd1); [lia..|simpl; lia|lia|].
    cbn [obind].
    destruct (memcpy_safe None d1 (op + 8) (op - off + 8) 8) as (d2 & -> & Hd2); [lia..|simpl; lia|lia|].
    cbn [obind].
    destruct (memcpy_safe None d2 (op + 16) (op - off + 16) 2) as (d3 & -> & Hd3); [lia..|simpl; lia|lia|].
    cbn [obind]. eexists. split; [done|]. split_and!; lia.
Qed.

Lemma fast_sequence_safe ip op dst :
  len dst = cap → 0 <= ip < isize → 0 <= op <= cap - 64 →
  ∃ f, fast_sequence src isize cap ip op dst = Ret f ∧ fstep_safe ip f.
Proof.
  intros Hd Hip Hop. unfold fast_sequence, iend, oend.
  destruct (read_byte_range src ip) as (token & -> & Htok); [done|done|]. cbn [obind].
  pose proof (token_length_range token Htok) as Hn. set (n := Z.shiftr token ML_BITS) in *.
  change RUN_MASK with 15. destruct (Z.eqb_spec n 15).
  - destruct (Z.ltb_spec (ip + 1) isize).
    2: { unfold read_variable_length. destruct (Z.leb_spec (isize - 15) (ip + 1)); [|lia].
         eexists. split; [done|]. apply error_safe; lia. }
    destruct (rvl_safe_spec src (isize - 15) Hsrc) with (ip := ip + 1) (check := true)
      as ([ip1 l] & -> & Hr & Hl); [lia|lia|].
    cbn [obind fst snd] in *. destruct l as [l|]; [|eexists; split; [done|]; apply error_safe; lia].
    destruct (_ || _) eqn:Ec; [apply safe_of_step, literal_copy_safe; lia|].
    apply orb_false_iff in Ec as [E1%Z.ltb_ge E2%Z.ltb_ge].
    destruct (wildCopy32_safe (Some src) dst op ip1 (op + (n + l))) as (d1 & -> & Hd1);
      [lia..|simpl; lia|simpl; lia|done|].
    cbn [obind]. apply fast_match_safe; lia.
  - destruct (Z.leb_spec (ip + 1) (isize - (16 + 1))).
    + destruct (memcpy_safe (Some src) dst op (ip + 1) 16) as (d1 & -> & Hd1); [lia..|simpl; lia|done|].
      cbn [obind]. apply fast_match_safe; lia.
    + apply safe_of_step, literal_copy_safe; lia.
Qed.

Lemma fast_loop_safe fuel ip op dst :
  len dst = cap → 0 <= ip < isize → 0 <= op <= cap - 64 → isize - ip < Z.of_nat fuel →
  ∃ r dst', fast_loop src isize cap fuel ip op dst = Ret (r, dst') ∧ len dst' = cap ∧ r <= cap.
Proof.
  revert ip op dst. induction fuel as [|fuel IH]; intros ip op dst Hd Hip Hop Hf; [lia|].
  cbn [fast_loop]. destruct (fast_sequence_safe ip op dst) as (f & -> & Hfs); [done|done|done|].
  cbn [obind]. destruct f as [ip' op' d'|[ip' op' d'|r d']]; simpl in Hfs.
  - apply IH; lia.
  - apply decode_loop_safe; lia.
  - exists r, d'. split; [done|]. lia.
Qed.

End Safe.

(** C19: [LZ4_decompress_safe] returns on every input, malformed ones included, with
    and without the fast decoding loop: it reads only inside the source, writes only
    inside the destination, never copies between overlapping regions, and reports at
    most the size of the destination. *)
Theorem decompress_safe_total fast src dst :
  bytesP src →
  ∃ r dst', lz4_decompress_safe fast src dst (len src) (len dst) = Ret (r, dst') ∧
    len dst' = len dst ∧ r <= len dst.
Proof.
  intros Hs. unfold lz4_decompress_safe, LZ4_decompress_generic.
  destruct (Z.ltb_spec (len dst) 0); [lia|].
  destruct (Z.eqb_spec (len dst) 0) as [E|E].
  - destruct (Z.eqb_spec (len src) 1).
    + destruct (read_byte_safe src 0) as (b & -> & _); [lia|]. cbn [obind].
      do 2 eexists. split; [done|]. split; [done|]. destruct (b =? 0); lia.
    + do 2 eexists. split; [done|]. split; [done|lia].
  - destruct (Z.eqb_spec (len src) 0).
    + do 2 eexists. split; [done|]. split; [done|lia].
    + unfold FASTLOOP_SAFE_DISTANCE. destruct (Z.ltb_spec (len dst) 64); [rewrite andb_false_r|destruct fast];
        (apply fast_loop_safe || apply decode_loop_safe); lia || done.
Qed.

Lemma decompress_safe_total_witness :
  let src := [255; 1; 2; 3; 0; 0; 255; 255; 7] in
  let dst := replicate 64 0 in
  bytesP src ∧
  ∃ r dst', lz4_decompress_safe true src dst (len src) (len dst) = Ret (r, dst') ∧
    len dst' = len dst ∧ r <= len dst.
Proof.
  intros src dst.
  assert (bytesP src) as Hb by (unfold src; repeat (apply Forall_cons_2; [ulia|]); apply Forall_nil_2).
  split; [exact Hb|]. exact (decompress_safe_total true src dst Hb).
Defined.
