(* ===== verification/Lz4Decoder.v ===== *)
(** * The LZ4 decompressor restores well-formed blocks

    On a well-formed block both decoding loops, which copy literals and matches in
    pieces of 8, 16 and 32 bytes that overlap and overshoot, produce the data the
    block stands for. *)

From stdpp Require Import base list numbers option.
From Stdlib Require Import ZArith Lia.
From S2P Require Import Prelude Codec Lz4Block Lz4Mem Lz4Decompress Lz4Safe.

(** ** Copying a match *)

(** A match of whole periods appends copies of the last [off] bytes. *)
Lemma copy_match_blocks j p w out off :
  length w = Z.to_nat off → 1 <= off → out = p ++ w →
  copy_match (j * Z.to_nat off) out off = out ++ concat (replicate j w).
Proof.
  intros Hw Ho. revert p out. induction j as [|j IH]; intros p out ->; [simpl; by rewrite app_nil_r|].
  replace (S j * Z.to_nat off)%nat with (Z.to_nat off + j * Z.to_nat off)%nat by lia.
  rewrite copy_match_add.
  assert (copy_match (Z.to_nat off) (p ++ w) off = (p ++ w) ++ w) as E.
  { rewrite (copy_match_src ((p ++ w) ++ w)); [apply take_ge; llia|by apply prefix_app_r|llia|llia|].
    intros i Hi. rewrite lookup_app_r by llia. rewrite (lookup_app_l (p ++ w)) by llia.
    rewrite lookup_app_r by llia. f_equal. llia. }
  rewrite E, (IH (p ++ w)) by done. simpl. by rewrite <- !app_assoc.
Qed.

Section Copy.
Context (out : list Z) (off n : Z).
Hypothesis Hoff : 1 <= off <= len out.

(** The destination after [k] bytes of the match. *)
Abbreviation copied dst k := (holds dst (copy_match (Z.to_nat k) out off) n).

(** [dist] bytes back is a place the match repeats, once [k] bytes are copied. *)
Definition repeats (dist k : Z) : Prop := ∃ m : nat, dist = Z.of_nat m * off ∧ dist <= k + off.

(** Copying [j] bytes from [dist] before continues the match. *)
Lemma copied_slice dst k j dist :
  copied dst k → 0 <= k → 0 <= j → 1 <= dist → repeats dist k → j <= dist →
  copy_match (Z.to_nat k) out off ++ slice (len out + k - dist) j dst =
  copy_match (Z.to_nat (k + j)) out off.
Proof.
  intros [Hd _] Hk Hj Hdist (m & -> & Hm) Hjd.
  replace (Z.to_nat (k + j)) with (Z.to_nat k + Z.to_nat j)%nat by lia.
  destruct (copy_match_prefix (Z.to_nat j) (copy_match (Z.to_nat k) out off) off) as [x Hx].
  rewrite copy_match_add, Hx. f_equal.
  assert (length x = Z.to_nat j) as Hlx.
  { apply (f_equal length) in Hx. rewrite length_app, !length_copy_match in Hx. lia. }
  set (R := copy_match (Z.to_nat k + Z.to_nat j) out off).
  assert (R = copy_match (Z.to_nat k) out off ++ x) as HR by (unfold R; by rewrite copy_match_add).
  apply list_eq. intros i. destruct (decide (i < Z.to_nat j)%nat) as [Hi|Hi].
  2: { rewrite !lookup_ge_None_2; [done|lia|unfold slice; llia]. }
  rewrite lookup_slice by lia.
  assert (x !! i = R !! (length out + Z.to_nat k + i)%nat) as ->.
  { rewrite HR, lookup_app_r by llia. f_equal. llia. }
  unfold R. rewrite (copy_match_periods m) by nia. fold R. rewrite HR.
  destruct (lookup_lt_is_Some_2 (copy_match (Z.to_nat k) out off)
    (length out + Z.to_nat k + i - m * Z.to_nat off)) as [b Hb].
  { rewrite length_copy_match. nia. }
  rewrite (lookup_app_l_Some _ _ _ _ Hb).
  eapply prefix_lookup_Some; [|exact Hd]. rewrite <- Hb. f_equal. nia.
Qed.

Lemma memcpy_match dst k j dist d s :
  copied dst k → 0 <= k → 0 <= j → 1 <= dist → repeats dist k → j <= dist →
  d = len out + k → s = d - dist → d + j <= n →
  ∃ dst', LZ4_memcpy None dst d s j = Ret dst' ∧ copied dst' (k + j).
Proof.
  intros Hh Hk Hj Hdist Hrep Hjd -> -> Hn. pose proof Hh as [Hp Hl].
  assert (0 <= len out + k - dist) by (destruct Hrep as (? & _ & ?); lia).
  unfold LZ4_memcpy. cbn [default]. rewrite (proj2 (in_range_spec _ _ _)) by lia. cbn [negb].
  destruct (Z.ltb_spec (Z.abs (len out + k - (len out + k - dist))) j); [lia|].
  rewrite <- (copied_slice dst k j dist) by done.
  apply write_bytes_holds; [done|llia|]. rewrite length_slice; lia.
Qed.

Lemma repeats_mono dist k k' : repeats dist k → k <= k' → repeats dist k'.
Proof. intros (m & ? & ?) ?. exists m. lia. Qed.

Lemma copy_bytes_match j dst k dist d s :
  copied dst k → 0 <= k → 1 <= dist → repeats dist k →
  d = len out + k → s = d - dist → d + Z.of_nat j <= n →
  ∃ dst', copy_bytes j dst d s = Ret dst' ∧ copied dst' (k + Z.of_nat j).
Proof.
  revert dst k d s. induction j as [|j IH]; intros dst k d s Hh Hk Hdist Hrep -> -> Hn.
  { exists dst. by rewrite Z.add_0_r. }
  cbn [copy_bytes]. pose proof Hh as [Hp Hl].
  assert (0 <= len out + k - dist) by (destruct Hrep as (? & _ & ?); lia).
  destruct (read_byte_safe dst (len out + k - dist)) as (b & -> & Hb); [lia|]. cbn [obind].
  destruct (write_bytes_holds dst (copy_match (Z.to_nat k) out off) [b] n (len out + k))
    as (d1 & -> & Hd1); [done|llia|simpl; lia|].
  rewrite <- (slice_one _ _ _ Hb), (copied_slice dst k 1 dist) in Hd1 by (done || lia). cbn [obind].
  destruct (IH d1 (k + 1) (len out + k + 1) (len out + k - dist + 1)) as (d2 & -> & Hd2);
    [done|lia|lia|eapply repeats_mono; [done|lia]|lia..|].
  exists d2. split; [done|]. by replace (k + Z.of_nat (S j)) with (k + 1 + Z.of_nat j) by lia.
Qed.

Lemma copied_le dst k k' : copied dst k → 0 <= k' <= k → copied dst k'.
Proof.
  intros Hh Hk. eapply holds_prefix; [exact Hh|].
  replace (Z.to_nat k) with (Z.to_nat k' + Z.to_nat (k - k'))%nat by lia.
  rewrite copy_match_add. apply copy_match_prefix.
Qed.

Lemma wildCopy8_match dst k dist d s e :
  copied dst k → 0 <= k → 8 <= dist → repeats dist k →
  d = len out + k → s = d - dist → d + 8 <= n → e + 7 <= n → len out <= e →
  ∃ dst', LZ4_wildCopy8 None dst d s e = Ret dst' ∧ copied dst' (e - len out).
Proof.
  intros Hh Hk Hdist Hrep -> -> Hd He Hde.
  destruct (wildCopy8_ind (fun j m => 0 <= j ∧ copied m (k + j)) None dst
    (len out + k) (len out + k - dist) e) as (j & dst' & E & Hj & Hj0 & Hm).
  - split; [lia|]. by rewrite Z.add_0_r.
  - intros j m Hj Hc [_ Hm].
    destruct (memcpy_match m (k + j) 8 dist (len out + k + j) (len out + k - dist + j))
      as (m' & E & Hm'); [done|lia|lia|lia|eapply repeats_mono; [done|lia]|lia..|].
    exists m'. split; [done|]. split; [lia|]. by rewrite Z.add_assoc.
  - exists dst'. split; [done|]. eapply copied_le; [done|lia].
Qed.

Lemma copy_first_match dst op :
  holds dst out n → op = len out → op + 8 <= n →
  ∃ dst' m dist, copy_first dst op (op - off) off = Ret (dst', m) ∧ copied dst' 8 ∧
    m = op + 8 - dist ∧ 8 <= dist ∧ repeats dist 8.
Proof.
  intros Hh -> Hn. unfold copy_first, LZ4_write32. destruct (Z.ltb_spec off 8).
  - destruct (tables_spec off) as (inc & dec & -> & -> & Hi & Hi4 & Hd & Hm); [lia|].
    destruct Hm as (m1 & m2 & Em1 & Hinc & Em2); [lia|].
    destruct (write_bytes_holds dst out (le_bytes 4 0) n (len out)) as (d1 & -> & Hd1%holds_app);
      [done|done|llia|]. cbn [obind].
    destruct (copy_bytes_match 4 d1 0 off (len out) (len out - off)) as (d2 & -> & Hd2);
      [done|lia|lia|exists 1%nat; lia|lia..|].
    cbn [obind or_undef]. change (0 + Z.of_nat 4) with 4 in Hd2.
    destruct (memcpy_match d2 4 4 (4 + off - inc) (len out + 4) (len out - off + inc))
      as (d3 & -> & Hd3); [done|lia|lia|lia|exists m1; lia|lia..|].
    cbn [obind]. exists d3, (len out - off + inc - dec), (8 + off - (inc - dec)).
    split_and!; [done|done|lia|lia|exists m2; lia].
  - destruct (memcpy_match dst 0 8 off (len out) (len out - off)) as (d1 & -> & Hd1);
      [done|lia|lia|lia|exists 1%nat; lia|lia..|].
    cbn [obind]. exists d1, (len out - off + 8), off. split_and!; [done|done|lia|lia|exists 1%nat; lia].
Qed.

Lemma copy_within_match ip dst op ml :
  holds dst out n → op = len out → op <= n - 12 → 4 <= ml → op + ml <= n - 5 →
  ∃ dst', copy_within n ip op (op - off) off ml dst = Ret (Next ip (op + ml) dst') ∧ copied dst' ml.
Proof.
  intros Hh -> Hn Hml Hl. unfold copy_within, oend.
  destruct (copy_first_match dst (len out)) as (d1 & m & dist & -> & Hd1 & -> & Hdist & Hrep);
    [done|done|lia|].
  cbn [obind]. change MATCH_SAFEGUARD_DISTANCE with 12. change (WILDCOPYLENGTH - 1) with 7.
  change LASTLITERALS with 5.
  destruct (Z.ltb_spec (n - 12) (len out + ml)).
  - destruct (Z.ltb_spec (n - 5) (len out + ml)); [lia|].
    destruct (Z.ltb_spec (len out + 8) (n - 7)).
    + destruct (wildCopy8_match d1 8 dist (len out + 8) (len out + 8 - dist) (n - 7))
        as (d2 & -> & Hd2); [done|lia|lia|done|lia..|].
      cbn [obind]. destruct (Z.leb_spec (n - 7) (len out + ml)).
      * destruct (copy_bytes_match (Z.to_nat (len out + ml - (n - 7))) d2 (n - 7 - len out) dist
          (n - 7) (len out + 8 - dist + (n - 7 - (len out + 8)))) as (d3 & -> & Hd3);
          [done|lia|lia|eapply repeats_mono; [done|lia]|lia..|].
        cbn [obind]. exists d3. split; [done|]. eapply copied_le; [done|lia].
      * replace (Z.to_nat (len out + ml - (n - 7))) with 0%nat by lia. cbn [copy_bytes obind].
        exists d2. split; [done|]. eapply copied_le; [done|lia].
    + cbn [obind]. destruct (copy_bytes_match (Z.to_nat (len out + ml - (len out + 8))) d1 8 dist
        (len out + 8) (len out + 8 - dist)) as (d3 & -> & Hd3); [done|lia|lia|done|lia..|].
      cbn [obind]. exists d3. split; [done|]. eapply copied_le; [done|lia].
  - destruct (memcpy_match d1 8 8 dist (len out + 8) (len out + 8 - dist)) as (d2 & -> & Hd2);
      [done|lia|lia|lia|done|lia..|].
    cbn [obind]. destruct (Z.ltb_spec 16 ml).
    + destruct (wildCopy8_match d2 16 dist (len out + 8 + 8) (len out + 8 - dist + 8) (len out + ml))
        as (d3 & -> & Hd3); [done|lia|lia|eapply repeats_mono; [done|lia]|lia..|].
      cbn [obind]. exists d3. split; [done|]. eapply copied_le; [done|lia].
    + cbn [obind]. exists d2. split; [done|]. eapply copied_le; [done|lia].
Qed.
Lemma wildCopy32_match dst d s e :
  holds dst out n → 16 <= off → d = len out → s = d - off → d + 32 <= n → e + 31 <= n → len out <= e →
  ∃ dst', LZ4_wildCopy32 None dst d s e = Ret dst' ∧ copied dst' (e - len out).
Proof.
  intros Hh H16 -> -> Hd He Hde.
  destruct (wildCopy32_ind (fun j m => 0 <= j ∧ copied m j) None dst (len out) (len out - off) e)
    as (j & dst' & E & Hj & Hj0 & Hm).
  - split; [lia|done].
  - intros j m Hj Hc [_ Hm].
    destruct (memcpy_match m j 16 off (len out + j) (len out - off + j)) as (m' & E & Hm');
      [done|lia|lia|lia|exists 1%nat; lia|lia..|].
    exists m'. split; [done|]. split; [lia|done].
  - exists dst'. split; [done|]. eapply copied_le; [done|lia].
Qed.

(** The offsets that fill a pattern. *)
Lemma using_offset_match dst d s e :
  holds dst out n → d = len out → s = d - off → d + 16 <= n → e + 7 <= n → len out <= e →
  ∃ dst', LZ4_memcpy_using_offset dst d s e off = Ret dst' ∧ copied dst' (e - len out).
Proof.
  intros Hh -> -> Hd He Hde. unfold LZ4_memcpy_using_offset. pose proof Hh as [[rest Hp] Hl].
  destruct (_ || _) eqn:Epat.
  - assert (off = 1 ∨ off = 2 ∨ off = 4) as Hc.
    { apply orb_true_iff in Epat as [[E|E]%orb_true_iff|E]; apply Z.eqb_eq in E; lia. }
    destruct (pattern_read dst (len out - off) off) as (v & m & -> & Hv & Ev & Hm); [lia|lia|done|].
    cbn [obind].
    assert (∀ k, copy_match (k * m * Z.to_nat off) out off ++ v =
      copy_match (S k * m * Z.to_nat off) out off) as Hstep.
    { set (w := slice (len out - off) off dst) in *.
      assert (length w = Z.to_nat off) as Hw by (unfold w; pose proof (length_slice (len out - off) off dst); lia).
      assert (out = take (length out - Z.to_nat off) out ++ w) as Hout.
      { unfold w. rewrite Hp. unfold slice. rewrite drop_app_le, take_app_le by llia.
        rewrite (take_ge (drop _ _)) by llia.
        replace (Z.to_nat (len out - off)) with (length out - Z.to_nat off)%nat by lia.
        by rewrite take_drop. }
      intros k. rewrite !(copy_match_blocks _ _ w out off Hw ltac:(lia) Hout), <- app_assoc, Ev.
      f_equal. rewrite <- concat_app, <- replicate_add. do 2 f_equal. lia. }
    assert (∀ k : nat, (k * m * Z.to_nat off)%nat = Z.to_nat (8 * Z.of_nat k)) as H8 by (intros k; nia).
    destruct (write_bytes_holds dst out v n (len out)) as (d1 & -> & Hd1); [done|done|lia|].
    change (out ++ v) with (copy_match (0 * m * Z.to_nat off) out off ++ v) in Hd1.
    rewrite (Hstep 0%nat), H8 in Hd1. cbn [obind].
    destruct (fill_pattern_ind (fun k m => ∃ j : nat, k = 8 * Z.of_nat j ∧ copied m (8 * Z.of_nat (S j)))
      (S (Z.to_nat (e - len out))) v d1 (len out + 8) e) as (k & d2 & -> & Hk0 & Hk & j & -> & Hd2).
    + exists 0%nat. done.
    + lia.
    + intros k m' Hk Hlt (j & -> & Hm').
      destruct (write_bytes_holds m' (copy_match (Z.to_nat (8 * Z.of_nat (S j))) out off) v n
        (len out + 8 + 8 * Z.of_nat j)) as (m2 & -> & Hm2); [done|llia|lia|].
      exists m2. split; [done|]. exists (S j). split; [lia|].
      rewrite <- H8, Hstep, H8 in Hm2. exact Hm2.
    + exists d2. split; [done|]. eapply copied_le; [done|lia].
  - unfold LZ4_memcpy_using_offset_base.
    destruct (copy_first_match dst (len out)) as (d1 & m & dist & -> & Hd1 & -> & Hdist & Hrep);
      [done|done|lia|].
    cbn [obind]. apply (wildCopy8_match d1 8 dist); [done|lia|lia|done|lia|lia|lia|lia|lia].
Qed.

Lemma fast_copy_match ip dst op ml :
  holds dst out n → op = len out → 4 <= ml → op + ml < n - 64 →
  ∃ dst', fast_copy ip op (op - off) off ml dst = Ret (Fast ip (op + ml) dst') ∧ copied dst' ml.
Proof.
  intros Hh -> Hml Hl. unfold fast_copy. destruct (Z.ltb_spec (len out - off) 0); [lia|].
  assert (len out + ml - len out = ml) as E by lia.
  destruct (Z.ltb_spec off 16).
  - destruct (using_offset_match dst (len out) (len out - off) (len out + ml)) as (d1 & -> & Hd1);
      [done|done|done|lia|lia|lia|]. rewrite E in Hd1. cbn [obind]. by exists d1.
  - destruct (wildCopy32_match dst (len out) (len out - off) (len out + ml)) as (d1 & -> & Hd1);
      [done|lia|done|done|lia|lia|lia|]. rewrite E in Hd1. cbn [obind]. by exists d1.
Qed.

(** The three copies of a short match. *)
Lemma copy18_match dst op :
  holds dst out n → op = len out → 8 <= off → op + 18 <= n →
  ∃ d1 d2 d3, LZ4_memcpy None dst op (op - off) 8 = Ret d1 ∧
    LZ4_memcpy None d1 (op + 8) (op - off + 8) 8 = Ret d2 ∧
    LZ4_memcpy None d2 (op + 16) (op - off + 16) 2 = Ret d3 ∧ copied d3 18.
Proof.
  intros Hh -> H8 Hn.
  destruct (memcpy_match dst 0 8 off (len out) (len out - off)) as (d1 & E1 & Hd1);
    [done|lia|lia|lia|exists 1%nat; lia|lia..|].
  destruct (memcpy_match d1 8 8 off (len out + 8) (len out - off + 8)) as (d2 & E2 & Hd2);
    [done|lia|lia|lia|exists 1%nat; lia|lia..|].
  destruct (memcpy_match d2 16 2 off (len out + 16) (len out - off + 16)) as (d3 & E3 & Hd3);
    [done|lia|lia|lia|exists 1%nat; lia|lia..|].
  by exists d1, d2, d3.
Qed.

End Copy.

Lemma wildCopy32_holds src dst out n d s k :
  holds dst out n → d = len out → 0 <= k → d + 32 <= n → d + k + 31 <= n →
  0 <= s → s + 32 <= len src → s + k + 31 <= len src →
  ∃ dst', LZ4_wildCopy32 (Some src) dst d s (d + k) = Ret dst' ∧
    holds dst' (out ++ slice s k src) n.
Proof.
  intros Hh -> Hk Hd Hdk Hs Hs8 Hsk.
  destruct (wildCopy32_ind (fun j m => 0 <= j ∧ holds m (out ++ slice s j src) n)
    (Some src) dst (len out) s (len out + k)) as (j & dst' & E & Hj & _ & Hm).
  - split; [done|]. unfold slice. by rewrite app_nil_r.
  - intros j m Hj Hc [_ Hm].
    assert (len (slice s j src) = j) by (apply length_slice; lia).
    destruct (memcpy_holds src m (out ++ slice s j src) n (len out + j) (s + j) 16)
      as (m' & E & Hm'); [done|llia|lia..|].
    exists m'. split; [done|]. split; [lia|]. rewrite slice_app by lia. by rewrite app_assoc.
  - exists dst'. split; [done|]. eapply holds_prefix; [done|]. apply prefix_app, slice_prefix; lia.
Qed.

Section Block.
Context (src : list Z) (cap : Z).
Abbreviation isize := (len src).

Lemma read_byte_at pre b post ip : src = pre ++ b :: post → ip = len pre → read_byte src ip = Ret b.
Proof.
  intros -> ->. apply read_byte_spec; [lia|]. rewrite Nat2Z.id.
  by rewrite lookup_app_r, Nat.sub_diag by lia.
Qed.

Lemma rvl_loop_tail fuel pre post ip ilimit m acc :
  src = pre ++ length_tail m ++ post → ip = len pre → 0 <= m → ip + len (length_tail m) <= ilimit →
  len (length_tail m) <= Z.of_nat fuel →
  rvl_loop fuel src ip ilimit acc = Ret (ip + len (length_tail m), Some (acc + m)).
Proof.
  revert pre ip m acc. induction fuel as [|fuel IH]; intros pre ip m acc Hs -> Hm Hl Hf.
  { rewrite len_length_tail in Hf by done. pose proof (Z.div_pos m 255 Hm ltac:(lia)). lia. }
  cbn [rvl_loop]. destruct (Z.leb_spec 255 m).
  - rewrite length_tail_step in * by lia. rewrite length_cons in *.
    rewrite (read_byte_at pre 255 (length_tail (m - 255) ++ post)) by done. cbn [obind].
    destruct (Z.ltb_spec ilimit (len pre + 1)); [lia|]. simpl.
    rewrite (IH (pre ++ [255]) (len pre + 1) (m - 255)); [|by rewrite Hs, <- app_assoc|llia|lia|lia|lia].
    do 2 f_equal; [lia|f_equal; lia].
  - assert (length_tail m = [m]) as E.
    { unfold length_tail. by rewrite Z.div_small, Z.mod_small by lia. }
    rewrite E in *. simpl in *. rewrite (read_byte_at pre m post) by done. cbn [obind].
    destruct (Z.ltb_spec ilimit (len pre + 1)); [lia|].
    destruct (Z.eqb_spec m 255); [lia|]. done.
Qed.

Lemma rvl_tail pre post ip ilimit m check :
  src = pre ++ length_tail m ++ post → ip = len pre → 0 <= m → ip + len (length_tail m) <= ilimit →
  read_variable_length src ip ilimit check = Ret (ip + len (length_tail m), Some m).
Proof.
  intros Hs -> Hm Hl. unfold read_variable_length.
  assert (1 <= len (length_tail m)).
  { rewrite len_length_tail by done. pose proof (Z.div_pos m 255 Hm ltac:(lia)). lia. }
  assert (len (length_tail m) <= isize) by (rewrite Hs; llia).
  destruct (Z.leb_spec ilimit (len pre)); [lia|]. rewrite andb_false_r.
  pose proof (rvl_loop_tail (S (S (length src))) pre post (len pre) ilimit m 0 Hs eq_refl Hm Hl ltac:(lia)) as E.
  change (S (S (length src))) with (S (S (List.length src))) in E. cbn [rvl_loop] in E.
  rewrite Z.add_0_l in E. destruct (read_byte src (len pre)) as [b| |]; [|done|done].
  cbn [obind] in *. rewrite Z.add_0_l in E. rewrite <- E.
  destruct (ilimit <? len pre + 1); [done|]. by destruct (b =? 255).
Qed.

(** The number of literals or the length of a match, from the token on. *)
Lemma read_length pre post ip ilimit n check :
  src = pre ++ length_bytes n ++ post → ip = len pre → 0 <= n → ip + len (length_bytes n) <= ilimit →
  ∃ addl, (if Z.min n 15 =? 15 then read_variable_length src ip ilimit check else Ret (ip, Some 0)) =
    Ret (ip + len (length_bytes n), Some addl) ∧ Z.min n 15 + addl = n.
Proof.
  intros Hs -> Hn Hl. destruct (Z.leb_spec 15 n).
  - rewrite length_bytes_tail in * by lia. replace (Z.min n 15) with 15 by lia. cbn [Z.eqb Pos.eqb].
    exists (n - 15). split; [|lia]. by apply (rvl_tail pre post); [..|lia|].
  - destruct (Z.eqb_spec (Z.min n 15) 15); [lia|].
    unfold length_bytes. destruct (Z.ltb_spec n 15); [|lia]. exists 0. simpl.
    split; [do 2 f_equal; lia|lia].
Qed.

Lemma readLE16_at pre off post ip :
  src = pre ++ le_bytes 2 off ++ post → ip = len pre → 0 <= off < 2 ^ 16 →
  LZ4_readLE16 src ip = Ret off.
Proof.
  intros -> -> Ho. unfold LZ4_readLE16, LZ4_read16.
  rewrite load_chunk by (done || apply length_le_bytes). cbn. rewrite le_join_le_bytes.
  f_equal. by apply Z.mod_small.
Qed.

Lemma match_copy_spec ip out op off n dst :
  holds dst out cap → op = len out → op <= cap - 12 → 1 <= off <= op → 4 <= n → op + n <= cap - 5 →
  ∃ dst', match_copy cap ip op (op - off) off n dst = Ret (Next ip (op + n) dst') ∧
    holds dst' (copy_match (Z.to_nat n) out off) cap.
Proof.
  intros Hh -> Hop Hoff Hn Hl. unfold match_copy. destruct (Z.ltb_spec (len out - off) 0); [lia|].
  apply copy_within_match; [lia|done|done|lia|lia|lia].
Qed.

Lemma decode_match_spec pre post ip out op off m dst :
  src = pre ++ length_bytes m ++ post → ip = len pre → 6 <= len post →
  holds dst out cap → op = len out → op <= cap - 12 → 1 <= off <= op → 0 <= m →
  op + (m + 4) <= cap - 5 →
  ∃ dst', decode_match src isize cap ip op (op - off) off (Z.min m 15) dst =
      Ret (Next (ip + len (length_bytes m)) (op + (m + 4)) dst') ∧
    holds dst' (copy_match (Z.to_nat (m + 4)) out off) cap.
Proof.
  intros Hs Hip Hpost Hh -> Hop Hoff Hm Hl. unfold decode_match, iend. change ML_MASK with 15.
  destruct (read_length pre post ip (isize - LASTLITERALS + 1) m false) as (addl & -> & Ha); [done|done|done| |].
  { unfold LASTLITERALS. rewrite Hs, Hip. llia. }
  cbn [obind]. replace (Z.min m 15 + addl + MINMATCH) with (m + 4) by (unfold MINMATCH; lia).
  by apply match_copy_spec; [..|lia|lia].
Qed.
(** Reading back a token. *)
Lemma token_fields l m :
  0 <= l → 0 <= m →
  Z.shiftr (16 * Z.min l 15 + Z.min m 15) ML_BITS = Z.min l 15 ∧
  Z.land (16 * Z.min l 15 + Z.min m 15) ML_MASK = Z.min m 15.
Proof.
  intros. unfold ML_BITS. change ML_MASK with (Z.ones 4).
  rewrite Z.shiftr_div_pow2, Z.land_ones by lia. change (2 ^ 4) with 16.
  rewrite (Z.mul_comm 16), Z.div_add_l, (Z.add_comm (Z.min l 15 * 16)), Z.mod_add by lia.
  rewrite (Z.div_small (Z.min m 15)), Z.mod_small by lia. lia.
Qed.

(** What follows the literal length of a sequence, and where it starts. *)
Record tail_at (pre : list Z) (s : sequence) (post : list Z) : Prop := TailAt {
  ta_src : src = pre ++ sq_literals s ++ le_bytes 2 (sq_offset s) ++
    length_bytes (sq_length s - 4) ++ post;
  ta_post : 6 <= len post;
}.

Lemma tail_slice pre s post : tail_at pre s post → slice (len pre) (len (sq_literals s)) src = sq_literals s.
Proof.
  intros [Hs _]. rewrite Hs. unfold slice. rewrite !Nat2Z.id, drop_app_length. apply take_app_length.
Qed.

(** The match of a sequence, once its literals are copied. *)
Lemma decode_tail pre s post out size dst op :
  tail_at pre s post → sequence_wf size (len out) s → size <= cap →
  holds dst (out ++ sq_literals s) cap → op = len out + len (sq_literals s) →
  let ip := len pre + len (sq_literals s) in
  LZ4_readLE16 src ip = Ret (sq_offset s) ∧
  ∃ dst', decode_match src isize cap (ip + 2) op (op - sq_offset s) (sq_offset s)
      (Z.min (sq_length s - 4) 15) dst =
      Ret (Next (ip + 2 + len (length_bytes (sq_length s - 4))) (op + sq_length s) dst') ∧
    holds dst' (expand_sequence out s) cap.
Proof.
  intros [Hs Hpost] [Ho Ho16 Hl Hst He] Hcap Hh -> ip. split.
  - apply (readLE16_at (pre ++ sq_literals s) _ (length_bytes (sq_length s - 4) ++ post));
      [by rewrite <- !app_assoc|unfold ip; llia|lia].
  - destruct (decode_match_spec (pre ++ sq_literals s ++ le_bytes 2 (sq_offset s)) post (ip + 2)
      (out ++ sq_literals s) (len out + len (sq_literals s)) (sq_offset s) (sq_length s - 4) dst)
      as (dst' & E & Hd); [by rewrite <- !app_assoc|unfold ip; llia|done|done|llia|lia|lia|lia|lia|].
    exists dst'. replace (sq_length s - 4 + 4) with (sq_length s) in * by lia. done.
Qed.

Lemma decode_short_spec pre s post out size dst token :
  tail_at pre s post → sequence_wf size (len out) s → size <= cap → holds dst out cap →
  len (sq_literals s) < 15 → len pre < isize - 16 → len out <= cap - 32 →
  Z.land token ML_MASK = Z.min (sq_length s - 4) 15 →
  ∃ dst', decode_short src isize cap token (len pre) (len out) (len (sq_literals s)) dst =
      Ret (Next (len pre + len (sq_literals s) + 2 + len (length_bytes (sq_length s - 4)))
        (len out + len (sq_literals s) + sq_length s) dst') ∧
    holds dst' (expand_sequence out s) cap.
Proof.
  intros Ht Hwf Hcap Hh Hl15 Hip Hop Htok. unfold decode_short.
  destruct (memcpy_holds src dst out cap (len out) (len pre) 16) as (d1 & -> & Hd1); [done|done|lia..|].
  cbn [obind]. assert (holds d1 (out ++ sq_literals s) cap) as Hd1'.
  { eapply holds_prefix; [exact Hd1|]. apply prefix_app. rewrite <- (tail_slice pre s post) by done.
    apply slice_prefix; lia. }
  destruct (decode_tail pre s post out size d1 (len out + len (sq_literals s))) as [-> Hdm]; [done..|].
  cbn [obind]. rewrite Htok. pose proof Hwf as [Ho Ho16 Hl Hst He].
  destruct (_ && _) eqn:Ec; [|exact Hdm].
  apply andb_true_iff in Ec as [[E15%negb_true_iff%Z.eqb_neq E8%Z.leb_le]%andb_true_iff E0%Z.leb_le].
  change ML_MASK with 15 in E15. set (out' := out ++ sq_literals s) in *.
  set (op := len out + len (sq_literals s)) in *. set (off := sq_offset s) in *.
  assert (op = len out') as Hop' by (unfold op, out'; llia).
  destruct (copy18_match out' off cap ltac:(lia) d1 op) as (d2 & d3 & d4 & -> & E3 & E4 & Hd4);
    [done|done|done|lia|].
  cbn [obind]. rewrite E3. cbn [obind]. rewrite E4.
  cbn [obind]. exists d4. split.
  - destruct (length_bytes_bounds (sq_length s - 4)) as (_ & _ & H0); [lia|]. unfold MINMATCH.
    do 2 f_equal; lia.
  - unfold expand_sequence. fold out' off. eapply (copied_le out' off cap d4 18); [done|lia].
Qed.

(** The literals of a sequence and its match, from [safe_literal_copy] on. *)
Lemma literal_copy_spec pre s post out size dst token :
  tail_at pre s post → sequence_wf size (len out) s → size <= cap → holds dst out cap →
  Z.land token ML_MASK = Z.min (sq_length s - 4) 15 →
  ∃ dst', literal_copy src isize cap token (len pre) (len out) (len (sq_literals s)) dst =
      Ret (Next (len pre + len (sq_literals s) + 2 + len (length_bytes (sq_length s - 4)))
        (len out + len (sq_literals s) + sq_length s) dst') ∧
    holds dst' (expand_sequence out s) cap.
Proof.
  intros Ht Hwf Hcap Hh Htok. unfold literal_copy, iend, oend.
  set (lits := sq_literals s) in *. pose proof Hwf as [Ho Ho16 Hl Hst He]. fold lits in Ho, Hst, He.
  assert (isize >= len pre + len lits + 8) as Hsz.
  { destruct Ht as [Hs Hpost]. rewrite Hs. fold lits. llia. }
  change MFLIMIT with 12. change (2 + 1 + LASTLITERALS) with 8.
  destruct (Z.ltb_spec (cap - 12) (len out + len lits)); [lia|].
  destruct (Z.ltb_spec (isize - 8) (len pre + len lits)); [lia|]. cbn [orb].
  destruct (wildCopy8_holds src dst out cap (len out) (len pre) (len lits)) as (d1 & -> & Hd1);
    [done|done|lia..|].
  cbn [obind]. unfold lits in Hd1. rewrite (tail_slice pre s post Ht) in Hd1.
  destruct (decode_tail pre s post out size d1 (len out + len lits)) as [Eoff Hdm]; [done..|].
  fold lits in Eoff, Hdm. rewrite Eoff. cbn [obind]. rewrite Htok. exact Hdm.
Qed.

(** The number of literals of a sequence that is followed by enough input. *)
Lemma literal_length pre n rest :
  src = pre ++ length_bytes n ++ rest → 0 <= n <= len rest →
  ∃ addl, (if Z.min n 15 =? 15
      then read_variable_length src (len pre) (isize - 15) true else Ret (len pre, Some 0)) =
    Ret (len pre + len (length_bytes n), Some addl) ∧ Z.min n 15 + addl = n.
Proof.
  intros Hs Hn. destruct (Z.leb_spec 15 n).
  - eapply read_length; [exact Hs|done|lia|]. rewrite Hs. llia.
  - destruct (Z.eqb_spec (Z.min n 15) 15); [lia|]. exists 0.
    unfold length_bytes. destruct (Z.ltb_spec n 15); [|lia]. simpl. split; [do 2 f_equal; lia|lia].
Qed.

Lemma decode_long_spec pre s post out size dst token :
  tail_at (pre ++ length_bytes (len (sq_literals s))) s post →
  sequence_wf size (len out) s → size <= cap → holds dst out cap →
  Z.land token ML_MASK = Z.min (sq_length s - 4) 15 →
  ∃ dst', decode_long src isize cap token (len pre) (len out) (Z.min (len (sq_literals s)) 15) dst =
      Ret (Next (len pre + len (length_bytes (len (sq_literals s))) + len (sq_literals s) + 2 +
          len (length_bytes (sq_length s - 4)))
        (len out + len (sq_literals s) + sq_length s) dst') ∧
    holds dst' (expand_sequence out s) cap.
Proof.
  intros Ht Hwf Hcap Hh Htok. unfold decode_long, iend. change RUN_MASK with 15.
  destruct (literal_length pre (len (sq_literals s)) (sq_literals s ++ le_bytes 2 (sq_offset s) ++
    length_bytes (sq_length s - 4) ++ post)) as (addl & -> & Ha);
    [by rewrite (ta_src _ _ _ Ht), <- !app_assoc|llia|].
  cbn [obind]. rewrite Ha. rewrite <- Nat2Z.inj_add, <- length_app. by apply literal_copy_spec with (post := post) (size := size).
Qed.

(** The bytes of a sequence, split after the token. *)
Record sequence_at (pre : list Z) (s : sequence) (post : list Z) (tok : Z) : Prop := SequenceAt {
  sa_token : read_byte src (len pre) = Ret tok;
  sa_literals : Z.shiftr tok ML_BITS = Z.min (len (sq_literals s)) 15;
  sa_match : Z.land tok ML_MASK = Z.min (sq_length s - 4) 15;
  sa_tail : tail_at ((pre ++ [tok]) ++ length_bytes (len (sq_literals s))) s post;
}.

Lemma sequence_at_intro pre s post :
  src = pre ++ encode_sequence s ++ post → 6 <= len post → 4 <= sq_length s →
  ∃ tok, sequence_at pre s post tok.
Proof.
  intros Hs Hpost Hl. set (m := sq_length s - 4). set (lits := sq_literals s).
  set (tok := 16 * Z.min (len lits) 15 + Z.min m 15). exists tok.
  assert (src = pre ++ [tok] ++ length_bytes (len lits) ++ lits ++ le_bytes 2 (sq_offset s) ++
    length_bytes m ++ post) as Hs1.
  { rewrite Hs. unfold encode_sequence. fold lits m tok. by rewrite <- !app_assoc. }
  destruct (token_fields (len lits) m) as [Et1 Et2]; [lia|lia|].
  split; [|done|done|split; [|done]].
  - eapply read_byte_at; [exact Hs1|done].
  - by rewrite Hs1, <- !app_assoc.
Qed.

Lemma len_expand_sequence out s :
  0 <= sq_length s → len (expand_sequence out s) = len out + len (sq_literals s) + sq_length s.
Proof. intros. unfold expand_sequence. llia. Qed.

Lemma len_pre_sequence pre s :
  len (pre ++ encode_sequence s) = len pre + 1 + len (length_bytes (len (sq_literals s))) +
    len (sq_literals s) + 2 + len (length_bytes (sq_length s - 4)).
Proof. rewrite length_app, Nat2Z.inj_add, len_encode_sequence. lia. Qed.

(** Few literals have no length bytes. *)
Lemma no_length_bytes n : n < 15 → length_bytes n = [].
Proof. intros. unfold length_bytes. destruct (Z.ltb_spec n 15); [done|lia]. Qed.

Lemma decode_sequence_spec pre s post out size dst :
  src = pre ++ encode_sequence s ++ post → 6 <= len post →
  sequence_wf size (len out) s → size <= cap → holds dst out cap →
  ∃ dst', decode_sequence src isize cap (len pre) (len out) dst =
      Ret (Next (len (pre ++ encode_sequence s)) (len (expand_sequence out s)) dst') ∧
    holds dst' (expand_sequence out s) cap.
Proof.
  intros Hs Hpost Hwf Hcap Hh. pose proof (wf_length _ _ _ Hwf) as Hl.
  destruct (sequence_at_intro pre s post Hs Hpost Hl) as (tok & [Et E1 E2 Ht]).
  unfold decode_sequence. rewrite Et. cbn [obind]. rewrite E1.
  rewrite len_expand_sequence, len_pre_sequence by lia.
  assert (len (pre ++ [tok]) = len pre + 1) as Hp by llia. change RUN_MASK with 15.
  destruct (negb _ && _) eqn:Ec.
  - apply andb_true_iff in Ec as [E15%negb_true_iff%Z.eqb_neq [Ea%Z.ltb_lt Eb%Z.leb_le]%andb_true_iff].
    unfold shortiend, shortoend, iend, oend in *.
    rewrite no_length_bytes in * by lia. rewrite app_nil_r in Ht.
    destruct (decode_short_spec (pre ++ [tok]) s post out size dst tok) as (d & E & Hd);
      [done|done|done|done|lia|lia|lia|done|].
    rewrite Hp in E. replace (Z.min (len (sq_literals s)) 15) with (len (sq_literals s)) by lia.
    rewrite E. exists d. split; [do 2 f_equal; simpl; lia|done].
  - destruct (decode_long_spec (pre ++ [tok]) s post out size dst tok) as (d & E & Hd); [done..|].
    rewrite Hp in E. rewrite E. exists d. split; [do 2 f_equal; lia|done].
Qed.

(** The outcome of a turn of the fast loop on a sequence. *)
Definition fast_done (ip op : Z) (out : list Z) (f : fstep) : Prop :=
  ∃ dst, (f = Safe (Next ip op dst) ∨ (f = Fast ip op dst ∧ op <= cap - 64)) ∧ holds dst out cap.

Lemma fast_done_safe (m : outcome dstep) ip op out :
  (∃ dst, m = Ret (Next ip op dst) ∧ holds dst out cap) →
  ∃ f, (let! st := m in Ret (Safe st)) = Ret f ∧ fast_done ip op out f.
Proof. intros (dst & -> & Hd). eexists. split; [done|]. exists dst. split; [by left|done]. Qed.

Lemma fast_done_copy ip op off n out dst :
  holds dst out cap → op = len out → 1 <= off <= op → 4 <= n → op + n < cap - 64 →
  ∃ f, fast_copy ip op (op - off) off n dst = Ret f ∧
    fast_done ip (op + n) (copy_match (Z.to_nat n) out off) f.
Proof.
  intros Hh -> Ho Hn Hl.
  destruct (fast_copy_match out off cap Ho ip dst (len out) n) as (d & -> & Hd); [done|done|done|done|].
  eexists. split; [done|]. exists d. split; [right; split; [done|lia]|done].
Qed.

Lemma fast_match_spec pre s post out size dst token :
  tail_at pre s post → sequence_wf size (len out) s → size <= cap →
  holds dst (out ++ sq_literals s) cap →
  Z.land token ML_MASK = Z.min (sq_length s - 4) 15 →
  ∃ f, fast_match src isize cap token (len pre + len (sq_literals s))
      (len out + len (sq_literals s)) dst = Ret f ∧
    fast_done (len pre + len (sq_literals s) + 2 + len (length_bytes (sq_length s - 4)))
      (len out + len (sq_literals s) + sq_length s) (expand_sequence out s) f.
Proof.
  intros Ht Hwf Hcap Hh Htok. pose proof Hwf as [Ho Ho16 Hl Hst He].
  destruct (decode_tail pre s post out size dst (len out + len (sq_literals s))) as [Eoff _]; [done..|].
  unfold fast_match. rewrite Eoff. cbn [obind]. rewrite Htok.
  set (op := len out + len (sq_literals s)) in *. set (ip := len pre + len (sq_literals s)) in *.
  set (m := sq_length s - 4) in *. set (off := sq_offset s) in *.
  assert (op = len (out ++ sq_literals s)) as Hop by (unfold op; llia).
  assert (∀ ip', ∃ f, (let! st := match_copy cap ip' op (op - off) off (m + 4) dst in Ret (Safe st)) = Ret f ∧
    fast_done ip' (op + sq_length s) (expand_sequence out s) f) as Hsafe.
  { intros ip'. apply fast_done_safe. replace (op + sq_length s) with (op + (m + 4)) by lia.
    unfold expand_sequence. replace (sq_length s) with (m + 4) by lia.
    apply match_copy_spec; [done|done|lia|lia|lia|lia]. }
  assert (∀ ip', op + (m + 4) < cap - 64 → ∃ f, fast_copy ip' op (op - off) off (m + 4) dst = Ret f ∧
    fast_done ip' (op + sq_length s) (expand_sequence out s) f) as Hcopy.
  { intros ip' Hlt. replace (op + sq_length s) with (op + (m + 4)) by lia.
    unfold expand_sequence. replace (sq_length s) with (m + 4) by lia.
    apply fast_done_copy; [done|done|lia|lia|lia]. }
  destruct (read_length ((pre ++ sq_literals s) ++ le_bytes 2 off) post (ip + 2)
    (iend isize - LASTLITERALS + 1) m false) as (addl & Erd & Ha).
  { rewrite (ta_src _ _ _ Ht), <- !app_assoc. done. } { unfold ip; llia. } { lia. }
  { unfold iend, LASTLITERALS. destruct Ht as [Hs Hpost]. rewrite Hs. fold off m. unfold ip. llia. }
  unfold oend, FASTLOOP_SAFE_DISTANCE. change ML_MASK with 15. change MINMATCH with 4.
  destruct (Z.eqb_spec (Z.min m 15) 15).
  - rewrite Erd. cbn [obind]. rewrite Ha.
    destruct (Z.leb_spec (cap - 64) (op + (m + 4))); [apply Hsafe|by apply Hcopy].
  - assert (len (length_bytes m) = 0) as HX by (rewrite no_length_bytes by lia; done).
    rewrite HX, Z.add_0_r. replace (Z.min m 15) with m by lia.
    destruct (Z.leb_spec (cap - 64) (op + (m + 4))); [apply Hsafe|].
    destruct (_ && _) eqn:Ec; [|by apply Hcopy].
    apply andb_true_iff in Ec as [E0%Z.leb_le E8%Z.leb_le].
    destruct (copy18_match (out ++ sq_literals s) off cap ltac:(lia) dst op) as (d1 & d2 & d3 & -> & E2 & E3 & Hd3);
      [done|done|lia|lia|].
    cbn [obind]. rewrite E2. cbn [obind]. rewrite E3. cbn [obind].
    eexists. split; [done|]. exists d3. replace (op + (m + 4)) with (op + sq_length s) by lia.
    split; [right; split; [done|lia]|]. unfold expand_sequence. fold off.
    eapply (copied_le _ off cap d3 18); [done|lia].
Qed.

Lemma fast_sequence_spec pre s post out size dst :
  src = pre ++ encode_sequence s ++ post → 6 <= len post →
  sequence_wf size (len out) s → size <= cap → holds dst out cap → len out <= cap - 64 →
  ∃ f, fast_sequence src isize cap (len pre) (len out) dst = Ret f ∧
    fast_done (len (pre ++ encode_sequence s)) (len (expand_sequence out s)) (expand_sequence out s) f.
Proof.
  intros Hs Hpost Hwf Hcap Hh Hfast. pose proof (wf_length _ _ _ Hwf) as Hl.
  destruct (sequence_at_intro pre s post Hs Hpost Hl) as (tok & [Et E1 E2 Ht]).
  unfold fast_sequence. rewrite Et. cbn [obind]. rewrite E1.
  rewrite len_expand_sequence, len_pre_sequence by lia. change RUN_MASK with 15. unfold iend, oend.
  set (lits := sq_literals s) in *. set (X := length_bytes (len lits)) in *.
  set (q := (pre ++ [tok]) ++ X) in *.
  assert (len q = len pre + 1 + len X) as Hq by (unfold q; llia). rewrite <- Hq.
  assert (isize >= len q + len lits + 8) as Hsz.
  { destruct Ht as [Hs' Hpost']. rewrite Hs'. fold lits. llia. }
  assert (∀ d, holds d (out ++ lits) cap → ∃ f, fast_match src isize cap tok (len q + len lits)
      (len out + len lits) d = Ret f ∧
    fast_done (len q + len lits + 2 + len (length_bytes (sq_length s - 4)))
      (len out + len lits + sq_length s) (expand_sequence out s) f) as Hmatch.
  { intros d Hd. by apply (fast_match_spec q s post out size). }
  assert (∃ f, (let! st := literal_copy src isize cap tok (len q) (len out) (len lits) dst in
      Ret (Safe st)) = Ret f ∧
    fast_done (len q + len lits + 2 + len (length_bytes (sq_length s - 4)))
      (len out + len lits + sq_length s) (expand_sequence out s) f) as Hlit.
  { apply fast_done_safe. by apply (literal_copy_spec q s post out size). }
  destruct (literal_length (pre ++ [tok]) (len lits) (lits ++ le_bytes 2 (sq_offset s) ++
    length_bytes (sq_length s - 4) ++ post)) as (addl & Erd & Ha).
  { rewrite (ta_src _ _ _ Ht). unfold q. fold lits. by rewrite <- !app_assoc. } { llia. }
  fold X in Erd. replace (len (pre ++ [tok])) with (len pre + 1) in Erd by llia.
  destruct (Z.eqb_spec (Z.min (len lits) 15) 15).
  - rewrite Erd. cbn [obind]. rewrite <- Hq, Ha.
    destruct (_ || _) eqn:Ec; [exact Hlit|].
    apply orb_false_iff in Ec as [Ea%Z.ltb_ge Eb%Z.ltb_ge].
    destruct (wildCopy32_holds src dst out cap (len out) (len q) (len lits)) as (d1 & -> & Hd1);
      [done|done|lia..|].
    cbn [obind]. apply Hmatch. unfold lits in Hd1. by rewrite (tail_slice q s post Ht) in Hd1.
  - assert (X = []) as HX by (apply no_length_bytes; lia).
    replace (Z.min (len lits) 15) with (len lits) by lia.
    replace (len pre + 1) with (len q) in * by (rewrite Hq, HX; simpl; lia).
    destruct (Z.leb_spec (len q) (isize - (16 + 1))); [|exact Hlit].
    destruct (memcpy_holds src dst out cap (len out) (len q) 16) as (d1 & -> & Hd1); [done|done|lia..|].
    cbn [obind]. apply Hmatch. eapply holds_prefix; [exact Hd1|]. apply prefix_app.
    pose proof (tail_slice q s post Ht) as El. fold lits in El. rewrite <- El. apply slice_prefix; lia.
Qed.

(** The last literals, from [safe_literal_copy] on. *)
Lemma literal_copy_last pre last out dst token :
  src = pre ++ last → holds dst out cap → len out + len last <= cap →
  ∃ dst', literal_copy src isize cap token (len pre) (len out) (len last) dst =
      Ret (Return (len (out ++ last)) dst') ∧ holds dst' (out ++ last) cap.
Proof.
  intros Hs Hh Hl. assert (isize = len pre + len last) as Hsz by (rewrite Hs; llia).
  unfold literal_copy, iend, oend. change (2 + 1 + LASTLITERALS) with 8.
  destruct (Z.ltb_spec (isize - 8) (len pre + len last)); [|lia]. rewrite orb_true_r.
  destruct (Z.eqb_spec (len pre + len last) isize); [|lia].
  destruct (Z.ltb_spec cap (len out + len last)); [lia|]. cbn [negb orb].
  destruct (memcpy_holds src dst out cap (len out) (len pre) (len last)) as (d1 & -> & Hd1);
    [done|done|lia..|].
  cbn [obind]. exists d1. split; [do 2 f_equal; llia|].
  replace last with (slice (len pre) (len last) src); [done|]. rewrite Hs.
  unfold slice. rewrite !Nat2Z.id, drop_app_length. by apply take_ge.
Qed.

(** The bytes of the last run, split after the token. *)
Lemma last_at pre last :
  src = pre ++ encode_last last →
  ∃ tok, read_byte src (len pre) = Ret tok ∧ Z.shiftr tok ML_BITS = Z.min (len last) 15 ∧
    src = (pre ++ [tok]) ++ length_bytes (len last) ++ last ∧
    isize = len pre + 1 + len (length_bytes (len last)) + len last.
Proof.
  intros Hs. set (tok := 16 * Z.min (len last) 15). exists tok.
  assert (src = pre ++ [tok] ++ length_bytes (len last) ++ last) as Hs1 by (by rewrite Hs).
  split_and!.
  - eapply read_byte_at; [exact Hs1|done].
  - destruct (token_fields (len last) 0) as [Et _]; [lia|lia|].
    by replace (16 * Z.min (len last) 15 + Z.min 0 15) with tok in Et by lia.
  - by rewrite Hs1, <- !app_assoc.
  - rewrite Hs1. llia.
Qed.

Lemma decode_last_spec pre last out dst :
  src = pre ++ encode_last last → holds dst out cap → len out + len last <= cap →
  ∃ dst', decode_sequence src isize cap (len pre) (len out) dst =
      Ret (Return (len (out ++ last)) dst') ∧ holds dst' (out ++ last) cap.
Proof.
  intros Hs Hh Hl. destruct (last_at pre last Hs) as (tok & Et & E1 & Hs1 & Hsz).
  unfold decode_sequence. rewrite Et. cbn [obind]. rewrite E1. change RUN_MASK with 15.
  destruct (negb _ && _) eqn:Ec.
  { apply andb_true_iff in Ec as [E15%negb_true_iff%Z.eqb_neq [Ea%Z.ltb_lt _]%andb_true_iff].
    unfold shortiend, iend in Ea. rewrite no_length_bytes in Hsz by lia. simpl in Hsz. lia. }
  unfold decode_long, iend. change RUN_MASK with 15.
  destruct (literal_length (pre ++ [tok]) (len last) last) as (addl & E & Ha); [done|lia|].
  replace (len (pre ++ [tok])) with (len pre + 1) in E by llia. rewrite E. cbn [obind]. rewrite Ha.
  replace (len pre + 1 + len (length_bytes (len last)))
    with (len ((pre ++ [tok]) ++ length_bytes (len last))) by llia.
  apply literal_copy_last; [by rewrite Hs1, <- !app_assoc|done|done].
Qed.

(** Taking the first sequence off a block. *)
Lemma block_step pre s ss last out :
  src = pre ++ encode_block (s :: ss) last →
  sequences_wf (len out + sequences_size (s :: ss) + len last) (len out) (s :: ss) →
  6 <= len (encode_sequences ss ++ encode_last last) ∧
  src = (pre ++ encode_sequence s) ++ encode_block ss last ∧
  sequence_wf (len out + sequences_size (s :: ss) + len last) (len out) s ∧
  sequences_wf (len (expand_sequence out s) + sequences_size ss + len last)
    (len (expand_sequence out s)) ss ∧
  len out + sequences_size (s :: ss) + len last =
    len (expand_sequence out s) + sequences_size ss + len last.
Proof.
  intros Hs Hwf. pose proof (sequences_wf_end _ _ _ Hwf) as Hend. rewrite decide_False in Hend by done.
  destruct Hwf as [Hswf Hwf]. pose proof (wf_length _ _ _ Hswf).
  assert (len out + sequences_size (s :: ss) + len last =
    len (expand_sequence out s) + sequences_size ss + len last) as Hsize.
  { rewrite len_expand_sequence by lia. simpl. lia. }
  split_and!; [|by rewrite Hs; unfold encode_block; rewrite encode_sequences_cons, <- !app_assoc|done| |done].
  - rewrite length_app, Nat2Z.inj_add, len_encode_last. lia.
  - rewrite <- Hsize. by rewrite <- len_expand_sequence in Hwf by lia.
Qed.

Lemma decode_loop_spec fuel pre ss last out dst :
  src = pre ++ encode_block ss last →
  sequences_wf (len out + sequences_size ss + len last) (len out) ss →
  len out + sequences_size ss + len last <= cap →
  holds dst out cap → (length ss < fuel)%nat →
  ∃ dst', decode_loop src isize cap fuel (len pre) (len out) dst =
      Ret (len out + sequences_size ss + len last, dst') ∧
    holds dst' (foldl expand_sequence out ss ++ last) cap.
Proof.
  revert fuel pre out dst. induction ss as [|s ss IH]; intros [|fuel] pre out dst Hs Hwf Hcap Hh Hf;
    simpl in Hf; try lia; cbn [decode_loop].
  - cbn [sequences_size foldr] in *. destruct (decode_last_spec pre last out dst) as (d & -> & Hd); [done|done|lia|].
    cbn [obind]. exists d. split; [do 2 f_equal; llia|done].
  - pose proof (block_step pre s ss last out Hs Hwf) as (Hpost & Hs' & Hswf & Hwf' & Hsize).
    destruct (decode_sequence_spec pre s (encode_sequences ss ++ encode_last last) out
      (len out + sequences_size (s :: ss) + len last) dst)
      as (d & -> & Hd); [by rewrite Hs', <- app_assoc|done|done|done|done|].
    cbn [obind]. rewrite Hsize in *.
    destruct (IH fuel (pre ++ encode_sequence s) (expand_sequence out s) d) as (d' & -> & Hd');
      [done..|lia|]. by exists d'.
Qed.

Lemma fast_last_spec pre last out dst :
  src = pre ++ encode_last last → holds dst out cap → len out + len last <= cap →
  ∃ dst', fast_sequence src isize cap (len pre) (len out) dst =
      Ret (Safe (Return (len (out ++ last)) dst')) ∧ holds dst' (out ++ last) cap.
Proof.
  intros Hs Hh Hl. destruct (last_at pre last Hs) as (tok & Et & E1 & Hs1 & Hsz).
  unfold fast_sequence, iend, oend. rewrite Et. cbn [obind]. rewrite E1. change RUN_MASK with 15.
  destruct (literal_length (pre ++ [tok]) (len last) last) as (addl & Erd & Ha); [done|lia|].
  replace (len (pre ++ [tok])) with (len pre + 1) in Erd by llia.
  destruct (literal_copy_last ((pre ++ [tok]) ++ length_bytes (len last)) last out dst tok)
    as (d & Ed & Hd); [by rewrite Hs1, <- !app_assoc|done|done|].
  replace (len ((pre ++ [tok]) ++ length_bytes (len last)))
    with (len pre + 1 + len (length_bytes (len last))) in Ed by llia.
  exists d. split; [|done]. destruct (Z.eqb_spec (Z.min (len last) 15) 15).
  - rewrite Erd. cbn [obind]. rewrite Ha.
    destruct (Z.ltb_spec (isize - 32) (len pre + 1 + len (length_bytes (len last)) + len last)); [|lia].
    rewrite orb_true_r, Ed. done.
  - rewrite no_length_bytes in Hsz, Ed by lia. simpl in Hsz, Ed. rewrite Z.add_0_r in Ed.
    destruct (Z.leb_spec (len pre + 1) (isize - (16 + 1))); [lia|].
    replace (Z.min (len last) 15) with (len last) by lia. rewrite Ed. done.
Qed.

Lemma fast_loop_spec fuel pre ss last out dst :
  src = pre ++ encode_block ss last →
  sequences_wf (len out + sequences_size ss + len last) (len out) ss →
  len out + sequences_size ss + len last <= cap → len out <= cap - 64 →
  holds dst out cap → (length ss < fuel)%nat →
  ∃ dst', fast_loop src isize cap fuel (len pre) (len out) dst =
      Ret (len out + sequences_size ss + len last, dst') ∧
    holds dst' (foldl expand_sequence out ss ++ last) cap.
Proof.
  revert fuel pre out dst. induction ss as [|s ss IH]; intros [|fuel] pre out dst Hs Hwf Hcap Hfast Hh Hf;
    simpl in Hf; try lia; cbn [fast_loop].
  - cbn [sequences_size foldr] in *. destruct (fast_last_spec pre last out dst) as (d & -> & Hd); [done|done|lia|].
    cbn [obind]. exists d. split; [do 2 f_equal; llia|done].
  - pose proof (block_step pre s ss last out Hs Hwf) as (Hpost & Hs' & Hswf & Hwf' & Hsize).
    destruct (fast_sequence_spec pre s (encode_sequences ss ++ encode_last last) out
      (len out + sequences_size (s :: ss) + len last) dst)
      as (f & -> & d & Hfd & Hd); [by rewrite Hs', <- app_assoc|done|done|done|done|done|].
    cbn [obind]. rewrite Hsize in *. destruct Hfd as [->|[-> Hop]].
    + destruct (decode_loop_spec fuel (pre ++ encode_sequence s) ss last (expand_sequence out s) d)
        as (d' & -> & Hd'); [done..|lia|]. by exists d'.
    + destruct (IH fuel (pre ++ encode_sequence s) (expand_sequence out s) d)
        as (d' & -> & Hd'); [done..|lia|]. by exists d'.
Qed.

End Block.

(** A well-formed block is restored, in any destination that is large enough. *)
Lemma decompress_block fast ss last dst :
  sequences_wf (sequences_size ss + len last) 0 ss →
  sequences_size ss + len last <= len dst →
  let z := encode_block ss last in
  ∃ dst', lz4_decompress_safe fast z dst (len z) (len dst) = Ret (len (expand ss last), dst') ∧
    expand ss last `prefix_of` dst' ∧ len dst' = len dst.
Proof.
  intros Hwf Hcap z. unfold lz4_decompress_safe, LZ4_decompress_generic.
  destruct (Z.ltb_spec (len dst) 0); [lia|].
  assert (len (expand ss last) = sequences_size ss + len last) as Hlen.
  { unfold expand. rewrite length_app, Nat2Z.inj_add. by rewrite (len_expand_sequences _ _ _ Hwf). }
  assert (1 <= len z) as Hz.
  { unfold z, encode_block. rewrite length_app, Nat2Z.inj_add, len_encode_last. lia. }
  rewrite Hlen. destruct (Z.eqb_spec (len dst) 0) as [E|E].
  - pose proof (sequences_wf_end _ _ _ Hwf) as Hend. 
    assert (ss = []) as ->.
    { destruct ss as [|s ss]; [done|]. destruct Hwf as [[] _]. lia. }
    destruct last; [|simpl in *; lia]. exists dst. split; [done|]. split; [apply prefix_nil|done].
  - destruct (Z.eqb_spec (len z) 0); [lia|].
    assert (length ss < S (length z))%nat as Hfuel.
    { unfold z, encode_block. rewrite length_app.
      enough (length ss ≤ length (encode_sequences ss))%nat by lia.
      clear. induction ss as [|s ss IH]; [done|]. rewrite encode_sequences_cons, length_app. simpl. lia. }
    assert (holds dst [] (len dst)) as Hh by (split; [apply prefix_nil|done]).
    unfold FASTLOOP_SAFE_DISTANCE. destruct (fast && _) eqn:Ef.
    + apply andb_true_iff in Ef as [_ Ef%negb_true_iff%Z.ltb_ge].
      destruct (fast_loop_spec z (len dst) (S (length z)) [] ss last [] dst) as (d & Ed & [Hp Hl]);
        [done|done|simpl; lia|simpl; lia|done|done|].
      exists d. split; [exact Ed|]. done.
    + destruct (decode_loop_spec z (len dst) (S (length z)) [] ss last [] dst) as (d & Ed & [Hp Hl]);
        [done|done|simpl; lia|done|done|].
      exists d. split; [exact Ed|]. done.
Qed.
