(* ===== verification/Lz4.v ===== *)
(** * LZ4 implements the interface of the writer (deps/lz4)

    The compressor followed by the decompressor gives back the data, and the model
    of lz4.c is an instance of the class the writer and the reader are proved
    against, so their theorems hold of the code that is linked. *)

From stdpp Require Import base list numbers option.
From Stdlib Require Import ZArith Lia.
From S2P Require Import Prelude Codec Lz4Block Lz4Mem Lz4Compress Lz4Encoder Lz4Decompress Lz4Safe Lz4Decoder.

(** ** Properties of blocks *)
Lemma block_ratio size n ss last :
  sequences_wf size n ss → sequences_size ss + len last <= 255 * len (encode_block ss last).
Proof.
  intros Hwf. unfold encode_block. rewrite length_app, Nat2Z.inj_add, len_encode_last.
  assert (sequences_size ss <= 255 * len (encode_sequences ss)); [|lia].
  revert n Hwf. induction ss as [|s ss IH]; intros n Hwf; [simpl; lia|].
  destruct Hwf as [[] Hwf]. specialize (IH _ Hwf).
  rewrite encode_sequences_cons, length_app, Nat2Z.inj_add, len_encode_sequence.
  destruct (length_bytes_bounds (sq_length s - 4)) as (HX & _ & _); [lia|].
  simpl. lia.
Qed.

Lemma expand_prefix out ss : out `prefix_of` foldl expand_sequence out ss.
Proof.
  revert out. induction ss as [|s ss IH]; intros out; simpl; [done|].
  etrans; [|apply IH]. unfold expand_sequence. eapply prefix_app_l, copy_match_prefix.
Qed.

Lemma bytesP_prefix a b : a `prefix_of` b → bytesP b → bytesP a.
Proof. intros [c ->] H. by apply Forall_app in H as [? _]. Qed.

Lemma bytesP_last l : bytesP l → bytesP (encode_last l).
Proof.
  intros Hl. unfold encode_last. repeat apply Forall_app_2; [|by apply bytesP_length_bytes; lia|done].
  apply Forall_singleton. ulia.
Qed.

Lemma bytesP_block size n out ss last :
  sequences_wf size n ss → bytesP (foldl expand_sequence out ss ++ last) →
  bytesP (encode_block ss last).
Proof.
  unfold encode_block. revert n out. induction ss as [|s ss IH]; intros n out Hwf Hb.
  - apply bytesP_last. by apply Forall_app in Hb as [_ ?].
  - destruct Hwf as [[] Hwf]. rewrite encode_sequences_cons, <- app_assoc.
    apply Forall_app_2; [|by eapply IH].
    assert (bytesP (sq_literals s)) as Hl.
    { simpl in Hb. apply Forall_app in Hb as [Hb _].
      apply (bytesP_prefix _ _ (expand_prefix _ _)) in Hb. unfold expand_sequence in Hb.
      apply (bytesP_prefix _ _ (copy_match_prefix _ _ _)) in Hb. by apply Forall_app in Hb as [_ ?]. }
    unfold encode_sequence. repeat apply Forall_app_2; [apply Forall_singleton; ulia|..];
      [apply bytesP_length_bytes; lia|done|apply le_bytes_bytesP|apply bytesP_length_bytes; lia].
Qed.

Lemma block_of_take src dst n :
  block_of src dst n →
  ∃ ss last, expand ss last = src ∧ sequences_wf (len src) 0 ss ∧
    take (Z.to_nat n) dst = encode_block ss last ∧ len src = sequences_size ss + len last.
Proof.
  intros (ss & last & He & Hw & -> & [r ->]). exists ss, last. split; [done|]. split; [done|].
  split; [rewrite Nat2Z.id; apply take_app_length|].
  rewrite <- He at 1. unfold expand. rewrite length_app, Nat2Z.inj_add.
  by rewrite (len_expand_sequences _ _ _ Hw).
Qed.

(** Decoding what [block_of] describes. *)
Lemma block_of_decompress fast src dst n out :
  block_of src dst n → len src <= len out →
  let z := take (Z.to_nat n) dst in
  ∃ out', lz4_decompress_safe fast z out (len z) (len out) = Ret (len src, out') ∧
    src `prefix_of` out' ∧ len out' = len out.
Proof.
  intros Hb Hl z. destruct (block_of_take _ _ _ Hb) as (ss & last & He & Hw & Ez & Hlen).
  unfold z. rewrite Ez, <- He. apply decompress_block; rewrite <- Hlen; done.
Qed.

(** C17: what [LZ4_compress_fast] wrote is decoded by [LZ4_decompress_safe] to the
    source, in any destination that can hold it, for any acceleration and with or without
    the fast decoding loop. *)
Theorem lz4_roundtrip_correct fast src dst acceleration n dst' out :
  bytesP src → len src < 2 ^ 31 →
  lz4_compress_fast src dst (len src) (len dst) acceleration = Ret (n, dst') → n ≠ 0 →
  len src <= len out →
  let z := take (Z.to_nat n) dst' in
  ∃ out', lz4_decompress_safe fast z out (len z) (len out) = Ret (len src, out') ∧
    take (length src) out' = src.
Proof.
  intros Hb Hs E Hn Hl z.
  destruct (compress_fast_spec src dst acceleration Hb Hs) as (n' & d & E' & _ & Hr).
  rewrite E' in E. simplify_eq. destruct Hr as [[-> _]|Hr]; [done|].
  destruct (block_of_decompress fast _ _ _ out Hr Hl) as (out' & Eo & [r ->] & _).
  exists (src ++ r). split; [exact Eo|]. apply take_app_length.
Qed.

Definition lz4_demo : list Z := concat (replicate 6 [1; 2; 3; 4; 5; 6; 7; 8; 9]) ++ replicate 30 7.

Lemma lz4_roundtrip_correct_witness :
  ∃ n dst' out',
    lz4_compress_fast lz4_demo (replicate 40 0) (len lz4_demo) (len (replicate 40 0)) 1 = Ret (n, dst') ∧
    n < len lz4_demo ∧
    lz4_decompress_safe true (take (Z.to_nat n) dst') (replicate 100 0)
      (len (take (Z.to_nat n) dst')) (len (replicate 100 0)) = Ret (len lz4_demo, out') ∧
    take (length lz4_demo) out' = lz4_demo.
Proof.
  assert (bytesP lz4_demo) as Hb.
  { unfold lz4_demo. simpl. repeat (apply Forall_cons_2; [ulia|]). apply Forall_nil_2. }
  destruct (lz4_compress_fast lz4_demo (replicate 40 0) (len lz4_demo) (len (replicate 40 0)) 1)
    as [[n d]| |] eqn:E; vm_compute in E; try discriminate E.
  injection E as <- <-.
  edestruct (lz4_roundtrip_correct true lz4_demo (replicate 40 0) 1) with (out := replicate 100 0)
    as (out' & Eo & Ho).
  - exact Hb.
  - vm_compute. reflexivity.
  - vm_compute. reflexivity.
  - discriminate.
  - vm_compute. discriminate.
  - do 3 eexists. split; [reflexivity|]. split; [vm_compute; reflexivity|]. split; [exact Eo|exact Ho].
Defined.

(** ** The instance

    The interface is stated for lists of integers; as the code sees only bytes, what
    goes in and what comes out is truncated to bytes, which does nothing on a list of
    bytes.  The
    decompressor is the one of an x86-64 build, with the fast loop. *)
Definition lz4_compress (src : list Z) (cap acc : Z) : list Z :=
  if len src <=? LZ4_MAX_INPUT_SIZE then
    let dst := replicate (Z.to_nat cap) 0 in
    match lz4_compress_fast (u8 <$> src) dst (len src) (len dst) acc with
    | Ret (n, dst) => take (Z.to_nat n) dst
    | _ => []
    end
  else [].

Definition lz4_decompress (src : list Z) (cap : Z) : option (list Z) :=
  let dst := replicate (Z.to_nat cap) 0 in
  match lz4_decompress_safe true src dst (len src) (len dst) with
  | Ret (r, dst) => if r <? 0 then None else Some (u8 <$> take (Z.to_nat r) dst)
  | _ => None
  end.

#[export] Instance lz4_code : Lz4 := {|
  LZ4_compress_fast := lz4_compress;
  LZ4_decompress_safe := lz4_decompress;
|}.

Lemma bytesP_u8 l : bytesP (u8 <$> l).
Proof. induction l; simpl; constructor; [apply u8_range|done]. Qed.

Lemma u8_bytes l : bytesP l → u8 <$> l = l.
Proof. induction 1 as [|b l Hb Hl IH]; [done|]. by rewrite fmap_cons, IH, u8_id. Qed.

(** What the compressor returns, when it returns something. *)
Lemma lz4_compress_spec src cap acc :
  len src <= LZ4_MAX_INPUT_SIZE →
  ∃ n dst, lz4_compress src cap acc = take (Z.to_nat n) dst ∧ len dst = Z.max 0 cap ∧
    ((n = 0 ∧ cap < LZ4_compressBound (len src)) ∨ block_of (u8 <$> src) dst n).
Proof.
  intros Hs. unfold lz4_compress. destruct (Z.leb_spec (len src) LZ4_MAX_INPUT_SIZE); [|lia].
  set (dst := replicate (Z.to_nat cap) 0). assert (len dst = Z.max 0 cap) as Hd by (unfold dst; llia).
  destruct (compress_fast_spec (u8 <$> src) dst acc) as (n & d & E & Hld & Hr).
  { apply bytesP_u8. } { rewrite length_fmap. unfold LZ4_MAX_INPUT_SIZE in Hs. lia. }
  rewrite length_fmap in E, Hr. rewrite E. exists n, d. split; [done|]. split; [lia|].
  destruct Hr as [[-> [?|?]]|?]; [left; split; [done|]|lia|by right].
  rewrite compressBound_spec in * by lia. pose proof (Z.div_pos (len src) 255 ltac:(lia) ltac:(lia)). lia.
Qed.

Lemma lz4_compress_block src cap acc :
  lz4_compress src cap acc ≠ [] →
  ∃ n dst, lz4_compress src cap acc = take (Z.to_nat n) dst ∧ block_of (u8 <$> src) dst n.
Proof.
  intros Hne. destruct (Z.leb_spec (len src) LZ4_MAX_INPUT_SIZE) as [Hs|Hs].
  - destruct (lz4_compress_spec src cap acc Hs) as (n & d & E & _ & [[-> _]|Hb]); [done|eauto].
  - unfold lz4_compress in Hne. destruct (Z.leb_spec (len src) LZ4_MAX_INPUT_SIZE); [lia|done].
Qed.

(** The documentation of lz4.h holds of the code. *)
#[export] Instance lz4_code_laws : Lz4Laws lz4_code.
Proof.
  split; simpl; intros src cap acc.
  - intros Hc. destruct (Z.leb_spec (len src) LZ4_MAX_INPUT_SIZE) as [Hs|Hs].
    + destruct (lz4_compress_spec src cap acc Hs) as (n & d & -> & Hd & _). llia.
    + unfold lz4_compress. destruct (Z.leb_spec (len src) LZ4_MAX_INPUT_SIZE); [lia|simpl; lia].
  - intros Hs Hc. destruct (lz4_compress_spec src cap acc Hs) as (n & d & -> & _ & [[_ ?]|Hb]); [lia|].
    destruct (block_of_take _ _ _ Hb) as (ss & last & _ & _ & -> & _).
    intros [_ E]%app_eq_nil. discriminate E.
  - intros Hb Hne. destruct (lz4_compress_block src cap acc Hne) as (n & d & E & Hblk).
    rewrite u8_bytes in Hblk by done. unfold lz4_decompress. rewrite E.
    set (out := replicate (Z.to_nat (len src)) 0).
    destruct (block_of_decompress true _ _ _ out Hblk) as (out' & -> & [r Hr] & Hl); [unfold out; llia|].
    destruct (Z.ltb_spec (len src) 0); [lia|]. f_equal. rewrite Nat2Z.id, Hr, take_app_length.
    by apply u8_bytes.
  - intros Hne. destruct (lz4_compress_block src cap acc Hne) as (n & d & -> & Hblk).
    destruct (block_of_take _ _ _ Hblk) as (ss & last & _ & Hw & -> & Hlen).
    rewrite length_fmap in Hlen. rewrite Hlen. by eapply block_ratio.
  - intros Hb. destruct (decide (lz4_compress src cap acc = [])) as [->|Hne]; [constructor|].
    destruct (lz4_compress_block src cap acc Hne) as (n & d & -> & Hblk).
    rewrite u8_bytes in Hblk by done.
    destruct (block_of_take _ _ _ Hblk) as (ss & last & He & Hw & -> & _).
    eapply (bytesP_block _ _ []); [done|]. unfold expand, expand_sequences in He. by rewrite He.
  - unfold lz4_decompress. intros H. repeat case_match; simplify_eq. apply bytesP_u8.
Qed.
