(* ===== verification/Writer.v ===== *)
(** * The fragment writer (src/writer.c, include/coldtrace/writer.h)

    One writer per traced thread: a buffer that collects entries, flushed as a
    compressed fragment file when the next entry does not fit.  A pointer into
    the buffer is its byte offset.  The functions pass the writer and the world
    explicitly and read the configuration. *)

From stdpp Require Import base list numbers strings gmap.
From Stdlib Require Import ZArith Lia.
From S2P Require Import Prelude Version Libc Utils Config Codec Lz4.

(** [struct writer_impl]; [metadata_t *] is represented by the identifier that
    [self_id] returns for it, NULL by [None]; a NULL buffer is [None]. *)
Record writer_impl := Writer {
  wi_initd : bool;
  wi_failed : bool;
  wi_mmapped : bool;
  wi_buffer : option (list Z);
  wi_comp_buf : option (list Z);
  wi_size : Z;
  wi_offset : Z;
  wi_tid : Z;
  wi_enumerator : Z;
  wi_md : option Z;
}.

Definition set_initd b i := Writer b (wi_failed i) (wi_mmapped i) (wi_buffer i) (wi_comp_buf i)
  (wi_size i) (wi_offset i) (wi_tid i) (wi_enumerator i) (wi_md i).
Definition set_failed b i := Writer (wi_initd i) b (wi_mmapped i) (wi_buffer i) (wi_comp_buf i)
  (wi_size i) (wi_offset i) (wi_tid i) (wi_enumerator i) (wi_md i).
Definition set_mmapped b i := Writer (wi_initd i) (wi_failed i) b (wi_buffer i) (wi_comp_buf i)
  (wi_size i) (wi_offset i) (wi_tid i) (wi_enumerator i) (wi_md i).
Definition set_buffer x i := Writer (wi_initd i) (wi_failed i) (wi_mmapped i) x (wi_comp_buf i)
  (wi_size i) (wi_offset i) (wi_tid i) (wi_enumerator i) (wi_md i).
Definition set_comp_buf x i := Writer (wi_initd i) (wi_failed i) (wi_mmapped i) (wi_buffer i) x
  (wi_size i) (wi_offset i) (wi_tid i) (wi_enumerator i) (wi_md i).
Definition set_size x i := Writer (wi_initd i) (wi_failed i) (wi_mmapped i) (wi_buffer i)
  (wi_comp_buf i) x (wi_offset i) (wi_tid i) (wi_enumerator i) (wi_md i).
Definition set_offset x i := Writer (wi_initd i) (wi_failed i) (wi_mmapped i) (wi_buffer i)
  (wi_comp_buf i) (wi_size i) x (wi_tid i) (wi_enumerator i) (wi_md i).
Definition set_enumerator x i := Writer (wi_initd i) (wi_failed i) (wi_mmapped i) (wi_buffer i)
  (wi_comp_buf i) (wi_size i) (wi_offset i) (wi_tid i) x (wi_md i).

(** The zero-filled object a writer starts as (thread-local storage). *)
Definition zero_writer : writer_impl :=
  Writer false false false None None 0 0 0 0 None.

(** [FRAG_HDR_SIZE] *)
Definition FRAG_HDR_SIZE : Z := sizeof_version_header + 4.
Definition LZ4_ACCELERATION : Z := 1.

Definition validate_trace_size_ (size : Z) (compressed : bool) : bool :=
  if size <? sizeof_version_header then false
  else if compressed && (LZ4_MAX_INPUT_SIZE <? size) then false
  else true.

(** Freeing never fails, so only the pointers change. *)
Definition release_buffers_ (impl : writer_impl) : writer_impl :=
  let impl := match wi_buffer impl with
              | Some _ => set_buffer None impl
              | None => impl
              end in
  match wi_comp_buf impl with
  | Some _ => set_comp_buf None impl
  | None => impl
  end.

Definition fail_ (impl : writer_impl) : writer_impl :=
  set_failed true (release_buffers_ impl).

(** The [for (;;)] of [first_fragment_]. *)
Fixpoint first_fragment_loop (fuel : nat) (c : config) (impl : writer_impl) (w : world) :
    outcome (bool * writer_impl * world) :=
  match fuel with
  | O => NoFuel
  | S fuel =>
      let! file_name := fragment_name c (wi_tid impl) (wi_enumerator impl) in
      match open_excl w file_name with
      | (SOk _, w) => Ret (true, impl, w)
      | (SErr errno, w) =>
          if negb (errno =? EEXIST) then Ret (false, impl, w)
          else first_fragment_loop fuel c (set_enumerator (u32 (wi_enumerator impl + 1)) impl) w
      end
  end.

(** Each iteration that goes round again has met an existing file or consumed
    an injected failure. *)
Definition first_fragment_ (c : config) (impl : writer_impl) (w : world) :
    outcome (bool * writer_impl * world) :=
  first_fragment_loop (S (size (w_fs w) + length (w_faults w))) c impl w.

(** The [while] of [write_all_]: [rest] are the bytes from [p] on. *)
Fixpoint write_all_loop (fuel : nat) (w : world) (fd : string) (rest : list Z) :
    outcome (bool * world) :=
  match rest with
  | [] => Ret (true, w)
  | _ :: _ =>
      match fuel with
      | O => NoFuel
      | S fuel =>
          match sys_write w fd rest with
          | (SErr errno, w) =>
              if errno =? EINTR then write_all_loop fuel w fd rest else Ret (false, w)
          | (SOk n, w) => write_all_loop fuel w fd (drop (Z.to_nat n) rest)
          end
      end
  end.

(** An iteration that is neither the last nor a failure consumes an outcome. *)
Definition write_all_ (w : world) (fd : string) (buf : list Z) : outcome (bool * world) :=
  write_all_loop (S (length (w_faults w))) w fd buf.

(** The call of the hook [coldtrace_writer_close]; the weak default is empty. *)
Definition coldtrace_writer_close (page : list Z) (size : Z) (md : option Z) (w : world) : world :=
  World (w_fs w) (w_faults w) (w_closed w ++ [CloseCall page size md]).

Section Writer.
Context `{B : BuildInfo, L : Lz4}.
(** Contents of memory that an allocator hands out uninitialised. *)
Context (junk : nat → Z).

Definition uninit (n : Z) : list Z := junk <$> seq 0 (Z.to_nat n).

Definition flush_ (c : config) (impl : writer_impl) (w : world) :
    outcome (writer_impl * world) :=
  match wi_buffer impl with
  | None => Undef NullDeref
  | Some buf =>
      let w := coldtrace_writer_close buf (wi_offset impl) (wi_md impl) w in
      if negb (wi_mmapped impl) then Ret (impl, w)
      else
        match wi_comp_buf impl with
        | None => Undef NullDeref
        | Some comp_buf =>
            let hdr := sizeof_version_header in
            let raw := u64 (wi_offset impl - hdr) in
            let! comp_buf := or_undef OutOfBounds (store comp_buf 0 header_bytes) in
            let! comp_buf := or_undef OutOfBounds (store32 comp_buf hdr (u32 raw)) in
            let n := i32 raw in
            let! src := or_undef OutOfBounds
              (if n <? 0 then Some []
               else if in_range buf hdr n then Some (slice hdr n buf) else None) in
            let out := if n <? 0 then []
                       else LZ4_compress_fast src (LZ4_compressBound (i32 (wi_size impl)))
                              LZ4_ACCELERATION in
            let! comp_buf := or_undef OutOfBounds (store comp_buf FRAG_HDR_SIZE out) in
            let impl := set_comp_buf (Some comp_buf) impl in
            let comp := len out in
            if comp <=? 0 then Ret (fail_ impl, w)
            else
              let! file_name := fragment_name c (wi_tid impl) (wi_enumerator impl) in
              match open_trunc w file_name with
              | (SErr _, w) => Ret (fail_ impl, w)
              | (SOk _, w) =>
                  let! (ok, w) :=
                    write_all_ w file_name (take (Z.to_nat (FRAG_HDR_SIZE + comp)) comp_buf) in
                  if negb ok then Ret (fail_ impl, sys_unlink w file_name)
                  else Ret (impl, w)
              end
        end
  end.

Definition begin_fragment_ (impl : writer_impl) : outcome writer_impl :=
  match wi_buffer impl with
  | None => Undef NullDeref
  | Some buf =>
      let! buf := or_undef OutOfBounds (store buf 0 header_bytes) in
      Ret (set_offset sizeof_version_header (set_buffer (Some buf) impl))
  end.

Definition ensure_buffer_ (c : config) (impl : writer_impl) (w : world) :
    outcome (bool * writer_impl * world) :=
  if negb (wi_initd impl) then Ret (false, impl, w)
  else if wi_failed impl then Ret (false, impl, w)
  else
    match wi_buffer impl with
    | Some _ => Ret (true, impl, w)
    | None =>
        let disabled := coldtrace_writes_disabled c in
        let impl := set_size (coldtrace_get_trace_size c) impl in
        let impl := set_offset 0 impl in
        let impl := set_enumerator 0 impl in
        if negb (validate_trace_size_ (wi_size impl) (negb disabled))
        then Ret (false, set_failed true impl, w)
        else if disabled then
          let '(ok, w) := attempt w in
          let impl := set_buffer (if ok : bool then Some (uninit (wi_size impl)) else None) impl in
          let impl := set_mmapped false impl in
          match wi_buffer impl with
          | None => Ret (false, impl, w)
          | Some _ => let! impl := begin_fragment_ impl in Ret (true, impl, w)
          end
        else
          let '(ok, w) := attempt w in
          if negb ok then Ret (false, set_failed true (set_buffer None impl), w)
          else
            let impl := set_buffer (Some (replicate (Z.to_nat (wi_size impl)) 0)) impl in
            let impl := set_mmapped true impl in
            let '(ok, w) := attempt w in
            if negb ok then Ret (false, fail_ (set_comp_buf None impl), w)
            else
              let impl := set_comp_buf
                (Some (uninit (FRAG_HDR_SIZE + LZ4_compressBound (i32 (wi_size impl))))) impl in
              let! (r, w) := first_fragment_ c impl w in
              let '(ok, impl) := r in
              if negb ok then Ret (false, fail_ impl, w)
              else let! impl := begin_fragment_ impl in Ret (true, impl, w)
    end.

Definition advance_fragment_ (c : config) (impl : writer_impl) (w : world) :
    outcome (writer_impl * world) :=
  if negb (wi_mmapped impl) then
    let trace_size := coldtrace_get_trace_size c in
    let '(impl, w) :=
      if negb (wi_size impl =? trace_size) && validate_trace_size_ trace_size false then
        let '(ok, w) := attempt w in
        if ok : bool
        then (set_size trace_size (set_buffer (Some (uninit trace_size)) impl), w)
        else (impl, w)
      else (impl, w) in
    Ret (set_offset 0 impl, w)
  else
    if coldtrace_get_max c =? 0 then Undef DivideByZero
    else Ret (set_enumerator (u32 (wi_enumerator impl + 1) mod coldtrace_get_max c) impl, w).

Definition new_trace_ (c : config) (impl : writer_impl) (w : world) :
    outcome (writer_impl * world) :=
  let! (impl, w) := flush_ c impl w in
  match wi_buffer impl with
  | None => Ret (impl, w)
  | Some _ =>
      let! (impl, w) := advance_fragment_ c impl w in
      let! impl := begin_fragment_ impl in
      Ret (impl, w)
  end.

Definition coldtrace_writer_new_trace (c : config) (impl : writer_impl) (size : Z) : bool :=
  let sz := coldtrace_get_trace_size c in
  let trace_size := wi_size impl in
  let trace_size := if sz <? trace_size then sz else trace_size in
  trace_size <? u64 (wi_offset impl + size).

(** The returned pointer is an offset into the buffer, [None] is NULL. *)
Definition coldtrace_writer_reserve (c : config) (impl : writer_impl) (w : world) (size : Z) :
    outcome (option Z * writer_impl * world) :=
  let! (r, w) := ensure_buffer_ c impl w in
  let '(ok, impl) := r in
  if negb ok then Ret (None, impl, w)
  else
    let! (impl, w) :=
      if coldtrace_writer_new_trace c impl size then new_trace_ c impl w
      else Ret (impl, w) in
    match wi_buffer impl with
    | None => Ret (None, impl, w)
    | Some _ =>
        let ptr := wi_offset impl in
        Ret (Some ptr, set_offset (u64 (wi_offset impl + size)) impl, w)
    end.

Definition coldtrace_writer_init (impl : writer_impl) (md : option Z) : writer_impl :=
  match md with
  | None => set_comp_buf None (set_buffer None (set_initd false impl))
  | Some id => Writer true false false None None 0 0 id 0 md
  end.

Definition coldtrace_writer_fini (c : config) (impl : writer_impl) (w : world) :
    outcome (writer_impl * world) :=
  if negb (wi_initd impl) then Ret (impl, w)
  else
    let! (impl, w) :=
      match wi_buffer impl with
      | Some _ => flush_ c impl w
      | None => Ret (impl, w)
      end in
    Ret (set_initd false (release_buffers_ impl), w).
End Writer.

(** ** The write loop *)

Lemma sys_write_spec w fd bs r w' d :
  sys_write w fd bs = (r, w') → w_fs w !! fd = Some (Reg d) →
  w_closed w' = w_closed w ∧
  match r with
  | SErr e => w_fs w' = w_fs w ∧ w_faults w = Fail e :: w_faults w'
  | SOk n => ∃ k, n = Z.of_nat k ∧ (k ≤ length bs)%nat ∧
      w_fs w' = <[fd := Reg (d ++ take k bs)]> (w_fs w) ∧
      (k = length bs ∨ ∃ m, w_faults w = Short m :: w_faults w')
  end.
Proof.
  unfold sys_write, next_fault. intros H Hd.
  destruct (w_faults w) as [|[|e|m] fs] eqn:Ef; simpl in H; simplify_eq; simpl; rewrite ?Hd; simpl.
  - split; [done|]. exists (length bs). auto.
  - split; [done|]. exists (length bs). auto.
  - auto.
  - split; [done|]. eexists. split_and!; [done|lia|done|]. eauto.
Qed.

(** Every run of the loop ends: the iterations that go round again consume an
    outcome of the world.  The file grows by a prefix of the bytes, by all of
    them exactly when the result is [true], and no other file changes. *)
Lemma write_all_loop_spec fd : ∀ fuel w rest d,
  (length (w_faults w) < fuel)%nat → w_fs w !! fd = Some (Reg d) →
  ∃ ok w' k, write_all_loop fuel w fd rest = Ret (ok, w') ∧
    w_closed w' = w_closed w ∧ (k ≤ length rest)%nat ∧
    w_fs w' = <[fd := Reg (d ++ take k rest)]> (w_fs w) ∧
    (ok = true → k = length rest).
Proof.
  induction fuel as [|fuel IH]; intros w rest d Hf Hd; [lia|].
  destruct rest as [|b rest]; cbn [write_all_loop].
  { exists true, w, 0%nat. split_and!; try done. by rewrite app_nil_r, insert_id. }
  destruct (sys_write w fd (b :: rest)) as [r w1] eqn:E.
  destruct (sys_write_spec _ _ _ _ _ _ E Hd) as [Hc Hr]. destruct r as [n|e].
  - destruct Hr as (k & -> & Hk & Hfs & Hlast). rewrite Nat2Z.id.
    assert (w_fs w1 !! fd = Some (Reg (d ++ take k (b :: rest)))) as Hd1.
    { by rewrite Hfs, lookup_insert_eq. }
    destruct (decide (k = length (b :: rest))) as [->|Hne].
    + rewrite drop_all. exists true, w1, (length (b :: rest)).
      split_and!; try done. destruct fuel; done.
    + destruct Hlast as [|[m Hm]]; [done|]. rewrite Hm in Hf. simpl in Hf.
      destruct (IH w1 (drop k (b :: rest)) _ ltac:(lia) Hd1) as (ok & w2 & k2 & -> & Hc2 & Hk2 & Hfs2 & Hok).
      exists ok, w2, (k + k2)%nat. split_and!; try done; try congruence.
      * rewrite length_drop in Hk2. lia.
      * rewrite Hfs2, Hfs, insert_insert_eq, <- app_assoc. do 2 f_equal.
        f_equal. by rewrite <- take_take_drop.
      * intros ->. specialize (Hok eq_refl). rewrite length_drop in Hok. lia.
  - destruct Hr as [Hfs Hm]. rewrite Hm in Hf. simpl in Hf.
    destruct (Z.eqb_spec e EINTR).
    + destruct (IH w1 (b :: rest) d ltac:(lia) ltac:(congruence)) as (ok & w2 & k & -> & ? & ? & Hfs2 & ?).
      exists ok, w2, k. split_and!; try done; congruence.
    + exists false, w1, 0%nat. split_and!; try done; [simpl; lia|].
      by rewrite app_nil_r, Hfs, insert_id.
Qed.

Lemma write_all_spec w fd bs d :
  w_fs w !! fd = Some (Reg d) →
  ∃ ok w' k, write_all_ w fd bs = Ret (ok, w') ∧
    w_closed w' = w_closed w ∧ (k ≤ length bs)%nat ∧
    w_fs w' = <[fd := Reg (d ++ take k bs)]> (w_fs w) ∧
    (ok = true → k = length bs).
Proof. intros. apply write_all_loop_spec; [lia|done]. Qed.

(** [write_all_] always ends, whatever mixture of interruptions, short writes
    and errors the kernel answers with.  The file grows by a prefix of the bytes,
    by all of them when the result is [true], no other file changes, and without
    faults the result is [true]. *)
Theorem write_all_correct w fd bs d :
  w_fs w !! fd = Some (Reg d) →
  ∃ ok w' k, write_all_ w fd bs = Ret (ok, w') ∧
    w_fs w' = <[fd := Reg (d ++ take k bs)]> (w_fs w) ∧
    (ok = true → k = length bs) ∧ (w_faults w = [] → ok = true).
Proof.
  intros Hd. destruct (write_all_spec w fd bs d Hd) as (ok & w' & k & E & _ & _ & Hfs & Hok).
  exists ok, w', k. do 3 (split; [done|]). intros Hf. unfold write_all_ in E. rewrite Hf in E.
  destruct bs as [|x bs]; [by simplify_eq/=|]. cbn [write_all_loop length] in E.
  unfold sys_write, next_fault in E. rewrite Hf, Nat2Z.id, drop_all in E. by simplify_eq/=.
Qed.

Lemma write_all_correct_witness :
  ∃ ok w' k, write_all_ (World demo_fs [Fail EINTR; Short 1; Fail 5] []) "t/maps" [7; 8; 9] = Ret (ok, w')
    ∧ w_fs w' = <["t/maps"%string := Reg ([3] ++ take k [7; 8; 9])]> demo_fs.
Proof.
  destruct (write_all_correct (World demo_fs [Fail EINTR; Short 1; Fail 5] []) "t/maps" [7; 8; 9] [3])
    as (ok & w' & k & H1 & H2 & _); [reflexivity|].
  exists ok, w', k. exact (conj H1 H2).
Defined.

(** ** The search for a free fragment name *)

Lemma next_fault_cases w f w' :
  next_fault w = (f, w') →
  w_fs w' = w_fs w ∧ w_closed w' = w_closed w ∧
  ((f = Succeed ∧ w' = w) ∨ w_faults w = f :: w_faults w').
Proof.
  unfold next_fault. destruct (w_faults w); intros; simplify_eq; simpl; auto.
Qed.

Lemma open_excl_spec w name r w' :
  open_excl w name = (r, w') →
  w_closed w' = w_closed w ∧
  match r with
  | SOk _ => w_fs w !! name = None ∧ w_fs w' = <[name := Reg []]> (w_fs w)
  | SErr e => w_fs w' = w_fs w ∧
      (is_Some (w_fs w !! name) ∧ (length (w_faults w') ≤ length (w_faults w))%nat
       ∨ (length (w_faults w') < length (w_faults w))%nat)
  end.
Proof.
  unfold open_excl. destruct (next_fault w) as [f w1] eqn:E.
  apply next_fault_cases in E as (Hfs & Hc & Hcase).
  destruct f as [|e|n]; rewrite ?Hfs.
  - destruct (w_fs w !! name) eqn:El; intros; simplify_eq; simpl; rewrite ?Hfs; split_and!; try done.
    left. split; [eauto|]. destruct Hcase as [[_ ->]|Hc']; [done|]. rewrite Hc'. simpl. lia.
  - destruct Hcase as [[? _]|Hc']; [done|]. intros; simplify_eq. split_and!; try done.
    right. rewrite Hc'. simpl. lia.
  - destruct Hcase as [[? _]|Hc']; [done|].
    destruct (w_fs w !! name) eqn:El; intros; simplify_eq; simpl; rewrite ?Hfs; split_and!; try done.
    left. split; [eauto|]. rewrite Hc'. simpl. lia.
Qed.

(** What the search returns: either an error, with the files as they were, or a
    name that no file had, for which an empty file now exists. *)
Lemma first_fragment_loop_post c : ∀ fuel impl w ok impl' w',
  pattern_ok c → is_u32 (wi_enumerator impl) →
  first_fragment_loop fuel c impl w = Ret (ok, impl', w') →
  w_closed w' = w_closed w ∧
  (∃ e, is_u32 e ∧ impl' = set_enumerator e impl) ∧
  let name := name_of (path_ c) (wi_tid impl) (wi_enumerator impl') in
  if ok then w_fs w !! name = None ∧ w_fs w' = <[name := Reg []]> (w_fs w)
  else w_fs w' = w_fs w.
Proof.
  induction fuel as [|fuel IH]; intros impl w ok impl' w' Hp He H; [done|].
  cbn [first_fragment_loop] in H. rewrite fragment_name_spec in H by done. simpl in H.
  destruct (open_excl w _) as [r w1] eqn:E. apply open_excl_spec in E as [Hc Hr].
  destruct r as [u|e].
  - simplify_eq. split_and!; [done| |exact Hr].
    exists (wi_enumerator impl'). split; [done|]. by destruct impl'.
  - destruct Hr as [Hfs _]. destruct (negb (e =? EEXIST)).
    + simplify_eq. split_and!; [done| |done].
      exists (wi_enumerator impl'). split; [done|]. by destruct impl'.
    + apply IH in H as (Hc' & (e' & He' & ->) & Hok); [|done|simpl; apply u32_range].
      split_and!; [congruence|by exists e'|]. simpl in *. rewrite Hfs in Hok. done.
Qed.

(** The search ends as long as fewer than 2^32 files and failures are around. *)
Lemma first_fragment_loop_ends c path : path_ c = path → pattern_ok c →
  ∀ fuel k e0 (V : gset string) impl w,
  wi_enumerator impl = (e0 + k) mod 2 ^ 32 → 0 <= k →
  (∀ s, s ∈ V → is_Some (w_fs w !! s) ∧
     ∃ j, 0 <= j < k ∧ s = name_of path (wi_tid impl) ((e0 + j) mod 2 ^ 32)) →
  (size (w_fs w) - size V + length (w_faults w) < fuel)%nat →
  k + Z.of_nat fuel <= 2 ^ 32 →
  first_fragment_loop fuel c impl w ≠ NoFuel.
Proof.
  intros Hpath Hp. induction fuel as [|fuel IH]; intros k e0 V impl w He Hk HV Hlt Hb; [lia|].
  cbn [first_fragment_loop]. rewrite fragment_name_spec by done. simpl. rewrite Hpath.
  set (name := name_of path (wi_tid impl) (wi_enumerator impl)).
  destruct (open_excl w name) as [r w1] eqn:E. apply open_excl_spec in E as [_ Hr].
  destruct r as [u|e]; [done|]. destruct (negb (e =? EEXIST)); [done|].
  destruct Hr as [Hfs Hcase].
  assert (∀ (V' : gset string), (∀ s, s ∈ V' → s ∈ V ∨ s = name ∧ is_Some (w_fs w !! name)) →
    (size (w_fs w) - size V' + length (w_faults w1) < fuel)%nat →
    first_fragment_loop fuel c (set_enumerator (u32 (wi_enumerator impl + 1)) impl) w1 ≠ NoFuel) as Hgo.
  { intros V' HV' Hlt'. apply (IH (k + 1) e0 V'); try done; try lia.
    - simpl. rewrite He. unfold u32. rewrite Zplus_mod_idemp_l. f_equal. lia.
    - intros s Hs. rewrite Hfs. apply HV' in Hs as [Hs|[-> Hs]].
      + apply HV in Hs as (? & j & ? & ?). split; [done|]. exists j. split; [lia|done].
      + split; [done|]. exists k. split; [lia|]. unfold name. simpl. by rewrite He.
    - by rewrite Hfs. }
  destruct Hcase as [[Hex Hle]|Hlt2]; [|apply (Hgo V); [auto|lia]].
  apply (Hgo ({[name]} ∪ V)); [set_solver|].
  assert (name ∉ V) as Hnew.
  { intros Hs. apply HV in Hs as (_ & j & Hj & Hn).
    apply name_of_inj in Hn as [_ Hn]. rewrite He in Hn.
    apply i32_inj_u32 in Hn; [|apply Z.mod_pos_bound; lia..].
    assert ((k - j) mod 2 ^ 32 = 0) as Hz.
    { replace (k - j) with ((e0 + k) - (e0 + j)) by lia.
      rewrite Zminus_mod, Hn, Z.sub_diag. done. }
    rewrite Z.mod_small in Hz by lia. lia. }
  rewrite size_union, size_singleton by set_solver.
  assert ({[name]} ∪ V ⊆ dom (w_fs w)) as Hsub.
  { intros s [->%elem_of_singleton|Hs]%elem_of_union; apply elem_of_dom; [done|]. by apply HV. }
  apply subseteq_size in Hsub. rewrite size_dom, size_union, size_singleton in Hsub by set_solver.
  lia.
Qed.

(** The search returns as long as fewer than 2^32 files and failures are around. *)
Lemma first_fragment_returns c impl w :
  pattern_ok c → is_u32 (wi_enumerator impl) →
  Z.of_nat (size (w_fs w) + length (w_faults w)) < 2 ^ 32 →
  ∃ ok impl' w', first_fragment_ c impl w = Ret (ok, impl', w').
Proof.
  intros Hp He Hb. unfold first_fragment_.
  pose proof (first_fragment_loop_ends c _ eq_refl Hp
    (S (size (w_fs w) + length (w_faults w))) 0 (wi_enumerator impl) ∅ impl w) as Hends.
  destruct (first_fragment_loop _ c impl w) as [[[ok impl'] w']|u|] eqn:E; [eauto|exfalso..].
  - clear -E Hp. revert E. generalize (S (size (w_fs w) + length (w_faults w))).
    intros fuel. revert impl w. induction fuel as [|fuel IH]; intros impl w; [done|].
    cbn [first_fragment_loop]. rewrite fragment_name_spec by done. simpl.
    destruct (open_excl w _) as [[|e] w1]; [done|]. destruct (negb _); [done|]. apply IH.
  - apply Hends; try done; try lia. rewrite Z.add_0_r, Z.mod_small; done.
Qed.

(** Why [open] with [O_EXCL] has failed. *)
Lemma open_excl_err w name e w' :
  open_excl w name = (SErr e, w') →
  (e = EEXIST ∧ is_Some (w_fs w !! name) ∨ Fail e ∈ w_faults w) ∧
  w_fs w' = w_fs w ∧ (∀ f, f ∈ w_faults w' → f ∈ w_faults w).
Proof.
  unfold open_excl. destruct (next_fault w) as [f w1] eqn:E.
  apply next_fault_cases in E as (Hfs & _ & Hcase).
  assert (∀ g, g ∈ w_faults w1 → g ∈ w_faults w) as Hin.
  { destruct Hcase as [[_ ->]|Hc]; [done|]. intros g Hg. rewrite Hc. by apply list_elem_of_further. }
  assert (match w_fs w1 !! name with
    | Some _ => (SErr EEXIST, w1)
    | None => (SOk tt, with_fs w1 (<[name := Reg []]> (w_fs w1)))
    end = (SErr e, w') →
    (e = EEXIST ∧ is_Some (w_fs w !! name) ∨ Fail e ∈ w_faults w) ∧
    w_fs w' = w_fs w ∧ (∀ f, f ∈ w_faults w' → f ∈ w_faults w)) as Hnormal.
  { rewrite Hfs. destruct (w_fs w !! name) eqn:El; intros H; simplify_eq. split; [left; eauto|done]. }
  destruct f as [|e1|n]; [exact Hnormal| |exact Hnormal]. destruct Hcase as [[? _]|Hc]; [done|].
  intros H. simplify_eq. split; [right; rewrite Hc; apply list_elem_of_here|done].
Qed.

(** The name of the fragment [k] places behind the one the writer is at. *)
Definition fragment_at (c : config) (impl : writer_impl) (k : Z) : string :=
  name_of (path_ c) (wi_tid impl) ((wi_enumerator impl + k) mod 2 ^ 32).

(** The search tries the names in order. *)
Lemma first_fragment_loop_order c : ∀ fuel impl w ok impl' w',
  pattern_ok c → is_u32 (wi_enumerator impl) →
  first_fragment_loop fuel c impl w = Ret (ok, impl', w') →
  ∃ k, 0 <= k ∧ wi_enumerator impl' = (wi_enumerator impl + k) mod 2 ^ 32 ∧
    (Fail EEXIST ∉ w_faults w → ∀ j, 0 <= j < k → is_Some (w_fs w !! fragment_at c impl j)) ∧
    (ok = false → ∃ e, Fail e ∈ w_faults w).
Proof.
  induction fuel as [|fuel IH]; intros impl w ok impl' w' Hp He H; [done|].
  cbn [first_fragment_loop] in H. rewrite fragment_name_spec in H by done. simpl in H.
  assert ((wi_enumerator impl + 0) mod 2 ^ 32 = wi_enumerator impl) as H0 by (rewrite Z.add_0_r; by apply Z.mod_small).
  destruct (open_excl w _) as [[u|e] w1] eqn:E.
  { simplify_eq. exists 0. split_and!; [done..| |done]. lia. }
  apply open_excl_err in E as (Hwhy & Hfs & Hin). destruct (Z.eqb_spec e EEXIST) as [->|Hne]; cbn [negb] in H.
  2: { simplify_eq. exists 0. split_and!; [done..|lia|]. destruct Hwhy as [[? _]|?]; [done|eauto]. }
  apply IH in H as (k & Hk & Ek & Hall & Hbad); [|done|apply u32_range].
  assert (∀ j, fragment_at c (set_enumerator (u32 (wi_enumerator impl + 1)) impl) j = fragment_at c impl (1 + j)) as Hat.
  { intros j. unfold fragment_at, u32. cbn [wi_tid wi_enumerator set_enumerator wi_md].
    rewrite Zplus_mod_idemp_l. do 2 f_equal. lia. }
  exists (1 + k). split_and!; [lia| | |].
  - rewrite Ek. cbn [wi_enumerator set_enumerator]. unfold u32. rewrite Zplus_mod_idemp_l. f_equal. lia.
  - intros Hno j Hj. destruct (decide (j = 0)) as [->|Hj0].
    + destruct Hwhy as [[_ Hs]|Hf]; [|done]. unfold fragment_at. by rewrite H0.
    + specialize (Hall (fun Hf => Hno (Hin _ Hf)) (j - 1)). rewrite Hat, Hfs in Hall.
      replace (1 + (j - 1)) with j in Hall by lia. apply Hall. lia.
  - intros Hok. destruct (Hbad Hok) as [e He']. eauto.
Qed.

(** C29: the search for the first fragment terminates and finds the first free name.
    With a well-formed pattern and fewer than 2^32 files and pending failures,
    [first_fragment_] returns.  It returns [false] only when a call failed, with all
    files as they were.  When it returns [true], the enumerator has advanced by some
    [k] to a name that belonged to no file, an empty file of this name is the only
    change to the file system, and all names in front of it, from the enumerator on,
    belonged to files, as long as [open] does not report EEXIST without cause. *)
Theorem first_fragment_finds_free c impl w :
  pattern_ok c → is_u32 (wi_enumerator impl) →
  Z.of_nat (size (w_fs w) + length (w_faults w)) < 2 ^ 32 →
  ∃ ok impl' w', first_fragment_ c impl w = Ret (ok, impl', w') ∧
    impl' = set_enumerator (wi_enumerator impl') impl ∧
    (ok = false → w_fs w' = w_fs w ∧ ∃ e, Fail e ∈ w_faults w) ∧
    (ok = true → ∃ k, 0 <= k ∧ wi_enumerator impl' = (wi_enumerator impl + k) mod 2 ^ 32 ∧
       w_fs w !! fragment_at c impl k = None ∧
       w_fs w' = <[fragment_at c impl k := Reg []]> (w_fs w) ∧
       (Fail EEXIST ∉ w_faults w → ∀ j, 0 <= j < k → is_Some (w_fs w !! fragment_at c impl j))).
Proof.
  intros Hp He Hb. destruct (first_fragment_returns c impl w Hp He Hb) as (ok & i & w' & E).
  exists ok, i, w'. split; [done|].
  destruct (first_fragment_loop_order _ _ _ _ _ _ _ Hp He E) as (k & Hk & Ek & Hall & Hbad).
  apply first_fragment_loop_post in E as (_ & (e & _ & ->) & Hok); [|done..]. split; [done|].
  cbn [wi_enumerator set_enumerator] in *. rewrite Ek in Hok. destruct ok; split; try done.
  - intros _. exists k. by destruct Hok.
  - intros _. split; [done|]. by apply Hbad.
Qed.

Definition demo_config : config :=
  Config 4 64 false "t" ("t" +:+ COLDTRACE_FILE_SUFFIX).

Lemma demo_pattern_ok : pattern_ok demo_config.
Proof. by vm_compute. Qed.

(** The fragment 0 of thread 1 exists, so its writer starts with fragment 1. *)
Lemma first_fragment_finds_free_witness :
  let impl := coldtrace_writer_init zero_writer (Some 1) in
  ∃ impl' w', first_fragment_ demo_config impl (World demo_fs [] []) = Ret (true, impl', w') ∧
    wi_enumerator impl' = 1 ∧ w_fs w' = <["t/freezer_log_1_1.bin"%string := Reg []]> demo_fs.
Proof.
  intros impl. destruct (first_fragment_finds_free demo_config impl (World demo_fs [] [])) as
    (ok & i & w' & E & _ & Hno & Hyes); [apply demo_pattern_ok|done|done|].
  destruct ok; [|destruct (Hno eq_refl) as (_ & e & He); destruct (not_elem_of_nil _ He)].
  destruct (Hyes eq_refl) as (k & Hk & Ek & Hfree & Hfs & Hall). exists i, w'. split; [exact E|].
  assert (fragment_at demo_config impl 1 = "t/freezer_log_1_1.bin"%string) as En by (vm_compute; reflexivity).
  assert (k = 1) as ->; [|rewrite En in Hfs; split; [rewrite Ek; vm_compute; reflexivity|exact Hfs]].
  destruct (decide (k = 0)) as [->|]; [vm_compute in Hfree; discriminate|]. destruct (decide (k = 1)) as [E1|]; [exact E1|].
  destruct (Hall (not_elem_of_nil _) 1) as [x Hx]; [lia|]. vm_compute in Hx. discriminate.
Defined.

(** ** Invariant of a writer

    With writing enabled: a buffer is present exactly while the writer is live,
    has the recorded size, starts with the version header, holds [offset] bytes,
    and comes with a compression buffer large enough for any of its contents;
    without a buffer a usable writer has nothing recorded. *)
Section WriterProofs.
Context `{B : BuildInfo, L : Lz4} (junk : nat → Z).

Definition live (i : writer_impl) (b : list Z) : Prop :=
  wi_buffer i = Some b ∧ wi_initd i = true ∧ wi_failed i = false ∧ wi_mmapped i = true ∧
  len b = wi_size i ∧ 8 <= wi_size i <= LZ4_MAX_INPUT_SIZE ∧ take 8 b = header_bytes ∧
  ∃ cb, wi_comp_buf i = Some cb ∧ len cb = FRAG_HDR_SIZE + LZ4_compressBound (wi_size i).

Definition idle (i : writer_impl) : Prop :=
  wi_buffer i = None ∧ wi_comp_buf i = None ∧
  (wi_initd i = true → wi_failed i = false → wi_size i = 0 ∧ wi_offset i = 0).

(** The offset lies inside the buffer. *)
Definition inside (i : writer_impl) : Prop := 8 <= wi_offset i <= wi_size i.

Definition writer_ok (i : writer_impl) : Prop :=
  is_u32 (wi_enumerator i) ∧ ((∃ b, live i b ∧ inside i) ∨ idle i).

(** A writer that can never write again until it is initialised anew. *)
Definition dead (i : writer_impl) : Prop :=
  wi_buffer i = None ∧ wi_comp_buf i = None ∧ (wi_failed i = true ∨ wi_initd i = false).

Lemma dead_idle i : dead i → idle i.
Proof. intros (? & ? & [H|H]); split_and!; try done; congruence. Qed.

Lemma zero_writer_ok : writer_ok zero_writer.
Proof. split; [done|]. right. done. Qed.

Lemma writer_init_ok i md : writer_ok (coldtrace_writer_init i (Some md)).
Proof. split; [done|]. right. done. Qed.

(** What a live writer's fragment file holds once flushed. *)
Definition fragment_file (i : writer_impl) (b : list Z) : list Z :=
  let payload := slice 8 (wi_offset i - 8) b in
  header_bytes ++ le_bytes 4 (len payload) ++
  LZ4_compress_fast payload (LZ4_compressBound (wi_size i)) LZ4_ACCELERATION.

Lemma fail_dead i : dead (fail_ i).
Proof.
  destruct i as [? ? ? [|] [|] ? ? ? ? ?]; split_and!; simpl; auto.
Qed.

Lemma fail_enumerator i : wi_enumerator (fail_ i) = wi_enumerator i.
Proof. by destruct i as [? ? ? [|] [|] ? ? ? ? ?]. Qed.

Lemma fail_tid i : wi_tid (fail_ i) = wi_tid i.
Proof. by destruct i as [? ? ? [|] [|] ? ? ? ? ?]. Qed.

Lemma store_prefix (l bs : list Z) :
  len bs <= len l → store l 0 bs = Some (bs ++ drop (length bs) l).
Proof.
  intros H. rewrite <- (take_drop (length bs) l) at 1.
  apply store_here; [done|]. llia.
Qed.

Lemma len_header : len header_bytes = 8.
Proof. done. Qed.

(** The bytes [flush_] prepares in the compression buffer. *)
Lemma comp_buf_stores cb raw out :
  FRAG_HDR_SIZE + len out <= len cb →
  ∃ cb1 cb2 cb3,
    store cb 0 header_bytes = Some cb1 ∧
    store32 cb1 sizeof_version_header raw = Some cb2 ∧
    store cb2 FRAG_HDR_SIZE out = Some cb3 ∧
    len cb3 = len cb ∧
    take (Z.to_nat (FRAG_HDR_SIZE + len out)) cb3 = header_bytes ++ le_bytes 4 raw ++ out.
Proof.
  unfold FRAG_HDR_SIZE, sizeof_version_header, store32. intros H.
  pose proof len_header as Hh.
  rewrite store_prefix by lia. eexists _, _, _. split; [done|].
  rewrite store_skip by lia. rewrite Hh. simpl.
  rewrite store_prefix by llia. simpl. split; [done|].
  rewrite store_skip by lia. rewrite store_skip by llia.
  rewrite store_prefix by llia. simpl. split; [done|]. split; [llia|].
  rewrite app_assoc, app_assoc. rewrite <- (app_assoc header_bytes).
  rewrite take_app_length'; [done|llia].
Qed.

Context `{!Lz4Laws L}.

Lemma open_trunc_spec w name r w' :
  open_trunc w name = (r, w') →
  w_closed w' = w_closed w ∧
  match r with
  | SOk _ => w_fs w' = <[name := Reg []]> (w_fs w)
  | SErr _ => w_fs w' = w_fs w
  end.
Proof.
  unfold open_trunc. destruct (next_fault w) as [f w1] eqn:E.
  apply next_fault_cases in E as (Hfs & Hc & _).
  destruct f; try (intros; simplify_eq; done);
    destruct (w_fs w1 !! name) as [[]|]; intros; simplify_eq; simpl; rewrite ?Hfs; done.
Qed.

(** Flushing a live writer always returns.  The hook sees the page; then either
    the fragment file is complete and only the compression buffer has changed,
    or the writer is dead; no other file is touched. *)
Lemma flush_spec c i b w :
  live i b → inside i → pattern_ok c →
  ∃ i' w', flush_ c i w = Ret (i', w') ∧
    w_closed w' = w_closed w ++ [CloseCall b (wi_offset i) (wi_md i)] ∧
    let name := name_of (path_ c) (wi_tid i) (wi_enumerator i) in
    (∀ k, k ≠ name → w_fs w' !! k = w_fs w !! k) ∧
    ((∃ cb, i' = set_comp_buf (Some cb) i ∧
            len cb = FRAG_HDR_SIZE + LZ4_compressBound (wi_size i) ∧
            w_fs w' !! name = Some (Reg (fragment_file i b)))
     ∨ (dead i' ∧ wi_enumerator i' = wi_enumerator i ∧ wi_failed i' = true ∧
      (w_fs w' !! name = None ∨ w_fs w' !! name = w_fs w !! name))).
Proof.
  intros (Hb & _ & _ & Hm & Hlen & Hsz & _ & cb & Hcb & Hlcb) Hin Hp.
  unfold inside in Hin. unfold flush_. rewrite Hb, Hm, Hcb. cbn [negb].
  assert (0 <= wi_offset i - 8 < 2 ^ 31) as Hraw by (unfold LZ4_MAX_INPUT_SIZE in *; lia).
  assert (u64 (wi_offset i - sizeof_version_header) = wi_offset i - 8) as ->.
  { unfold sizeof_version_header. apply u64_id. ulia. }
  rewrite (i32_id (wi_offset i - 8)) by lia.
  rewrite (i32_id (wi_size i)) by (unfold LZ4_MAX_INPUT_SIZE in *; lia).
  destruct (Z.ltb_spec (wi_offset i - 8) 0); [lia|].
  assert (in_range b sizeof_version_header (wi_offset i - 8) = true) as ->.
  { apply in_range_spec. unfold sizeof_version_header. lia. }
  set (payload := slice sizeof_version_header (wi_offset i - 8) b).
  assert (len payload = wi_offset i - 8) as Hpl.
  { apply length_slice; unfold sizeof_version_header; lia. }
  set (out := LZ4_compress_fast payload (LZ4_compressBound (wi_size i)) LZ4_ACCELERATION).
  assert (out ≠ []) as Hout.
  { apply lz4_succeeds; [lia|]. apply compressBound_mono; lia. }
  assert (0 < len out <= LZ4_compressBound (wi_size i)) as Hol.
  { split; [destruct out; [done|simpl; lia]|]. apply lz4_fits.
    rewrite compressBound_spec by lia. pose proof (Z.div_pos (wi_size i) 255). lia. }
  destruct (comp_buf_stores cb (u32 (wi_offset i - 8)) out) as (c1 & c2 & c3 & E1 & E2 & E3 & Hl3 & Ht);
    [lia|].
  rewrite E1; simpl. rewrite E2; simpl. fold out. rewrite E3; simpl.
  destruct (Z.leb_spec (len out) 0); [lia|].
  rewrite fragment_name_spec by done. simpl.
  set (name := name_of (path_ c) (wi_tid i) (wi_enumerator i)).
  destruct (open_trunc _ name) as [r w1] eqn:Eo. apply open_trunc_spec in Eo as [Hc1 Hfs1].
  simpl in Hc1, Hfs1.
  assert (dead (fail_ (set_comp_buf (Some c3) i)) ∧
    wi_enumerator (fail_ (set_comp_buf (Some c3) i)) = wi_enumerator i ∧
    wi_failed (fail_ (set_comp_buf (Some c3) i)) = true) as Hdead.
  { rewrite fail_enumerator. split_and!; [apply fail_dead|done|done]. }
  destruct r as [u|e].
  2: { eexists _, _. split; [done|]. split; [done|]. split; [by rewrite Hfs1|]. right.
       do 2 (split; [apply Hdead|]). split; [apply Hdead|]. right. by rewrite Hfs1. }
  rewrite Ht.
  assert (w_fs w1 !! name = Some (Reg [])) as Hn1 by (by rewrite Hfs1, lookup_insert_eq).
  destruct (write_all_spec w1 name (header_bytes ++ le_bytes 4 (u32 (wi_offset i - 8)) ++ out) [] Hn1)
    as (ok & w2 & k & -> & Hc2 & Hk & Hfs2 & Hok). simpl.
  destruct ok; simpl.
  - eexists _, _. split; [done|]. split; [congruence|]. split.
    + intros k' Hk'. by rewrite Hfs2, lookup_insert_ne, Hfs1, lookup_insert_ne.
    + left. exists c3. split_and!; [done|lia|]. rewrite Hfs2, lookup_insert_eq. do 2 f_equal.
      rewrite Hok, take_ge by done. simpl. unfold fragment_file.
      change (slice 8 (wi_offset i - 8) b) with payload. cbv zeta. rewrite Hpl, u32_id by ulia. done.
  - eexists _, _. split; [done|]. split; [simpl; congruence|]. split.
    2: { right. do 2 (split; [apply Hdead|]). split; [apply Hdead|]. left. apply lookup_delete_eq. }
    intros k' Hk'. simpl. by rewrite lookup_delete_ne, Hfs2, lookup_insert_ne, Hfs1, lookup_insert_ne.
Qed.

(** A live writer at the start of a fragment. *)
Definition fresh (i : writer_impl) : Prop := ∃ b, live i b ∧ wi_offset i = 8.

Lemma begin_fragment_spec i b :
  wi_buffer i = Some b → 8 <= len b →
  begin_fragment_ i =
    Ret (set_offset 8 (set_buffer (Some (header_bytes ++ drop 8 b)) i)).
Proof.
  intros Hb Hl. unfold begin_fragment_. rewrite Hb.
  rewrite store_prefix by (rewrite len_header; lia). done.
Qed.

(** Fragments as byte strings: those handed to the close hook, which are empty
    if the hook is given a size that exceeds the page, and the one being
    collected. *)
Definition in_page (cl : close_call) : bool :=
  (0 <=? cl_size cl) && (cl_size cl <=? len (cl_page cl)) && (cl_size cl <? 2 ^ 63).

Definition closed_frags (w : world) : list (list Z) :=
  (fun cl => if in_page cl then take (Z.to_nat (cl_size cl)) (cl_page cl) else []) <$> w_closed w.

Definition pending (i : writer_impl) : list (list Z) :=
  match wi_buffer i with
  | Some b => [take (Z.to_nat (wi_offset i)) b]
  | None => []
  end.

(** The size of the buffer the next entry will go to. *)
Definition buf_size (c : config) (i : writer_impl) : Z :=
  match wi_buffer i with Some _ => wi_size i | None => coldtrace_get_trace_size c end.

Definition config_ok (c : config) : Prop :=
  disable_writes_ c = false ∧ pattern_ok c ∧ is_u32 (max_file_count_ c) ∧ max_file_count_ c ≠ 0.

Lemma closed_frags_snoc i b w w' md :
  live i b → inside i → w_closed w' = w_closed w ++ [CloseCall b (wi_offset i) md] →
  closed_frags w' = closed_frags w ++ [take (Z.to_nat (wi_offset i)) b].
Proof.
  intros (_ & _ & _ & _ & Hl & Hsz & _) Hin H. unfold closed_frags. rewrite H, fmap_app. f_equal. cbn [fmap list_fmap].
  unfold inside, LZ4_MAX_INPUT_SIZE in *.
  assert (in_page (CloseCall b (wi_offset i) md) = true) as ->; [|done]. unfold in_page. simpl.
  rewrite !andb_true_iff, !Z.leb_le, Z.ltb_lt. lia.
Qed.

Lemma new_trace_spec c i b w :
  live i b → inside i → is_u32 (wi_enumerator i) → config_ok c →
  ∃ i' w', new_trace_ junk c i w = Ret (i', w') ∧
    closed_frags w' = closed_frags w ++ pending i ∧ is_u32 (wi_enumerator i') ∧
    (fresh i' ∧ wi_size i' = wi_size i ∨ dead i').
Proof.
  intros Hl Hin He (Hdis & Hp & Hmax & Hm0). unfold new_trace_.
  destruct (flush_spec c i b w Hl Hin Hp) as (i1 & w1 & -> & Hc & _ & Hcase). simpl.
  apply (closed_frags_snoc i b) in Hc; [|done..]. destruct Hl as (Hb & Hi & Hf & Hm & Hlen & Hsz & Hh & cb & Hcb & Hlcb).
  unfold pending. rewrite Hb.
  destruct Hcase as [(cb' & -> & Hlcb' & _)|(Hdead & He' & _)].
  - simpl. rewrite Hb. unfold advance_fragment_. simpl. rewrite Hm. simpl.
    unfold coldtrace_get_max. destruct (Z.eqb_spec (max_file_count_ c) 0); [done|]. simpl.
    rewrite (begin_fragment_spec _ b) by (done || lia). simpl.
    eexists _, _. split; [done|]. split; [done|]. simpl. split.
    { pose proof (Z.mod_pos_bound (u32 (wi_enumerator i + 1)) (max_file_count_ c)). ulia. }
    left. split; [|done]. exists (header_bytes ++ drop 8 b). split; [|done].
    repeat split; simpl; try done; try llia.
    by exists cb'.
  - destruct Hdead as (Hnb & Hd2). rewrite Hnb. eexists _, _. split; [done|]. split; [done|].
    rewrite He'. split; [done|]. right. by split.
Qed.

Lemma attempt_spec w ok w' :
  attempt w = (ok, w') → w_fs w' = w_fs w ∧ w_closed w' = w_closed w ∧
    (length (w_faults w') ≤ length (w_faults w))%nat.
Proof.
  unfold attempt. destruct (next_fault w) as [f w1] eqn:E.
  apply next_fault_cases in E as (? & ? & Hcase).
  assert (length (w_faults w1) ≤ length (w_faults w))%nat.
  { destruct Hcase as [[_ ->]|Hc]; [done|]. rewrite Hc. simpl. lia. }
  destruct f; intros; simplify_eq; done.
Qed.

Lemma length_uninit n : 0 <= n → len (uninit junk n) = n.
Proof. intros. unfold uninit. rewrite length_fmap, length_seq. lia. Qed.

Lemma closed_frags_eq w w' : w_closed w' = w_closed w → closed_frags w' = closed_frags w.
Proof. unfold closed_frags. by intros ->. Qed.

(** Acquiring the buffer: a live writer is left alone, an idle one becomes
    fresh with a buffer of the configured size or can no longer be used. *)
Lemma ensure_buffer_spec c i w ok i' w' :
  writer_ok i → config_ok c →
  ensure_buffer_ junk c i w = Ret (ok, i', w') →
  w_closed w' = w_closed w ∧ is_u32 (wi_enumerator i') ∧
  if ok then (i' = i ∧ w' = w ∧ ∃ b, live i b ∧ inside i)
          ∨ (idle i ∧ wi_size i = 0 ∧ wi_offset i = 0 ∧
             fresh i' ∧ wi_size i' = coldtrace_get_trace_size c)
  else dead i' ∧ pending i = [].
Proof.
  intros [He Hok] (Hdis & Hp & _ & _) H. unfold ensure_buffer_ in H.
  destruct (wi_initd i) eqn:Hi; simpl in H.
  2: { destruct Hok as [(b & (? & ? & _) & _)|(Hb & Hcb & _)]; [congruence|].
       assert (dead i) by (repeat split; auto). simplify_eq.
       do 3 (split; [done|]). unfold pending. by rewrite Hb. }
  destruct (wi_failed i) eqn:Hf.
  { destruct Hok as [(b & (? & ? & ? & _) & _)|(Hb & Hcb & _)]; [congruence|].
    assert (dead i) by (repeat split; auto). simplify_eq.
    do 3 (split; [done|]). unfold pending. by rewrite Hb. }
  destruct Hok as [(b & Hl & Hin)|Hidle].
  { pose proof Hl as (Hb & _). rewrite Hb in H. simplify_eq. split_and!; try done. left. eauto. }
  pose proof Hidle as (Hb & Hcb & Hz). destruct (Hz Hi Hf) as [Hz1 Hz2].
  rewrite Hb in H. unfold pending. rewrite Hb.
  unfold coldtrace_writes_disabled in H. rewrite Hdis in H. cbn [negb] in H.
  cbn [wi_size set_enumerator set_offset set_size] in H.
  destruct (validate_trace_size_ (coldtrace_get_trace_size c) true) eqn:Hv; cbn [negb] in H.
  2: { simplify_eq. do 2 (split; [done|]). split; [|done]. repeat split; simpl; auto. }
  assert (8 <= coldtrace_get_trace_size c <= LZ4_MAX_INPUT_SIZE) as Hsz.
  { unfold validate_trace_size_, sizeof_version_header in Hv.
    destruct (Z.ltb_spec (coldtrace_get_trace_size c) 8); [done|]. cbn [andb] in Hv.
    destruct (Z.ltb_spec LZ4_MAX_INPUT_SIZE (coldtrace_get_trace_size c)); [done|lia]. }
  destruct (attempt w) as [ok1 w1] eqn:E1. apply attempt_spec in E1 as (_ & Hc1 & _).
  destruct ok1; cbn [negb] in H.
  2: { simplify_eq. do 2 (split; [done|]). split; [|done]. repeat split; simpl; auto. }
  destruct (attempt w1) as [ok2 w2] eqn:E2. apply attempt_spec in E2 as (_ & Hc2 & _).
  destruct ok2; cbn [negb] in H.
  2: { simplify_eq. split; [congruence|]. split; [by rewrite fail_enumerator|].
       split; [apply fail_dead|done]. }
  inv_outcome.
  match goal with E : first_fragment_ _ _ _ = Ret (?k, _, _) |- _ =>
    apply first_fragment_loop_post in E as (Hc3 & (e & He' & ->) & _); [destruct k|done|done] end;
    cbn [negb] in H; inv_outcome.
  2: { split; [congruence|]. split; [done|]. split; [apply fail_dead|done]. }
  match goal with E : begin_fragment_ _ = Ret _ |- _ =>
    erewrite begin_fragment_spec in E; [|reflexivity|llia] end.
  simplify_eq. simpl. split_and!; [congruence|done|]. right. split_and!; try done.
  eexists. split; [|done].
  repeat split; simpl; try done; try lia; try llia.
  eexists. split; [done|]. rewrite i32_id by (unfold LZ4_MAX_INPUT_SIZE in *; lia).
  apply length_uninit. rewrite compressBound_spec by lia. unfold FRAG_HDR_SIZE, sizeof_version_header.
  pose proof (Z.div_pos (coldtrace_get_trace_size c) 255). lia.
Qed.

(** Fragments without entries that a reservation may leave behind. *)
Definition only_headers (extra : list (list Z)) : Prop :=
  extra = [] ∨ extra = [header_bytes].

Lemma live_set_offset i b x : live i b → live (set_offset x i) b.
Proof. done. Qed.

Lemma fresh_inside i b : live i b → wi_offset i = 8 → inside i.
Proof. intros (_ & _ & _ & _ & _ & ? & _) ?. unfold inside. lia. Qed.

Lemma fresh_pending i b : live i b → wi_offset i = 8 → pending i = [header_bytes].
Proof.
  intros (Hb & _ & _ & _ & _ & _ & Hh & _) Ho. unfold pending. by rewrite Hb, Ho, <- Hh.
Qed.

(** Reserving [n] bytes: the pointer continues the current fragment when
    [coldtrace_writer_new_trace] says so, and is the first position of a new
    fragment otherwise; the fragment left behind goes to the close hook. *)
Lemma reserve_spec c i w n r i' w' :
  writer_ok i → config_ok c →
  coldtrace_writer_reserve junk c i w n = Ret (r, i', w') →
  is_u32 (wi_enumerator i') ∧
  match r with
  | None => dead i' ∧ ∃ extra, only_headers extra ∧
      closed_frags w' = closed_frags w ++ pending i ++ extra
  | Some p =>
      wi_offset i' = u64 (p + n) ∧ wi_size i' = buf_size c i ∧
      ∃ b', live i' b' ∧
      ((coldtrace_writer_new_trace c i n = false ∧ wi_buffer i = Some b' ∧
        p = wi_offset i ∧ closed_frags w' = closed_frags w)
       ∨ ((coldtrace_writer_new_trace c i n = true ∨ wi_size i = 0 ∧ wi_offset i = 0) ∧
          p = 8 ∧ ∃ extra, only_headers extra ∧
          closed_frags w' = closed_frags w ++ pending i ++ extra))
  end.
Proof.
  intros Hok Hc H. unfold coldtrace_writer_reserve in H. inv_outcome.
  match goal with E : ensure_buffer_ _ _ _ _ = Ret (?k, ?j, ?v) |- _ =>
    apply ensure_buffer_spec in E as (Hcl & He & Hcase); [|done|done];
    destruct k; rename j into i1; rename v into w1 end; cbn [negb] in H; inv_outcome.
  2: { destruct Hcase as [Hd Hpend]. split; [done|]. split; [done|]. exists [].
       split; [by left|]. rewrite Hpend, !app_nil_r. by apply closed_frags_eq. }
  assert (∃ b, live i1 b ∧ inside i1 ∧ buf_size c i = wi_size i1 ∧
    ((i1 = i ∧ w1 = w) ∨ (wi_size i = 0 ∧ wi_offset i = 0 ∧ wi_offset i1 = 8 ∧ pending i = [])))
    as (b & Hl & Hin & Hsz & Hprov).
  { destruct Hcase as [(-> & -> & b & Hl & Hin)|((Hb & _) & ? & ? & (b & Hl & Ho) & Hs)].
    - exists b. pose proof Hl as (Hb & _). unfold buf_size. rewrite Hb. auto 6.
    - exists b. unfold buf_size, pending. rewrite Hb. split_and!; try done.
      + by apply (fresh_inside _ b).
      + right. done. }
  destruct (coldtrace_writer_new_trace c i1 n) eqn:Hnt.
  - destruct (new_trace_spec c i1 b w1 Hl Hin He Hc) as (ia & wa & E2 & Hcl2 & He2 & Hres).
    rewrite E2 in *. inv_outcome.
    assert (∃ extra, only_headers extra ∧ closed_frags w2 = closed_frags w ++ pending i ++ extra)
      as Hextra.
    { rewrite Hcl2. destruct Hprov as [[-> ->]|(_ & _ & Ho & Hpend)].
      - exists []. split; [by left|]. by rewrite app_nil_r.
      - exists [header_bytes]. split; [by right|]. rewrite Hpend, (fresh_pending _ b) by done.
        f_equal. by apply closed_frags_eq. }
    assert (coldtrace_writer_new_trace c i n = true ∨ wi_size i = 0 ∧ wi_offset i = 0) as Hnt'.
    { destruct Hprov as [[-> _]|(? & ? & _)]; auto. }
    destruct Hres as [[(b2 & Hl2 & Ho2) Hs2]|Hdead].
    + pose proof Hl2 as (Hb2 & _). rewrite Hb2 in H. simplify_eq. split; [done|].
      simpl. rewrite Ho2. split; [done|]. split; [congruence|].
      exists b2. split; [done|]. right. done.
    + pose proof Hdead as (Hb2 & _). rewrite Hb2 in H. simplify_eq. split; [done|]. done.
  - inv_outcome. pose proof Hl as (Hb & _). rewrite Hb in H. simplify_eq.
    split; [done|]. simpl. split; [done|]. split; [done|]. exists b. split; [done|].
    destruct Hprov as [[-> ->]|(Hz1 & Hz2 & Ho & Hpend)].
    + left. done.
    + right. split; [by right|]. split; [done|]. exists []. split; [by left|].
      rewrite Hpend, !app_nil_r. by apply closed_frags_eq.
Qed.

(** ** No undefined behaviour inside the writer *)
Definition world_small (w : world) : Prop :=
  Z.of_nat (size (w_fs w) + length (w_faults w)) < 2 ^ 32.

Lemma ensure_buffer_total c i w :
  writer_ok i → config_ok c → world_small w →
  ∃ ok i' w', ensure_buffer_ junk c i w = Ret (ok, i', w').
Proof.
  intros [He Hok] (Hdis & Hp & _) Hw. unfold ensure_buffer_.
  destruct (wi_initd i), (wi_failed i); simpl; eauto.
  destruct (wi_buffer i) as [b|]; eauto.
  unfold coldtrace_writes_disabled. rewrite Hdis. cbn [negb].
  cbn [wi_size set_enumerator set_offset set_size].
  destruct (validate_trace_size_ (coldtrace_get_trace_size c) true) eqn:Hv; cbn [negb]; eauto.
  destruct (attempt w) as [ok1 w1] eqn:E1. apply attempt_spec in E1 as (Hf1 & _ & Hn1).
  destruct ok1; cbn [negb]; eauto.
  destruct (attempt w1) as [ok2 w2] eqn:E2. apply attempt_spec in E2 as (Hf2 & _ & Hn2).
  destruct ok2; cbn [negb]; eauto.
  match goal with |- context [first_fragment_ c ?j w2] =>
    destruct (first_fragment_returns c j w2) as (ok3 & i3 & w3 & E3); [done|done| |] end.
  { unfold world_small in Hw. rewrite Hf2, Hf1. lia. }
  rewrite E3. simpl. destruct ok3; simpl; eauto.
  apply first_fragment_loop_post in E3 as (_ & (e & _ & ->) & _); [|done|done].
  erewrite begin_fragment_spec; [simpl; eauto|done|].
  unfold validate_trace_size_, sizeof_version_header in Hv.
  destruct (Z.ltb_spec (coldtrace_get_trace_size c) 8); [done|]. llia.
Qed.

Lemma reserve_total c i w n :
  writer_ok i → config_ok c → world_small w →
  ∃ r i' w', coldtrace_writer_reserve junk c i w n = Ret (r, i', w').
Proof.
  intros Hok Hc Hw. unfold coldtrace_writer_reserve.
  destruct (ensure_buffer_total c i w Hok Hc Hw) as (ok & i1 & w1 & E). rewrite E. simpl.
  destruct ok; simpl; eauto.
  apply ensure_buffer_spec in E as (_ & He & Hcase); [|done..].
  assert (∃ b, live i1 b ∧ inside i1) as (b & Hl & Hin).
  { destruct Hcase as [(-> & -> & ?)|(_ & _ & _ & (b & Hl & Ho) & _)]; [done|].
    eauto using fresh_inside. }
  destruct (coldtrace_writer_new_trace c i1 n); simpl.
  - destruct (new_trace_spec c i1 b w1 Hl Hin He Hc) as (i2 & w2 & -> & _). simpl.
    destruct (wi_buffer i2); eauto.
  - destruct (wi_buffer i1); eauto.
Qed.

(** Finishing: the partial fragment is flushed and everything is released. *)
Lemma writer_fini_spec c i w :
  writer_ok i → config_ok c →
  ∃ i' w', coldtrace_writer_fini c i w = Ret (i', w') ∧ dead i' ∧ is_u32 (wi_enumerator i') ∧
    closed_frags w' = closed_frags w ++ pending i.
Proof.
  intros [He Hok] (Hdis & Hp & _). unfold coldtrace_writer_fini.
  destruct (wi_initd i) eqn:Hi; simpl.
  2: { destruct Hok as [(b & (? & ? & _) & _)|(Hb & Hcb & _)]; [congruence|].
       eexists _, _. split; [done|]. split; [by repeat split; auto|]. split; [done|].
       unfold pending. by rewrite Hb, app_nil_r. }
  assert (∀ j, dead (set_initd false (release_buffers_ j))) as Hd.
  { intros [? ? ? [|] [|] ? ? ? ? ?]; repeat split; simpl; auto. }
  assert (∀ j, wi_enumerator (set_initd false (release_buffers_ j)) = wi_enumerator j) as He'.
  { by intros [? ? ? [|] [|] ? ? ? ? ?]. }
  destruct Hok as [(b & Hl & Hin)|(Hb & Hcb & _)].
  - pose proof Hl as (Hb & _). rewrite Hb.
    destruct (flush_spec c i b w Hl Hin Hp) as (i1 & w1 & -> & Hcl & _ & Hcase). simpl.
    eexists _, _. split; [done|]. split; [done|]. rewrite He'. split.
    + by destruct Hcase as [(? & -> & _)|(_ & -> & _)].
    + unfold pending. rewrite Hb. by apply (closed_frags_snoc i b) in Hcl.
  - rewrite Hb. simpl. eexists _, _. split; [done|]. split; [done|]. rewrite He'. split; [done|].
    unfold pending. by rewrite Hb, app_nil_r.
Qed.

End WriterProofs.
