(* ===== verification/Quiet.v ===== *)
(** * The writer when writing is disabled (src/writer.c)

    Without a usable COLDTRACE_PATH the tracer still records, so that its cost and
    its hooks can be tested, but into a buffer from the memory pool that is reused
    for every fragment.  The size of the fragments may be changed while a thread
    records; the buffer follows at the next fragment if it can be allocated. *)

From stdpp Require Import base list numbers strings gmap.
From Stdlib Require Import ZArith Lia.
From S2P Require Import Prelude Version Entries Libc Utils Config Codec Lz4 Writer.

(** The calls of a thread on its writer, each with the configuration of the moment. *)
Inductive wcall :=
| WInit (md : Z)
| WReserve (c : config) (size : Z)
| WFini (c : config).

(** A reservation that was granted: pointer, size, and the size of the buffer. *)
Definition grant : Type := Z * Z * Z.

Section Quiet.
Context `{B : BuildInfo, L : Lz4} (junk : nat → Z).

Definition wexec (o : wcall) (i : writer_impl) (w : world) : outcome (list grant * writer_impl * world) :=
  match o with
  | WInit md => Ret ([], coldtrace_writer_init i (Some md), w)
  | WReserve c size =>
      let! (r, w) := coldtrace_writer_reserve junk c i w size in
      let '(p, i) := r in
      Ret (match p, wi_buffer i with Some p, Some b => [(p, size, len b)] | _, _ => [] end, i, w)
  | WFini c => let! (i, w) := coldtrace_writer_fini c i w in Ret ([], i, w)
  end.

Fixpoint wrun (os : list wcall) (i : writer_impl) (w : world) : outcome (list grant * writer_impl * world) :=
  match os with
  | [] => Ret ([], i, w)
  | o :: os =>
      let! (r, w) := wexec o i w in
      let '(gs, i) := r in
      let! (r, w) := wrun os i w in
      let '(gs', i) := r in
      Ret (gs ++ gs', i, w)
  end.

(** Every size in use is at least [S] and every entry fits [S]. *)
Definition wcall_ok (S : Z) (o : wcall) : Prop :=
  match o with
  | WInit _ => True
  | WReserve c size =>
      coldtrace_writes_disabled c = true ∧ S <= coldtrace_get_trace_size c < 2 ^ 62 ∧
      0 < size ∧ sizeof_version_header + size <= S
  | WFini c => coldtrace_writes_disabled c = true
  end.

Definition granted_ok (g : grant) : Prop :=
  let '(p, size, n) := g in sizeof_version_header <= p ∧ p + size <= n.

(** The invariant: no buffer, or one of the pool with its header and the offset inside. *)
Definition quiet (S : Z) (i : writer_impl) : Prop :=
  wi_mmapped i = false ∧ wi_comp_buf i = None ∧
  match wi_buffer i with
  | None => True
  | Some b => len b = wi_size i ∧ S <= wi_size i < 2 ^ 62 ∧ 8 <= wi_offset i <= wi_size i
  end.

(** What a step may do to the world: no file changes, and pages are closed inside
    their buffer. *)
Definition silent (w w' : world) : Prop :=
  w_fs w' = w_fs w ∧ ∃ ext, w_closed w' = w_closed w ++ ext ∧ Forall (fun cl => in_page cl = true) ext.

Lemma silent_refl w : silent w w.
Proof. split; [done|]. exists []. by rewrite app_nil_r. Qed.

Lemma silent_trans a b d : silent a b → silent b d → silent a d.
Proof.
  intros [F1 (e1 & C1 & P1)] [F2 (e2 & C2 & P2)]. split; [congruence|]. exists (e1 ++ e2).
  split; [by rewrite C2, C1, app_assoc|by apply Forall_app].
Qed.

Lemma attempt_silent w ok w' : attempt w = (ok, w') → silent w w'.
Proof. intros (Hf & Hc & _)%attempt_spec. split; [done|]. exists []. by rewrite app_nil_r. Qed.

Lemma begin_quiet S i b :
  wi_buffer i = Some b → 8 <= len b → len b = wi_size i → S <= wi_size i < 2 ^ 62 →
  wi_mmapped i = false → wi_comp_buf i = None →
  ∃ i', begin_fragment_ i = Ret i' ∧ quiet S i' ∧ is_Some (wi_buffer i') ∧ wi_offset i' = 8 ∧
    wi_size i' = wi_size i ∧ wi_initd i' = wi_initd i.
Proof.
  intros Hb H8 Hl HS Hm Hcb. unfold begin_fragment_. rewrite Hb. unfold store. pose proof len_header as Hh.
  assert (in_range b 0 (len header_bytes) = true) as -> by (apply in_range_spec; lia).
  eexists. split; [done|]. split; [|by eauto]. split; [done|]. split; [done|]. simpl.
  split; [llia|]. split; [done|]. unfold sizeof_version_header. lia.
Qed.

Lemma flush_quiet S c i b w :
  quiet S i → wi_buffer i = Some b → ∃ w', flush_ c i w = Ret (i, w') ∧ silent w w'.
Proof.
  intros (Hm & _ & Hb) E. rewrite E in Hb. unfold flush_. rewrite E, Hm. simpl. eexists. split; [done|].
  split; [done|]. eexists. split; [done|]. constructor; [|constructor]. unfold in_page. simpl.
  rewrite !andb_true_iff, !Z.leb_le, Z.ltb_lt. lia.
Qed.

Lemma valid_size S c :
  8 <= S → S <= coldtrace_get_trace_size c →
  validate_trace_size_ (coldtrace_get_trace_size c) false = true.
Proof.
  intros H8 HS. unfold validate_trace_size_, sizeof_version_header.
  destruct (Z.ltb_spec (coldtrace_get_trace_size c) 8); [lia|]. done.
Qed.

Lemma ensure_quiet S c i w :
  8 <= S → quiet S i → coldtrace_writes_disabled c = true → S <= coldtrace_get_trace_size c < 2 ^ 62 →
  ∃ ok i' w', ensure_buffer_ junk c i w = Ret (ok, i', w') ∧ silent w w' ∧ quiet S i' ∧
    (ok = true → is_Some (wi_buffer i')).
Proof.
  intros H8 Hq Hdis HS. unfold ensure_buffer_. pose proof Hq as (Hm & Hcb & Hb).
  destruct (wi_initd i); cbn [negb]; [|eexists _, _, _; split; [done|]; split; [apply silent_refl|done]].
  destruct (wi_failed i); [eexists _, _, _; split; [done|]; split; [apply silent_refl|done]|].
  destruct (wi_buffer i) as [b|] eqn:E.
  { eexists _, _, _. split; [done|]. split; [apply silent_refl|]. split; [done|]. by rewrite E. }
  rewrite Hdis. cbn [negb wi_size set_size set_offset set_enumerator]. rewrite (valid_size S) by lia. cbn [negb].
  destruct (attempt w) as [ok w1] eqn:Ea. apply attempt_silent in Ea.
  destruct ok; cbn [wi_buffer set_buffer set_mmapped].
  2: { eexists _, _, _. split; [done|]. split; [done|]. by split. }
  match goal with |- context [begin_fragment_ ?j] =>
    destruct (begin_quiet S j (uninit junk (coldtrace_get_trace_size c))) as (i' & -> & Hq' & Hs & _) end;
    simpl; rewrite ?length_uninit; try done; try lia.
  eexists true, _, _. done.
Qed.

(** The next fragment has the new size if a buffer of that size can be had. *)
Lemma new_trace_quiet S c i b w :
  8 <= S → quiet S i → wi_buffer i = Some b → S <= coldtrace_get_trace_size c < 2 ^ 62 →
  ∃ i' w', new_trace_ junk c i w = Ret (i', w') ∧ silent w w' ∧ quiet S i' ∧ is_Some (wi_buffer i') ∧
    wi_offset i' = 8.
Proof.
  intros H8 Hq E HS. destruct (flush_quiet S c i b w Hq E) as (w1 & Ef & Hw1).
  pose proof Hq as (Hm & Hcb & Hb). rewrite E in Hb. destruct Hb as (Hl & Hsz & Hoff).
  unfold new_trace_. rewrite Ef. cbn [obind]. rewrite E. unfold advance_fragment_. rewrite Hm. cbn [negb].
  rewrite (valid_size S) by lia. rewrite andb_true_r.
  assert (∀ j b' w2, wi_buffer j = Some b' → len b' = wi_size j → S <= wi_size j < 2 ^ 62 →
    wi_mmapped j = false → wi_comp_buf j = None → silent w w2 →
    ∃ i' w', (let! (impl, w) := Ret (set_offset 0 j, w2) in let! impl := begin_fragment_ impl in Ret (impl, w))
      = Ret (i', w') ∧ silent w w' ∧ quiet S i' ∧ is_Some (wi_buffer i') ∧ wi_offset i' = 8) as Hfin.
  { intros j b' w2 Hjb Hjl Hjs Hjm Hjc Hs. cbn [obind].
    destruct (begin_quiet S (set_offset 0 j) b') as (i' & -> & Hq' & Hsome & Ho & _); try done; [simpl; lia|].
    by eexists _, _. }
  destruct (negb (wi_size i =? coldtrace_get_trace_size c)).
  - destruct (attempt w1) as [ok w2] eqn:Ea. apply attempt_silent in Ea. destruct ok.
    + eapply Hfin; try done; simpl; [apply length_uninit; lia|by eapply silent_trans].
    + eapply Hfin; try done. by eapply silent_trans.
  - by eapply Hfin.
Qed.

Lemma reserve_quiet S c i w size :
  8 <= S → quiet S i → wcall_ok S (WReserve c size) →
  ∃ gs i' w', wexec (WReserve c size) i w = Ret (gs, i', w') ∧ silent w w' ∧ quiet S i' ∧ Forall granted_ok gs.
Proof.
  intros H8 Hq (Hdis & HS & H0 & Hfit). unfold sizeof_version_header in Hfit. cbn [wexec]. unfold coldtrace_writer_reserve.
  destruct (ensure_quiet S c i w H8 Hq Hdis HS) as (ok & i1 & w1 & -> & Hw1 & Hq1 & Hb1). cbn [obind].
  destruct ok; cbn [negb obind]; [|by eexists _, _, _].
  destruct Hb1 as [b1 E1]; [done|].
  assert (∃ i2 w2, (if coldtrace_writer_new_trace c i1 size then new_trace_ junk c i1 w1 else Ret (i1, w1)) = Ret (i2, w2) ∧
    silent w1 w2 ∧ quiet S i2 ∧ ∃ b2, wi_buffer i2 = Some b2 ∧ wi_offset i2 + size <= len b2 ∧ 8 <= wi_offset i2)
    as (i2 & w2 & -> & Hw2 & Hq2 & b2 & E2 & Hlen & Ho).
  { destruct (coldtrace_writer_new_trace c i1 size) eqn:Ent.
    - destruct (new_trace_quiet S c i1 b1 w1 H8 Hq1 E1 HS) as (i2 & w2 & -> & Hw2 & Hq2 & [b2 E2] & Ho).
      exists i2, w2. do 3 (split; [done|]). exists b2. split; [done|]. destruct Hq2 as (_ & _ & Hb). rewrite E2 in Hb. lia.
    - exists i1, w1. split; [done|]. split; [apply silent_refl|]. split; [done|]. exists b1. split; [done|].
      destruct Hq1 as (_ & _ & Hb). rewrite E1 in Hb. destruct Hb as (Hl & Hsz & Hoff).
      unfold coldtrace_writer_new_trace in Ent. rewrite u64_id in Ent by ulia. apply Z.ltb_ge in Ent.
      destruct (coldtrace_get_trace_size c <? wi_size i1) eqn:El; [apply Z.ltb_lt in El|]; lia. }
  cbn [obind]. rewrite E2. cbn [obind wi_buffer set_offset]. rewrite E2.
  destruct Hq2 as (Hm2 & Hc2 & Hb2). rewrite E2 in Hb2. destruct Hb2 as (Hl2 & Hs2 & Ho2).
  eexists _, _, _. split; [done|]. split; [by eapply silent_trans|]. split.
  - split; [done|]. split; [done|]. simpl. rewrite E2. rewrite u64_id by ulia. lia.
  - constructor; [|constructor]. unfold granted_ok, sizeof_version_header. lia.
Qed.

Lemma wexec_quiet S o i w :
  8 <= S → quiet S i → wcall_ok S o →
  ∃ gs i' w', wexec o i w = Ret (gs, i', w') ∧ silent w w' ∧ quiet S i' ∧ Forall granted_ok gs.
Proof.
  intros H8 Hq Ho. destruct o as [md|c size|c]; [|by apply reserve_quiet|].
  - eexists _, _, _. split; [done|]. split; [apply silent_refl|]. by split.
  - cbn [wexec]. unfold coldtrace_writer_fini. destruct (wi_initd i); cbn [negb obind].
    2: { eexists _, _, _. split; [done|]. split; [apply silent_refl|done]. }
    assert (quiet S (set_initd false (release_buffers_ i))) as Hr.
    { destruct Hq as (Hm & Hcb & _). unfold release_buffers_. destruct (wi_buffer i) eqn:E; simpl; rewrite Hcb; simpl;
        (split; [done|]; split; [done|]); simpl; [done|by rewrite E]. }
    destruct (wi_buffer i) as [b|] eqn:E; cbn [obind].
    + destruct (flush_quiet S c i b w Hq E) as (w1 & -> & Hw1). cbn [obind]. by eexists _, _, _.
    + eexists _, _, _. split; [done|]. split; [apply silent_refl|done].
Qed.

(** C23: recording without a trace directory is harmless.  Let a thread initialise,
    use and finish its writer in any order, with writing disabled, with the trace
    size changed between any two calls and with allocations failing or not, as long
    as every size in use has room for a header and the largest entry.  Every call
    returns, no file is created, changed or removed, every pointer that is handed
    out has its bytes inside the buffer, and the close hook only sees pages with
    their true size. *)
Theorem quiet_session S os i w :
  8 <= S → quiet S i → Forall (wcall_ok S) os →
  ∃ gs i' w', wrun os i w = Ret (gs, i', w') ∧ Forall granted_ok gs ∧ w_fs w' = w_fs w ∧
    ∃ ext, w_closed w' = w_closed w ++ ext ∧ Forall (fun cl => in_page cl = true) ext.
Proof.
  intros H8 Hq Hos.
  enough (∃ gs i' w', wrun os i w = Ret (gs, i', w') ∧ Forall granted_ok gs ∧ silent w w') as (gs & i' & w' & H1 & H2 & H3).
  { exists gs, i', w'. by destruct H3. }
  revert i w Hq. induction Hos as [|o os Ho _ IH]; intros i w Hq; cbn [wrun].
  { eexists _, _, _. split; [done|]. split; [constructor|apply silent_refl]. }
  destruct (wexec_quiet S o i w H8 Hq Ho) as (gs & i1 & w1 & -> & Hw1 & Hq1 & Hg1). cbn [obind].
  destruct (IH i1 w1 Hq1) as (gs' & i2 & w2 & -> & Hg2 & Hw2). cbn [obind].
  eexists _, _, _. split; [done|]. split; [by apply Forall_app|by eapply silent_trans].
Qed.
End Quiet.

Section Demo.
#[local] Existing Instance demo_build.

Definition demo_quiet_config (size : Z) : config :=
  coldtrace_disable_writes (coldtrace_set_trace_size demo_config size).

(** The buffer is filled, enlarged, and kept when it cannot be shrunk. *)
Definition demo_quiet_calls : list wcall :=
  [ WInit 3; WReserve (demo_quiet_config 64) 40; WReserve (demo_quiet_config 128) 40;
    WReserve (demo_quiet_config 128) 40; WReserve (demo_quiet_config 80) 56; WFini (demo_quiet_config 80) ].

Lemma quiet_session_witness :
  ∃ gs i' w', wrun (fun _ => 0) demo_quiet_calls (Writer false false false None None 0 0 0 0 None)
      (World demo_fs [Succeed; Succeed; Fail 12] []) = Ret (gs, i', w') ∧
    gs = [(8, 40, 64); (8, 40, 128); (48, 40, 128); (8, 56, 128)] ∧ Forall granted_ok gs ∧ w_fs w' = demo_fs.
Proof.
  destruct (quiet_session (fun _ => 0) 64 demo_quiet_calls (Writer false false false None None 0 0 0 0 None)
    (World demo_fs [Succeed; Succeed; Fail 12] [])) as (gs & i' & w' & E & Hg & Hfs & _).
  - lia.
  - repeat split.
  - repeat apply Forall_cons_2; try apply Forall_nil_2; vm_compute; repeat split; congruence.
  - exists gs, i', w'. split; [exact E|]. split; [|split; [exact Hg|exact Hfs]].
    vm_compute in E. injection E as <- _ _. reflexivity.
Defined.
End Demo.
