(* ===== verification/Thread.v ===== *)
(** * Per-thread tracing state (src/thread.c, include/coldtrace/thread.h)

    A traced thread owns a writer and a shadow call stack.  An entry that
    carries a stack stores only the frames above [stack_bottom], the part of the
    stack the previous such entry of the fragment already holds. *)

From stdpp Require Import base list numbers strings gmap.
From Stdlib Require Import ZArith Lia.
From S2P Require Import Prelude Version Entries Libc Config Codec Lz4 Writer.

Definition INITIAL_STACK_CAPACITY : Z := 16.

Record coldtrace_thread := Thread {
  th_writer : writer_impl;
  th_initd : bool;
  th_failed : bool;
  th_stack_bottom : Z;
  th_stack : option (list Z);
  th_stack_size : Z;
  th_stack_capacity : Z;
  th_created_thread_idx : Z;
}.

Definition set_writer x t := Thread x (th_initd t) (th_failed t) (th_stack_bottom t)
  (th_stack t) (th_stack_size t) (th_stack_capacity t) (th_created_thread_idx t).
Definition set_th_initd x t := Thread (th_writer t) x (th_failed t) (th_stack_bottom t)
  (th_stack t) (th_stack_size t) (th_stack_capacity t) (th_created_thread_idx t).
Definition set_th_failed x t := Thread (th_writer t) (th_initd t) x (th_stack_bottom t)
  (th_stack t) (th_stack_size t) (th_stack_capacity t) (th_created_thread_idx t).
Definition set_stack_bottom x t := Thread (th_writer t) (th_initd t) (th_failed t) x
  (th_stack t) (th_stack_size t) (th_stack_capacity t) (th_created_thread_idx t).
Definition set_stack x t := Thread (th_writer t) (th_initd t) (th_failed t) (th_stack_bottom t)
  x (th_stack_size t) (th_stack_capacity t) (th_created_thread_idx t).
Definition set_stack_size x t := Thread (th_writer t) (th_initd t) (th_failed t)
  (th_stack_bottom t) (th_stack t) x (th_stack_capacity t) (th_created_thread_idx t).
Definition set_stack_capacity x t := Thread (th_writer t) (th_initd t) (th_failed t)
  (th_stack_bottom t) (th_stack t) (th_stack_size t) x (th_created_thread_idx t).
Definition set_created_thread_idx x t := Thread (th_writer t) (th_initd t) (th_failed t)
  (th_stack_bottom t) (th_stack t) (th_stack_size t) (th_stack_capacity t) x.

(** The zero-filled thread-local object. *)
Definition zero_thread : coldtrace_thread :=
  Thread zero_writer false false 0 None 0 0 0.

Section Thread.
Context `{B : BuildInfo, L : Lz4} (junk : nat → Z).

(** [get_coldtrace_thread]: [th] is the object [SELF_TLS] returns. *)
Definition get_coldtrace_thread (md : Z) (th : coldtrace_thread) : coldtrace_thread :=
  if negb (th_initd th)
  then set_th_initd true (set_writer (coldtrace_writer_init (th_writer th) (Some md)) th)
  else th.

(** [realloc] keeps the old contents; what it adds is uninitialised. *)
Definition grow_stack_ (th : coldtrace_thread) (w : world) : bool * coldtrace_thread * world :=
  let new_capacity :=
    if th_stack_capacity th =? 0 then INITIAL_STACK_CAPACITY
    else u32 (th_stack_capacity th * 2) in
  let '(ok, w) := attempt w in
  if negb ok then (false, set_th_failed true th, w)
  else
    let stack := take (Z.to_nat new_capacity)
      (default [] (th_stack th) ++ (junk <$> seq 0 (Z.to_nat new_capacity))) in
    (true, set_stack_capacity new_capacity (set_stack (Some stack) th), w).

(** The entry is written through [e], so the stores go to the writer's buffer. *)
Definition entry_store (th : coldtrace_thread) (off : Z) (bs : list Z) :
    outcome coldtrace_thread :=
  match wi_buffer (th_writer th) with
  | None => Undef NullDeref
  | Some buf =>
      let! buf := or_undef OutOfBounds (store buf off bs) in
      Ret (set_writer (set_buffer (Some buf) (th_writer th)) th)
  end.

(** [coldtrace_memcpy(s->diff, stack_base + stack_bot, stack_size)] *)
Definition read_stack (th : coldtrace_thread) (bot n : Z) : outcome (list Z) :=
  match th_stack th with
  | None => Undef NullDeref
  | Some arr => or_undef OutOfBounds (if in_range arr bot n then Some (slice bot n arr) else None)
  end.

(** The branch of [coldtrace_thread_append] for entries without a stack. *)
Definition append_plain (c : config) (th : coldtrace_thread) (w : world) (len_ type ptr : Z) :
    outcome (option Z * coldtrace_thread * world) :=
  let th := if coldtrace_writer_new_trace c (th_writer th) len_
            then set_stack_bottom 0 th else th in
  let! (r, w) := coldtrace_writer_reserve junk c (th_writer th) w len_ in
  let '(entry, wr) := r in
  let th := set_writer wr th in
  match entry with
  | None => Ret (None, th, w)
  | Some e =>
      let! th := entry_store th e (le_bytes 8 (coldtrace_entry_init type ptr)) in
      Ret (Some e, th, w)
  end.

(** The branch for entries with a stack diff. *)
Definition append_stack (c : config) (th : coldtrace_thread) (w : world) (len_ type ptr : Z) :
    outcome (option Z * coldtrace_thread * world) :=
  let stack_bot := th_stack_bottom th in
  let stack_top := th_stack_size th in
  let stack_size := u64 (u32 (stack_top - stack_bot) * 8) in
  let '(stack_bot, stack_size) :=
    if coldtrace_writer_new_trace c (th_writer th) (u64 (len_ + stack_size))
    then (0, u64 (stack_top * 8)) else (stack_bot, stack_size) in
  let! (r, w) := coldtrace_writer_reserve junk c (th_writer th) w (u64 (len_ + stack_size)) in
  let '(e, wr) := r in
  let th := set_writer wr th in
  match e with
  | None => Ret (None, th, w)
  | Some e =>
      let! th := entry_store th e (le_bytes 8 (coldtrace_entry_init type ptr)) in
      let buf := e + len_ - sizeof_stack_diff in
      let! th := entry_store th (buf + 4) (le_bytes 4 stack_top) in
      let! th := entry_store th buf (le_bytes 4 stack_bot) in
      let! th :=
        if 0 <? stack_size then
          let! frames := read_stack th stack_bot (stack_size / 8) in
          entry_store th (buf + 8) (words64 frames)
        else Ret th in
      Ret (Some e, set_stack_bottom stack_top th, w)
  end.

Definition coldtrace_thread_append (c : config) (md : Z) (th : coldtrace_thread) (w : world)
    (type ptr : Z) : outcome (option Z * coldtrace_thread * world) :=
  let th := get_coldtrace_thread md th in
  if th_failed th then Ret (None, th, w)
  else
    let! len_ := coldtrace_entry_fixed_size type in
    if len_ =? 0 then Ret (None, th, w)
    else if negb (with_stack_ type) then append_plain c th w len_ type ptr
    else append_stack c th w len_ type ptr.

Definition coldtrace_thread_init (md : Z) (th : coldtrace_thread) : coldtrace_thread :=
  let th := get_coldtrace_thread md th in
  set_writer (coldtrace_writer_init (th_writer th) (Some md)) th.

Definition coldtrace_thread_fini (c : config) (md : Z) (th : coldtrace_thread) (w : world) :
    outcome (coldtrace_thread * world) :=
  let th := get_coldtrace_thread md th in
  let! (wr, w) := coldtrace_writer_fini c (th_writer th) w in
  let th := set_writer wr th in
  Ret (set_stack_bottom 0 (set_stack_capacity 0 (set_stack_size 0 (set_stack None th))), w).

Definition coldtrace_thread_set_create_idx (md : Z) (th : coldtrace_thread) (idx : Z) :
    coldtrace_thread :=
  set_created_thread_idx idx (get_coldtrace_thread md th).

Definition coldtrace_thread_get_create_idx (md : Z) (th : coldtrace_thread) :
    Z * coldtrace_thread :=
  let th := get_coldtrace_thread md th in (th_created_thread_idx th, th).

Definition coldtrace_thread_stack_push (md : Z) (th : coldtrace_thread) (w : world) (caller : Z) :
    outcome (coldtrace_thread * world) :=
  let th := get_coldtrace_thread md th in
  if th_failed th then Ret (th, w)
  else
    let '(ok, th, w) :=
      if th_stack_size th =? th_stack_capacity th then grow_stack_ th w else (true, th, w) in
    if negb ok then Ret (th, w)
    else
      match th_stack th with
      | None => Undef NullDeref
      | Some arr =>
          if in_range arr (th_stack_size th) 1 then
            let arr := <[Z.to_nat (th_stack_size th) := u64 caller]> arr in
            Ret (set_stack_size (u32 (th_stack_size th + 1)) (set_stack (Some arr) th), w)
          else Undef OutOfBounds
      end.

Definition coldtrace_thread_stack_pop (md : Z) (th : coldtrace_thread) : coldtrace_thread :=
  let th := get_coldtrace_thread md th in
  if th_failed th then th
  else if 0 <? th_stack_size th then
    let th := set_stack_size (u32 (th_stack_size th - 1)) th in
    if th_stack_size th <? th_stack_bottom th
    then set_stack_bottom (th_stack_size th) th else th
  else th.
End Thread.
