(* ===== verification/Trace.v ===== *)
(** * What a thread's trace records

    The specification of the per-thread recorder and the proof that thread.c and
    writer.c implement it.  Abstractly a thread logs events, each with the full
    shadow stack of the moment.  Concretely it stores stack diffs in fragments
    that are rotated as they fill up.  [replay] reconstructs the stacks of one
    fragment starting from the empty stack, as trace_dump.py does; the theorems
    say that replaying every fragment on its own gives back the logged events. *)

From stdpp Require Import base list numbers strings gmap.
From Stdlib Require Import ZArith Lia.
From S2P Require Import Prelude Version Entries Libc Config Codec Lz4 Writer Thread.

(** ** Specification *)

(** One logged event: type, pointer, fields, and the full call stack for the
    types that carry one. *)
Record event := Event {
  ev_type : Z;
  ev_ptr : Z;
  ev_fields : list Z;
  ev_stack : option (list Z);
}.

(** The effect of a stack diff: keep [popped] frames, put [diff] on top. *)
Definition apply_diff (st : list Z) (s : option (Z * list Z)) : list Z :=
  match s with
  | None => st
  | Some (popped, diff) => take (Z.to_nat popped) st ++ diff
  end.

Definition to_event (st : list Z) (e : entry) : event :=
  Event (en_type e) (en_ptr e) (en_fields e)
    (match en_stack e with None => None | Some _ => Some (apply_diff st (en_stack e)) end).

(** The events of a fragment read from the empty stack [st := []], and the
    stack its reader ends with. *)
Fixpoint replay (st : list Z) (es : list entry) : list event :=
  match es with
  | [] => []
  | e :: es => to_event st e :: replay (apply_diff st (en_stack e)) es
  end.

Definition final_stack (es : list entry) : list Z :=
  foldl (fun st e => apply_diff st (en_stack e)) [] es.

(** A diff is consistent when it keeps no more frames than there are. *)
Fixpoint diffs_ok (st : list Z) (es : list entry) : Prop :=
  match es with
  | [] => True
  | e :: es =>
      match en_stack e with None => True | Some (popped, _) => 0 <= popped <= len st end
      ∧ diffs_ok (apply_diff st (en_stack e)) es
  end.

Fixpoint encode_all (es : list entry) : list Z :=
  match es with
  | [] => []
  | e :: es => encode_entry e ++ encode_all es
  end.

Lemma encode_all_app a b : encode_all (a ++ b) = encode_all a ++ encode_all b.
Proof. induction a; simpl; [done|]. by rewrite IHa, app_assoc. Qed.

Lemma replay_app st a b :
  replay st (a ++ b) = replay st a ++ replay (foldl (fun st e => apply_diff st (en_stack e)) st a) b.
Proof. revert st. induction a as [|e a IH]; intros st; simpl; [done|]. by rewrite IH. Qed.

Lemma diffs_ok_app st a b :
  diffs_ok st (a ++ b) ↔
  diffs_ok st a ∧ diffs_ok (foldl (fun st e => apply_diff st (en_stack e)) st a) b.
Proof. revert st. induction a as [|e a IH]; intros st; simpl; [tauto|]. rewrite IH. tauto. Qed.

Lemma final_stack_snoc es e : final_stack (es ++ [e]) = apply_diff (final_stack es) (en_stack e).
Proof. unfold final_stack. by rewrite foldl_app. Qed.

(** ** Logging one event: the append followed by the stores to the fields, in
    the order of the struct, as every subscriber performs them. *)
Fixpoint write_fields (th : coldtrace_thread) (off : Z) (fields : list Z) :
    outcome coldtrace_thread :=
  match fields with
  | [] => Ret th
  | f :: fields =>
      let! th := entry_store th off (le_bytes 8 f) in
      write_fields th (off + 8) fields
  end.

Section Trace.
Context `{B : BuildInfo, L : Lz4} (junk : nat → Z).

Definition store_fields (fields : list Z) (a : option Z * coldtrace_thread * world) :
    outcome (bool * coldtrace_thread * world) :=
  let '(e, th, w) := a in
  match e with
  | None => Ret (false, th, w)
  | Some e =>
      let! th := write_fields th (e + 8) fields in
      Ret (true, th, w)
  end.

Definition log_entry (c : config) (md : Z) (th : coldtrace_thread) (w : world)
    (type ptr : Z) (fields : list Z) : outcome (bool * coldtrace_thread * world) :=
  let! a := coldtrace_thread_append junk c md th w type ptr in
  store_fields fields a.

(** The bytes of a fragment with these entries. *)
Definition frag_bytes (es : list entry) : list Z := header_bytes ++ encode_all es.

(** The live part of the shadow stack. *)
Definition stack_of (th : coldtrace_thread) : list Z :=
  take (Z.to_nat (th_stack_size th)) (default [] (th_stack th)).

Record stack_ok (th : coldtrace_thread) : Prop := {
  sk_capacity : len (default [] (th_stack th)) = th_stack_capacity th;
  sk_some : 0 < th_stack_capacity th → is_Some (th_stack th);
  sk_size : 0 <= th_stack_size th <= th_stack_capacity th;
  sk_u32 : is_u32 (th_stack_capacity th);
  sk_pow2 : th_stack_capacity th = 0 ∨ ∃ k, 0 <= k ∧ th_stack_capacity th = 2 ^ k;
  sk_bottom : 0 <= th_stack_bottom th <= th_stack_size th;
  sk_words : Forall is_u64 (stack_of th);
}.

(** The invariant of a thread whose current fragment holds [cur]: the buffer
    is exactly their encoding, the diffs are consistent, and the frames below
    [stack_bottom] are those a reader of the fragment has on its stack. *)
Record thread_ok (th : coldtrace_thread) (cur : list entry) : Prop := {
  tk_stack : stack_ok th;
  tk_writer : writer_ok (th_writer th);
  tk_pending : pending (th_writer th) = [frag_bytes cur]
               ∨ pending (th_writer th) = [] ∧ cur = [];
  tk_initd : th_initd th = false → wi_buffer (th_writer th) = None;
  tk_wf : Forall entry_wf cur;
  tk_diffs : diffs_ok [] cur;
  tk_bottom : wi_buffer (th_writer th) = None ∨
    (th_stack_bottom th <= len (final_stack cur) ∧
     take (Z.to_nat (th_stack_bottom th)) (final_stack cur)
     = take (Z.to_nat (th_stack_bottom th)) (stack_of th));
}.

(** ** The shadow stack *)

Lemma get_thread_ok md th cur :
  thread_ok th cur →
  thread_ok (get_coldtrace_thread md th) cur ∧
  pending (th_writer (get_coldtrace_thread md th)) = pending (th_writer th) ∧
  stack_of (get_coldtrace_thread md th) = stack_of th ∧
  th_failed (get_coldtrace_thread md th) = th_failed th ∧
  th_initd (get_coldtrace_thread md th) = true ∧
  th_stack_size (get_coldtrace_thread md th) = th_stack_size th ∧
  th_stack_capacity (get_coldtrace_thread md th) = th_stack_capacity th.
Proof.
  intros Hok. unfold get_coldtrace_thread. destruct (th_initd th) eqn:Hi; simpl; [done|].
  pose proof (tk_initd _ _ Hok Hi) as Hb.
  assert (pending (th_writer th) = []) as Hp by (unfold pending; by rewrite Hb).
  destruct Hok as [Hs Hw Hpe _ Hwf Hd Hbo]. rewrite Hp in *.
  assert (cur = []) as -> by (by destruct Hpe as [?|[_ ?]]).
  split_and!; try done. split; simpl; try done; auto.
  - by destruct Hs.
  - by apply (writer_init_ok (th_writer th) md).
Qed.

Lemma stack_of_length th : stack_ok th → len (stack_of th) = th_stack_size th.
Proof. intros []. unfold stack_of. llia. Qed.

(** Changing only the stack part of a thread. *)
Lemma thread_ok_stack th th' cur :
  thread_ok th cur → th_writer th' = th_writer th → th_initd th' = th_initd th →
  stack_ok th' →
  th_stack_bottom th' <= th_stack_bottom th →
  take (Z.to_nat (th_stack_bottom th')) (stack_of th')
    = take (Z.to_nat (th_stack_bottom th')) (stack_of th) →
  thread_ok th' cur.
Proof.
  intros [Hs Hw Hp Hi Hwf Hd Hb] Ew Ei Hs' Hle Htake.
  split; rewrite ?Ew, ?Ei; try done.
  destruct Hb as [Hb|[Hb1 Hb2]]; [by left|right]. split; [lia|].
  rewrite Htake.
  pose proof (sk_bottom _ Hs'). 
  assert (∀ l : list Z, take (Z.to_nat (th_stack_bottom th')) l
    = take (Z.to_nat (th_stack_bottom th')) (take (Z.to_nat (th_stack_bottom th)) l)) as Ht.
  { intros l. rewrite take_take. f_equal. lia. }
  rewrite Ht, Hb2, <- Ht. done.
Qed.

Lemma grow_stack_spec th w ok th' w' :
  stack_ok th → th_stack_capacity th < 2 ^ 31 ∨ ok = false →
  grow_stack_ junk th w = (ok, th', w') →
  w_closed w' = w_closed w ∧ w_fs w' = w_fs w ∧ th_writer th' = th_writer th ∧
  th_initd th' = th_initd th ∧ stack_ok th' ∧ stack_of th' = stack_of th ∧
  th_stack_bottom th' = th_stack_bottom th ∧ th_stack_size th' = th_stack_size th ∧
  if ok then th_failed th' = th_failed th ∧ th_stack_capacity th < th_stack_capacity th'
  else th_failed th' = true.
Proof.
  intros Hs Hcap H. unfold grow_stack_ in H. destruct (attempt w) as [ok1 w1] eqn:E.
  apply attempt_spec in E as (Hfs & Hc & _). destruct ok1; simpl in H; simplify_eq; simpl.
  2: { split_and!; try done. by destruct Hs. }
  destruct Hcap as [Hcap|]; [|done].
  set (n := if th_stack_capacity th =? 0 then INITIAL_STACK_CAPACITY
            else u32 (th_stack_capacity th * 2)).
  pose proof Hs as [Hc1 Hc2 Hc3 Hc4 Hc5 Hc6 Hc7].
  assert (th_stack_capacity th < n ∧ is_u32 n ∧ 0 < n ∧ ∃ k, 0 <= k ∧ n = 2 ^ k)
    as (Hn1 & Hn2 & Hn3 & Hn4).
  { unfold n, INITIAL_STACK_CAPACITY. destruct (Z.eqb_spec (th_stack_capacity th) 0) as [|Hne].
    - split_and!; try ulia. by exists 4.
    - rewrite u32_id by ulia. destruct Hc5 as [|(k & Hk & Hp)]; [done|].
      split_and!; try ulia. exists (k + 1). rewrite Z.pow_add_r by lia. lia. }
  set (arr := take (Z.to_nat n) (default [] (th_stack th) ++ (junk <$> seq 0 (Z.to_nat n)))).
  assert (len arr = n) as Hla.
  { unfold arr. rewrite length_take, length_app, length_fmap, length_seq. lia. }
  assert (take (Z.to_nat (th_stack_size th)) arr = stack_of th) as Hst.
  { unfold arr, stack_of. rewrite take_take, take_app_le by lia. f_equal. lia. }
  split_and!; try done. split; simpl; try done; try lia; [by right|].
  unfold stack_of. simpl. by rewrite Hst.
Qed.

(** The largest capacity is 2^31; doubling it would wrap to 0. *)
Lemma stack_capacity_cases t :
  stack_ok t → th_stack_capacity t < 2 ^ 31 ∨ th_stack_capacity t = 2 ^ 31.
Proof.
  intros Hs. pose proof (sk_u32 _ Hs) as Hu. destruct (sk_pow2 _ Hs) as [->|(k & Hk & E)]; [lia|].
  rewrite E in *. destruct (Z.lt_ge_cases k 31); [left; apply Z.pow_lt_mono_r; lia|right].
  f_equal. enough (k < 32) by lia. apply (Z.pow_lt_mono_r_iff 2); ulia.
Qed.

Lemma grow_stack_wraps th w th' w' :
  th_stack_capacity th = 2 ^ 31 → grow_stack_ junk th w = (true, th', w') →
  th_stack th' = Some [] ∧ th_stack_size th' = th_stack_size th.
Proof.
  intros Hc. unfold grow_stack_. rewrite Hc. destruct (attempt w) as [[|] ?]; simpl; [|done].
  intros. by simplify_eq.
Qed.

Lemma push_spec md th w caller cur th' w' :
  thread_ok th cur →
  coldtrace_thread_stack_push junk md th w caller = Ret (th', w') →
  thread_ok th' cur ∧ w_closed w' = w_closed w ∧ w_fs w' = w_fs w ∧
  th_writer th' = th_writer (get_coldtrace_thread md th) ∧ th_initd th' = true ∧
  (if th_failed th then th_failed th' = true ∧ stack_of th' = stack_of th
   else th_failed th' = true ∧ stack_of th' = stack_of th
        ∨ th_failed th' = false ∧ stack_of th' = stack_of th ++ [u64 caller]).
Proof.
  intros Hok H. unfold coldtrace_thread_stack_push in H.
  destruct (get_thread_ok md th cur Hok) as (Hok1 & Hp1 & Hs1 & Hf1 & Hi1 & Hz1 & Hc1).
  set (t := get_coldtrace_thread md th) in *. clearbody t. rewrite <- Hs1, <- Hf1.
  destruct (th_failed t) eqn:Hf; [simplify_eq; done|].
  pose proof (tk_stack _ _ Hok1) as Hs.
  destruct (if th_stack_size t =? th_stack_capacity t then grow_stack_ junk t w else (true, t, w))
    as [[ok t2] w2] eqn:Eg.
  assert (w_closed w2 = w_closed w ∧ w_fs w2 = w_fs w ∧ th_writer t2 = th_writer t ∧
    th_initd t2 = th_initd t ∧ stack_ok t2 ∧ stack_of t2 = stack_of t ∧
    th_stack_bottom t2 = th_stack_bottom t ∧ th_stack_size t2 = th_stack_size t ∧
    if ok then th_failed t2 = false ∧ th_stack_size t2 < th_stack_capacity t2
    else th_failed t2 = true) as (Hcl & Hfs & Hw & Hi & Hs2 & Hst & Hbo & Hsz & Hres).
  { destruct (Z.eqb_spec (th_stack_size t) (th_stack_capacity t)).
    - pose proof (sk_size _ Hs).
      assert (th_stack_capacity t < 2 ^ 31 ∨ ok = false) as Hcap.
      { destruct (stack_capacity_cases t Hs) as [?|Hcap]; [by left|right]. destruct ok; [|done].
        apply grow_stack_wraps in Eg as [E1 E2]; [|done]. simpl in H. rewrite E1, E2 in H.
        unfold in_range in H. destruct (Z.leb_spec (th_stack_size t + 1) (len (@nil Z))) as [Hl|Hl];
          [simpl in Hl; lia|]. by rewrite andb_false_r in H. }
      apply grow_stack_spec in Eg as (?&?&?&?&?&?&?&?&Hk); try done.
      split_and!; try done. destruct ok; [|done]. destruct Hk. split; [congruence|lia].
    - simplify_eq. split_and!; try done. pose proof (sk_size _ Hs). lia. }
  assert (thread_ok t2 cur) as Hok2.
  { apply (thread_ok_stack t); try done; [lia|]. by rewrite Hst. }
  destruct ok; simpl in H.
  2: { simplify_eq. rewrite Hw. split_and!; try done; [congruence|by left]. }
  destruct Hres as [Hf2 Hlt]. pose proof (sk_size _ Hs2) as Hsz2.
  destruct (sk_some _ Hs2) as [arr Harr]; [lia|]. rewrite Harr in H.
  pose proof (sk_capacity _ Hs2) as Hcap2. rewrite Harr in Hcap2. simpl in Hcap2.
  assert (in_range arr (th_stack_size t2) 1 = true) as Hr by (apply in_range_spec; lia).
  rewrite Hr in H. simplify_eq. simpl. rewrite Hw, Hi.
  pose proof (sk_u32 _ Hs2). rewrite u32_id by ulia.
  set (th' := set_stack_size _ _).
  assert (stack_of th' = stack_of t2 ++ [u64 caller]) as Hst'.
  { unfold stack_of, th'. simpl. rewrite Harr. simpl.
    replace (Z.to_nat (th_stack_size t2 + 1)) with (S (Z.to_nat (th_stack_size t2))) by lia.
    rewrite (take_S_r _ _ (u64 caller)) by (apply list_lookup_insert_eq; lia).
    rewrite take_insert_ge by lia. done. }
  assert (stack_ok th') as Hs'.
  { pose proof (sk_bottom _ Hs2). pose proof (sk_u32 _ Hs2). pose proof (sk_pow2 _ Hs2).
    split; try (unfold th'; simpl; rewrite ?length_insert; done || lia).
    rewrite Hst'. apply Forall_app. split; [apply Hs2|]. constructor; [apply u64_range|done]. }
  split_and!; try done.
  - apply (thread_ok_stack t2); try done.
    rewrite Hst', take_app_le; [done|]. pose proof (sk_bottom _ Hs2).
    pose proof (stack_of_length _ Hs2). unfold th'. simpl. lia.
  - right. split; [done|]. by rewrite Hst', Hst.
Qed.

(** Popping removes the top frame; the frames a reader knows shrink with it. *)
Lemma pop_spec md th cur :
  thread_ok th cur →
  let th' := coldtrace_thread_stack_pop md th in
  thread_ok th' cur ∧ th_writer th' = th_writer (get_coldtrace_thread md th) ∧
  th_initd th' = true ∧
  th_failed th' = th_failed th ∧
  stack_of th' = if th_failed th then stack_of th
                 else take (length (stack_of th) - 1) (stack_of th).
Proof.
  intros Hok. unfold coldtrace_thread_stack_pop.
  destruct (get_thread_ok md th cur Hok) as (Hok1 & Hp1 & Hs1 & Hf1 & Hi1 & Hz1 & Hc1).
  set (t := get_coldtrace_thread md th) in *. clearbody t. rewrite <- Hs1, <- Hf1.
  destruct (th_failed t) eqn:Hf; [done|].
  pose proof (tk_stack _ _ Hok1) as Hs. pose proof (stack_of_length _ Hs) as Hlen.
  pose proof (sk_size _ Hs) as Hsz. pose proof (sk_u32 _ Hs) as Hu.
  destruct (Z.ltb_spec 0 (th_stack_size t)).
  2: { split_and!; try done. rewrite take_ge; [done|]. lia. }
  cbv zeta. set (t' := set_stack_size (u32 (th_stack_size t - 1)) t).
  assert (th_stack_size t' = th_stack_size t - 1) as Hz'.
  { unfold t'. simpl. rewrite u32_id; ulia. }
  set (r := if th_stack_size t' <? th_stack_bottom t' then set_stack_bottom (th_stack_size t') t'
            else t').
  assert (th_writer r = th_writer t ∧ th_initd r = th_initd t ∧ th_failed r = th_failed t ∧
    th_stack r = th_stack t ∧ th_stack_size r = th_stack_size t - 1 ∧
    th_stack_capacity r = th_stack_capacity t ∧
    th_stack_bottom r = Z.min (th_stack_bottom t) (th_stack_size t - 1))
    as (Ew & Ei & Ef & Es & Ez & Ec & Eb).
  { unfold r. destruct (Z.ltb_spec (th_stack_size t') (th_stack_bottom t')) as [Hb|Hb];
      rewrite Hz' in Hb; unfold t' in *; simpl in *; split_and!; try done; lia. }
  clearbody r. clear t' Hz'.
  assert (stack_of r = take (length (stack_of t) - 1) (stack_of t)) as Hst.
  { unfold stack_of at 1. rewrite Es, Ez. unfold stack_of at 2. rewrite take_take. f_equal. lia. }
  assert (stack_ok r) as Hr.
  { pose proof (sk_bottom _ Hs). split; rewrite ?Es, ?Ez, ?Ec, ?Eb; try apply Hs; try lia.
    rewrite Hst. apply Forall_take, Hs. }
  split_and!; try done; [|congruence..].
  apply (thread_ok_stack t); try done; [lia|].
  rewrite Hst, take_take, Eb. f_equal. lia.
Qed.

(** ** Storing an entry *)

Definition with_buffer (b : list Z) (th : coldtrace_thread) : coldtrace_thread :=
  set_writer (set_buffer (Some b) (th_writer th)) th.

Lemma entry_store_spec th pre c post off bs :
  wi_buffer (th_writer th) = Some (pre ++ c ++ post) → off = len pre → length bs = length c →
  entry_store th off bs = Ret (with_buffer (pre ++ bs ++ post) th).
Proof. intros Hb Ho Hl. unfold entry_store. rewrite Hb, store_chunk by done. done. Qed.

Lemma entry_store_bound th off bs th' :
  entry_store th off bs = Ret th' →
  ∃ b b', wi_buffer (th_writer th) = Some b ∧ th' = with_buffer b' th ∧
    off + len bs <= len b ∧ length b' = length b.
Proof.
  unfold entry_store. destruct (wi_buffer _) as [b|] eqn:Hb; [|done]. intros H. inv_outcome.
  exists b. eexists. split; [done|]. split; [done|].
  split; [by apply store_inv in E as (? & ? & _)|by apply length_store in E].
Qed.

Lemma with_buffer_id th b : wi_buffer (th_writer th) = Some b → with_buffer b th = th.
Proof. destruct th as [[] ? ? ? ? ? ? ?]; simpl. by intros ->. Qed.

Lemma write_fields_spec fs : ∀ th pre cf post off,
  wi_buffer (th_writer th) = Some (pre ++ cf ++ post) → off = len pre →
  length cf = (8 * length fs)%nat →
  write_fields th off fs = Ret (with_buffer (pre ++ words64 fs ++ post) th).
Proof.
  induction fs as [|f fs IH]; intros th pre cf post off Hb Ho Hl.
  - destruct cf; [|done]. simpl. by rewrite with_buffer_id.
  - simpl in Hl. cbn [write_fields]. rewrite <- (take_drop 8 cf), <- app_assoc in Hb.
    rewrite (entry_store_spec _ _ _ _ _ _ Hb Ho) by llia. simpl.
    rewrite (IH _ (pre ++ le_bytes 8 f) (drop 8 cf) post) by (simpl; rewrite <- ?app_assoc; done || llia).
    rewrite <- !app_assoc. done.
Qed.

Lemma write_fields_bound fs : ∀ th off th' b,
  write_fields th off fs = Ret th' → wi_buffer (th_writer th) = Some b →
  fs = [] ∨ off + 8 * len fs <= len b.
Proof.
  induction fs as [|f fs IH]; intros th off th' b H Hb; [by left|right].
  cbn [write_fields] in H. inv_outcome.
  apply entry_store_bound in E as (b0 & b1 & Hb0 & -> & Hle & Hl). simplify_eq.
  destruct (IH _ _ _ b1 H eq_refl) as [->|Hr]; llia.
Qed.

Lemma entry_init_ptr type ptr :
  is_u8 type → coldtrace_entry_init type ptr = coldtrace_make_entry_header type (ptr mod 2 ^ 48).
Proof.
  intros Ht. unfold coldtrace_entry_init. rewrite u8_id by done.
  rewrite !make_entry_header_arith, Z.mod_mod by done. do 2 f_equal.
  unfold u64. change (2 ^ 64) with (2 ^ 48 * 2 ^ 16).
  by rewrite Z.rem_mul_r, (Z.mul_comm (2 ^ 48)), Z.mod_add, Z.mod_mod by lia.
Qed.

(** The entry written for an event, given the number of frames kept. *)
Definition new_entry (th : coldtrace_thread) (type ptr : Z) (fields : list Z) (bot : Z) : entry :=
  Entry type (ptr mod 2 ^ 48) fields
    (if with_stack_ type then Some (bot, drop (Z.to_nat bot) (stack_of th)) else None).

Definition event_of (th : coldtrace_thread) (type ptr : Z) (fields : list Z) : event :=
  Event type (ptr mod 2 ^ 48) fields (if with_stack_ type then Some (stack_of th) else None).

(** Arguments the subscribers pass: a defined type and all fields of its struct. *)
Record request_ok (type : Z) (fields : list Z) : Prop := {
  rq_type : is_u8 type;
  rq_valid : base_type type < COLDTRACE_END_;
  rq_count : length fields = field_count (base_type type);
  rq_fields : Forall is_u64 fields;
}.

Lemma new_entry_wf th type ptr fields bot :
  request_ok type fields → stack_ok th → 0 <= bot <= th_stack_size th →
  entry_wf (new_entry th type ptr fields bot).
Proof.
  intros [Ht Hv Hc Hf] Hs Hb. split; simpl; try done.
  - apply Z.mod_pos_bound. lia.
  - pose proof (stack_of_length _ Hs). pose proof (sk_size _ Hs). pose proof (sk_u32 _ Hs).
    unfold new_entry, stack_wf; simpl. destruct (with_stack_ type); [|done].
    split; [done|]. split; [lia|]. split; [llia|]. apply Forall_drop, Hs.
Qed.

Lemma len_new_entry th type ptr fields bot :
  request_ok type fields → stack_ok th → 0 <= bot <= th_stack_size th →
  coldtrace_entry_fixed_size type =
    Ret (len (encode_entry (new_entry th type ptr fields bot))
         - if with_stack_ type then 8 * (th_stack_size th - bot) else 0).
Proof.
  intros Hr Hs Hb. rewrite len_encode_entry by by apply new_entry_wf.
  rewrite fixed_size_fields by apply Hr. f_equal. simpl.
  pose proof (stack_of_length _ Hs). destruct (with_stack_ type); simpl; llia.
Qed.
(** The two branches of the append, once the space is reserved. *)
Lemma log_plain_eval c t w type ptr fields n p wr w' b :
  request_ok type fields → with_stack_ type = false → coldtrace_entry_fixed_size type = Ret n →
  coldtrace_writer_reserve junk c (th_writer t) w n = Ret (Some p, wr, w') →
  wi_buffer wr = Some b → 0 <= p → p + n <= len b →
  obind (append_plain junk c t w n type ptr) (store_fields fields) =
  Ret (true,
    with_buffer (take (Z.to_nat p) b ++ encode_entry (new_entry t type ptr fields 0)
                 ++ drop (Z.to_nat (p + n)) b)
      (set_writer wr (if coldtrace_writer_new_trace c (th_writer t) n
                      then set_stack_bottom 0 t else t)), w').
Proof.
  intros Hr Hst Hn Hres Hb Hp Hfit. pose proof Hr as [Ht Hv Hc Hf].
  rewrite fixed_size_fields in Hn by done. unfold diff_header in Hn. rewrite Hst in Hn.
  simplify_eq. rewrite <- Hc in *.
  unfold append_plain. set (t0 := if coldtrace_writer_new_trace c _ _ then _ else _).
  assert (th_writer t0 = th_writer t) as -> by by unfold t0; case_match.
  rewrite Hres. simpl.
  set (n := 8 + 8 * len fields + 0) in *.
  rewrite (split_range b p n) in Hb by lia.
  rewrite <- (take_drop 8 (slice p n b)), <- app_assoc in Hb.
  pose proof (length_slice p n b ltac:(lia) ltac:(lia) ltac:(lia)) as Hsl.
  erewrite entry_store_spec; [|exact Hb|llia|llia]. simpl.
  erewrite (write_fields_spec fields _ (_ ++ le_bytes 8 (coldtrace_entry_init type ptr))
    (drop 8 (slice p n b))); [|simpl; by rewrite <- app_assoc|llia|llia].
  simpl. unfold encode_entry, new_entry. simpl. rewrite Hst. simpl.
  rewrite app_nil_r, entry_init_ptr, <- !app_assoc by done. done.
Qed.

(** Copying the frames above [bot] into the diff. *)
Lemma frames_eval t th bot off pre di post :
  stack_ok t → th_stack th = th_stack t → 0 <= bot <= th_stack_size t →
  wi_buffer (th_writer th) = Some (pre ++ di ++ post) → off = len pre →
  len di = 8 * (th_stack_size t - bot) →
  (if 0 <? 8 * (th_stack_size t - bot) then
     let! frames := read_stack th bot (8 * (th_stack_size t - bot) / 8) in
     entry_store th off (words64 frames)
   else Ret th)
  = Ret (with_buffer (pre ++ words64 (drop (Z.to_nat bot) (stack_of t)) ++ post) th).
Proof.
  intros Hs Est Hb Hbuf Ho Hdi. pose proof (stack_of_length _ Hs) as Hlen.
  destruct (Z.ltb_spec 0 (8 * (th_stack_size t - bot))).
  - pose proof (sk_size _ Hs). destruct (sk_some _ Hs) as [arr Harr]; [lia|].
    pose proof (sk_capacity _ Hs) as Hcap. rewrite Harr in Hcap. simpl in Hcap.
    unfold read_stack. rewrite Est, Harr, (Z.mul_comm 8), Z.div_mul by lia.
    assert (in_range arr bot (th_stack_size t - bot) = true) as -> by (apply in_range_spec; lia).
    simpl. assert (slice bot (th_stack_size t - bot) arr = drop (Z.to_nat bot) (stack_of t)) as ->.
    { unfold slice, stack_of. rewrite Harr. simpl. rewrite take_drop_commute. do 2 f_equal. lia. }
    eapply entry_store_spec; [done|done|]. llia.
  - rewrite drop_ge by lia. destruct di; [|simpl in *; lia]. simpl. by rewrite with_buffer_id.
Qed.

(** How many frames the diff of the next entry keeps. *)
Definition kept (c : config) (t : coldtrace_thread) (n : Z) : Z :=
  if coldtrace_writer_new_trace c (th_writer t) (n + 8 * (th_stack_size t - th_stack_bottom t))
  then 0 else th_stack_bottom t.

Lemma kept_range c t n : stack_ok t → 0 <= kept c t n <= th_stack_size t.
Proof.
  intros Hs. pose proof (sk_size _ Hs). pose proof (sk_bottom _ Hs).
  unfold kept. case_match; lia.
Qed.

(** The stack branch without the wrap-around of its size computations. *)
Lemma append_stack_reduce c t w type ptr fields n :
  request_ok type fields → with_stack_ type = true → coldtrace_entry_fixed_size type = Ret n →
  stack_ok t →
  let bot := kept c t n in
  append_stack junk c t w n type ptr =
  let! (r, w) := coldtrace_writer_reserve junk c (th_writer t) w (n + 8 * (th_stack_size t - bot)) in
  let '(e, wr) := r in
  let th := set_writer wr t in
  match e with
  | None => Ret (None, th, w)
  | Some e =>
      let! th := entry_store th e (le_bytes 8 (coldtrace_entry_init type ptr)) in
      let! th := entry_store th (e + n - 8 + 4) (le_bytes 4 (th_stack_size t)) in
      let! th := entry_store th (e + n - 8) (le_bytes 4 bot) in
      let! th :=
        if 0 <? 8 * (th_stack_size t - bot) then
          let! frames := read_stack th bot (8 * (th_stack_size t - bot) / 8) in
          entry_store th (e + n - 8 + 8) (words64 frames)
        else Ret th in
      Ret (Some e, set_stack_bottom (th_stack_size t) th, w)
  end.
Proof.
  intros [Ht Hv Hc Hf] Hst Hn Hs bot. rewrite fixed_size_fields in Hn by done.
  unfold diff_header, sizeof_stack_diff in Hn. rewrite Hst in Hn. injection Hn as Hn.
  rewrite <- Hc in Hn. pose proof (kept_range c t n Hs) as Hbr.
  pose proof (sk_size _ Hs). pose proof (sk_u32 _ Hs). pose proof (sk_bottom _ Hs).
  assert (length fields ≤ 3)%nat as H3.
  { rewrite Hc. unfold field_count. repeat case_match; lia. }
  unfold append_stack. cbv zeta. rewrite (u32_id (_ - _)) by ulia.
  rewrite !(u64_id (_ * 8)) by ulia.
  replace ((th_stack_size t - th_stack_bottom t) * 8)
    with (8 * (th_stack_size t - th_stack_bottom t)) by lia.
  rewrite (u64_id (n + _)) by ulia.
  assert ((if coldtrace_writer_new_trace c (th_writer t)
             (n + 8 * (th_stack_size t - th_stack_bottom t))
           then (0, th_stack_size t * 8)
           else (th_stack_bottom t, 8 * (th_stack_size t - th_stack_bottom t)))
    = (bot, 8 * (th_stack_size t - bot))) as ->.
  { unfold bot, kept. case_match; f_equal; lia. }
  fold bot in Hbr. clearbody bot. rewrite (u64_id (n + _)) by ulia. done.
Qed.

Lemma log_stack_eval c t w type ptr fields n p wr w' b :
  request_ok type fields → with_stack_ type = true → coldtrace_entry_fixed_size type = Ret n →
  stack_ok t →
  let bot := kept c t n in
  let m := n + 8 * (th_stack_size t - bot) in
  coldtrace_writer_reserve junk c (th_writer t) w m = Ret (Some p, wr, w') →
  wi_buffer wr = Some b → 0 <= p → p + m <= len b →
  obind (append_stack junk c t w n type ptr) (store_fields fields) =
  Ret (true,
    with_buffer (take (Z.to_nat p) b ++ encode_entry (new_entry t type ptr fields bot)
                 ++ drop (Z.to_nat (p + m)) b)
      (set_stack_bottom (th_stack_size t) (set_writer wr t)), w').
Proof.
  intros Hr Hst Hn Hs bot m Hres Hb Hp Hfit.
  rewrite (append_stack_reduce _ _ _ _ _ _ _ Hr Hst Hn Hs).
  pose proof (kept_range c t n Hs) as Hbr. fold bot in Hbr |- *. clearbody bot.
  fold m. rewrite Hres. simpl. pose proof Hr as [Ht Hv Hc Hf].
  rewrite fixed_size_fields in Hn by done. unfold diff_header, sizeof_stack_diff in Hn.
  rewrite Hst in Hn. injection Hn as Hn. rewrite <- Hc in Hn.
  rewrite (split_range b p m) in Hb by lia.
  pose proof (length_slice p m b ltac:(lia) ltac:(lia) ltac:(lia)) as Hsl.
  set (pre := take (Z.to_nat p) b) in *. set (post := drop (Z.to_nat (p + m)) b) in *.
  assert (len pre = p) as Hpre by (unfold pre; llia). clearbody pre post.
  destruct (chunk 8 (slice p m b)) as (h & r1 & E1 & Hh); [lia|].
  destruct (chunk (8 * length fields) r1) as (fl & r2 & E2 & Hfl); [subst m; rewrite E1 in Hsl; llia|].
  destruct (chunk 4 r2) as (po & r3 & E3 & Hpo); [subst m; rewrite E1, E2 in Hsl; llia|].
  destruct (chunk 4 r3) as (de & di & E4 & Hde); [subst m; rewrite E1, E2, E3 in Hsl; llia|].
  rewrite E1, E2, E3, E4, <- !app_assoc in Hb. rewrite E1, E2, E3, E4 in Hsl. clear E1 E2 E3 E4.
  rewrite !length_app in Hsl.
  set (hb := le_bytes 8 (coldtrace_entry_init type ptr)).
  erewrite (entry_store_spec _ pre h); [|exact Hb|lia|unfold hb; llia]. simpl.
  erewrite (entry_store_spec _ (pre ++ hb ++ fl ++ po) de); [|simpl; by rewrite <- !app_assoc|
    unfold hb; llia|llia]. simpl.
  erewrite (entry_store_spec _ (pre ++ hb ++ fl) po); [|simpl; by rewrite <- !app_assoc|
    unfold hb; llia|llia]. simpl.
  set (pb := le_bytes 4 bot). set (db := le_bytes 4 (th_stack_size t)).
  erewrite (frames_eval t _ bot _ (pre ++ hb ++ fl ++ pb ++ db) di post);
    [|done|done|done|simpl; by rewrite <- !app_assoc|unfold hb, pb, db; llia|lia].
  simpl. erewrite (write_fields_spec fields _ (pre ++ hb) fl);
    [|simpl; by rewrite <- !app_assoc|unfold hb; llia|lia].
  simpl. unfold encode_entry, new_entry, encode_stack. simpl. rewrite Hst.
  pose proof (stack_of_length _ Hs) as Hlen.
  assert (bot + len (drop (Z.to_nat bot) (stack_of t)) = th_stack_size t) as Hdep by llia.
  rewrite Hdep. unfold hb. rewrite entry_init_ptr, <- !app_assoc by done. done.
Qed.

(** Conversely, a log that returns stayed inside the buffer. *)
Lemma log_plain_bound c t w type ptr fields n p wr w' b r :
  request_ok type fields → with_stack_ type = false → coldtrace_entry_fixed_size type = Ret n →
  coldtrace_writer_reserve junk c (th_writer t) w n = Ret (Some p, wr, w') →
  wi_buffer wr = Some b →
  obind (append_plain junk c t w n type ptr) (store_fields fields) = Ret r →
  p + n <= len b.
Proof.
  intros [Ht Hv Hc Hf] Hst Hn Hres Hb H. rewrite fixed_size_fields in Hn by done.
  unfold diff_header in Hn. rewrite Hst, <- Hc in Hn. injection Hn as <-.
  unfold append_plain in H.
  assert (∀ x : bool, th_writer (if x then set_stack_bottom 0 t else t) = th_writer t) as Hw
    by by intros [].
  rewrite Hw, Hres in H. simpl in H. inv_outcome. inv_outcome.
  match goal with Es : entry_store _ _ _ = _, Ew : write_fields _ _ _ = _ |- _ =>
    apply entry_store_bound in Es as (b0 & b1 & Hb0 & -> & Hle & Hl); simpl in Hb0; simplify_eq;
    destruct (write_fields_bound _ _ _ _ b1 Ew eq_refl) as [->|Hbound] end; simpl in *; llia.
Qed.

Lemma log_stack_bound c t w type ptr fields n p wr w' b r :
  request_ok type fields → with_stack_ type = true → coldtrace_entry_fixed_size type = Ret n →
  stack_ok t →
  let m := n + 8 * (th_stack_size t - kept c t n) in
  coldtrace_writer_reserve junk c (th_writer t) w m = Ret (Some p, wr, w') →
  wi_buffer wr = Some b →
  obind (append_stack junk c t w n type ptr) (store_fields fields) = Ret r →
  p + m <= len b.
Proof.
  intros Hr Hst Hn Hs m Hres Hb H.
  rewrite (append_stack_reduce _ _ _ _ _ _ _ Hr Hst Hn Hs) in H.
  pose proof (kept_range c t n Hs) as Hbr. set (bot := kept c t n) in *. clearbody bot.
  fold m in H. rewrite Hres in H. simpl in H. inv_outcome.
  repeat match goal with Es : entry_store _ _ _ = Ret _ |- _ =>
    apply entry_store_bound in Es as (? & ? & ? & -> & ? & ?); simpl in *; simplify_eq end.
  destruct (Z.ltb_spec 0 (8 * (th_stack_size t - bot))); [|unfold m; llia].
  inv_outcome.
  match goal with Es : entry_store _ _ _ = Ret _, Er : read_stack _ _ _ = Ret _ |- _ =>
    apply entry_store_bound in Es as (? & ? & ? & -> & Hlast & ?); unfold read_stack in Er;
    simpl in *; simplify_eq; rename Er into Hread end.
  rewrite (Z.mul_comm 8), Z.div_mul in Hread by lia.
  destruct (th_stack t) as [arr|]; [|done]. inv_outcome.
  destruct (in_range arr bot _) eqn:Hir; [|done]. apply in_range_spec in Hir. simplify_eq.
  pose proof (length_slice bot (th_stack_size t - bot) arr ltac:(lia) ltac:(lia) ltac:(lia)).
  unfold m. rewrite length_words64 in Hlast. len_simpl. lia.
Qed.

(** ** One logged event *)
Context `{!Lz4Laws L}.

(** A writer without anything recorded starts a new fragment. *)
Lemma idle_new_trace c i m :
  wi_size i = 0 → wi_offset i = 0 → 0 < m < 2 ^ 62 → coldtrace_writer_new_trace c i m = true.
Proof.
  intros Hs Ho Hm. unfold coldtrace_writer_new_trace. rewrite Hs, Ho, u64_id by ulia.
  apply Z.ltb_lt. destruct (Z.ltb_spec (coldtrace_get_trace_size c) 0); lia.
Qed.

(** Storing bytes into reserved space extends the current fragment, or starts a
    new one after handing the old one to the close hook. *)
Lemma reserve_and_store c i w p i' w' b bs :
  writer_ok i → config_ok c → 0 < len bs < 2 ^ 62 →
  coldtrace_writer_reserve junk c i w (len bs) = Ret (Some p, i', w') →
  wi_buffer i' = Some b → p + len bs <= len b →
  let j := set_buffer (Some (take (Z.to_nat p) b ++ bs ++ drop (Z.to_nat (p + len bs)) b)) i' in
  writer_ok j ∧
  if coldtrace_writer_new_trace c i (len bs)
  then pending j = [header_bytes ++ bs] ∧
       ∃ extra, only_headers extra ∧ closed_frags w' = closed_frags w ++ pending i ++ extra
  else (∃ f, pending i = [f] ∧ pending j = [f ++ bs]) ∧ closed_frags w' = closed_frags w.
Proof.
  intros Hok Hc Hm Hres Hb Hfit.
  apply reserve_spec in Hres as (He & Ho & Hsz & b' & Hl & Hcase); [|done..].
  pose proof Hl as (Hb' & Hi1 & Hi2 & Hi3 & Hlen & Hrange & Hh & Hcb). simplify_eq.
  assert (8 <= p) as Hp8.
  { destruct Hcase as [(_ & Hbi & -> & _)|(_ & -> & _)]; [|done].
    destruct Hok as [_ [(? & ? & ? & ?)|(? & _)]]; [done|congruence]. }
  unfold LZ4_MAX_INPUT_SIZE in Hrange. rewrite u64_id in Ho by ulia.
  set (j := set_buffer _ i').
  assert (pending j = [take (Z.to_nat p) b ++ bs]) as Hpj.
  { unfold pending, j. simpl. rewrite Ho, app_assoc, take_app_length'; [done|llia]. }
  split.
  { split; [done|]. left. eexists. split; [|unfold inside, j; simpl; llia].
    unfold live, j, LZ4_MAX_INPUT_SIZE. simpl. do 4 (split; [done|]).
    split; [llia|]. split; [lia|]. split; [|done].
    rewrite take_app_le, take_take by llia. rewrite <- Hh. f_equal. lia. }
  destruct Hcase as [(Hnt & Hbi & -> & Hcl)|(Hnt & -> & Hcl)].
  - rewrite Hnt. split; [|done]. exists (take (Z.to_nat (wi_offset i)) b).
    split; [|done]. unfold pending. by rewrite Hbi.
  - assert (coldtrace_writer_new_trace c i (len bs) = true) as ->.
    { destruct Hnt as [?|[? ?]]; [done|]. by apply idle_new_trace. }
    split; [|done]. rewrite Hpj. change (Z.to_nat 8) with 8%nat. by rewrite Hh.
Qed.

(** The fragment that holds the next entry. *)
Definition next_frag (nt : bool) (cur : list entry) (e : entry) : list entry :=
  if nt then [e] else cur ++ [e].

(** The thread after an entry was stored: the invariant for the new fragment. *)
Lemma thread_ok_logged c t w cur e p wr w' b t' :
  thread_ok t cur → config_ok c → th_initd t = true → entry_wf e →
  let m := len (encode_entry e) in
  coldtrace_writer_reserve junk c (th_writer t) w m = Ret (Some p, wr, w') →
  wi_buffer wr = Some b → p + m <= len b →
  th_writer t' = set_buffer
    (Some (take (Z.to_nat p) b ++ encode_entry e ++ drop (Z.to_nat (p + m)) b)) wr →
  th_initd t' = true → stack_ok t' →
  let nt := coldtrace_writer_new_trace c (th_writer t) m in
  let cur' := next_frag nt cur e in
  diffs_ok [] cur' →
  th_stack_bottom t' <= len (final_stack cur') →
  take (Z.to_nat (th_stack_bottom t')) (final_stack cur')
    = take (Z.to_nat (th_stack_bottom t')) (stack_of t') →
  thread_ok t' cur' ∧
  (if nt then ∃ extra, only_headers extra ∧
                closed_frags w' = closed_frags w ++ pending (th_writer t) ++ extra
   else closed_frags w' = closed_frags w).
Proof.
  intros Hok Hc Hi Hwf m Hres Hb Hfit Ew Ei Hs nt cur' Hd Hb1 Hb2.
  assert (0 < m < 2 ^ 62) as Hm.
  { unfold m. rewrite len_encode_entry by done. pose proof (wf_stack _ Hwf) as Hst.
    unfold diff_header, sizeof_stack_diff, field_count.
    destruct (en_stack e) as [[q d]|]; simpl in *; [destruct Hst as (_ & ? & ? & _)|];
    repeat case_match; ulia. }
  destruct (reserve_and_store c (th_writer t) w p wr w' b (encode_entry e)) as (Hwok & Hcase);
    try done; [apply Hok|]. fold m in Hwok, Hcase. fold nt in Hcase.
  rewrite <- Ew in Hwok, Hcase.
  split.
  - split; try done.
    + left. unfold cur', next_frag, frag_bytes. destruct nt.
      * destruct Hcase as [-> _]. simpl. by rewrite app_nil_r.
      * destruct Hcase as [(f & Hf & ->) _].
        destruct (tk_pending _ _ Hok) as [Hp|[Hp _]]; rewrite Hp in Hf; [|done]. simplify_eq.
        unfold frag_bytes. rewrite encode_all_app. simpl. by rewrite app_nil_r, app_assoc.
    + by rewrite Ei.
    + unfold cur', next_frag. destruct nt; [by constructor|].
      apply Forall_app. split; [apply Hok|by constructor].
    + right. done.
  - destruct nt; tauto.
Qed.

Lemma thread_ok_dead t :
  stack_ok t → dead (th_writer t) → is_u32 (wi_enumerator (th_writer t)) → thread_ok t [].
Proof.
  intros Hs Hd He. pose proof Hd as (Hb & _). split; try done.
  - split; [done|]. right. by apply dead_idle.
  - right. unfold pending. by rewrite Hb.
  - by left.
Qed.

Lemma stack_ok_same t t' :
  stack_ok t → th_stack t' = th_stack t → th_stack_size t' = th_stack_size t →
  th_stack_capacity t' = th_stack_capacity t →
  0 <= th_stack_bottom t' <= th_stack_size t → stack_ok t' ∧ stack_of t' = stack_of t.
Proof.
  intros [] E1 E2 E3 Hb. assert (stack_of t' = stack_of t) as E by (unfold stack_of; congruence).
  split; [|done]. split; rewrite ?E, ?E1, ?E2, ?E3; done.
Qed.

(** What a thread has recorded: the entries of the closed fragments and of the
    current one, each fragment read on its own from the empty stack. *)
Definition closed_events (frags : list (list entry)) : list event := concat (replay [] <$> frags).

Definition recorded (frags : list (list entry)) (cur : list entry) : list event :=
  closed_events frags ++ replay [] cur.

Lemma closed_events_app a b : closed_events (a ++ b) = closed_events a ++ closed_events b.
Proof. unfold closed_events. by rewrite fmap_app, concat_app. Qed.

Record trace_ok (th : coldtrace_thread) (w : world) (frags : list (list entry))
    (cur : list entry) : Prop := {
  to_thread : thread_ok th cur;
  to_closed : closed_frags w = frag_bytes <$> frags;
  to_frags : Forall (fun es => Forall entry_wf es ∧ diffs_ok [] es) frags;
}.

Definition frags_ok (frags : list (list entry)) : Prop :=
  Forall (fun es => Forall entry_wf es ∧ diffs_ok [] es) frags.

(** Closing the current fragment. *)
Lemma trace_ok_close th w frags cur extra cl :
  trace_ok th w frags cur → only_headers extra →
  cl = closed_frags w ++ pending (th_writer th) ++ extra →
  ∃ frags', cl = frag_bytes <$> frags' ∧
    closed_events frags' = closed_events frags ++ replay [] cur ∧ frags_ok frags'.
Proof.
  intros [Ht Hcl Hf] Hex ->.
  assert (∃ ex, extra = frag_bytes <$> ex ∧ Forall (eq []) ex) as (ex & -> & Hex').
  { destruct Hex as [->| ->]; [by exists []|]. exists [[]]. split; [|by repeat constructor].
    unfold frag_bytes. simpl. by rewrite app_nil_r. }
  assert (∃ cs, pending (th_writer th) = frag_bytes <$> cs ∧ closed_events cs = replay [] cur
    ∧ frags_ok cs) as (cs & -> & Hcs & Hok).
  { destruct (tk_pending _ _ Ht) as [->|[-> ->]]; [|exists []; repeat split; constructor].
    exists [cur]. split; [done|]. split; [apply app_nil_r|].
    constructor; [split; apply Ht|done]. }
  exists (frags ++ cs ++ ex). rewrite !fmap_app, Hcl. split; [done|].
  assert (closed_events ex = []) as Hn.
  { clear -Hex'. unfold closed_events. induction Hex' as [|? ? <- _ IH]; [done|].
    rewrite fmap_cons. exact IH. }
  split.
  - rewrite !closed_events_app, Hn, Hcs. by rewrite app_nil_r.
  - unfold frags_ok. rewrite !Forall_app. split_and!; [done..|].
    apply (Forall_impl _ _ _ Hex'). by intros ? <-.
Qed.

(** The events [evs] come after all earlier ones: in the current fragment, or in
    a new one after the current one was closed. *)
Definition records (frags : list (list entry)) (cur : list entry) (evs : list event)
    (frags' : list (list entry)) (cur' : list entry) : Prop :=
  closed_events frags' = closed_events frags ∧ replay [] cur' = replay [] cur ++ evs ∨
  closed_events frags' = closed_events frags ++ replay [] cur ∧ replay [] cur' = evs.

Lemma records_recorded frags cur evs frags' cur' :
  records frags cur evs frags' cur' → recorded frags' cur' = recorded frags cur ++ evs.
Proof. unfold recorded. intros [[-> ->]|[-> ->]]; by rewrite ?app_assoc. Qed.

(** The invariant after a log, from the facts about its reservation. *)
Lemma trace_ok_logged th w frags cur th' w' nt e :
  trace_ok th w frags cur →
  thread_ok th' (next_frag nt cur e) →
  (if nt then ∃ extra, only_headers extra ∧
                closed_frags w' = closed_frags w ++ pending (th_writer th) ++ extra
   else closed_frags w' = closed_frags w) →
  ∃ frags', trace_ok th' w' frags' (next_frag nt cur e) ∧
    records frags cur [to_event (if nt then [] else final_stack cur) e]
      frags' (next_frag nt cur e).
Proof.
  intros Hok Ht Hcl. destruct nt; simpl in *.
  - destruct Hcl as (extra & Hex & Hcl).
    destruct (trace_ok_close _ _ _ _ _ _ Hok Hex Hcl) as (frags' & Hcl' & Hrec & Hf').
    exists frags'. split; [by split|]. by right.
  - exists frags. split; [destruct Hok; split; congruence || done|].
    left. split; [done|]. apply replay_app.
Qed.

(** What logging promises: the event is recorded after all earlier ones, or
    nothing is and the thread cannot record any more; the stack is not touched. *)
Definition log_post (t : coldtrace_thread) (frags : list (list entry)) (cur : list entry)
    (evs : list event) (t' : coldtrace_thread) (w' : world) : Prop :=
  (∃ frags' cur', trace_ok t' w' frags' cur' ∧ records frags cur evs frags' cur') ∧
  stack_of t' = stack_of t ∧ th_failed t' = th_failed t ∧ th_initd t' = true ∧
  th_stack_size t' = th_stack_size t ∧ th_stack_capacity t' = th_stack_capacity t.

Lemma log_none c t w m wr w' frags cur t' :
  trace_ok t w frags cur → config_ok c →
  coldtrace_writer_reserve junk c (th_writer t) w m = Ret (None, wr, w') →
  th_writer t' = wr → stack_ok t' →
  dead wr ∧ ∃ frags' cur', trace_ok t' w' frags' cur' ∧ records frags cur [] frags' cur'.
Proof.
  intros Hok Hc Hres <- Hs.
  apply reserve_spec in Hres as (He & Hd & extra & Hex & Hcl);
    [|done|apply (to_thread _ _ _ _ Hok)|done].
  split; [done|].
  destruct (trace_ok_close _ _ _ _ _ _ Hok Hex Hcl) as (frags' & Hcl' & Hrec & Hf').
  exists frags', []. split; [split; [by apply thread_ok_dead|done..]|]. by right.
Qed.

(** A successful reservation that does not start a fragment has one at hand. *)
Lemma reserve_continues c i w m p i' w' :
  writer_ok i → config_ok c → 0 < m < 2 ^ 62 →
  coldtrace_writer_reserve junk c i w m = Ret (Some p, i', w') →
  0 <= p ∧ (∃ b, wi_buffer i' = Some b) ∧
  (coldtrace_writer_new_trace c i m = false → wi_buffer i ≠ None).
Proof.
  intros Hok Hc Hm H. apply reserve_spec in H as (_ & _ & _ & b & (Hb & _) & Hcase); [|done..].
  destruct Hcase as [(_ & Hbi & -> & _)|(Hnt & -> & _)].
  - split; [|by rewrite Hbi; eauto].
    destruct Hok as [_ [(? & ? & ? & ?)|(? & _)]]; [lia|congruence].
  - split; [done|]. split; [eauto|]. intros Hf.
    destruct Hnt as [|[? ?]]; [congruence|]. by rewrite idle_new_trace in Hf.
Qed.

(** The stack the diff of the next entry starts from, and its consistency. *)
Lemma next_frag_stack nt cur e :
  final_stack (next_frag nt cur e) = apply_diff (if nt then [] else final_stack cur) (en_stack e) ∧
  (diffs_ok [] cur → diffs_ok (if nt then [] else final_stack cur) [e] →
   diffs_ok [] (next_frag nt cur e)).
Proof.
  unfold next_frag. destruct nt; [done|]. split; [by rewrite final_stack_snoc|].
  intros. by apply diffs_ok_app.
Qed.

(** Logging [e] at the reserved place keeps the invariant and records [ev], when
    [ev] is how a reader sees [e]. *)
Lemma log_commit c t w frags cur e ev p wr w' b t' :
  trace_ok t w frags cur → config_ok c → th_initd t = true → entry_wf e →
  let m := len (encode_entry e) in
  coldtrace_writer_reserve junk c (th_writer t) w m = Ret (Some p, wr, w') →
  wi_buffer wr = Some b → p + m <= len b →
  th_writer t' = set_buffer
    (Some (take (Z.to_nat p) b ++ encode_entry e ++ drop (Z.to_nat (p + m)) b)) wr →
  th_initd t' = true → th_failed t' = th_failed t → th_stack t' = th_stack t →
  th_stack_size t' = th_stack_size t → th_stack_capacity t' = th_stack_capacity t →
  0 <= th_stack_bottom t' <= th_stack_size t →
  let nt := coldtrace_writer_new_trace c (th_writer t) m in
  let base := if nt then [] else final_stack cur in
  diffs_ok base [e] → to_event base e = ev →
  th_stack_bottom t' <= len (apply_diff base (en_stack e)) →
  take (Z.to_nat (th_stack_bottom t')) (apply_diff base (en_stack e))
    = take (Z.to_nat (th_stack_bottom t')) (stack_of t) →
  log_post t frags cur [ev] t' w'.
Proof.
  intros Hok Hc Hi Hwf m Hres Hb Hfit Ew Ei Ef Es Ez Ec Hbr nt base Hd Hev Hb1 Hb2.
  pose proof (to_thread _ _ _ _ Hok) as Ht.
  destruct (stack_ok_same t t') as [Hs' Hst']; try done; [apply Ht|].
  destruct (next_frag_stack nt cur e) as [Hfs Hdn]. fold base in Hfs, Hdn.
  destruct (thread_ok_logged c t w cur e p wr w' b t') as [Ht' Hcl']; try done; fold m nt.
  - apply Hdn; [apply Ht|done].
  - by rewrite Hfs.
  - by rewrite Hfs, Hst'.
  - fold m nt in Ht', Hcl'.
    destruct (trace_ok_logged _ _ _ _ _ _ _ _ Hok Ht' Hcl') as (frags' & Hok' & Hrec).
    split; [|done]. exists frags', (next_frag nt cur e). split; [done|].
    fold base in Hrec. by rewrite <- Hev.
Qed.

(** What the reader knows of the stack, unless a new fragment is started. *)
Lemma known_bottom c t cur m w p wr w' :
  thread_ok t cur → config_ok c → 0 < m < 2 ^ 62 →
  coldtrace_writer_reserve junk c (th_writer t) w m = Ret (Some p, wr, w') →
  coldtrace_writer_new_trace c (th_writer t) m = false →
  th_stack_bottom t <= len (final_stack cur) ∧
  take (Z.to_nat (th_stack_bottom t)) (final_stack cur)
    = take (Z.to_nat (th_stack_bottom t)) (stack_of t).
Proof.
  intros Ht Hc Hm Hres Hnt.
  destruct (reserve_continues c (th_writer t) w m p wr w') as (_ & _ & Hcont); try done; [apply Ht|].
  destruct (tk_bottom _ _ Ht) as [?|?]; [|done]. by destruct Hcont.
Qed.

Lemma fixed_size_range type fields n :
  request_ok type fields → coldtrace_entry_fixed_size type = Ret n → 8 <= n <= 40.
Proof.
  intros [Ht Hv Hc _] Hn. rewrite fixed_size_fields in Hn by done. injection Hn as <-.
  assert (field_count (base_type type) ≤ 3)%nat
    by (unfold field_count; repeat case_match; lia).
  unfold diff_header, sizeof_stack_diff. case_match; lia.
Qed.

Lemma len_entry_small e : entry_wf e → 0 < len (encode_entry e) < 2 ^ 62.
Proof.
  intros Hwf. rewrite len_encode_entry by done. pose proof (wf_stack _ Hwf) as Hst.
  unfold diff_header, sizeof_stack_diff, field_count.
  destruct (en_stack e) as [[q d]|]; simpl in *; [destruct Hst as (_ & ? & ? & _)|];
  repeat case_match; ulia.
Qed.

Lemma log_plain_step c t w type ptr fields n o wr w' frags cur :
  trace_ok t w frags cur → config_ok c → th_initd t = true →
  request_ok type fields → with_stack_ type = false → coldtrace_entry_fixed_size type = Ret n →
  coldtrace_writer_reserve junk c (th_writer t) w n = Ret (o, wr, w') →
  (∀ p b, o = Some p → wi_buffer wr = Some b → p + n <= len b) →
  ∃ r t', obind (append_plain junk c t w n type ptr) (store_fields fields) = Ret (r, t', w') ∧
    log_post t frags cur (if r then [event_of t type ptr fields] else []) t' w' ∧
    (r = false → dead (th_writer t')).
Proof.
  intros Hok Hc Hi Hr Hst Hn Hres Hfit.
  pose proof (to_thread _ _ _ _ Hok) as Ht. pose proof (tk_stack _ _ Ht) as Hs.
  pose proof (sk_bottom _ Hs) as Hb0.
  set (nt := coldtrace_writer_new_trace c (th_writer t) n).
  destruct o as [p|].
  - set (e := new_entry t type ptr fields 0).
    pose proof (new_entry_wf t type ptr fields 0 Hr Hs ltac:(lia)) as Hwf.
    pose proof (len_new_entry t type ptr fields 0 Hr Hs ltac:(lia)) as Hlen.
    rewrite Hst, Hn in Hlen. fold e in Hlen, Hwf. injection Hlen as Hlen. rewrite Z.sub_0_r in Hlen.
    pose proof (len_entry_small e Hwf) as Hsmall. rewrite <- Hlen in Hsmall.
    assert (en_stack e = None) as Hes by (unfold e, new_entry; simpl; by rewrite Hst).
    destruct (reserve_continues c (th_writer t) w n p wr w') as (Hp & (b & Hb) & _); try done.
    { apply Ht. }
    specialize (Hfit p b eq_refl Hb).
    rewrite (log_plain_eval c t w type ptr fields n p wr w' b Hr Hst Hn Hres Hb Hp Hfit).
    eexists true, _. split; [done|]. split; [|done]. fold e nt.
    pose proof (known_bottom c t cur n w p wr w' Ht Hc Hsmall Hres) as Hkn. fold nt in Hkn.
    apply (log_commit c t w frags cur e _ p wr w' b); rewrite <- ?Hlen; fold nt; rewrite ?Hes;
      try done; try (by destruct nt).
    + destruct nt; simpl; lia.
    + cbn [diffs_ok]. by rewrite Hes.
    + unfold to_event, event_of. by rewrite Hes, Hst.
    + destruct nt; [done|]. by apply Hkn.
    + destruct nt; [done|]. by apply Hkn.
  - unfold append_plain. fold nt. assert (∀ x : bool, th_writer (if x then set_stack_bottom 0 t else t) = th_writer t) as Hw by by intros [].
    rewrite Hw, Hres. simpl. eexists false, _. split; [done|].
    set (t' := set_writer wr _).
    destruct (stack_ok_same t t' Hs) as [Hs' Hst']; try (unfold t'; by destruct nt).
    { unfold t'. destruct nt; simpl; lia. }
    destruct (log_none c t w n wr w' frags cur t') as [Hd Hrec]; try done.
    split; [|done]. split; [done|]. split; [done|]. unfold t'. by destruct nt.
Qed.

(** A writer that can reserve has an offset that a buffer can have. *)
Lemma reserve_offset c i w m p i' w' :
  writer_ok i → coldtrace_writer_reserve junk c i w m = Ret (Some p, i', w') →
  0 <= wi_offset i < 2 ^ 32.
Proof.
  intros [_ [(b & (_ & _ & _ & _ & _ & Hsz & _) & Hin)|(Hb & Hcb & Hz)]] H.
  - unfold inside, LZ4_MAX_INPUT_SIZE in *. lia.
  - unfold coldtrace_writer_reserve, ensure_buffer_ in H.
    destruct (wi_initd i); [|done]. destruct (wi_failed i); [done|].
    destruct Hz as [_ ->]; done.
Qed.

Lemma new_trace_mono c i k m :
  0 <= wi_offset i < 2 ^ 32 → 0 <= k <= m → m < 2 ^ 62 →
  coldtrace_writer_new_trace c i k = true → coldtrace_writer_new_trace c i m = true.
Proof.
  unfold coldtrace_writer_new_trace. intros Ho Hk Hm. rewrite !u64_id by ulia.
  rewrite !Z.ltb_lt. lia.
Qed.

(** The appender and the reservation agree on whether a new fragment starts,
    although they ask for different sizes. *)
Lemma kept_agrees c t n w p wr w' :
  writer_ok (th_writer t) → stack_ok t → 0 <= n < 2 ^ 32 →
  let m := n + 8 * (th_stack_size t - kept c t n) in
  coldtrace_writer_reserve junk c (th_writer t) w m = Ret (Some p, wr, w') →
  kept c t n = if coldtrace_writer_new_trace c (th_writer t) m then 0 else th_stack_bottom t.
Proof.
  intros Hw Hs Hn m Hres. pose proof (reserve_offset _ _ _ _ _ _ _ Hw Hres) as Ho.
  pose proof (sk_size _ Hs). pose proof (sk_u32 _ Hs). pose proof (sk_bottom _ Hs).
  subst m. unfold kept.
  destruct (coldtrace_writer_new_trace c (th_writer t) _) eqn:E; [|by rewrite E].
  erewrite new_trace_mono; [done|done| | |exact E]; ulia.
Qed.

Lemma log_stack_step c t w type ptr fields n o wr w' frags cur :
  trace_ok t w frags cur → config_ok c → th_initd t = true →
  request_ok type fields → with_stack_ type = true → coldtrace_entry_fixed_size type = Ret n →
  let m := n + 8 * (th_stack_size t - kept c t n) in
  coldtrace_writer_reserve junk c (th_writer t) w m = Ret (o, wr, w') →
  (∀ p b, o = Some p → wi_buffer wr = Some b → p + m <= len b) →
  ∃ r t', obind (append_stack junk c t w n type ptr) (store_fields fields) = Ret (r, t', w') ∧
    log_post t frags cur (if r then [event_of t type ptr fields] else []) t' w' ∧
    (r = false → dead (th_writer t')).
Proof.
  intros Hok Hc Hi Hr Hst Hn m Hres Hfit.
  pose proof (to_thread _ _ _ _ Hok) as Ht. pose proof (tk_stack _ _ Ht) as Hs.
  pose proof (sk_bottom _ Hs) as Hb0. pose proof (kept_range c t n Hs) as Hbr.
  destruct o as [p|].
  - set (e := new_entry t type ptr fields (kept c t n)).
    pose proof (new_entry_wf t type ptr fields (kept c t n) Hr Hs Hbr) as Hwf.
    pose proof (len_new_entry t type ptr fields (kept c t n) Hr Hs Hbr) as Hlen.
    rewrite Hst, Hn in Hlen. fold e in Hlen, Hwf. injection Hlen as Hlen.
    assert (m = len (encode_entry e)) as Hm by lia. clear Hlen.
    pose proof (len_entry_small e Hwf) as Hsmall. rewrite <- Hm in Hsmall.
    assert (en_stack e = Some (kept c t n, drop (Z.to_nat (kept c t n)) (stack_of t))) as Hes
      by (unfold e, new_entry; simpl; by rewrite Hst).
    destruct (reserve_continues c (th_writer t) w m p wr w') as (Hp & (b & Hb) & _); try done.
    { apply Ht. }
    specialize (Hfit p b eq_refl Hb).
    rewrite (log_stack_eval c t w type ptr fields n p wr w' b Hr Hst Hn Hs Hres Hb Hp Hfit).
    eexists true, _. split; [done|]. split; [|done]. fold e m.
    pose proof (known_bottom c t cur m w p wr w' Ht Hc Hsmall Hres) as Hkn.
    set (nt := coldtrace_writer_new_trace c (th_writer t) m) in *.
    assert (kept c t n = if nt then 0 else th_stack_bottom t) as Hkept.
    { eapply kept_agrees; try done; [apply Ht|].
      pose proof (fixed_size_range _ _ _ Hr Hn). lia. }
    pose proof (stack_of_length _ Hs) as Hdep.
    assert (apply_diff (if nt then [] else final_stack cur) (en_stack e) = stack_of t) as Hap.
    { rewrite Hes, Hkept. simpl. destruct nt; [done|].
      destruct Hkn as [_ ->]; [done|]. apply take_drop. }
    apply (log_commit c t w frags cur e _ p wr w' b); rewrite <- ?Hm; fold nt; rewrite ?Hap; try done.
    + simpl. lia.
    + cbn [diffs_ok]. rewrite Hes. split; [|done]. rewrite Hkept. destruct nt; [done|].
      destruct Hkn as [? _]; [done|]. lia.
    + unfold to_event, event_of. rewrite Hap. by rewrite Hes, Hst.
    + simpl. lia.
  - rewrite (append_stack_reduce _ _ _ _ _ _ _ Hr Hst Hn Hs). fold m. rewrite Hres. simpl.
    eexists false, _. split; [done|].
    destruct (stack_ok_same t (set_writer wr t) Hs) as [Hs' Hst']; try done.
    destruct (log_none c t w m wr w' frags cur (set_writer wr t)) as [Hd Hrec]; try done.
Qed.

Lemma trace_ok_get md th w frags cur :
  trace_ok th w frags cur → trace_ok (get_coldtrace_thread md th) w frags cur.
Proof. intros [Ht Hcl Hf]. split; [by apply get_thread_ok|done..]. Qed.

(** Space for the entry with the whole stack, in a fragment of its own. *)
Definition entry_fits (c : config) (th : coldtrace_thread) (type : Z) : Prop :=
  ∀ n, coldtrace_entry_fixed_size type = Ret n →
    8 + n + (if with_stack_ type then 8 * th_stack_size th else 0) <= buf_size c (th_writer th).

Lemma reserve_fits c i w m p i' w' b :
  writer_ok i → config_ok c → 0 < m < 2 ^ 62 →
  coldtrace_writer_reserve junk c i w m = Ret (Some p, i', w') → wi_buffer i' = Some b →
  8 + m <= buf_size c i → p + m <= len b.
Proof.
  intros Hok Hc Hm Hres Hb Hfit. pose proof (reserve_offset _ _ _ _ _ _ _ Hok Hres) as Ho.
  apply reserve_spec in Hres as (_ & _ & Hsz & b' & (Hb' & _ & _ & _ & Hlen & _) & Hcase); [|done..].
  simplify_eq. destruct Hcase as [(Hnt & Hbi & -> & _)|(_ & -> & _)]; [|lia].
  unfold coldtrace_writer_new_trace in Hnt. rewrite u64_id in Hnt by ulia.
  apply Z.ltb_ge in Hnt. unfold buf_size in *. rewrite Hbi in *.
  destruct (Z.ltb_spec (coldtrace_get_trace_size c) (wi_size i)); lia.
Qed.

(** The reservation an append performs. *)
Definition reserve_size (c : config) (t : coldtrace_thread) (type n : Z) : Z :=
  if with_stack_ type then n + 8 * (th_stack_size t - kept c t n) else n.

Definition log_body (c : config) (t : coldtrace_thread) (w : world) (type ptr n : Z)
    (fields : list Z) : outcome (bool * coldtrace_thread * world) :=
  obind (if negb (with_stack_ type) then append_plain junk c t w n type ptr
         else append_stack junk c t w n type ptr) (store_fields fields).

Lemma log_entry_unfold c md th w type ptr fields n :
  request_ok type fields → coldtrace_entry_fixed_size type = Ret n →
  log_entry c md th w type ptr fields =
  let t := get_coldtrace_thread md th in
  if th_failed t then Ret (false, t, w) else log_body c t w type ptr n fields.
Proof.
  intros Hr Hn. pose proof (fixed_size_range _ _ _ Hr Hn).
  unfold log_entry, coldtrace_thread_append, log_body. cbv zeta.
  destruct (th_failed _); [done|]. rewrite Hn. simpl. destruct (Z.eqb_spec n 0); [lia|].
  by destruct (with_stack_ type).
Qed.

Lemma log_body_step c t w type ptr fields n o wr w' frags cur :
  trace_ok t w frags cur → config_ok c → th_initd t = true →
  request_ok type fields → coldtrace_entry_fixed_size type = Ret n →
  let m := reserve_size c t type n in
  coldtrace_writer_reserve junk c (th_writer t) w m = Ret (o, wr, w') →
  (∀ p b, o = Some p → wi_buffer wr = Some b → p + m <= len b) →
  ∃ r t', log_body c t w type ptr n fields = Ret (r, t', w') ∧
    log_post t frags cur (if r then [event_of t type ptr fields] else []) t' w' ∧
    (r = false → dead (th_writer t')).
Proof.
  unfold log_body, reserve_size. intros Hok Hc Hi Hr Hn. destruct (with_stack_ type) eqn:Hst.
  - intros. by eapply log_stack_step.
  - intros. by eapply log_plain_step.
Qed.

Lemma log_body_inv c t w type ptr fields n r :
  stack_ok t → request_ok type fields → coldtrace_entry_fixed_size type = Ret n →
  log_body c t w type ptr n fields = Ret r →
  let m := reserve_size c t type n in
  ∃ o wr w', coldtrace_writer_reserve junk c (th_writer t) w m = Ret (o, wr, w') ∧
    ∀ p b, o = Some p → wi_buffer wr = Some b → p + m <= len b.
Proof.
  unfold log_body, reserve_size. intros Hs Hr Hn H. destruct (with_stack_ type) eqn:Hst; simpl in *.
  - pose proof H as H0. rewrite (append_stack_reduce _ _ _ _ _ _ _ Hr Hst Hn Hs) in H0.
    destruct (coldtrace_writer_reserve junk c (th_writer t) w _) as [[[o wr] w']| |] eqn:E; [|done..].
    exists o, wr, w'. split; [done|]. intros p b -> Hb. by eapply log_stack_bound.
  - pose proof H as H0. unfold append_plain in H0.
    assert (∀ x : bool, th_writer (if x then set_stack_bottom 0 t else t) = th_writer t) as Hw
      by by intros [].
    rewrite Hw in H0.
    destruct (coldtrace_writer_reserve junk c (th_writer t) w n) as [[[o wr] w']| |] eqn:E; [|done..].
    exists o, wr, w'. split; [done|]. intros p b -> Hb. by eapply log_plain_bound.
Qed.

Lemma log_post_get md th w frags cur evs t' w' :
  trace_ok th w frags cur →
  log_post (get_coldtrace_thread md th) frags cur evs t' w' → log_post th frags cur evs t' w'.
Proof.
  intros [Ht _ _] (H & H1 & H2 & H3 & H4 & H5).
  destruct (get_thread_ok md th cur Ht) as (_ & _ & E1 & E2 & _ & E3 & E4).
  split; [done|]. split_and!; congruence.
Qed.

Lemma event_of_get md th cur type ptr fields :
  thread_ok th cur →
  event_of (get_coldtrace_thread md th) type ptr fields = event_of th type ptr fields.
Proof. intros Ht. unfold event_of. by destruct (get_thread_ok md th cur Ht) as (_ & _ & -> & _). Qed.

(** Every log that returns records its event after the earlier ones, or reports
    that it did not. *)
Lemma log_spec c md th w type ptr fields r th' w' frags cur :
  trace_ok th w frags cur → config_ok c → request_ok type fields →
  log_entry c md th w type ptr fields = Ret (r, th', w') →
  log_post th frags cur (if r then [event_of th type ptr fields] else []) th' w' ∧
  (r = false → th_failed th' = true ∨ dead (th_writer th')).
Proof.
  intros Hok Hc Hr H. pose proof (to_thread _ _ _ _ Hok) as Ht.
  pose proof (fixed_size_fields type (rq_type _ _ Hr) (rq_valid _ _ Hr)) as Hn.
  rewrite (log_entry_unfold _ _ _ _ _ _ _ _ Hr Hn) in H. cbv zeta in H.
  pose proof (trace_ok_get md _ _ _ _ Hok) as Hok1.
  destruct (get_thread_ok md th cur Ht) as (Ht1 & _ & E1 & E2 & E3 & E4 & E5).
  rewrite <- (event_of_get md th cur) by done.
  set (t := get_coldtrace_thread md th) in *.
  destruct (th_failed t) eqn:Hf.
  - injection H as <- <- <-. split; [|by left]. eapply (log_post_get md); [exact Hok|]. fold t.
    split; [|done]. exists frags, cur. split; [done|]. left. by rewrite app_nil_r.
  - destruct (log_body_inv _ _ _ _ _ _ _ _ (tk_stack _ _ Ht1) Hr Hn H) as (o & wr & w1 & Hres & Hfit).
    destruct (log_body_step _ _ _ _ ptr _ _ _ _ _ _ _ Hok1 Hc E3 Hr Hn Hres Hfit) as (r' & t' & H' & Hp & Hd).
    rewrite H in H'. simplify_eq. split; [|auto]. eapply (log_post_get md); [exact Hok|done].
Qed.

Lemma buf_size_get md th cur c :
  thread_ok th cur → buf_size c (th_writer (get_coldtrace_thread md th)) = buf_size c (th_writer th).
Proof.
  intros Ht. unfold get_coldtrace_thread, buf_size. destruct (th_initd th) eqn:Hi; [done|].
  simpl. by rewrite (tk_initd _ _ Ht Hi).
Qed.

(** A log whose entry fits a fragment always returns. *)
Lemma log_returns c md th w type ptr fields frags cur :
  trace_ok th w frags cur → config_ok c → request_ok type fields → world_small w →
  entry_fits c th type → ∃ r th' w', log_entry c md th w type ptr fields = Ret (r, th', w').
Proof.
  intros Hok Hc Hr Hw Hfits. pose proof (to_thread _ _ _ _ Hok) as Ht.
  pose proof (fixed_size_fields type (rq_type _ _ Hr) (rq_valid _ _ Hr)) as Hn.
  specialize (Hfits _ Hn). pose proof (fixed_size_range _ _ _ Hr Hn) as Hnr.
  rewrite (log_entry_unfold _ _ _ _ _ _ _ _ Hr Hn). cbv zeta.
  pose proof (trace_ok_get md _ _ _ _ Hok) as Hok1.
  destruct (get_thread_ok md th cur Ht) as (Ht1 & _ & E1 & E2 & E3 & E4 & E5).
  rewrite <- (buf_size_get md th cur) in Hfits by done. rewrite <- E4 in Hfits.
  set (t := get_coldtrace_thread md th) in *.
  set (n := 8 + 8 * Z.of_nat (field_count (base_type type)) + diff_header type) in *.
  destruct (th_failed t); [eauto|].
  destruct (reserve_total junk c (th_writer t) w (reserve_size c t type n))
    as (o & wr & w1 & Hres); [apply Ht1|done..|].
  pose proof (tk_stack _ _ Ht1) as Hs. pose proof (kept_range c t n Hs) as Hk.
  pose proof (sk_size _ Hs). pose proof (sk_u32 _ Hs).
  destruct (log_body_step _ _ _ _ ptr _ _ _ _ _ _ _ Hok1 Hc E3 Hr Hn Hres) as (r & t' & -> & _); [|eauto].
  intros p b -> Hb. eapply reserve_fits; try done; [apply Ht1|..];
    unfold reserve_size; case_match; ulia.
Qed.

Lemma reserve_behind_header c i w n p i' w' :
  writer_ok i → config_ok c → coldtrace_writer_reserve junk c i w n = Ret (Some p, i', w') → 8 <= p.
Proof.
  intros Hok Hc (_ & _ & _ & b & _ & [(_ & Hbi & -> & _)|(_ & -> & _)])%reserve_spec; [|done..].
  destruct Hok as [_ [(? & ? & ? & ?)|(? & _)]]; [done|congruence].
Qed.

(** A fragment is only left when the entry does not fit behind the offset. *)
Lemma new_trace_full c i n b :
  writer_ok i → 0 < n < 2 ^ 62 → wi_buffer i = Some b → coldtrace_writer_new_trace c i n = true →
  Z.min (coldtrace_get_trace_size c) (len b) < wi_offset i + n.
Proof.
  intros [_ [(b' & (Hb & _ & _ & _ & Hlen & Hsz & _) & Hin)|(Hb & _)]] Hn Eb Hnt; [|congruence].
  rewrite Hb in Eb. injection Eb as ->. unfold coldtrace_writer_new_trace, inside, LZ4_MAX_INPUT_SIZE in *.
  rewrite u64_id in Hnt by ulia. apply Z.ltb_lt in Hnt.
  destruct (Z.ltb_spec (coldtrace_get_trace_size c) (wi_size i)); lia.
Qed.

(** C27: a reservation hands out memory inside the buffer and directly behind the
    entries that are there.  For a writer in any reachable state and a request that
    fits an empty fragment, [coldtrace_writer_reserve] returns.  It gives NULL only
    when the writer can no longer be used.  Otherwise the [size] bytes at the pointer
    lie in the buffer and end where the next entry will start; and the pointer is the
    old offset in the same buffer, whose bytes and the pages closed so far are as they
    were, or it is the place behind the header of a new fragment, what was recorded
    before has been handed to the close hook, and the entry did not fit behind it. *)
Theorem reserve_in_bounds c i w n :
  writer_ok i → config_ok c → world_small w → 0 < n < 2 ^ 62 → 8 + n <= buf_size c i →
  ∃ r i' w', coldtrace_writer_reserve junk c i w n = Ret (r, i', w') ∧
    match r with
    | None => dead i'
    | Some p => ∃ b, live i' b ∧ 8 <= p ∧ p + n <= len b ∧ wi_offset i' = p + n ∧
        (wi_buffer i = Some b ∧ p = wi_offset i ∧ closed_frags w' = closed_frags w
         ∨ p = 8 ∧ (∃ extra, only_headers extra ∧ closed_frags w' = closed_frags w ++ pending i ++ extra) ∧
           ∀ b0, wi_buffer i = Some b0 → Z.min (coldtrace_get_trace_size c) (len b0) < wi_offset i + n)
    end.
Proof.
  intros Hok Hc Hw Hn Hfit. destruct (reserve_total junk c i w n Hok Hc Hw) as (r & i' & w' & E).
  exists r, i', w'. split; [done|]. pose proof E as E'.
  apply reserve_spec in E' as (_ & Hr); [|done..]. destruct r as [p|]; [|by destruct Hr].
  destruct Hr as (Ho & _ & b & Hl & Hcase). exists b. split; [done|].
  destruct Hl as (Hb & _ & _ & _ & Hlen & Hsz & _). unfold LZ4_MAX_INPUT_SIZE in *.
  pose proof (reserve_behind_header _ _ _ _ _ _ _ Hok Hc E) as Hp.
  pose proof (reserve_fits c i w n p i' w' b Hok Hc Hn E Hb Hfit) as Hpn.
  do 2 (split; [done|]). split; [rewrite Ho, u64_id; ulia|].
  destruct Hcase as [(_ & Hbi & -> & Hcl)|(Hnt & -> & Hex)]; [by left|right]. split; [done|]. split; [done|].
  intros b0 Hb0. destruct Hnt as [Hnt|[Hz _]]; [by eapply new_trace_full|].
  destruct Hok as [_ [(b1 & (_ & _ & _ & _ & _ & Hsz1 & _) & _)|(Hn0 & _)]]; [lia|congruence].
Qed.

(** C39: a request larger than an empty fragment is granted beyond the buffer.  For
    a writer in any reachable state and a request that does not fit behind the header
    of a fragment, [coldtrace_writer_reserve] returns NULL only when the writer can no
    longer be used; otherwise it hands out a pointer whose [size] bytes end behind the
    buffer, so that writing the entry there is out of bounds: the reservation starts a
    new fragment but does not check that the entry fits it. *)
Theorem oversized_request_overflows c i w n :
  writer_ok i → config_ok c → world_small w → 0 < n < 2 ^ 62 → buf_size c i < 8 + n →
  ∃ r i' w', coldtrace_writer_reserve junk c i w n = Ret (r, i', w') ∧
    match r with
    | None => dead i'
    | Some p => ∃ b, wi_buffer i' = Some b ∧ len b < p + n ∧ ∀ bs, len bs = n → store b p bs = None
    end.
Proof.
  intros Hok Hc Hw Hn Hbig. destruct (reserve_total junk c i w n Hok Hc Hw) as (r & i' & w' & E).
  exists r, i', w'. split; [done|]. pose proof E as E'.
  apply reserve_spec in E' as (_ & Hr); [|done..]. destruct r as [p|]; [|by destruct Hr].
  destruct Hr as (_ & Hsz & b & (Hb & _ & _ & _ & Hlen & _) & _). exists b. split; [done|].
  pose proof (reserve_behind_header _ _ _ _ _ _ _ Hok Hc E) as Hp. split; [lia|].
  intros bs Hbs. destruct (store b p bs) as [b'|] eqn:Es; [|done]. apply store_inv in Es as (_ & H & _). lia.
Qed.
End Trace.
