(* ===== verification/Reader.v ===== *)
(** * Reading fragments back

    The entry iterator of test/checkers/trace_checker.c, which walks the page
    handed to [coldtrace_writer_close] with the parsers of entries.c, and the
    unpacking of a fragment file, [_decompress] of scripts/trace_dump.py. *)

From stdpp Require Import base list numbers strings gmap.
From Stdlib Require Import ZArith Lia.
From S2P Require Import Prelude Version Entries Libc Utils Config Codec Lz4 Writer Thread Trace.

(** ** The iterator *)

(** [struct entry_it]; the page it points into is an argument of the functions. *)
Record entry_it := EntryIt {
  it_buf : Z;
  it_size : Z;
}.

Definition iter_init (buf size : Z) : entry_it :=
  EntryIt (buf + sizeof_version_header) (u64 (size - sizeof_version_header)).

Definition iter_advance (mem : list Z) (it : entry_it) : outcome entry_it :=
  if it_size it <? 8 then Ret it
  else
    let! size := coldtrace_entry_get_size mem (it_buf it) in
    if size =? 0 then Ret it
    else Ret (EntryIt (it_buf it + size) (u64 (it_size it - size))).

Definition iter_next (mem : list Z) (it : entry_it) : outcome bool :=
  if it_size it <? 8 then Ret false
  else
    let! size := coldtrace_entry_get_size mem (it_buf it) in
    Ret (0 <? size).

Definition iter_type (mem : list Z) (it : entry_it) : outcome Z :=
  coldtrace_entry_parse_type mem (it_buf it).
Definition iter_pointer_value (mem : list Z) (it : entry_it) : outcome Z :=
  coldtrace_entry_parse_ptr mem (it_buf it).
Definition iter_size (mem : list Z) (it : entry_it) : outcome Z :=
  coldtrace_entry_parse_size mem (it_buf it).
Definition iter_atomic_index_value (mem : list Z) (it : entry_it) : outcome Z :=
  coldtrace_entry_parse_atomic_index mem (it_buf it).
Definition iter_alloc_index_value (mem : list Z) (it : entry_it) : outcome Z :=
  coldtrace_entry_parse_alloc_index mem (it_buf it).

(** The [for] of [coldtrace_writer_close]: the positions it visits. *)
Fixpoint iter_loop (fuel : nat) (mem : list Z) (it : entry_it) : outcome (list entry_it) :=
  match fuel with
  | O => NoFuel
  | S fuel =>
      let! more := iter_next mem it in
      if negb more then Ret []
      else
        let! it' := iter_advance mem it in
        let! its := iter_loop fuel mem it' in
        Ret (it :: its)
  end.

(** Every iteration consumes at least a header word of a well-formed page. *)
Definition visit_page (page : list Z) (size : Z) : outcome (list entry_it) :=
  iter_loop (S (Z.to_nat (size / 8))) page (iter_init 0 size).

(** What the checker sees of an entry through the parsers. *)
Record seen_as (mem : list Z) (it : entry_it) (e : entry) : Prop := {
  se_type : iter_type mem it = Ret (base_type (en_type e));
  se_ptr : iter_pointer_value mem it = Ret (en_ptr e);
  se_size : iter_size mem it = Ret (size_of (base_type (en_type e)) (en_fields e));
  se_atomic : iter_atomic_index_value mem it =
    Ret (atomic_index_of (base_type (en_type e)) (en_fields e));
  se_alloc : iter_alloc_index_value mem it =
    Ret (alloc_index_of (base_type (en_type e)) (en_fields e));
}.

Lemma seen_encode pre post e n :
  entry_wf e → seen_as (pre ++ encode_entry e ++ post) (EntryIt (len pre) n) e.
Proof.
  intros Hwf. split; simpl.
  - by apply parse_type_encode.
  - by apply parse_ptr_encode.
  - by apply parse_size_encode.
  - by apply parse_atomic_index_encode.
  - by apply parse_alloc_index_encode.
Qed.

(** One iteration of the loop over the encoding of an entry. *)
Lemma iter_step_encode e pre post n :
  entry_wf e → len (encode_entry e) <= n < 2 ^ 63 →
  8 <= len (encode_entry e) ∧
  iter_next (pre ++ encode_entry e ++ post) (EntryIt (len pre) n) = Ret true ∧
  iter_advance (pre ++ encode_entry e ++ post) (EntryIt (len pre) n) =
    Ret (EntryIt (len (pre ++ encode_entry e)) (n - len (encode_entry e))).
Proof.
  intros Hw Hn.
  assert (8 <= len (encode_entry e)) as H8.
  { rewrite len_encode_entry by done. unfold diff_header, sizeof_stack_diff, diff_words.
    destruct (en_stack e) as [[? ?]|]; case_match; lia. }
  assert (coldtrace_entry_get_size (pre ++ encode_entry e ++ post) (len pre)
    = Ret (len (encode_entry e))) as Hg by by apply get_size_encode.
  split; [done|]. unfold iter_next, iter_advance. simpl.
  destruct (Z.ltb_spec n 8); [lia|]. rewrite Hg. simpl.
  destruct (Z.ltb_spec 0 (len (encode_entry e))); [|lia].
  destruct (Z.eqb_spec (len (encode_entry e)) 0); [lia|].
  rewrite u64_id by ulia. rewrite length_app, Nat2Z.inj_add. done.
Qed.

Lemma fuel_step n k (fuel : nat) : 8 <= k <= n → n / 8 < Z.of_nat (S fuel) → (n - k) / 8 < Z.of_nat fuel.
Proof.
  intros. assert ((n - k) / 8 + 1 <= n / 8); [|lia].
  rewrite <- Z.div_add by lia. apply Z.div_le_mono; lia.
Qed.

Lemma iter_loop_encode es : ∀ fuel pre post n,
  Forall entry_wf es → n = len (encode_all es) → n < 2 ^ 63 → n / 8 < Z.of_nat fuel →
  ∃ its, iter_loop fuel (pre ++ encode_all es ++ post) (EntryIt (len pre) n) = Ret its ∧
    Forall2 (seen_as (pre ++ encode_all es ++ post)) its es.
Proof.
  induction es as [|e es IH]; intros [|fuel] pre post n Hwf Hn Hb Hf; try lia.
  - pose proof (Z.div_pos n 8). lia.
  - simpl in *. subst n. cbn [iter_loop]. exists []. split; [done|constructor].
  - pose proof (Z.div_pos n 8). lia.
  - apply Forall_cons in Hwf as [Hw Hwf]. cbn [encode_all] in *. rewrite length_app in Hn.
    rewrite <- app_assoc.
    destruct (iter_step_encode e pre (encode_all es ++ post) n Hw) as (H8 & Hnx & Had); [lia|].
    cbn [iter_loop]. rewrite Hnx, Had. simpl.
    destruct (IH fuel (pre ++ encode_entry e) post (n - len (encode_entry e)))
      as (its & E & Hits); [done|lia|lia|apply fuel_step; lia|].
    rewrite <- app_assoc in E, Hits. rewrite E. simpl.
    eexists. split; [done|]. constructor; [by apply seen_encode|done].
Qed.

(** ** Unpacking a fragment file *)

Inductive dump_error :=
| TruncatedVersionHeader
| UnsupportedVersion
| TruncatedBlockHeader
| ImplausibleSize
| DecompressionFailed
| SizeMismatch.

Definition LZ4_MAX_RATIO : Z := 255.
Definition FRAGMENT_HEADER_SIZE : Z := 12.

(** Python compares the tuples lexicographically with (0, 2, 0). *)
Definition version_supported (major minor patch : Z) : bool :=
  if 0 <? major then true
  else if major <? 0 then false
  else if 2 <? minor then true
  else if minor <? 2 then false
  else 0 <=? patch.

Section Reader.
Context `{B : BuildInfo, L : Lz4}.

Definition decompress (max_fragment_size : Z) (data : list Z) : dump_error + list Z :=
  if len data <? sizeof_version_header then inl TruncatedVersionHeader
  else
    match load_version_header data 0 with
    | None => inl TruncatedVersionHeader
    | Some h =>
        if negb (version_supported (vh_major h) (vh_minor h) (vh_patch h))
        then inl UnsupportedVersion
        else if len data <? FRAGMENT_HEADER_SIZE then inl TruncatedBlockHeader
        else
          match load 4 data sizeof_version_header with
          | None => inl TruncatedBlockHeader
          | Some raw_size =>
              let payload := drop (Z.to_nat FRAGMENT_HEADER_SIZE) data in
              let limit := Z.min max_fragment_size (len payload * LZ4_MAX_RATIO) in
              if limit <? raw_size then inl ImplausibleSize
              else
                let header := take (Z.to_nat sizeof_version_header) data in
                if raw_size =? 0 then inr (header ++ [])
                else
                  match LZ4_decompress_safe payload raw_size with
                  | None => inl DecompressionFailed
                  | Some entries =>
                      if len entries =? raw_size then inr (header ++ entries)
                      else inl SizeMismatch
                  end
          end
    end.

(** A build whose version the dumper supports. *)
Definition supported_build : Prop :=
  version_supported VERSION_MAJOR VERSION_MINOR VERSION_PATCH = true.

Context `{!BuildInfoOk B, !Lz4Laws L}.

Lemma load_current_header rest :
  load_version_header (header_bytes ++ rest) 0 = Some current_version_header.
Proof. apply load_encode_version_header; simpl; eauto with ct. Qed.

Lemma current_header_supported :
  supported_build →
  version_supported (vh_major current_version_header) (vh_minor current_version_header)
    (vh_patch current_version_header) = true.
Proof.
  unfold supported_build. simpl.
  by rewrite !u8_id by (apply major_fits || apply minor_fits || apply patch_fits).
Qed.

(** Unpacking what [flush_] writes. *)
Lemma decompress_packed payload cap acc :
  supported_build → bytesP payload → len payload <= LZ4_MAX_INPUT_SIZE →
  LZ4_compressBound (len payload) <= cap →
  decompress LZ4_MAX_INPUT_SIZE
    (header_bytes ++ le_bytes 4 (len payload) ++ LZ4_compress_fast payload cap acc)
  = inr (header_bytes ++ payload).
Proof.
  intros Hsup Hb Hl Hcap. set (z := LZ4_compress_fast payload cap acc).
  pose proof (lz4_succeeds payload cap acc Hl Hcap) as Hz. fold z in Hz.
  pose proof (lz4_ratio payload cap acc Hz) as Hr. fold z in Hr.
  pose proof (length_header_bytes) as Hh. unfold LZ4_MAX_INPUT_SIZE in *.
  unfold decompress, sizeof_version_header, FRAGMENT_HEADER_SIZE, LZ4_MAX_RATIO.
  destruct (Z.ltb_spec (len (header_bytes ++ le_bytes 4 (len payload) ++ z)) 8); [llia|].
  rewrite load_current_header, current_header_supported by done. cbn [negb].
  destruct (Z.ltb_spec (len (header_bytes ++ le_bytes 4 (len payload) ++ z)) 12); [llia|].
  rewrite load_skip by llia. rewrite load_here by llia. rewrite le_join_u32 by ulia.
  assert (drop (Z.to_nat 12) (header_bytes ++ le_bytes 4 (len payload) ++ z) = z) as ->.
  { rewrite app_assoc. apply drop_app_length'. llia. }
  destruct (Z.ltb_spec (Z.min 2113929216 (len z * 255)) (len payload)); [lia|].
  assert (take (Z.to_nat 8) (header_bytes ++ le_bytes 4 (len payload) ++ z) = header_bytes) as ->.
  { apply take_app_length'. lia. }
  destruct (Z.eqb_spec (len payload) 0) as [E|E].
  - destruct payload; [done|simpl in E; lia].
  - unfold z. rewrite lz4_roundtrip by done. by rewrite Z.eqb_refl.
Qed.

(** C16: a fragment file decodes to the fragment.  Flushing a live writer returns;
    either the writer is marked failed, or the fragment file exists and
    trace_dump.py unpacks it, with all its plausibility checks, to exactly the
    bytes collected in the buffer. *)
Theorem flush_file_decodes c i b w :
  live i b → inside i → pattern_ok c → bytesP b → supported_build →
  ∃ i' w', flush_ c i w = Ret (i', w') ∧
    (wi_failed i' = true ∨
     ∃ data, w_fs w' !! name_of (path_ c) (wi_tid i) (wi_enumerator i) = Some (Reg data) ∧
       decompress LZ4_MAX_INPUT_SIZE data = inr (take (Z.to_nat (wi_offset i)) b)).
Proof.
  intros Hl Hin Hp Hb Hsup.
  destruct (flush_spec c i b w Hl Hin Hp) as (i' & w' & E & _ & _ & Hcase).
  exists i', w'. split; [done|]. destruct Hcase as [(cb & _ & _ & Hfile)|(_ & _ & Hf & _)]; [|by left].
  right. exists (fragment_file i b). split; [done|].
  destruct Hl as (_ & _ & _ & _ & Hlen & Hsz & Hh & _). unfold inside in Hin.
  assert (len (slice 8 (wi_offset i - 8) b) = wi_offset i - 8) as Hsl by (apply length_slice; lia).
  unfold fragment_file. rewrite decompress_packed; try done; try lia.
  - f_equal. rewrite <- Hh. unfold slice. change (Z.to_nat 8) with 8%nat.
    rewrite (take_take_drop b 8 (Z.to_nat (wi_offset i - 8))). f_equal. lia.
  - unfold bytesP, slice in *. by apply Forall_take, Forall_drop.
  - apply compressBound_mono; lia.
Qed.

(** C28: the page walker is correct: on a page that holds the encoding of
    well-formed entries, whatever follows it in the buffer, the loop of the trace
    checker ends, visits exactly these entries in their order, and the parsers
    return each entry's type, pointer, size and indices. *)
Theorem visit_page_entries page size es :
  take (Z.to_nat size) page = frag_bytes es → size = len (frag_bytes es) → size < 2 ^ 63 →
  Forall entry_wf es →
  ∃ its, visit_page page size = Ret its ∧ Forall2 (seen_as page) its es.
Proof.
  intros Hpage Hsz Hb Hwf. unfold frag_bytes in *.
  pose proof length_header_bytes as Hh. rewrite length_app in Hsz.
  rewrite <- (take_drop (Z.to_nat size) page), Hpage, <- app_assoc. unfold visit_page, iter_init.
  unfold sizeof_version_header. rewrite u64_id by ulia.
  replace (0 + 8) with (len header_bytes) by lia.
  apply iter_loop_encode; [done|lia|lia|].
  assert ((size - 8) / 8 <= size / 8) by (apply Z.div_le_mono; lia).
  pose proof (Z.div_pos size 8). lia.
Qed.
End Reader.

Section Demo.
#[local] Existing Instance demo_build.
#[local] Existing Instance demo_build_ok.

(** A live writer with one fence entry. *)
Definition demo_page : list Z :=
  header_bytes ++ encode_entry (Entry COLDTRACE_FENCE 0 [5] None) ++ replicate 40 0.

Definition demo_writer : writer_impl :=
  Writer true false true (Some demo_page) (Some (replicate 92 0)) 64 24 7 0 (Some 7).

Lemma demo_fence_wf : entry_wf (Entry COLDTRACE_FENCE 0 [5] None).
Proof. split; try done. by repeat constructor. Qed.

Lemma flush_file_decodes_witness :
  ∃ i' w', flush_ demo_config demo_writer (World demo_fs [] []) = Ret (i', w') ∧
    (wi_failed i' = true ∨
     ∃ data, w_fs w' !! name_of "t" 7 0 = Some (Reg data) ∧
       decompress LZ4_MAX_INPUT_SIZE data = inr (take 24 demo_page)).
Proof.
  apply (flush_file_decodes demo_config demo_writer demo_page (World demo_fs [] [])).
  - repeat split; try (vm_compute; congruence). eexists. by split.
  - by vm_compute.
  - apply demo_pattern_ok.
  - unfold demo_page, bytesP. rewrite !Forall_app. split_and!.
    + apply header_bytes_bytesP.
    + apply encode_entry_bytesP.
    + apply Forall_replicate. by vm_compute.
  - reflexivity.
Defined.


Lemma demo_writer_ok : writer_ok demo_writer.
Proof.
  split; [by vm_compute|]. left. exists demo_page. split; [|by vm_compute].
  repeat split; try (vm_compute; congruence). eexists. by split.
Qed.

(** The page of 64 bytes holds 24: an entry of 40 bytes fits behind them, one of 48
    bytes goes to a new fragment. *)
Lemma reserve_in_bounds_witness :
  (∃ i' w', coldtrace_writer_reserve (fun _ => 0) demo_config demo_writer (World demo_fs [] []) 40
     = Ret (Some 24, i', w') ∧ wi_buffer i' = Some demo_page) ∧
  (∃ i' w', coldtrace_writer_reserve (fun _ => 0) demo_config demo_writer (World demo_fs [] []) 48
     = Ret (Some 8, i', w') ∧ closed_frags w' = [take 24 demo_page]).
Proof.
  split.
  - destruct (reserve_in_bounds (fun _ => 0) demo_config demo_writer (World demo_fs [] []) 40)
      as (r & i' & w' & H & Hr); [apply demo_writer_ok|by vm_compute|by vm_compute|lia|by vm_compute|].
    assert (match coldtrace_writer_reserve (fun _ => 0) demo_config demo_writer (World demo_fs [] []) 40 with
      | Ret (Some p, _, _) => p =? 24 | _ => false end = true) as Hp by (vm_compute; reflexivity).
    rewrite H in Hp. destruct r as [p|]; [|discriminate Hp]. apply Z.eqb_eq in Hp as ->.
    destruct Hr as (b & (Hb & _) & _ & _ & _ & [(Hb0 & _)|[E _]]); [|discriminate E].
    exists i', w'. split; [exact H|]. rewrite Hb. injection Hb0 as <-. reflexivity.
  - destruct (reserve_in_bounds (fun _ => 0) demo_config demo_writer (World demo_fs [] []) 48)
      as (r & i' & w' & H & _); [apply demo_writer_ok|by vm_compute|by vm_compute|lia|by vm_compute|].
    assert (match coldtrace_writer_reserve (fun _ => 0) demo_config demo_writer (World demo_fs [] []) 48 with
      | Ret (Some p, _, w) => p = 8 ∧ closed_frags w = [take 24 demo_page] | _ => False end) as Hp
      by (vm_compute; auto).
    rewrite H in Hp. destruct r as [p|]; [|destruct Hp]. destruct Hp as [-> Hc]. exists i', w'. split; [exact H|exact Hc].
Defined.

(** 64 bytes do not fit a fragment of this size, but the pointer 8 is handed out. *)
Lemma oversized_request_overflows_witness :
  ∃ i' w' b, coldtrace_writer_reserve (fun _ => 0) demo_config demo_writer (World demo_fs [] []) 64
      = Ret (Some 8, i', w') ∧ wi_buffer i' = Some b ∧ len b < 72 ∧ store b 8 (replicate 64 0) = None.
Proof.
  destruct (oversized_request_overflows (fun _ => 0) demo_config demo_writer (World demo_fs [] []) 64)
    as (r & i' & w' & H & Hr); [apply demo_writer_ok|by vm_compute|by vm_compute|lia|by vm_compute|].
  assert (match coldtrace_writer_reserve (fun _ => 0) demo_config demo_writer (World demo_fs [] []) 64 with
    | Ret (Some p, _, _) => p =? 8 | _ => false end = true) as Hp by (vm_compute; reflexivity).
  rewrite H in Hp. destruct r as [p|]; [|discriminate Hp]. apply Z.eqb_eq in Hp as ->.
  destruct Hr as (b & Hb & Hl & Hs). exists i', w', b. split; [exact H|]. split; [exact Hb|]. split; [lia|].
  apply Hs. reflexivity.
Defined.

Lemma visit_page_entries_witness :
  ∃ its, visit_page demo_page 24 = Ret its ∧
    Forall2 (seen_as demo_page) its [Entry COLDTRACE_FENCE 0 [5] None].
Proof.
  apply (visit_page_entries demo_page 24); [vm_compute; reflexivity|vm_compute; reflexivity|lia|].
  constructor; [apply demo_fence_wf|constructor].
Defined.
End Demo.
