(* ===== verification/Dump.v ===== *)
(** * The trace dumper (scripts/trace_dump.py)

    The decoder of [TraceReader]: it walks an unpacked fragment, keeps the call
    stack across entries and fragments, and yields one [TraceEntry] per entry.
    A generator is the list of what it yields and how it ends. *)

From stdpp Require Import base list numbers strings gmap.
From Stdlib Require Import ZArith Lia.
From S2P Require Import Prelude Version Entries Libc Utils Config Codec Lz4 Writer Thread Trace Reader.

(** ** Data *)

Record TraceEntry := MkTraceEntry {
  te_tid : Z;
  te_type : Z;
  te_pointer : Z;
  te_zero_flag : bool;
  te_size : option Z;
  te_alloc_index : option Z;
  te_atomic_index : option Z;
  te_caller : option Z;
  te_stack_depth : Z;
  te_caller_1 : Z;
  te_caller_2 : Z;
  te_thread_stack_ptr : option Z;
  te_thread_stack_size : option Z;
}.

(** Why decoding ends early.  All but the last three are [TraceDumpError]s. *)
Inductive read_error :=
| Unpack (e : dump_error)
| TruncatedEntryHeader
| UnknownEntryType
| TruncatedFields
| PoppedExceedsDepth
| CannotRetain
| TruncatedStack
| StructError
| IndexError
| Diverges.

Definition trace_dump_error (e : read_error) : bool :=
  match e with StructError | IndexError | Diverges => false | _ => true end.

Definition rbind {A A'} (m : read_error + A) (k : A → read_error + A') : read_error + A' :=
  match m with inl e => inl e | inr a => k a end.

Notation "'let?' x ':=' m 'in' k" := (rbind m (fun x => k))
  (at level 10, x pattern, m at level 100, k at level 200) : ct_scope.

(** [struct.Struct(fmt)] with little-endian fields of these sizes. *)
Definition layout : Type := list nat.

Definition ENTRY_HEADER : layout := [8%nat].
Definition FREE_FIELDS : layout := [8; 8; 4; 4]%nat.
Definition ALLOC_FIELDS : layout := [8; 8; 8; 4; 4]%nat.
Definition ACCESS_FIELDS : layout := [8; 8; 4; 4]%nat.
Definition ATOMIC_ACCESS_FIELDS : layout := [8; 8]%nat.
Definition ATOMIC_FIELDS : layout := [8%nat].
Definition THREAD_START_FIELDS : layout := [8; 8; 8]%nat.
Definition ADDRESS : layout := [8%nat].

Definition layout_size (l : layout) : Z := Z.of_nat (sum_list l).

(** [layout.unpack_from(buffer, offset)], which raises [struct.error] when the
    buffer is too short. *)
Fixpoint struct_unpack_from (l : layout) (buffer : list Z) (offset : Z) : read_error + list Z :=
  match l with
  | [] => inr []
  | n :: l =>
      match load n buffer offset with
      | None => inl StructError
      | Some v => let? vs := struct_unpack_from l buffer (offset + Z.of_nat n) in inr (v :: vs)
      end
  end.

Definition POINTER_MASK : Z := 0x0000FFFFFFFFFFFF.

Definition stack_alloc_type (t : Z) : bool :=
  (t =? COLDTRACE_ALLOC) || (t =? COLDTRACE_MMAP) || (t =? COLDTRACE_MUNMAP).
Definition stack_access_type (t : Z) : bool := (t =? COLDTRACE_READ) || (t =? COLDTRACE_WRITE).
Definition atomic_access_type (t : Z) : bool :=
  (t =? COLDTRACE_ATOMIC_READ) || (t =? COLDTRACE_ATOMIC_WRITE).

(** [len(ENTRY_TYPES)] *)
Definition N_ENTRY_TYPES : Z := 25.

(** [not any(buffer[a:b])] *)
Definition all_zero (buffer : list Z) (a b : Z) : bool :=
  forallb (fun x => x =? 0) (slice a (b - a) buffer).

(** ** Decoding *)

Section Decode.
Context (tid : Z) (buffer : list Z).

Let file_size : Z := len buffer.

(** [TraceReader._unpack_from] *)
Definition _unpack_from (l : layout) (offset : Z) : read_error + list Z * Z :=
  let end_ := offset + layout_size l in
  if file_size <? end_ then inl TruncatedFields
  else let? fields := struct_unpack_from l buffer offset in inr (fields, end_).

(** The [while] of [_read_stack]: [added] addresses. *)
Fixpoint read_addresses (added : nat) (offset : Z) (stack : list Z) : read_error + list Z * Z :=
  match added with
  | O => inr (stack, offset)
  | S added =>
      let? v := struct_unpack_from ADDRESS buffer offset in
      match v with
      | [address] => read_addresses added (offset + layout_size ADDRESS) (stack ++ [address])
      | _ => inl StructError
      end
  end.

(** [stack[-k]] *)
Definition from_end (stack : list Z) (k : nat) : read_error + Z :=
  match (reverse stack) !! (k - 1)%nat with Some a => inr a | None => inl IndexError end.

(** [TraceReader._read_stack]; the result is the new [self.stack] and the tuple. *)
Definition _read_stack (offset popped depth : Z) (stack : list Z) :
    read_error + list Z * (Z * Z * Z * Z) :=
  if depth <? popped then inl PoppedExceedsDepth
  else if len stack <? popped then inl CannotRetain
  else
    let stack := take (Z.to_nat popped) stack in
    let added := depth - popped in
    let stack_end := offset + added * layout_size ADDRESS in
    if file_size <? stack_end then inl TruncatedStack
    else
      let? (stack, offset) := read_addresses (Z.to_nat added) offset stack in
      let? caller_1 := match stack with [] => inr 0 | _ => from_end stack 1 end in
      let? caller_2 := if 2 <=? depth then from_end stack 2 else inr 0 in
      inr (stack, (depth, caller_1, caller_2, offset)).

(** [TraceReader._read_entry] *)
Definition _read_entry (offset typed_pointer entry_type pointer : Z) (zero_flag : bool)
    (stack : list Z) : read_error + option TraceEntry * Z * list Z :=
  if entry_type =? COLDTRACE_TEST_MARKER then
    inr (Some (MkTraceEntry tid entry_type pointer false None None None None 0 0 0 None None),
         offset, stack)
  else if entry_type =? COLDTRACE_FREE then
    let fields_end := offset + layout_size FREE_FIELDS in
    let available_end := Z.min fields_end file_size in
    if (typed_pointer =? 0) && all_zero buffer offset available_end
    then inr (None, file_size, stack)
    else if file_size <? fields_end then inl TruncatedFields
    else
      let? fields := struct_unpack_from FREE_FIELDS buffer offset in
      match fields with
      | [alloc_index; caller; popped; depth] =>
          let? (stack, t) := _read_stack fields_end popped depth stack in
          let '(stack_depth, caller_1, caller_2, offset) := t in
          inr (Some (MkTraceEntry tid entry_type pointer zero_flag None (Some alloc_index) None
                 (Some caller) stack_depth caller_1 caller_2 None None), offset, stack)
      | _ => inl StructError
      end
  else if stack_alloc_type entry_type then
    let? (fields, offset) := _unpack_from ALLOC_FIELDS offset in
    match fields with
    | [size; alloc_index; caller; popped; depth] =>
        let? (stack, t) := _read_stack offset popped depth stack in
        let '(stack_depth, caller_1, caller_2, offset) := t in
        inr (Some (MkTraceEntry tid entry_type pointer zero_flag (Some size) (Some alloc_index) None
               (Some caller) stack_depth caller_1 caller_2 None None), offset, stack)
    | _ => inl StructError
    end
  else if entry_type =? COLDTRACE_THREAD_START then
    let? (fields, offset) := _unpack_from THREAD_START_FIELDS offset in
    match fields with
    | [atomic_index; thread_stack_ptr; thread_stack_size] =>
        inr (Some (MkTraceEntry tid entry_type pointer zero_flag None None (Some atomic_index) None
               0 0 0 (Some thread_stack_ptr) (Some thread_stack_size)), offset, stack)
    | _ => inl StructError
    end
  else if atomic_access_type entry_type then
    let? (fields, offset) := _unpack_from ATOMIC_ACCESS_FIELDS offset in
    match fields with
    | [size; atomic_index] =>
        inr (Some (MkTraceEntry tid entry_type pointer zero_flag (Some size) None (Some atomic_index)
               None 0 0 0 None None), offset, stack)
    | _ => inl StructError
    end
  else
    let? (fields, offset) := _unpack_from ATOMIC_FIELDS offset in
    match fields with
    | [atomic_index] =>
        inr (Some (MkTraceEntry tid entry_type pointer zero_flag None None (Some atomic_index)
               None 0 0 0 None None), offset, stack)
    | _ => inl StructError
    end.

(** The branch of [_read_file] for memory accesses. *)
Definition read_access (offset entry_type pointer : Z) (zero_flag : bool) (stack : list Z) :
    read_error + option TraceEntry * Z * list Z :=
  let fields_end := offset + layout_size ACCESS_FIELDS in
  if file_size <? fields_end then inl TruncatedFields
  else
    let? fields := struct_unpack_from ACCESS_FIELDS buffer offset in
    match fields with
    | [size; caller; popped; depth] =>
        let? (stack, t) := _read_stack fields_end popped depth stack in
        let '(stack_depth, caller_1, caller_2, offset) := t in
        inr (Some (MkTraceEntry tid entry_type pointer zero_flag (Some size) None None
               (Some caller) stack_depth caller_1 caller_2 None None), offset, stack)
    | _ => inl StructError
    end.

(** One round of the [while] of [_read_file]; [None] is a [break]. *)
Definition read_one (offset : Z) (stack : list Z) : read_error + option TraceEntry * Z * list Z :=
  let header_end := offset + layout_size ENTRY_HEADER in
  if file_size <? header_end then
    if all_zero buffer offset file_size then inr (None, offset, stack) else inl TruncatedEntryHeader
  else
    let? header := struct_unpack_from ENTRY_HEADER buffer offset in
    match header with
    | [typed_pointer] =>
        let raw_type := Z.land typed_pointer TYPE_MASK in
        let type_value := Z.land raw_type (Z.lnot ZERO_FLAG) in
        if N_ENTRY_TYPES <=? type_value then inl UnknownEntryType
        else
          let pointer := Z.land (Z.shiftr typed_pointer 16) POINTER_MASK in
          let zero_flag := negb (Z.land raw_type ZERO_FLAG =? 0) in
          if stack_access_type type_value
          then read_access header_end type_value pointer zero_flag stack
          else _read_entry header_end typed_pointer type_value pointer zero_flag stack
    | _ => inl StructError
    end.

(** The [while] of [_read_file]: what is yielded, and the final stack or the error. *)
Fixpoint read_loop (fuel : nat) (offset : Z) (stack : list Z) :
    list TraceEntry * (read_error + list Z) :=
  if negb (offset <? file_size) then ([], inr stack)
  else
    match fuel with
    | O => ([], inl Diverges)
    | S fuel =>
        match read_one offset stack with
        | inl e => ([], inl e)
        | inr (None, _, stack) => ([], inr stack)
        | inr (Some entry, offset, stack) =>
            let '(es, r) := read_loop fuel offset stack in (entry :: es, r)
        end
    end.
End Decode.

Section Reader.
Context `{B : BuildInfo, L : Lz4} (tid max_fragment_size : Z).

(** [TraceReader._read_file] on the bytes of the file; every round that yields
    reads at least a header. *)
Definition _read_file (stack : list Z) (data : list Z) : list TraceEntry * (read_error + list Z) :=
  match decompress max_fragment_size data with
  | inl e => ([], inl (Unpack e))
  | inr buffer => read_loop tid buffer (length buffer) sizeof_version_header stack
  end.
End Reader.

(** ** Decoding never fails in an unexpected way *)

Section Total.
Context (buffer : list Z) (Hbytes : bytesP buffer).

Lemma load_ok n off :
  0 <= off → off + Z.of_nat n <= len buffer → ∃ v, load n buffer off = Some v ∧ 0 <= v < 2 ^ (8 * Z.of_nat n).
Proof.
  intros Ho Hn. unfold load. assert (in_range buffer off (Z.of_nat n) = true) as -> by (apply in_range_spec; lia).
  eexists. split; [done|]. assert (bytesP (take n (drop (Z.to_nat off) buffer))) as Hb
    by by apply Forall_take, Forall_drop.
  pose proof (le_join_bound _ Hb) as H. rewrite length_take, length_drop in H.
  replace (Z.of_nat (n `min` (length buffer - Z.to_nat off))) with (Z.of_nat n) in H by lia. done.
Qed.

(** Unpacking inside the buffer gives one non-negative number per field. *)
Lemma struct_unpack_ok l : ∀ off,
  0 <= off → off + layout_size l <= len buffer →
  ∃ vs, struct_unpack_from l buffer off = inr vs ∧ Forall2 (fun n v => 0 <= v < 2 ^ (8 * Z.of_nat n)) l vs.
Proof.
  unfold layout_size. induction l as [|n l IH]; intros off Ho Hl; simpl in *; [by exists []|].
  destruct (load_ok n off) as (v & -> & Hv); [lia..|].
  destruct (IH (off + Z.of_nat n)) as (vs & -> & Hvs); [lia..|]. simpl. eauto.
Qed.

Lemma read_addresses_ok added : ∀ off stack,
  0 <= off → off + 8 * Z.of_nat added <= len buffer →
  ∃ stack', read_addresses buffer added off stack = inr (stack', off + 8 * Z.of_nat added) ∧
    length stack' = (length stack + added)%nat.
Proof.
  induction added as [|added IH]; intros off stack Ho Hl; cbn [read_addresses].
  { exists stack. split; [do 2 f_equal; lia|lia]. }
  destruct (struct_unpack_ok ADDRESS off) as (vs & -> & Hvs); [done|change (layout_size ADDRESS) with 8; lia|].
  inversion Hvs as [|? a ? vs' _ Hnil]; subst. inversion Hnil; subst. simpl.
  change (layout_size ADDRESS) with 8.
  destruct (IH (off + 8) (stack ++ [a])) as (st & -> & Hst); [lia..|]. exists st.
  split; [do 2 f_equal; lia|]. rewrite length_app in Hst. simpl in Hst. lia.
Qed.

Lemma from_end_ok stack k : (1 ≤ k ≤ length stack)%nat → ∃ a, from_end stack k = inr a.
Proof.
  intros Hk. unfold from_end.
  destruct (lookup_lt_is_Some_2 (reverse stack) (k - 1)) as [a ->]; [rewrite length_reverse; lia|eauto].
Qed.

(** What decoding steps promise: progress, or an error for the user. *)
Definition moves {A} (off : A → Z) (from : Z) (r : read_error + A) : Prop :=
  match r with inl e => trace_dump_error e = true | inr a => from <= off a end.

Lemma read_stack_total off popped depth stack :
  0 <= off → 0 <= popped → moves (fun x => x.2.2) off (_read_stack buffer off popped depth stack).
Proof.
  intros Ho Hp. unfold _read_stack. destruct (Z.ltb_spec depth popped); [done|].
  destruct (Z.ltb_spec (len stack) popped); [done|]. change (layout_size ADDRESS) with 8.
  destruct (Z.ltb_spec (len buffer) (off + (depth - popped) * 8)); [done|].
  destruct (read_addresses_ok (Z.to_nat (depth - popped)) off (take (Z.to_nat popped) stack))
    as (st & -> & Hst); [lia..|]. cbn [rbind].
  rewrite length_take in Hst.
  assert (∃ c1, match st with [] => inr 0 | _ => from_end st 1 end = inr c1) as [c1 ->].
  { destruct st as [|a st]; [eauto|]. apply from_end_ok. simpl. lia. }
  assert (∃ c2, (if 2 <=? depth then from_end st 2 else inr 0) = inr c2) as [c2 ->].
  { destruct (Z.leb_spec 2 depth); [|eauto]. apply from_end_ok. lia. }
  simpl. lia.
Qed.

Definition entry_moves (from : Z) (r : read_error + option TraceEntry * Z * list Z) : Prop :=
  match r with
  | inl e => trace_dump_error e = true
  | inr (Some _, off, _) => from <= off
  | inr (None, _, _) => True
  end.

(** Continue after a stack. *)
Lemma with_stack_total off popped depth stack (f : Z → Z → Z → TraceEntry) :
  0 <= off → 0 <= popped →
  entry_moves off
    (let? (stack, t) := _read_stack buffer off popped depth stack in
     let '(d, c1, c2, off) := t in inr (Some (f d c1 c2), off, stack)).
Proof.
  intros Ho Hp. pose proof (read_stack_total off popped depth stack Ho Hp) as H.
  destruct (_read_stack buffer off popped depth stack) as [e|[st [[[d c1] c2] o]]]; exact H.
Qed.

Lemma unpack_total l off :
  0 <= off →
  _unpack_from buffer l off = inl TruncatedFields ∨
  ∃ vs, _unpack_from buffer l off = inr (vs, off + layout_size l) ∧
    Forall2 (fun n v => 0 <= v < 2 ^ (8 * Z.of_nat n)) l vs.
Proof.
  intros Ho. unfold _unpack_from. destruct (Z.ltb_spec (len buffer) (off + layout_size l)); [by left|right].
  destruct (struct_unpack_ok l off) as (vs & -> & Hvs); [lia..|]. simpl. eauto.
Qed.

Lemma entry_moves_weaken a b r : a <= b → entry_moves b r → entry_moves a r.
Proof. intros H. destruct r as [?|[[[?|] ?] ?]]; simpl; [done|lia|done]. Qed.

Lemma layout_size_nonneg l : 0 <= layout_size l.
Proof. unfold layout_size. lia. Qed.

(** Split the fields of an unpacked layout. *)
Ltac split_fields H :=
  repeat match type of H with
  | Forall2 _ (_ :: _) _ => apply Forall2_cons_inv_l in H as (? & ? & ? & H & ->)
  | Forall2 _ [] _ => apply Forall2_nil_inv_l in H; subst
  end.

Ltac by_fields l :=
  let vs := fresh "vs" in let E := fresh "E" in let H := fresh "H" in
  let N := fresh "N" in
  pose proof (layout_size_nonneg l) as N;
  match goal with |- context [_unpack_from _ _ ?off] =>
    destruct (unpack_total l off) as [E|(vs & E & H)]; [lia| |];
      rewrite E; cbn [rbind]; [done|]; unfold l in H; split_fields H;
      first [ eapply entry_moves_weaken; [|apply with_stack_total]; lia
            | cbn [entry_moves]; lia ]
  end.

Lemma read_entry_total tid off typed_pointer t pointer z stack :
  0 <= off <= len buffer →
  entry_moves off (_read_entry tid buffer off typed_pointer t pointer z stack).
Proof.
  intros Ho. unfold _read_entry. destruct (t =? COLDTRACE_TEST_MARKER); [simpl; lia|].
  destruct (t =? COLDTRACE_FREE).
  { destruct (_ && _); [done|].
    destruct (Z.ltb_spec (len buffer) (off + layout_size FREE_FIELDS)); [done|].
    destruct (struct_unpack_ok FREE_FIELDS off) as (vs & -> & Hvs); [lia..|]. cbn [rbind].
    pose proof (layout_size_nonneg FREE_FIELDS).
    unfold FREE_FIELDS in Hvs. split_fields Hvs.
    eapply entry_moves_weaken; [|apply with_stack_total]; lia. }
  destruct (stack_alloc_type t); [by_fields ALLOC_FIELDS|].
  destruct (t =? COLDTRACE_THREAD_START); [by_fields THREAD_START_FIELDS|].
  destruct (atomic_access_type t); [by_fields ATOMIC_ACCESS_FIELDS|by_fields ATOMIC_FIELDS].
Qed.

Lemma read_access_total tid off t pointer z stack :
  0 <= off → entry_moves off (read_access tid buffer off t pointer z stack).
Proof.
  intros Ho. unfold read_access.
  destruct (Z.ltb_spec (len buffer) (off + layout_size ACCESS_FIELDS)); [done|].
  destruct (struct_unpack_ok ACCESS_FIELDS off) as (vs & -> & Hvs); [lia..|]. cbn [rbind].
  pose proof (layout_size_nonneg ACCESS_FIELDS).
  unfold ACCESS_FIELDS in Hvs. split_fields Hvs.
  eapply entry_moves_weaken; [|apply with_stack_total]; lia.
Qed.

(** Every round reads at least a header, or ends the reading. *)
Lemma read_one_total tid off stack :
  0 <= off → entry_moves (off + 8) (read_one tid buffer off stack).
Proof.
  intros Ho. unfold read_one. change (layout_size ENTRY_HEADER) with 8.
  destruct (Z.ltb_spec (len buffer) (off + 8)); [by destruct (all_zero _ _ _)|].
  destruct (struct_unpack_ok ENTRY_HEADER off) as (vs & -> & Hvs);
    [done|change (layout_size ENTRY_HEADER) with 8; lia|]. cbn [rbind].
  unfold ENTRY_HEADER in Hvs. split_fields Hvs. destruct (_ <=? _); [done|].
  destruct (stack_access_type _); [apply read_access_total|apply read_entry_total]; lia.
Qed.

Lemma read_loop_total tid fuel : ∀ off stack,
  0 <= off → len buffer - off <= Z.of_nat fuel →
  ∀ e, (read_loop tid buffer fuel off stack).2 = inl e → trace_dump_error e = true.
Proof.
  induction fuel as [|fuel IH]; intros off stack Ho Hf e; cbn [read_loop];
    destruct (Z.ltb_spec off (len buffer)); cbn [negb]; try done; try lia.
  pose proof (read_one_total tid off stack Ho) as H1.
  destruct (read_one tid buffer off stack) as [e'|[[[entry|] off'] stack']]; cbn [entry_moves] in H1.
  - intros [= <-]. done.
  - specialize (IH off' stack'). destruct (read_loop tid buffer fuel off' stack') as [es r].
    apply IH; lia.
  - done.
Qed.
End Total.

Section TotalReader.
Context `{B : BuildInfo, L : Lz4, !Lz4Laws L}.

Lemma decompress_bytes m data buffer :
  bytesP data → decompress m data = inr buffer → bytesP buffer.
Proof.
  intros Hd H. unfold decompress in H. assert (bytesP (take (Z.to_nat sizeof_version_header) data))
    as Hh by by apply Forall_take.
  repeat case_match; simplify_eq; apply Forall_app; split; try done.
  by eapply lz4_decoded.
Qed.

(** Whatever a file holds and whatever stack the reader has, decoding ends, and it
    ends normally or with one of the errors it reports to the user. *)
Lemma read_file_total tid max_fragment_size stack data e :
  bytesP data → (_read_file tid max_fragment_size stack data).2 = inl e → trace_dump_error e = true.
Proof.
  intros Hd. unfold _read_file.
  destruct (decompress max_fragment_size data) as [u|buffer] eqn:E; [by intros [= <-]|].
  apply read_loop_total; [by eapply decompress_bytes|done|unfold sizeof_version_header; lia].
Qed.
End TotalReader.
