(* ===== verification/DumpText.v ===== *)
(** * What trace_dump.py finds and prints

    The command around the decoder: [discover_trace_files] collects the
    fragments of a thread in a directory, [format_entry] prints one entry, and
    [dump_trace] puts them together.  File names are ASCII, so that [\d] is a
    decimal digit and names are compared byte by byte; a path is its directory
    and its last component. *)

From stdpp Require Import base list numbers strings pretty gmap sorting.
From Stdlib Require Import ZArith Lia Ascii.
From S2P Require Import Prelude Version Entries Libc Utils Config Codec Lz4 Writer Thread Trace Reader Dump.

(** ** Finding the fragments *)

(** The text after a literal prefix. *)
Fixpoint strip (p s : string) : option string :=
  match p, s with
  | EmptyString, _ => Some s
  | String c p, String d s => if Ascii.eqb c d then strip p s else None
  | _, EmptyString => None
  end.

(** The longest run of digits, and the rest: [\d*]. *)
Fixpoint span_digits (s : string) : string * string :=
  match s with
  | String c s' =>
      match digit_of c with
      | Some _ => let '(a, b) := span_digits s' in (String c a, b)
      | None => (EmptyString, s)
      end
  | EmptyString => (EmptyString, EmptyString)
  end.

(** [(\d+)] as [int(match.group(...))], and the rest. *)
Definition match_number (s : string) : option (Z * string) :=
  match span_digits s with
  | (EmptyString, _) => None
  | (ds, rest) => Some (scan_digits 0 ds, rest)
  end.

(** [TRACE_FILE_PATTERN.fullmatch(name)]: the thread and the fragment. *)
Definition trace_file_match (name : string) : option (Z * Z) :=
  match strip "freezer_log_" name with
  | None => None
  | Some s =>
      match match_number s with
      | None => None
      | Some (tid, s) =>
          match strip "_" s with
          | None => None
          | Some s =>
              match match_number s with
              | Some (fragment, ".bin"%string) => Some (tid, fragment)
              | _ => None
              end
          end
      end
  end.

Definition is_file (fs : gmap string inode) (path : string) : bool :=
  match fs !! path with Some (Reg _) => true | _ => false end.

Inductive dump_failure :=
| InvalidFilename
| NoSuchFile
| CannotRead
| Decoding (e : read_error)
| Formatting.

(** The key of the sort, [(fragment, name)], in the order of tuples. *)
Definition key_le (a b : Z * string) : Prop :=
  a.1 < b.1 ∨ a.1 = b.1 ∧ String.le a.2 b.2.

#[global] Instance key_le_dec : RelDecision key_le.
Proof. intros a b. unfold key_le. apply _. Defined.

(** The loop over [requested.parent.iterdir()] *)
Definition candidates (fs : gmap string inode) (parent : string) (tid : Z) : list (Z * string) :=
  omap (fun p =>
    match child_name parent p.1 with
    | None => None
    | Some name =>
        match trace_file_match name with
        | Some (t, fragment) =>
            if is_file fs (parent +:+ "/" +:+ name) && (t =? tid) then Some (fragment, name) else None
        | None => None
        end
    end) (map_to_list fs).

Definition discover_trace_files (fs : gmap string inode) (parent name : string) (standalone : bool) :
    dump_failure + Z * list string :=
  match trace_file_match name with
  | None => inl InvalidFilename
  | Some (tid, _) =>
      if negb (is_file fs (parent +:+ "/" +:+ name)) then inl NoSuchFile
      else if standalone then inr (tid, [parent +:+ "/" +:+ name])
      else
        let fragments := merge_sort key_le (candidates fs parent tid) in
        inr (tid, (fun f => parent +:+ "/" +:+ f.2) <$> fragments)
  end.

(** ** Printing an entry *)

Definition hex_digit (n : N) : ascii :=
  ascii_of_N (if (n <? 10)%N then 48 + n else 87 + n)%N.

Fixpoint hex_go (fuel : nat) (n : N) (s : string) : string :=
  match fuel with
  | O => s
  | S fuel =>
      let s := String (hex_digit (n mod 16)) s in
      if (n / 16 =? 0)%N then s else hex_go fuel (n / 16) s
  end.

(** [f"{z:x}"] of a non-negative number: it has no more hexadecimal than binary digits. *)
Definition hex (z : Z) : string := hex_go (S (N.size_nat (Z.to_N z))) (Z.to_N z) "".

(** [f"{x}"] of an optional number *)
Definition str_opt (x : option Z) : string :=
  match x with Some z => pretty z | None => "None" end.

Definition stack_type (t : Z) : bool :=
  (t =? COLDTRACE_FREE) || stack_alloc_type t || stack_access_type t.

(** [entry.type] is a case without fields of its own. *)
Definition atomic_text (t : Z) : option string :=
  if t =? COLDTRACE_LOCK_ACQUIRE then Some "acquire lock"%string
  else if t =? COLDTRACE_LOCK_RELEASE then Some "release lock"%string
  else if t =? COLDTRACE_THREAD_CREATE then Some "thread create"%string
  else if t =? COLDTRACE_THREAD_JOIN then Some "thread join"%string
  else if t =? COLDTRACE_THREAD_EXIT then Some "thread exit"%string
  else if t =? COLDTRACE_RW_LOCK_CREATE then Some "rw_lock create"%string
  else if t =? COLDTRACE_RW_LOCK_DESTROY then Some "rw_lock destroy"%string
  else if t =? COLDTRACE_RW_LOCK_ACQ_SHR then Some "rw_lock acq_shr"%string
  else if t =? COLDTRACE_RW_LOCK_ACQ_EXC then Some "rw_lock acq_exc"%string
  else if t =? COLDTRACE_RW_LOCK_REL_SHR then Some "rw_lock rel_shr"%string
  else if t =? COLDTRACE_RW_LOCK_REL_EXC then Some "rw_lock rel_exc"%string
  else if t =? COLDTRACE_RW_LOCK_REL then Some "rw_lock rel"%string
  else if t =? COLDTRACE_CXA_GUARD_ACQUIRE then Some "acquire cxa_guard"%string
  else if t =? COLDTRACE_CXA_GUARD_RELEASE then Some "release cxa_guard"%string
  else None.

(** [format_entry]; [None] when it raises: a stack entry without a caller, or a
    type it does not know.  [{None:x}] raises too. *)
Definition format_entry (ordinal : Z) (entry : TraceEntry) : option string :=
  let t := te_type entry in
  let prefix := pretty ordinal +:+ ") " +:+ pretty (te_tid entry) +:+ ":" in
  let pointer := hex (te_pointer entry) in
  let callers caller :=
    pretty (te_stack_depth entry + 1) +:+ ": " +:+ hex caller +:+ ", " +:+
    hex (te_caller_1 entry) +:+ ", " +:+ hex (te_caller_2 entry) in
  let alloc := " [" +:+ str_opt (te_alloc_index entry) +:+ "]" in
  let atomic := " [" +:+ str_opt (te_atomic_index entry) +:+ "]" in
  if stack_access_type t then
    let operation :=
      if t =? COLDTRACE_READ then (if te_zero_flag entry then "ZeroRead"%string else "Read"%string) else "write"%string in
    (fun caller => prefix +:+ " " +:+ operation +:+ " access " +:+ str_opt (te_size entry) +:+ "B @"
       +:+ pointer +:+ " " +:+ callers caller) <$> te_caller entry
  else if t =? COLDTRACE_FREE then
    (fun caller => prefix +:+ " Freed memory @" +:+ pointer +:+ " " +:+ callers caller +:+ alloc)
      <$> te_caller entry
  else if t =? COLDTRACE_ALLOC then
    (fun caller => prefix +:+ " Allocated " +:+ str_opt (te_size entry) +:+ "B of memory @" +:+ pointer
       +:+ " " +:+ callers caller +:+ alloc) <$> te_caller entry
  else if atomic_access_type t then
    Some (prefix +:+ " atomic " +:+ (if t =? COLDTRACE_ATOMIC_READ then "read" else "write") +:+ " "
          +:+ str_opt (te_size entry) +:+ "B @" +:+ pointer +:+ atomic)
  else if t =? COLDTRACE_THREAD_START then
    (fun ptr => prefix +:+ " thread start @" +:+ pointer +:+ " " +:+ hex ptr +:+ " "
       +:+ str_opt (te_thread_stack_size entry) +:+ atomic) <$> te_thread_stack_ptr entry
  else if t =? COLDTRACE_FENCE then Some (prefix +:+ " fence" +:+ atomic)
  else if t =? COLDTRACE_TEST_MARKER then Some (prefix +:+ " test marker")
  else if (t =? COLDTRACE_MMAP) || (t =? COLDTRACE_MUNMAP) then
    (fun caller => prefix +:+ (if t =? COLDTRACE_MMAP then " mmap-ed" else " munmap-ed")
       +:+ " region of " +:+ str_opt (te_size entry) +:+ " from " +:+ pointer +:+ " " +:+ callers caller
       +:+ alloc) <$> te_caller entry
  else (fun text => prefix +:+ " " +:+ text +:+ " @" +:+ pointer +:+ atomic) <$> atomic_text t.

Definition newline : string := String (ascii_of_nat 10) EmptyString.

(** The [for] of [dump_trace]: the lines written, and whether every entry could
    be formatted. *)
Fixpoint write_lines (n : Z) (es : list TraceEntry) : list string * bool :=
  match es with
  | [] => ([], true)
  | e :: es =>
      match format_entry n e with
      | None => ([], false)
      | Some line =>
          let '(out, ok) := write_lines (n + 1) es in ((line +:+ newline) :: out, ok)
      end
  end.

Section Dump.
Context `{B : BuildInfo, L : Lz4}.

(** [path.read_bytes()] of each file *)
Definition read_bytes (fs : gmap string inode) (path : string) : option (list Z) :=
  match fs !! path with Some (Reg data) => Some data | _ => None end.

(** [TraceReader.entries] over paths: a file that cannot be read ends it. *)
Fixpoint entries_of (tid max_fragment_size : Z) (fs : gmap string inode) (stack : list Z)
    (paths : list string) : list TraceEntry * (dump_failure + list Z) :=
  match paths with
  | [] => ([], inr stack)
  | path :: paths =>
      match read_bytes fs path with
      | None => ([], inl CannotRead)
      | Some data =>
          match _read_file tid max_fragment_size stack data with
          | (es, inl e) => (es, inl (Decoding e))
          | (es, inr stack) =>
              let '(es', r) := entries_of tid max_fragment_size fs stack paths in (es ++ es', r)
          end
      end
  end.

(** [dump_trace]: what is written, and the number of entries or the failure. *)
Definition dump_trace (fs : gmap string inode) (parent name : string) (standalone : bool)
    (max_fragment_size : Z) : list string * (dump_failure + Z) :=
  match discover_trace_files fs parent name standalone with
  | inl e => ([], inl e)
  | inr (tid, files) =>
      let '(es, r) := entries_of tid max_fragment_size fs [] files in
      let '(out, ok) := write_lines 0 es in
      if negb ok then (out, inl Formatting)
      else
        match r with
        | inl e => (out, inl e)
        | inr _ =>
            (out ++ ["Unpacked nentries=" +:+ pretty (len es) +:+ " log-entries." +:+ newline],
             inr (len es))
        end
  end.
End Dump.

(** ** Numbers in file names *)

Fixpoint all_digits (s : string) : bool :=
  match s with
  | EmptyString => true
  | String c s => match digit_of c with Some _ => all_digits s | None => false end
  end.

Lemma all_digits_app a b : all_digits (a +:+ b) = all_digits a && all_digits b.
Proof. induction a as [|c a IH]; simpl; [done|]. by destruct (digit_of c). Qed.

Lemma span_digits_app ds t :
  all_digits ds = true → span_digits (ds +:+ t) = (ds +:+ (span_digits t).1, (span_digits t).2).
Proof.
  induction ds as [|c ds IH]; simpl; intros H; [by destruct (span_digits t)|].
  destruct (digit_of c); [|done]. by rewrite IH.
Qed.

Lemma scan_digits_app ds t : ∀ acc,
  all_digits ds = true → scan_digits acc (ds +:+ t) = scan_digits (scan_digits acc ds) t.
Proof.
  induction ds as [|c ds IH]; intros acc; simpl; [done|]. destruct (digit_of c); [apply IH|done].
Qed.

Lemma digit_of_pretty x : (x < 10)%N → digit_of (pretty_N_char x) = Some (Z.of_N x).
Proof.
  intros H. assert (x = 0 ∨ x = 1 ∨ x = 2 ∨ x = 3 ∨ x = 4 ∨ x = 5 ∨ x = 6 ∨ x = 7 ∨ x = 8 ∨ x = 9)%N
    as Hx by lia. repeat destruct Hx as [->|Hx]; try done. by subst.
Qed.

(** Printing a number puts its digits before the text, and scanning them gives
    the number back. *)
Lemma pretty_N_go_digits x : ∀ s, ∃ ds, pretty_N_go x s = ds +:+ s ∧ all_digits ds = true ∧
  (x ≠ 0%N → ds ≠ ""%string) ∧ scan_digits 0 ds = Z.of_N x.
Proof.
  induction (N.lt_wf_0 x) as [x _ IH]; intros s. destruct (decide (x = 0%N)) as [->|Hx].
  { exists ""%string. by rewrite pretty_N_go_0. }
  rewrite pretty_N_go_step by lia.
  destruct (IH (x / 10)%N ltac:(apply N.div_lt; lia) (String (pretty_N_char (x mod 10)) s))
    as (ds & -> & Hd & _ & Hv).
  assert (x mod 10 < 10)%N as Hm by (apply N.mod_lt; lia).
  exists (ds +:+ String (pretty_N_char (x mod 10)) ""). split_and!.
  - by rewrite string_app_assoc.
  - rewrite all_digits_app, Hd. simpl. by rewrite digit_of_pretty.
  - intros _ E. by destruct ds.
  - rewrite scan_digits_app, Hv by done. simpl. rewrite digit_of_pretty by done.
    rewrite (N.div_mod x 10) at 3 by lia. lia.
Qed.

Lemma pretty_digits z : 0 <= z →
  all_digits (pretty z) = true ∧ pretty z ≠ ""%string ∧ scan_digits 0 (pretty z) = z.
Proof.
  intros Hz. destruct z as [|p|p]; [done| |lia]. unfold pretty, pretty_Z, pretty, pretty_positive, pretty, pretty_N.
  rewrite decide_False by done. destruct (pretty_N_go_digits (N.pos p) "") as (ds & E & Hd & Hne & Hv).
  assert (ds +:+ "" = ds) as En by (clear; induction ds; simpl; congruence).
  rewrite En in E. rewrite E. split_and!; auto.
Qed.

Lemma match_number_pretty z c s :
  0 <= z → digit_of c = None → match_number (pretty z +:+ String c s) = Some (z, String c s).
Proof.
  intros Hz Hc. destruct (pretty_digits z Hz) as (Hd & Hne & Hv). unfold match_number.
  rewrite span_digits_app by done. simpl. rewrite Hc. cbn [fst snd].
  assert (pretty z +:+ "" = pretty z) as -> by (generalize (pretty z : string); clear; intros s; induction s; simpl; congruence).
  rewrite Hv. by destruct (pretty z) eqn:E.
Qed.

Lemma match_number_negative z s : z < 0 → match_number (pretty z +:+ s) = None.
Proof. intros Hz. destruct z as [|p|p]; [lia|lia|done]. Qed.

(** The last component of a fragment's name. *)
Definition base_name (tid enumerator : Z) : string :=
  "freezer_log_" +:+ pretty (i32 tid) +:+ "_" +:+ pretty (i32 enumerator) +:+ ".bin".

Lemma name_of_base path tid e : name_of path tid e = path +:+ "/" +:+ base_name tid e.
Proof. done. Qed.

Lemma base_name_flat tid e : has_char "/" (base_name tid e) = false.
Proof.
  unfold base_name. rewrite !has_char_app.
  by rewrite !pretty_Z_no_char by (split; [vm_compute; tauto|discriminate]).
Qed.

(** The names the writer chooses are the names the dumper looks for, with their
    two numbers, as long as these are not negative when printed. *)
Lemma trace_file_match_name tid e t f :
  trace_file_match (base_name tid e) = Some (t, f) ↔ t = i32 tid ∧ f = i32 e ∧ 0 <= i32 tid ∧ 0 <= i32 e.
Proof.
  unfold trace_file_match, base_name. cbn [strip String.append Ascii.eqb Bool.eqb].
  destruct (Z.lt_ge_cases (i32 tid) 0).
  { rewrite match_number_negative by done. split; [done|lia]. }
  rewrite (match_number_pretty (i32 tid) "_") by done. cbn [strip String.append Ascii.eqb Bool.eqb].
  destruct (Z.lt_ge_cases (i32 e) 0).
  { rewrite match_number_negative by done. split; [done|lia]. }
  rewrite (match_number_pretty (i32 e) "." "bin") by done.
  split; [intros [= <- <-]; lia|]. intros (-> & -> & _). done.
Qed.

(** ** The order of the fragments *)

#[global] Instance key_le_trans : Transitive key_le.
Proof.
  intros a b c [H1|[E1 H1]] [H2|[E2 H2]]; unfold key_le; [left; lia..|].
  right. split; [lia|by etrans].
Qed.

#[global] Instance key_le_total : Total key_le.
Proof.
  intros a b. unfold key_le. destruct (Z.lt_trichotomy a.1 b.1) as [?|[?|?]]; [left; by left| |right; by left].
  destruct (total String.le a.2 b.2); [left|right]; by right.
Qed.

#[global] Instance key_le_antisymm : AntiSymm (=) key_le.
Proof.
  intros [f a] [g b] [H1|[E1 H1]] [H2|[E2 H2]]; simpl in *; try lia. subst. f_equal. by apply (anti_symm String.le).
Qed.

Lemma sorted_fragments tid k n :
  StronglySorted key_le ((fun k => (Z.of_nat k, base_name tid (Z.of_nat k))) <$> seq k n).
Proof.
  revert k. induction n as [|n IH]; intros k; [constructor|]. simpl. constructor; [apply IH|].
  apply Forall_fmap, Forall_seq. intros j Hj. left. simpl. lia.
Qed.

(** The directory holds the fragments 0, ..., n-1 of the thread and no other
    file that the dumper takes for one of them. *)
Record fragments_of (fs : gmap string inode) (parent : string) (tid : Z) (n : nat) : Prop := {
  fo_files : ∀ k, (k < n)%nat → is_file fs (name_of parent tid (Z.of_nat k)) = true;
  fo_only : ∀ name f, has_char "/" name = false → is_Some (fs !! (parent +:+ "/" +:+ name)) →
    trace_file_match name = Some (tid, f) → ∃ k, (k < n)%nat ∧ name = base_name tid (Z.of_nat k);
}.

Lemma i32_small z : 0 <= z < 2 ^ 31 → i32 z = z.
Proof. intros. unfold i32. rewrite Z.mod_small; lia. Qed.

(** What the loop over the directory accepts. *)
Lemma candidate_inv fs parent tid key i f name :
  (match child_name parent key with
   | None => None
   | Some name =>
       match trace_file_match name with
       | Some (t, fragment) =>
           if is_file fs (parent +:+ "/" +:+ name) && (t =? tid) then Some (fragment, name) else None
       | None => None
       end
   end = Some (f, name)) → fs !! key = Some i →
  key = parent +:+ "/" +:+ name ∧ has_char "/" name = false ∧ trace_file_match name = Some (tid, f).
Proof.
  intros H Hk. destruct (child_name parent key) as [nm|] eqn:E; [|done].
  apply child_name_inv in E as [-> Hs]. destruct (trace_file_match nm) as [[t g]|] eqn:Em; [|done].
  destruct (is_file fs _ && _) eqn:Et; [|done]. apply andb_true_iff in Et as [_ Et%Z.eqb_eq].
  injection H as <- <-. subst. done.
Qed.

Lemma candidates_fragments fs parent tid n :
  fragments_of fs parent tid n → 0 <= tid < 2 ^ 31 → Z.of_nat n <= 2 ^ 31 →
  candidates fs parent tid ≡ₚ (fun k => (Z.of_nat k, base_name tid (Z.of_nat k))) <$> seq 0 n.
Proof.
  intros [Hfi Hon] Ht Hn. apply NoDup_Permutation.
  - apply NoDup_omap; [|apply NoDup_map_to_list].
    intros [k1 i1] [k2 i2] [f name] H1%elem_of_map_to_list H2%elem_of_map_to_list E1 E2.
    cbn [fst] in E1, E2.
    destruct (candidate_inv _ _ _ _ _ _ _ E1 H1) as [-> _].
    destruct (candidate_inv _ _ _ _ _ _ _ E2 H2) as [-> _]. congruence.
  - apply NoDup_fmap_2_strong; [|apply NoDup_seq]. intros x y _ _ [= E _]. lia.
  - intros [f name]. unfold candidates. rewrite list_elem_of_omap, list_elem_of_fmap. split.
    + intros ([key i] & Hk%elem_of_map_to_list & E). cbn [fst] in E.
      destruct (candidate_inv _ _ _ _ _ _ _ E Hk) as (-> & Hs & Hm).
      destruct (Hon name f Hs) as (k & Hlt & ->); [eauto|done|]. exists k.
      apply trace_file_match_name in Hm as (_ & -> & _). rewrite i32_small by lia.
      split; [done|]. apply elem_of_seq. lia.
    + intros (k & [= -> ->] & Hlt%elem_of_seq). specialize (Hfi k ltac:(lia)).
      pose proof Hfi as Hf. unfold is_file in Hf. destruct (fs !! _) as [i|] eqn:E in Hf; [|done].
      exists (name_of parent tid (Z.of_nat k), i). split; [by apply elem_of_map_to_list|].
      cbn [fst]. rewrite name_of_base, child_name_join by apply base_name_flat.
      assert (trace_file_match (base_name tid (Z.of_nat k)) = Some (tid, Z.of_nat k)) as ->.
      { apply trace_file_match_name. rewrite !i32_small by lia. lia. }
      rewrite <- name_of_base, Hfi, Z.eqb_refl. done.
Qed.

(** The fragments are found, all of them, in the order they were written. *)
Lemma discover_fragments fs parent tid n k :
  fragments_of fs parent tid n → 0 <= tid < 2 ^ 31 → Z.of_nat n <= 2 ^ 31 → (k < n)%nat →
  discover_trace_files fs parent (base_name tid (Z.of_nat k)) false =
  inr (tid, (fun k => name_of parent tid (Z.of_nat k)) <$> seq 0 n).
Proof.
  intros Hfo Ht Hn Hk. unfold discover_trace_files.
  assert (trace_file_match (base_name tid (Z.of_nat k)) = Some (tid, Z.of_nat k)) as ->.
  { apply trace_file_match_name. rewrite !i32_small by lia. lia. }
  rewrite <- name_of_base, (fo_files _ _ _ _ Hfo) by done. cbn [negb]. do 2 f_equal.
  assert (merge_sort key_le (candidates fs parent tid)
          = (fun k => (Z.of_nat k, base_name tid (Z.of_nat k))) <$> seq 0 n) as ->.
  { apply (StronglySorted_unique key_le); [apply StronglySorted_merge_sort; apply _|apply sorted_fragments|].
    by rewrite merge_sort_Permutation, candidates_fragments. }
  rewrite <- list_fmap_compose. done.
Qed.

(** ** Every decoded entry can be printed *)

(** What [format_entry] needs of an entry. *)
Definition printable (e : TraceEntry) : Prop :=
  0 <= te_type e < 25 ∧ (stack_type (te_type e) = true → is_Some (te_caller e)) ∧
  (te_type e = COLDTRACE_THREAD_START → is_Some (te_thread_stack_ptr e)).

Lemma atomic_text_total t :
  0 <= t < 25 → stack_type t = false → atomic_access_type t = false → t ≠ COLDTRACE_THREAD_START →
  t ≠ COLDTRACE_FENCE → t ≠ COLDTRACE_TEST_MARKER → is_Some (atomic_text t).
Proof. intros Ht. type_cases t; subst t; intros; try done; by eexists. Qed.

Lemma format_total n e : printable e → is_Some (format_entry n e).
Proof.
  intros (Ht & Hc & Hs). unfold format_entry. set (t := te_type e) in *. clearbody t. cbv zeta.
  destruct (stack_access_type t) eqn:E1.
  { apply fmap_is_Some, Hc. unfold stack_type. rewrite E1. apply orb_true_r. }
  destruct (Z.eqb_spec t COLDTRACE_FREE) as [->|N1]; [by apply fmap_is_Some, Hc|].
  destruct (Z.eqb_spec t COLDTRACE_ALLOC) as [->|N2]; [by apply fmap_is_Some, Hc|].
  destruct (atomic_access_type t) eqn:E2; [by eexists|].
  destruct (Z.eqb_spec t COLDTRACE_THREAD_START) as [->|N3]; [by apply fmap_is_Some, Hs|].
  destruct (Z.eqb_spec t COLDTRACE_FENCE) as [->|N4]; [by eexists|].
  destruct (Z.eqb_spec t COLDTRACE_TEST_MARKER) as [->|N5]; [by eexists|].
  destruct (stack_type t) eqn:E3.
  - destruct ((t =? COLDTRACE_MMAP) || (t =? COLDTRACE_MUNMAP)) eqn:E4; [by apply fmap_is_Some, Hc|].
    exfalso. revert E3 E4 E1 N1 N2 Ht. clear. intros E3 E4 E1 N1 N2 Ht. unfold stack_type, stack_alloc_type in E3.
    rewrite E1, orb_false_r in E3. apply orb_false_iff in E4 as [E4 E5]. rewrite E4, E5, !orb_false_r in E3.
    apply orb_true_iff in E3 as [E3|E3]; apply Z.eqb_eq in E3; done.
  - assert ((t =? COLDTRACE_MMAP) || (t =? COLDTRACE_MUNMAP) = false) as ->.
    { unfold stack_type, stack_alloc_type in E3. apply orb_false_iff in E3 as [E3 _].
      apply orb_false_iff in E3 as [_ E3]. apply orb_false_iff in E3 as [E3 E4].
      apply orb_false_iff in E3 as [_ E3]. by rewrite E3, E4. }
    by apply fmap_is_Some, atomic_text_total.
Qed.

Definition yields (P : TraceEntry → Prop) (r : read_error + option TraceEntry * Z * list Z) : Prop :=
  match r with inr (Some e, _, _) => P e | _ => True end.

Lemma yields_bind {A} P (m : read_error + A) k :
  (∀ a, yields P (k a)) → yields P (rbind m k).
Proof. intros H. destruct m; simpl; [done|apply H]. Qed.

(** Follow the decoder to the entry it yields. *)
Ltac yields_tac :=
  repeat first
    [ apply yields_bind; intros ?
    | match goal with
      | |- yields _ (match ?x with _ => _ end) => destruct x eqn:?
      | |- yields _ (let '(_, _) := ?x in _) => destruct x eqn:?
      | |- yields _ (inl _) => exact I
      | |- yields _ (inr (None, _, _)) => exact I
      end ].

Lemma read_one_printable tid buffer off stack : yields printable (read_one tid buffer off stack).
Proof.
  unfold read_one. destruct (_ <? _); [by destruct (all_zero _ _ _)|]. apply yields_bind. intros hd.
  destruct hd as [|typed [|? ?]]; try exact I.
  set (t := Z.land (Z.land typed TYPE_MASK) (Z.lnot ZERO_FLAG)).
  assert (0 <= t) as H0.
  { unfold t. rewrite land_type_mask. apply base_type_range. apply (Z.mod_pos_bound typed (2 ^ 8)). lia. }
  destruct (Z.leb_spec N_ENTRY_TYPES t) as [|Hlt]; [exact I|]. unfold N_ENTRY_TYPES in Hlt.
  destruct (stack_access_type t) eqn:Ea; unfold read_access, _read_entry; cbv zeta; yields_tac;
    (split; [cbn; lia|split; cbn [te_type te_caller te_thread_stack_ptr]; [|]]).
  all: try by eauto.
  all: try (intros ->; discriminate).
  - apply Z.eqb_eq in Heqb as ->. discriminate.
  - apply Z.eqb_eq in Heqb2 as ->. discriminate.
  - unfold stack_type. by rewrite Heqb0, Heqb1, Ea.
  - unfold stack_type. by rewrite Heqb0, Heqb1, Ea.
Qed.

Lemma read_loop_printable tid buffer fuel : ∀ off stack,
  Forall printable (read_loop tid buffer fuel off stack).1.
Proof.
  induction fuel as [|fuel IH]; intros off stack; cbn [read_loop]; destruct (_ <? _); cbn [negb]; try constructor.
  pose proof (read_one_printable tid buffer off stack) as H.
  destruct (read_one tid buffer off stack) as [e|[[[e|] off'] stack']]; try constructor.
  specialize (IH off' stack'). destruct (read_loop tid buffer fuel off' stack'). by constructor.
Qed.

(** The lines of printable entries, numbered from [n]. *)
Definition numbered (n : Z) (es : list TraceEntry) : list string :=
  imap (fun k e => default "" (format_entry (n + Z.of_nat k) e) +:+ newline) es.

Lemma write_lines_printable es : ∀ n, Forall printable es → write_lines n es = (numbered n es, true).
Proof.
  induction es as [|e es IH]; intros n H; [done|]. apply Forall_cons in H as [He H]. cbn [write_lines].
  rewrite (IH (n + 1) H). unfold numbered. rewrite imap_cons, Z.add_0_r.
  destruct (format_total n e He) as [line ->]. do 2 f_equal.
  apply imap_ext. intros k x _. simpl. do 3 f_equal. lia.
Qed.

(** ** The command never crashes *)

(** The failures that [main] reports as an error message. *)
Definition reported (f : dump_failure) : bool :=
  match f with Decoding e => trace_dump_error e | Formatting => false | _ => true end.

Section Total.
Context `{B : BuildInfo, L : Lz4}.

Lemma entries_of_printable tid m fs paths : ∀ stack,
  Forall printable (entries_of tid m fs stack paths).1.
Proof.
  induction paths as [|p paths IH]; intros stack; cbn [entries_of]; [constructor|].
  destruct (read_bytes fs p) as [data|]; [|constructor].
  assert (Forall printable (_read_file tid m stack data).1) as Hp.
  { unfold _read_file. destruct (decompress m data); [constructor|apply read_loop_printable]. }
  destruct (_read_file tid m stack data) as [es [e|stack']]; [done|].
  specialize (IH stack'). destruct (entries_of tid m fs stack' paths). by apply Forall_app.
Qed.

Lemma entries_of_total `{!Lz4Laws L} tid m fs paths :
  (∀ p data, fs !! p = Some (Reg data) → bytesP data) → ∀ stack e,
  (entries_of tid m fs stack paths).2 = inl e → reported e = true.
Proof.
  intros Hfs. induction paths as [|p paths IH]; intros stack e; cbn [entries_of]; [done|].
  unfold read_bytes. destruct (fs !! p) as [[data|]|] eqn:Ep; [|by intros [= <-]..].
  pose proof (fun e => read_file_total tid m stack data e (Hfs _ _ Ep)) as Ht.
  destruct (_read_file tid m stack data) as [es [e'|stack']]; [intros [= <-]; by apply Ht|].
  specialize (IH stack' e). by destruct (entries_of tid m fs stack' paths).
Qed.

(** C21: the dumper never crashes.  Whatever bytes the files of the directory hold,
    with any name on the command line and any size limit, [dump_trace] ends, and
    it ends with the number of entries or with an error that it reports to the
    user: it never unpacks outside the fragment, never indexes an empty stack,
    never loops without reading, and can print every entry it decodes. *)
Theorem dump_trace_total `{!Lz4Laws L} fs parent name standalone m e :
  (∀ p data, fs !! p = Some (Reg data) → bytesP data) →
  (dump_trace fs parent name standalone m).2 = inl e → reported e = true.
Proof.
  intros Hfs. unfold dump_trace.
  destruct (discover_trace_files fs parent name standalone) as [f|[tid files]] eqn:Ed.
  { intros [= <-]. unfold discover_trace_files in Ed. repeat case_match; by simplify_eq. }
  pose proof (entries_of_printable tid m fs files []) as Hp.
  pose proof (entries_of_total tid m fs files Hfs []) as Hr.
  destruct (entries_of tid m fs [] files) as [es r]. rewrite (write_lines_printable es 0 Hp). cbn [negb].
  destruct r; [|done]. intros [= <-]. by apply Hr.
Qed.
End Total.

Section Demo.
#[local] Existing Instance demo_build.

(** A directory with a file that ends in its version header. *)
Definition demo_corrupt : gmap string inode :=
  {[ "t/freezer_log_7_0.bin"%string := Reg [1; 2; 3; 4; 5] ]}.

Lemma dump_trace_total_witness :
  ∃ e, (dump_trace demo_corrupt "t" "freezer_log_7_0.bin" true LZ4_MAX_INPUT_SIZE).2 = inl e ∧
    e = Decoding (Unpack TruncatedVersionHeader) ∧ reported e = true.
Proof.
  assert ((dump_trace demo_corrupt "t" "freezer_log_7_0.bin" true LZ4_MAX_INPUT_SIZE).2
    = inl (Decoding (Unpack TruncatedVersionHeader))) as E by (vm_compute; reflexivity).
  exists (Decoding (Unpack TruncatedVersionHeader)). split; [exact E|]. split; [reflexivity|].
  apply (dump_trace_total demo_corrupt "t" "freezer_log_7_0.bin" true LZ4_MAX_INPUT_SIZE); [|exact E].
  intros p data H. unfold demo_corrupt in H. apply lookup_singleton_Some in H as [_ H]. injection H as <-.
  repeat constructor; vm_compute; congruence.
Defined.
End Demo.
