(* ===== verification/DumpTrace.v ===== *)
(** * What the dumper shows of a trace

    The entries trace_dump.py prints are, in order, the events the threads
    logged, each with its full call stack: [shown] says what is printed of an
    event, and the theorems follow the reader through fragments written by the
    recorder. *)

From stdpp Require Import base list numbers strings pretty gmap.
From Stdlib Require Import ZArith Lia.
From S2P Require Import Prelude Version Entries Libc Utils Config Codec Lz4 Writer Thread Trace Reader Dump DumpText.

(** ** Specification *)

(** What a dump line is made of, for one event. *)
Definition shown (tid : Z) (ev : event) : TraceEntry :=
  let t := base_type (ev_type ev) in
  let f := fun k : nat => ev_fields ev !! k in
  let st := default [] (ev_stack ev) in
  {| te_tid := tid;
     te_type := t;
     te_pointer := ev_ptr ev;
     te_zero_flag := negb (t =? COLDTRACE_TEST_MARKER) && negb (Z.land (ev_type ev) ZERO_FLAG =? 0);
     te_size := if stack_alloc_type t || stack_access_type t || atomic_access_type t
                then f 0%nat else None;
     te_alloc_index := if stack_alloc_type t then f 1%nat
                       else if t =? COLDTRACE_FREE then f 0%nat else None;
     te_atomic_index := if with_stack_ t || (t =? COLDTRACE_TEST_MARKER) then None
                        else if atomic_access_type t then f 1%nat else f 0%nat;
     te_caller := if with_stack_ t then last (ev_fields ev) else None;
     te_stack_depth := len st;
     te_caller_1 := default 0 (last st);
     te_caller_2 := default 0 (reverse st !! 1%nat);
     te_thread_stack_ptr := if t =? COLDTRACE_THREAD_START then f 1%nat else None;
     te_thread_stack_size := if t =? COLDTRACE_THREAD_START then f 2%nat else None |}.

(** An event whose entry consists of zero bytes: the dumper takes it for the
    unused end of a fragment. *)
Definition blank (ev : event) : bool :=
  (ev_type ev =? COLDTRACE_FREE) && (ev_ptr ev =? 0) && forallb (fun x => x =? 0) (ev_fields ev)
  && match ev_stack ev with Some [] => true | _ => false end.

(** ** Unpacking what was packed *)

Definition pack (l : layout) (vs : list Z) : list Z := concat (zip_with le_bytes l vs).

Definition fits (n : nat) (v : Z) : Prop := 0 <= v < 2 ^ (8 * Z.of_nat n).

Lemma length_pack l vs : Forall2 fits l vs → length (pack l vs) = sum_list l.
Proof.
  induction 1 as [|n v l vs _ _ IH]; [done|]. change (pack (n :: l) (v :: vs)) with (le_bytes n v ++ pack l vs).
  rewrite length_app, length_le_bytes, IH. done.
Qed.

Lemma struct_unpack_pack l vs : ∀ pre post off,
  Forall2 fits l vs → off = len pre →
  struct_unpack_from l (pre ++ pack l vs ++ post) off = inr vs.
Proof.
  intros pre post off H. revert pre off.
  induction H as [|n v l vs Hv _ IH]; intros pre off ->; [done|].
  change (pack (n :: l) (v :: vs)) with (le_bytes n v ++ pack l vs).
  cbn [struct_unpack_from]. rewrite <- app_assoc, load_skip, load_here by llia.
  rewrite le_join_le_bytes, Z.mod_small by done.
  rewrite app_assoc, IH; [done|llia].
Qed.

Lemma unpack_pack pre l vs post off :
  Forall2 fits l vs → off = len pre →
  _unpack_from (pre ++ pack l vs ++ post) l off = inr (vs, off + layout_size l).
Proof.
  intros H Ho. unfold _unpack_from, layout_size.
  destruct (Z.ltb_spec (len (pre ++ pack l vs ++ post)) (off + Z.of_nat (sum_list l))) as [Hl|_].
  - rewrite !length_app, (length_pack _ _ H) in Hl. lia.
  - by rewrite struct_unpack_pack.
Qed.

Lemma le_bytes_zero n v : forallb (fun x => x =? 0) (le_bytes n v) = true → fits n v → v = 0.
Proof.
  intros H Hv. assert (le_join (le_bytes n v) = 0) as E.
  { revert H. generalize (le_bytes n v). intros l. induction l as [|b l IH]; [done|]. simpl.
    rewrite andb_true_iff, Z.eqb_eq. intros [-> ?%IH]. lia. }
  by rewrite le_join_le_bytes, Z.mod_small in E.
Qed.

Lemma pack_zero l vs :
  forallb (fun x => x =? 0) (pack l vs) = true → Forall2 fits l vs → Forall (eq 0) vs.
Proof.
  intros H Hf. induction Hf as [|n v l vs Hv _ IH]; [constructor|].
  change (pack (n :: l) (v :: vs)) with (le_bytes n v ++ pack l vs) in H.
  rewrite forallb_app, andb_true_iff in H. destruct H as [H1 H2].
  constructor; [|auto]. symmetry. by eapply le_bytes_zero.
Qed.

Lemma fits_one n v : fits n v → Forall2 fits [n] [v].
Proof. intros. constructor; [done|constructor]. Qed.

Lemma pack_word v : pack [8%nat] [v] = le_bytes 8 v.
Proof. apply app_nil_r. Qed.

Lemma read_addresses_words d : ∀ pre post stack,
  Forall is_u64 d →
  read_addresses (pre ++ words64 d ++ post) (length d) (len pre) stack
  = inr (stack ++ d, len pre + 8 * len d).
Proof.
  induction d as [|a d IH]; intros pre post stack H; cbn [read_addresses length].
  { rewrite app_nil_r. do 2 f_equal. lia. }
  apply Forall_cons in H as [Ha Hd]. rewrite words64_cons, <- app_assoc.
  rewrite <- pack_word, (struct_unpack_pack ADDRESS [a] pre); [|by apply fits_one|done].
  rewrite pack_word. cbn [rbind]. rewrite app_assoc.
  replace (len pre + layout_size ADDRESS) with (len (pre ++ le_bytes 8 a))
    by (change (layout_size ADDRESS) with 8; llia).
  rewrite IH, <- app_assoc by done. do 2 f_equal. llia.
Qed.

(** Reading a stack diff gives the new stack and its two innermost frames. *)
Lemma read_stack_diff pre d post off popped rs :
  Forall is_u64 d → 0 <= popped <= len rs → off = len pre →
  let st := take (Z.to_nat popped) rs ++ d in
  _read_stack (pre ++ words64 d ++ post) off popped (popped + len d) rs
  = inr (st, (len st, default 0 (last st), default 0 (reverse st !! 1%nat), off + 8 * len d)).
Proof.
  intros Hd Hp -> st. unfold _read_stack. destruct (Z.ltb_spec (popped + len d) popped); [lia|].
  destruct (Z.ltb_spec (len rs) popped); [lia|]. change (layout_size ADDRESS) with 8.
  destruct (Z.ltb_spec (len (pre ++ words64 d ++ post)) (len pre + (popped + len d - popped) * 8)); [llia|].
  replace (Z.to_nat (popped + len d - popped)) with (length d) by lia.
  rewrite read_addresses_words by done. cbn [rbind]. fold st.
  assert (len st = popped + len d) as Hst by (unfold st; llia). rewrite Hst.
  assert (match st with [] => inr 0 | _ => from_end st 1 end = inr (A := read_error) (default 0 (last st))) as ->.
  { clear. destruct st as [|x st] using rev_ind; [done|]. rewrite last_snoc.
    unfold from_end. rewrite reverse_snoc. by destruct st. }
  cbn [rbind].
  assert ((if 2 <=? popped + len d then from_end st 2 else inr 0)
          = inr (A := read_error) (default 0 (reverse st !! 1%nat))) as ->; [|done].
  rewrite <- Hst. unfold from_end. simpl. destruct (Z.leb_spec 2 (len st)).
  - by destruct (lookup_lt_is_Some_2 (reverse st) 1) as [? ->]; [rewrite length_reverse; lia|].
  - rewrite (lookup_ge_None_2 (reverse st)); [done|]. rewrite length_reverse. lia.
Qed.

(** ** One entry *)

Section Entry.
Context (tid : Z) (pre post rs : list Z) (ty ptr : Z).
Context (Hty : is_u8 ty) (Hvalid : base_type ty < COLDTRACE_END_) (Hptr : 0 <= ptr < 2 ^ 48).

Let header : list Z := le_bytes 8 (coldtrace_make_entry_header ty ptr).
Let zero_flag : bool := negb (Z.land ty ZERO_FLAG =? 0).

Lemma read_one_header rest :
  let buffer := pre ++ header ++ rest in
  read_one tid buffer (len pre) rs =
  if stack_access_type (base_type ty)
  then read_access tid buffer (len (pre ++ header)) (base_type ty) ptr zero_flag rs
  else _read_entry tid buffer (len (pre ++ header)) (coldtrace_make_entry_header ty ptr)
         (base_type ty) ptr zero_flag rs.
Proof.
  intros buffer. unfold read_one. change (layout_size ENTRY_HEADER) with 8.
  replace (len (pre ++ header)) with (len pre + 8) by (unfold header; llia).
  destruct (Z.ltb_spec (len buffer) (len pre + 8)) as [Hl|_]; [unfold buffer, header in Hl; llia|].
  assert (fits 8 (coldtrace_make_entry_header ty ptr)) as Hu by by apply make_entry_header_u64.
  unfold buffer, header. rewrite <- pack_word.
  rewrite (struct_unpack_pack ENTRY_HEADER); [|by apply fits_one|done]. rewrite pack_word. cbn [rbind].
  rewrite header_type_bits by done. fold (base_type ty).
  destruct (Z.leb_spec N_ENTRY_TYPES (base_type ty)); [unfold N_ENTRY_TYPES, COLDTRACE_END_ in *; lia|].
  assert (Z.land (Z.shiftr (coldtrace_make_entry_header ty ptr) 16) POINTER_MASK = ptr) as ->; [|done].
  change POINTER_MASK with (Z.ones 48). rewrite Z.land_ones, Z.shiftr_div_pow2 by lia.
  rewrite make_entry_header_arith, Z.div_add_l, (Z.div_small ty) by (done || ulia).
  rewrite (Z.mod_small ptr) by done. rewrite Z.add_0_r. by apply Z.mod_small.
Qed.

(** The fields and the diff header of an entry with a stack. *)
Lemma pack_fields2 a b p q X :
  words64 [a; b] ++ le_bytes 4 p ++ le_bytes 4 q ++ X = pack FREE_FIELDS [a; b; p; q] ++ X.
Proof. cbv [pack FREE_FIELDS zip_with concat words64]. by rewrite <- !app_assoc. Qed.

Lemma pack_fields3 a b c p q X :
  words64 [a; b; c] ++ le_bytes 4 p ++ le_bytes 4 q ++ X = pack ALLOC_FIELDS [a; b; c; p; q] ++ X.
Proof. cbv [pack ALLOC_FIELDS zip_with concat words64]. by rewrite <- !app_assoc. Qed.

Section Stack.
Context (p : Z) (d : list Z) (Hp : 0 <= p <= len rs) (Hu : is_u32 (p + len d)) (Hd : Forall is_u64 d).

Let st : list Z := take (Z.to_nat p) rs ++ d.

Lemma fits_diff fs :
  Forall is_u64 fs → Forall2 fits (replicate (length fs) 8%nat ++ [4; 4]%nat) (fs ++ [p; p + len d]).
Proof.
  intros Hfs. apply Forall2_app.
  - induction Hfs; [constructor|]. by constructor.
  - constructor; [split; ulia|]. by apply fits_one.
Qed.

(** Fields followed by the frames of the diff. *)
Lemma unpack_with_stack l vs :
  Forall2 fits l vs →
  let buffer := pre ++ header ++ pack l vs ++ words64 d ++ post in
  let off := len (pre ++ header) in
  (len buffer <? off + layout_size l) = false ∧
  struct_unpack_from l buffer off = inr vs ∧
  _read_stack buffer (off + layout_size l) p (p + len d) rs =
    inr (st, (len st, default 0 (last st), default 0 (reverse st !! 1%nat),
              off + layout_size l + 8 * len d)).
Proof.
  intros Hfit buffer off. pose proof (length_pack _ _ Hfit) as Hl. unfold layout_size. split_and!.
  - apply Z.ltb_ge. unfold buffer, off. llia.
  - unfold buffer. rewrite app_assoc. by apply struct_unpack_pack.
  - unfold buffer. rewrite app_assoc, (app_assoc (pre ++ header)).
    apply read_stack_diff; [done..|]. unfold off. rewrite (length_app (pre ++ header)). lia.
Qed.

(** The line of an entry with a stack. *)
Definition stack_line (t : Z) (size alloc_index : option Z) (caller : Z) : TraceEntry :=
  MkTraceEntry tid t ptr zero_flag size alloc_index None (Some caller) (len st)
    (default 0 (last st)) (default 0 (reverse st !! 1%nat)) None None.

Lemma read_access_entry t f0 f1 :
  Forall is_u64 [f0; f1] →
  read_access tid (pre ++ header ++ pack ACCESS_FIELDS [f0; f1; p; p + len d] ++ words64 d ++ post)
    (len (pre ++ header)) t ptr zero_flag rs =
  inr (Some (stack_line t (Some f0) None f1), len (pre ++ header) + 24 + 8 * len d, st).
Proof.
  intros Hf. destruct (unpack_with_stack ACCESS_FIELDS [f0; f1; p; p + len d] (fits_diff _ Hf)) as (H1 & H2 & H3).
  unfold read_access. rewrite H1, H2. cbn [rbind]. by rewrite H3.
Qed.

Lemma read_alloc_entry t typed f0 f1 f2 :
  stack_alloc_type t = true → Forall is_u64 [f0; f1; f2] →
  _read_entry tid (pre ++ header ++ pack ALLOC_FIELDS [f0; f1; f2; p; p + len d] ++ words64 d ++ post)
    (len (pre ++ header)) typed t ptr zero_flag rs =
  inr (Some (stack_line t (Some f0) (Some f1) f2), len (pre ++ header) + 32 + 8 * len d, st).
Proof.
  intros Ht Hf. destruct (unpack_with_stack ALLOC_FIELDS [f0; f1; f2; p; p + len d] (fits_diff _ Hf)) as (H1 & H2 & H3).
  unfold _read_entry, _unpack_from. rewrite Ht, H1, H2. cbn [rbind]. rewrite H3.
  destruct (Z.eqb_spec t COLDTRACE_TEST_MARKER) as [->|_]; [done|].
  by destruct (Z.eqb_spec t COLDTRACE_FREE) as [->|_].
Qed.

Lemma read_free_entry typed f0 f1 :
  Forall is_u64 [f0; f1] → ¬ (typed = 0 ∧ f0 = 0 ∧ f1 = 0 ∧ p = 0 ∧ d = []) →
  _read_entry tid (pre ++ header ++ pack FREE_FIELDS [f0; f1; p; p + len d] ++ words64 d ++ post)
    (len (pre ++ header)) typed COLDTRACE_FREE ptr zero_flag rs =
  inr (Some (stack_line COLDTRACE_FREE None (Some f0) f1), len (pre ++ header) + 24 + 8 * len d, st).
Proof.
  intros Hf Hnb. pose proof (fits_diff _ Hf) as Hfit. cbn [length replicate app] in Hfit.
  destruct (unpack_with_stack FREE_FIELDS [f0; f1; p; p + len d] Hfit) as (H1 & H2 & H3).
  pose proof (length_pack FREE_FIELDS _ Hfit) as Hl. change (sum_list FREE_FIELDS) with 24%nat in Hl. unfold _read_entry.
  change (COLDTRACE_FREE =? COLDTRACE_TEST_MARKER) with false. rewrite Z.eqb_refl, H1, H2. cbn [rbind]. rewrite H3.
  rewrite Z.min_l by by apply Z.ltb_ge.
  destruct ((typed =? 0) && _) eqn:E; [|done]. apply andb_true_iff in E as [E1 E2].
  unfold all_zero, slice in E2. rewrite app_assoc, Nat2Z.id, drop_app_length in E2.
  rewrite take_app_length' in E2 by (rewrite Hl; change (layout_size FREE_FIELDS) with 24; lia).
  apply pack_zero in E2; [|done]. exfalso. apply Hnb. rewrite Z.eqb_eq in E1.
  apply Forall_cons in E2 as [? E2]. apply Forall_cons in E2 as [? E2].
  apply Forall_cons in E2 as [? E2]. apply Forall_cons in E2 as [? _].
  split_and!; try done. destruct d; [done|]. simpl in *. lia.
Qed.
End Stack.

Lemma pack_words fs : pack (replicate (length fs) 8%nat) fs = words64 fs.
Proof.
  induction fs as [|f fs IH]; [done|].
  change (pack (replicate (length (f :: fs)) 8%nat) (f :: fs)) with (le_bytes 8 f ++ pack (replicate (length fs) 8%nat) fs).
  by rewrite IH.
Qed.

(** The fields of an entry without a stack. *)
Lemma unpack_words l fs :
  l = replicate (length fs) 8%nat → Forall is_u64 fs →
  _unpack_from (pre ++ header ++ words64 fs ++ post) l (len (pre ++ header))
  = inr (fs, len (pre ++ header) + 8 * len fs).
Proof.
  intros -> Hf. rewrite <- pack_words, app_assoc, unpack_pack; [|clear -Hf; induction Hf; by constructor|done].
  do 3 f_equal. unfold layout_size. induction fs as [|f fs IH]; [done|].
  apply Forall_cons in Hf as [_ Hf]. specialize (IH Hf). simpl in *. lia.
Qed.

(** Give a list of known length its elements. *)
Ltac name_fields fs H :=
  repeat (destruct fs as [|? fs]; [discriminate H|cbn [length] in H; apply Nat.succ_inj in H]);
  destruct fs; [clear H|discriminate H].

Lemma read_plain_entry typed fs :
  with_stack_ (base_type ty) = false → length fs = field_count (base_type ty) → Forall is_u64 fs →
  _read_entry tid (pre ++ header ++ words64 fs ++ post) (len (pre ++ header)) typed
    (base_type ty) ptr zero_flag rs =
  inr (Some (shown tid (Event ty ptr fs None)), len (pre ++ header) + 8 * len fs, rs).
Proof.
  intros Hs Hc Hf. pose proof (base_type_range ty Hty) as Hr.
  unfold _read_entry, shown. cbn [ev_type ev_ptr ev_fields ev_stack]. unfold zero_flag.
  set (z := negb (Z.land ty ZERO_FLAG =? 0)).
  rewrite Hs. revert Hs Hc. generalize dependent (base_type ty). intros t Hv Hr Hs Hc.
  destruct (Z.eqb_spec t COLDTRACE_FREE) as [->|Hfree]; [done|].
  assert (stack_alloc_type t = false ∧ stack_access_type t = false) as [-> ->].
  { clear -Hs Hv Hr. type_cases t; subst t; done. }
  destruct (Z.eqb_spec t COLDTRACE_TEST_MARKER) as [->|Hmark].
  { name_fields fs Hc. change (8 * len []) with 0. rewrite Z.add_0_r. done. }
  destruct (Z.eqb_spec t COLDTRACE_THREAD_START) as [->|Hstart].
  { name_fields fs Hc. by rewrite unpack_words. }
  assert (length fs = if atomic_access_type t then 2%nat else 1%nat) as Hc'.
  { rewrite Hc. clear -Hs Hv Hr Hfree Hmark Hstart. type_cases t; subst t; done. }
  clear Hc. destruct (atomic_access_type t); name_fields fs Hc'; by rewrite unpack_words.
Qed.

(** A header word of zero is that of a free at NULL. *)
Lemma header_zero : coldtrace_make_entry_header ty ptr = 0 → ty = 0 ∧ ptr = 0.
Proof.
  rewrite make_entry_header_arith by done. rewrite Z.mod_small by done. unfold is_u8 in *. lia.
Qed.

(** The same for the entries with a stack. *)
Lemma read_stack_entry p d fs :
  with_stack_ (base_type ty) = true → length fs = field_count (base_type ty) → Forall is_u64 fs →
  0 <= p <= len rs → is_u32 (p + len d) → Forall is_u64 d →
  let st := apply_diff rs (Some (p, d)) in
  blank (Event ty ptr fs (Some st)) = false →
  read_one tid (pre ++ header ++ words64 fs ++ encode_stack (Some (p, d)) ++ post) (len pre) rs =
  inr (Some (shown tid (Event ty ptr fs (Some st))), len (pre ++ header) + (8 * len fs + 8) + 8 * len d, st).
Proof.
  intros Hs Hc Hf Hp Hu Hd st Hb. rewrite read_one_header. pose proof (base_type_range ty Hty) as Hr.
  unfold shown. cbn [ev_type ev_ptr ev_fields ev_stack default encode_stack].
  rewrite <- !app_assoc. set (t := base_type ty) in *.
  assert (t = 0 → ∃ f0 f1, fs = [f0; f1] ∧
    ¬ (coldtrace_make_entry_header ty ptr = 0 ∧ f0 = 0 ∧ f1 = 0 ∧ p = 0 ∧ d = [])) as Hnb.
  { intros Ht. rewrite Ht in Hc. cbn in Hc. name_fields fs Hc. eexists _, _. split; [done|].
    intros ([-> ->]%header_zero & -> & -> & -> & ->). discriminate Hb. }
  clear Hb. clearbody t.
  type_cases t; subst t; try discriminate Hs; cbn in Hc; clear Hr Hs;
    [destruct Hnb as (? & ? & -> & Hnb); [done|]|name_fields fs Hc..]; cbn [length];
    rewrite ?pack_fields2, ?pack_fields3.
  - by rewrite read_free_entry.
  - by rewrite read_alloc_entry.
  - by rewrite (read_access_entry p d).
  - by rewrite (read_access_entry p d).
  - by rewrite read_alloc_entry.
  - by rewrite read_alloc_entry.
Qed.
End Entry.

(** The reader's stack agrees with the fragment's, which starts empty whatever
    the fragments before it left. *)
Definition follows (rs sp : list Z) : Prop := rs = sp ∨ sp = [].

Lemma read_one_entry tid pre post rs sp e :
  entry_wf e → follows rs sp → diffs_ok sp [e] → blank (to_event sp e) = false →
  ∃ rs', read_one tid (pre ++ encode_entry e ++ post) (len pre) rs =
      inr (Some (shown tid (to_event sp e)), len (pre ++ encode_entry e), rs') ∧
    follows rs' (apply_diff sp (en_stack e)).
Proof.
  intros [Ht Hv Hp Hc Hf Hs] Hfo [Hd _] Hb. destruct e as [ty ptr fs s]. cbn [en_type en_ptr en_fields en_stack] in *.
  unfold to_event, encode_entry in *. cbn [en_type en_ptr en_fields en_stack] in *.
  rewrite <- !app_assoc.
  destruct s as [[p d]|].
  - destruct Hs as (Hw & Hp0 & Hu & Hd64).
    assert (p <= len rs ∧ apply_diff sp (Some (p, d)) = apply_diff rs (Some (p, d))) as [Hpr Heq].
    { destruct Hfo as [-> | ->]; [split; [lia|done]|]. simpl in *. replace p with 0 by lia. split; [lia|done]. }
    rewrite Heq in Hb |- *. exists (apply_diff rs (Some (p, d))). split; [|by left].
    rewrite read_stack_entry; try done; [|by rewrite with_stack_base].
    cbn [encode_stack]. do 3 f_equal. llia.
  - exists rs. split; [|done]. cbn [encode_stack].
    simpl in Hs. rewrite <- with_stack_base in Hs by done. rewrite read_one_header by done.
    assert (stack_access_type (base_type ty) = false) as ->.
    { unfold with_stack_, stack_access_type in *. fold (base_type (base_type ty)) in Hs.
      rewrite base_type_idem in Hs by done. repeat (apply orb_false_iff in Hs as [Hs ?]).
      by apply orb_false_iff. }
    rewrite app_nil_l, read_plain_entry by done. do 3 f_equal. llia.
Qed.

(** ** A fragment, and a sequence of fragments *)

Lemma read_loop_entries tid es : ∀ fuel pre rs sp,
  Forall entry_wf es → diffs_ok sp es → follows rs sp →
  Forall (fun ev => blank ev = false) (replay sp es) → (length (encode_all es) ≤ fuel)%nat →
  ∃ rs', read_loop tid (pre ++ encode_all es) fuel (len pre) rs = (shown tid <$> replay sp es, inr rs').
Proof.
  induction es as [|e es IH]; intros fuel pre rs sp Hwf Hd Hfo Hb Hfu.
  - exists rs. destruct fuel; cbn [read_loop encode_all]; rewrite app_nil_r, Z.ltb_irrefl; done.
  - apply Forall_cons in Hwf as [Hw Hwf]. cbn [replay] in *. apply Forall_cons in Hb as [Hb Hbs].
    destruct Hd as [Hd Hds]. cbn [encode_all] in *.
    assert (8 <= len (encode_entry e)) as H8.
    { rewrite len_encode_entry by done. unfold diff_header, sizeof_stack_diff, diff_words.
      destruct (en_stack e) as [[? ?]|]; case_match; lia. }
    rewrite length_app in Hfu. destruct fuel as [|fuel]; [lia|].
    destruct (read_one_entry tid pre (encode_all es) rs sp e) as (rs1 & E1 & Hfo1); [done..|].
    destruct (IH fuel (pre ++ encode_entry e) rs1 (apply_diff sp (en_stack e)))
      as (rs' & E); [done..|lia|].
    exists rs'. cbn [read_loop].
    destruct (Z.ltb_spec (len pre) (len (pre ++ encode_entry e ++ encode_all es))); [|llia].
    cbn [negb]. rewrite E1. rewrite <- app_assoc in E. by rewrite E.
Qed.

(** Whatever follows an entry of zero bytes in a fragment is not read. *)
Lemma blank_hides_rest tid pre post rs fuel :
  read_loop tid (pre ++ encode_entry (Entry COLDTRACE_FREE 0 [0; 0] (Some (0, []))) ++ post) (S fuel) (len pre) rs
  = ([], inr rs).
Proof.
  assert (encode_entry (Entry COLDTRACE_FREE 0 [0; 0] (Some (0, []))) =
    le_bytes 8 (coldtrace_make_entry_header 0 0) ++ replicate 24 0) as -> by (vm_compute; reflexivity).
  rewrite <- app_assoc. cbn [read_loop].
  destruct (Z.ltb_spec (len pre) (len (pre ++ le_bytes 8 (coldtrace_make_entry_header 0 0) ++ replicate 24 0 ++ post)))
    as [_|H]; [|rewrite !length_app, length_le_bytes in H; lia].
  cbn [negb]. rewrite read_one_header by (done || (vm_compute; reflexivity)).
  change (stack_access_type (base_type 0)) with false. cbv iota. unfold _read_entry.
  change (base_type 0 =? COLDTRACE_TEST_MARKER) with false. change (base_type 0 =? COLDTRACE_FREE) with true.
  change (coldtrace_make_entry_header 0 0 =? 0) with true. cbn [andb]. cbv iota.
  rewrite Z.min_l by (rewrite !length_app, length_le_bytes, length_replicate; change (layout_size FREE_FIELDS) with 24; lia).
  unfold all_zero, slice. rewrite app_assoc, Nat2Z.id, drop_app_length.
  change (layout_size FREE_FIELDS) with 24.
  replace (Z.to_nat (len (pre ++ le_bytes 8 (coldtrace_make_entry_header 0 0)) + 24
    - len (pre ++ le_bytes 8 (coldtrace_make_entry_header 0 0)))) with (length (replicate 24 0)) by (rewrite length_replicate; lia).
  by rewrite take_app_length.
Qed.

Section Files.
Context `{B : BuildInfo, L : Lz4} (tid max_fragment_size : Z).

(** Entries a fragment of the recorder can hold. *)
Definition fragment_ok (es : list entry) : Prop :=
  Forall entry_wf es ∧ diffs_ok [] es ∧ Forall (fun ev => blank ev = false) (replay [] es).

Definition unpacks_to (data : list Z) (es : list entry) : Prop :=
  decompress max_fragment_size data = inr (frag_bytes es).

Lemma read_file_entries rs data es :
  fragment_ok es → unpacks_to data es →
  ∃ rs', _read_file tid max_fragment_size rs data = (shown tid <$> replay [] es, inr rs').
Proof.
  intros (Hwf & Hd & Hb) E. unfold _read_file. rewrite E. unfold frag_bytes.
  pose proof length_header_bytes as Hh.
  replace sizeof_version_header with (len header_bytes) by (unfold sizeof_version_header; lia).
  apply read_loop_entries; [done..|by right|done|llia].
Qed.

(** The reader, started with any stack, on the files of a sequence of fragments. *)
Lemma entries_fragments fs paths frags : ∀ rs,
  Forall2 (fun p es => ∃ data, fs !! p = Some (Reg data) ∧ unpacks_to data es) paths frags →
  Forall fragment_ok frags →
  ∃ rs', entries_of tid max_fragment_size fs rs paths = (shown tid <$> closed_events frags, inr rs').
Proof.
  intros rs H. revert rs.
  induction H as [|p es paths frags (data & Hp & Hu) _ IH]; intros rs Hok; [by exists rs|].
  apply Forall_cons in Hok as [Hok Hoks].
  destruct (read_file_entries rs data es Hok Hu) as (rs1 & E1).
  destruct (IH rs1 Hoks) as (rs2 & E2). exists rs2. cbn [entries_of]. unfold read_bytes. rewrite Hp, E1, E2.
  unfold closed_events. by rewrite fmap_cons, <- fmap_app.
Qed.
End Files.

(** ** The text *)

(** The dump of a thread's events. *)
Definition dump_text (tid : Z) (evs : list event) : list string :=
  numbered 0 (shown tid <$> evs)
  ++ ["Unpacked nentries=" +:+ pretty (len evs) +:+ " log-entries." +:+ newline].

(** Dumping any of the fragments of a directory prints the events of them all. *)
Lemma dump_fragments `{B : BuildInfo, L : Lz4} fs parent tid frags k m :
  fragments_of fs parent tid (length frags) → 0 <= tid < 2 ^ 31 → len frags <= 2 ^ 31 →
  (∀ k es, frags !! k = Some es → ∃ data,
     fs !! name_of parent tid (Z.of_nat k) = Some (Reg data) ∧ unpacks_to m data es) →
  Forall fragment_ok frags → (k < length frags)%nat →
  dump_trace fs parent (base_name tid (Z.of_nat k)) false m
  = (dump_text tid (closed_events frags), inr (len (closed_events frags))).
Proof.
  intros Hfo Ht Hn Hdata Hok Hk. unfold dump_trace. rewrite (discover_fragments _ _ _ (length frags)) by done.
  set (paths := _ <$> seq 0 (length frags)).
  destruct (entries_fragments tid m fs paths frags []) as (rs & E); [|done|].
  { apply Forall2_lookup. intros i. unfold paths. rewrite list_lookup_fmap.
    destruct (frags !! i) as [es|] eqn:Ei.
    - rewrite lookup_seq_lt by by eapply lookup_lt_Some. constructor. by apply Hdata.
    - apply lookup_ge_None in Ei. rewrite lookup_seq_ge by done. constructor. }
  pose proof (entries_of_printable tid m fs paths []) as Hp. rewrite E in Hp |- *.
  cbn [fst] in Hp. rewrite (write_lines_printable _ 0 Hp). cbn [negb]. unfold dump_text. by rewrite length_fmap.
Qed.
