(* ===== verification/Indexes.v ===== *)
(** * The index sets of the trace checker (test/checkers/indexes_checker.c)

    A growable array of booleans that records which allocation and atomic indices
    the trace contains, the ascending-order check on the indices of one page, and
    the final search for gaps.  The array refines a mathematical set. *)

From stdpp Require Import base list numbers strings gmap.
From Stdlib Require Import ZArith Lia Sorted.
From S2P Require Import Prelude Libc Utils Writer.

Definition INVALID_INDEX : Z := 2 ^ 64 - 1.
Definition UINT64_MAX : Z := 2 ^ 64 - 1.

Record index_set := IndexSet {
  max_idx : Z;
  capacity : Z;
  content : option (list bool);
}.

Definition empty_set : index_set := IndexSet 0 0 None.

Definition set_max_idx (set : index_set) (idx : Z) : index_set :=
  if max_idx set <? idx then IndexSet idx (capacity set) (content set) else set.

Definition destroy (set : index_set) : index_set := IndexSet 0 0 None.

Definition contains (set : index_set) (idx : Z) : outcome bool :=
  match content set with
  | None => Undef NullDeref
  | Some c => or_undef OutOfBounds (if idx <? 0 then None else c !! Z.to_nat idx)
  end.

(** [while (idx >= new_capacity) new_capacity *= 2] *)
Fixpoint grow_capacity (fuel : nat) (idx new_capacity : Z) : outcome Z :=
  if idx <? new_capacity then Ret new_capacity
  else
    match fuel with
    | O => NoFuel
    | S fuel => grow_capacity fuel idx (u64 (new_capacity * 2))
    end.

(** [set->content[idx] = true; set_max_idx(set, idx);] *)
Definition mark (set : index_set) (idx : Z) : outcome index_set :=
  match content set with
  | None => Undef NullDeref
  | Some c =>
      if in_range c idx 1
      then Ret (set_max_idx (IndexSet (max_idx set) (capacity set)
                               (Some (<[Z.to_nat idx := true]> c))) idx)
      else Undef OutOfBounds
  end.

(** The block is filled by [memcpy] of the old contents and [memset] of the rest. *)
Definition insert (set : index_set) (idx : Z) (w : world) : outcome (bool * index_set * world) :=
  if capacity set <=? idx then
    let! new_capacity := grow_capacity 64 idx (if capacity set =? 0 then 2 else capacity set) in
    let '(ok, w) := attempt w in
    if negb ok then Ret (false, set, w)
    else
      let block := default [] (content set)
        ++ replicate (Z.to_nat (new_capacity - capacity set)) false in
      let! set := mark (IndexSet (max_idx set) new_capacity (Some block)) idx in
      Ret (true, set, w)
  else
    let! set := mark set idx in
    Ret (true, set, w).

(** The result, the new value of [*prev] and the set. *)
Definition check_ascending_generic (prev idx : Z) (set : index_set) (w : world) :
    outcome (bool * Z * index_set * world) :=
  if negb (idx =? INVALID_INDEX) then
    if negb (prev =? UINT64_MAX) && (idx <=? prev) then Ret (false, prev, set, w)
    else
      let! (r, w) := insert set idx w in
      let '(ok, set) := r in
      Ret (ok, idx, set, w)
  else Ret (true, prev, set, w).

Fixpoint missing_loop (n : nat) (idx : Z) (set : index_set) (ret : bool) : outcome bool :=
  match n with
  | O => Ret ret
  | S n =>
      let! c := contains set idx in
      missing_loop n (idx + 1) set (if c then ret else false)
  end.

Definition check_not_seen_generic_indexes (set : index_set) : outcome (bool * index_set) :=
  let cap_snapshot := max_idx set in
  let! ret := missing_loop (Z.to_nat cap_snapshot) 0 set true in
  Ret (ret, destroy set).

(** ** The set an array stands for *)
Definition has (set : index_set) (j : Z) : Prop :=
  0 <= j ∧ default [] (content set) !! Z.to_nat j = Some true.

Record set_ok (set : index_set) : Prop := {
  so_len : len (default [] (content set)) = capacity set;
  so_some : 0 < capacity set → is_Some (content set);
  so_pow : capacity set = 0 ∨ ∃ k, 1 <= k < 64 ∧ capacity set = 2 ^ k;
  so_max : 0 <= max_idx set ∧ (∀ j, has set j → j <= max_idx set);
  so_top : (capacity set = 0 ∧ max_idx set = 0) ∨ has set (max_idx set);
}.

Lemma has_empty j : ~ has empty_set j.
Proof. intros [_ H]. simpl in H. by rewrite lookup_nil in H. Qed.

Lemma empty_set_ok : set_ok empty_set.
Proof.
  split; try done; try (by left). split; [done|]. by intros j ?%has_empty.
Qed.

Lemma grow_capacity_spec fuel : ∀ idx k,
  0 <= idx < 2 ^ 63 → 1 <= k <= 63 → 63 - k <= Z.of_nat fuel →
  ∃ k', k <= k' <= 63 ∧ grow_capacity fuel idx (2 ^ k) = Ret (2 ^ k') ∧ idx < 2 ^ k'.
Proof.
  induction fuel as [|fuel IH]; intros idx k Hi Hk Hf; cbn [grow_capacity];
    destruct (Z.ltb_spec idx (2 ^ k)); try (exists k; split; [lia|done]).
  - replace k with 63 in * by lia. lia.
  - assert (k <> 63) by (intros ->; lia).
    assert (2 ^ k * 2 = 2 ^ (k + 1)) as E by (rewrite Z.pow_add_r by lia; lia).
    rewrite E, u64_id.
    2: { split; [apply Z.pow_nonneg; lia|]. apply Z.pow_lt_mono_r; lia. }
    destruct (IH idx (k + 1)) as (k' & ? & ? & ?); [lia|lia|lia|]. exists k'. split; [lia|done].
Qed.

Lemma has_insert set c idx cap :
  content set = Some c → 0 <= idx → (Z.to_nat idx < length c)%nat →
  ∀ j m, has (IndexSet m cap (Some (<[Z.to_nat idx := true]> c))) j ↔ j = idx ∨ has set j.
Proof.
  intros Hc Hi Hl j m. unfold has. rewrite Hc. simpl. split.
  - intros [Hj H]. destruct (decide (j = idx)) as [|Hne]; [by left|right]. split; [done|].
    rewrite list_lookup_insert_ne in H by lia. done.
  - intros [->|[Hj H]]; [split; [done|by apply list_lookup_insert_eq]|]. split; [done|].
    destruct (decide (j = idx)) as [->|]; [by apply list_lookup_insert_eq|].
    rewrite list_lookup_insert_ne by lia. done.
Qed.

(** Growing keeps the members. *)
Lemma has_grow set n k j m :
  has (IndexSet m k (Some (default [] (content set) ++ replicate n false))) j ↔ has set j.
Proof.
  unfold has. simpl. split; intros [Hj H]; (split; [done|]).
  - apply lookup_app_Some in H as [H|[_ H]]; [done|]. by apply lookup_replicate in H as [? _].
  - apply lookup_app_Some. by left.
Qed.

(** Marking an index in a set that has room for it. *)
Lemma mark_spec set s1 idx :
  set_ok set → 0 <= idx < capacity s1 →
  (∀ j, has s1 j ↔ has set j) → max_idx s1 = max_idx set →
  len (default [] (content s1)) = capacity s1 →
  (∃ k, 1 <= k < 64 ∧ capacity s1 = 2 ^ k) → is_Some (content s1) →
  ∃ s2, mark s1 idx = Ret s2 ∧ set_ok s2 ∧ (∀ j, has s2 j ↔ j = idx ∨ has set j) ∧
    max_idx s2 = Z.max (max_idx set) idx.
Proof.
  intros [_ _ _ [Hm0 Hm] Ht] Hi Hhas Hmax Hlen Hpow [c Hc].
  unfold mark. rewrite Hc in *. simpl in Hlen.
  assert (in_range c idx 1 = true) as -> by (apply in_range_spec; lia).
  eexists. split; [done|]. set (s2 := set_max_idx _ idx).
  assert (∃ m, s2 = IndexSet m (capacity s1) (Some (<[Z.to_nat idx:=true]> c)) ∧
    m = Z.max (max_idx set) idx) as (m & -> & ->).
  { unfold s2, set_max_idx. simpl. rewrite <- Hmax.
    destruct (Z.ltb_spec (max_idx s1) idx); eexists; (split; [done|lia]). }
  assert (∀ j m, has (IndexSet m (capacity s1) (Some (<[Z.to_nat idx:=true]> c))) j
    ↔ j = idx ∨ has set j) as Hin.
  { intros j m. rewrite (has_insert s1 c idx (capacity s1) Hc ltac:(lia) ltac:(lia)), Hhas. done. }
  split; [|done]. split; simpl; try done.
  - by rewrite length_insert.
  - by right.
  - split; [lia|]. intros j [->|Hj]%Hin; [lia|]. specialize (Hm j Hj). lia.
  - right. apply Hin. destruct (Z.max_spec (max_idx set) idx) as [[? ->]|[? ->]]; [by left|].
    destruct Ht as [[_ Hz]|Ht]; [left; lia|by right].
Qed.

(** Inserting an index below 2^63: the array grows as needed and gains exactly
    this member, unless the allocation fails. *)
Lemma insert_spec set idx w :
  set_ok set → 0 <= idx < 2 ^ 63 →
  ∃ ok set' w', insert set idx w = Ret (ok, set', w') ∧
    (if ok then set_ok set' ∧ (∀ j, has set' j ↔ j = idx ∨ has set j) ∧
                max_idx set' = Z.max (max_idx set) idx
     else set' = set) ∧ (w_faults w = [] → ok = true ∧ w' = w).
Proof.
  intros Hok Hi. pose proof Hok as [Hl Hs Hp _ _]. unfold insert.
  destruct (Z.leb_spec (capacity set) idx).
  - assert (∃ k, 1 <= k <= 63 ∧ (if capacity set =? 0 then 2 else capacity set) = 2 ^ k)
      as (k & Hk & ->).
    { destruct (Z.eqb_spec (capacity set) 0); [by exists 1|].
      destruct Hp as [|(k & ? & ->)]; [done|]. exists k. split; [lia|done]. }
    destruct (grow_capacity_spec 64 idx k) as (k' & Hk' & -> & Hlt); [lia|lia|lia|].
    cbn [obind]. destruct (attempt w) as [ok w1] eqn:Ea. destruct ok; cbn [negb].
    + destruct (mark_spec set (IndexSet (max_idx set) (2 ^ k') (Some (default [] (content set) ++
        replicate (Z.to_nat (2 ^ k' - capacity set)) false))) idx) as (s2 & -> & H1); try done.
      * simpl. lia.
      * intros j. apply has_grow.
      * simpl. rewrite length_app, length_replicate. lia.
      * exists k'. split; [lia|done].
      * eexists true, s2, w1. split; [done|]. split; [done|].
        intros Hf. unfold attempt, next_fault in Ea. rewrite Hf in Ea. by simplify_eq.
    + eexists false, set, w1. split; [done|]. split; [done|].
      intros Hf. unfold attempt, next_fault in Ea. by rewrite Hf in Ea.
  - destruct (mark_spec set set idx) as (s2 & -> & H1); try done.
    + lia.
    + destruct Hp as [Hp|(k & ? & ?)]; [lia|]. by exists k.
    + apply Hs. lia.
    + eexists true, s2, w. done.
Qed.

(** ** The final check for gaps *)

Lemma contains_spec set j :
  set_ok set → 0 <= j < capacity set → ∃ b, contains set j = Ret b ∧ (b = true ↔ has set j).
Proof.
  intros Hok Hj. pose proof (so_len _ Hok) as Hl. destruct (so_some _ Hok) as [c Hc]; [lia|].
  unfold contains, has. rewrite Hc in *. simpl in *.
  destruct (Z.ltb_spec j 0); [lia|].
  destruct (lookup_lt_is_Some_2 c (Z.to_nat j)) as [b Hb]; [lia|]. rewrite Hb. simpl.
  exists b. split; [done|]. split; [by intros ->|]. intros [_ Hx]. by simplify_eq.
Qed.

Lemma missing_loop_spec n : ∀ idx set ret,
  set_ok set → 0 <= idx → idx + Z.of_nat n <= capacity set →
  ∃ r, missing_loop n idx set ret = Ret r ∧
    (r = true ↔ ret = true ∧ ∀ j, idx <= j < idx + Z.of_nat n → has set j).
Proof.
  induction n as [|n IH]; intros idx set ret Hok Hi Hb; cbn [missing_loop].
  - exists ret. split; [done|]. split; [|tauto]. intros ->. split; [done|]. intros; lia.
  - destruct (contains_spec set idx Hok ltac:(lia)) as (b & -> & Hh). simpl.
    destruct (IH (idx + 1) set (if b then ret else false) Hok ltac:(lia) ltac:(lia)) as (r & -> & Hr).
    exists r. split; [done|]. rewrite Hr. split.
    + intros [Hret Hall]. destruct b; [|done]. split; [done|]. intros j Hj.
      destruct (decide (j = idx)) as [->|]; [by apply Hh|]. apply Hall. lia.
    + intros [-> Hall]. assert (has set idx) as Hx by (apply Hall; lia).
      apply Hh in Hx as ->. split; [done|]. intros j Hj. apply Hall. lia.
Qed.

Lemma not_seen_spec set :
  set_ok set →
  ∃ r, check_not_seen_generic_indexes set = Ret (r, empty_set) ∧
    (r = true ↔ ∀ j, 0 <= j < max_idx set → has set j).
Proof.
  intros Hok. unfold check_not_seen_generic_indexes. pose proof (so_max _ Hok) as [Hm _].
  destruct (missing_loop_spec (Z.to_nat (max_idx set)) 0 set true Hok) as (r & -> & Hr); [done| |].
  - destruct (so_top _ Hok) as [[-> ->]|[_ Ht]]; [done|]. apply lookup_lt_Some in Ht.
    rewrite <- (so_len _ Hok). lia.
  - exists r. split; [done|]. rewrite Hr. split; [intros [_ Hall] j Hj; apply Hall; lia|].
    intros Hall. split; [done|]. intros j Hj. apply Hall. lia.
Qed.

(** The final index check is exact: it returns, reports success if and only if
    every index below the largest one seen was seen, and empties the set. *)
Theorem gaps_reported set :
  set_ok set →
  ∃ r, check_not_seen_generic_indexes set = Ret (r, empty_set) ∧
    (r = true ↔ ∀ j, 0 <= j < max_idx set → has set j).
Proof. apply not_seen_spec. Qed.

(** ** The ascending-order check on one page *)

(** The calls of [coldtrace_writer_close] for one kind of index: [failed |= !...]. *)
Fixpoint check_all (prev : Z) (idxs : list Z) (set : index_set) (w : world) (failed : bool) :
    outcome (bool * index_set * world) :=
  match idxs with
  | [] => Ret (failed, set, w)
  | idx :: idxs =>
      let! (r, w) := check_ascending_generic prev idx set w in
      let '(ok, prev, set) := r in
      check_all prev idxs set w (failed || negb ok)
  end.

Definition valid_indices (idxs : list Z) : list Z := filter (fun i => i ≠ INVALID_INDEX) idxs.

Definition index_range (i : Z) : Prop := 0 <= i < 2 ^ 63 ∨ i = INVALID_INDEX.

Lemma check_all_failed idxs : ∀ prev set w,
  set_ok set → Forall index_range idxs →
  ∃ set' w', check_all prev idxs set w true = Ret (true, set', w') ∧ set_ok set' ∧
    (w_faults w = [] → w' = w).
Proof.
  induction idxs as [|i idxs IH]; intros prev set w Hok Hr; cbn [check_all]; [eauto 6|].
  apply Forall_cons in Hr as [Hi Hr]. unfold check_ascending_generic.
  destruct (Z.eqb_spec i INVALID_INDEX); cbn [negb obind]; [by apply IH|].
  destruct (negb (prev =? UINT64_MAX) && (i <=? prev)); cbn [obind]; [by apply IH|].
  destruct Hi as [Hi|]; [|done].
  destruct (insert_spec set i w Hok Hi) as (ok & set' & w' & -> & H & Hw). simpl.
  destruct (IH i set' w') as (s2 & w2 & E & Hs2 & Hw2); [destruct ok; [apply H|by subst]|done|].
  exists s2, w2. split; [done|]. split; [done|]. intros Hf. destruct (Hw Hf) as [_ ->]. auto.
Qed.

(** [prev] bounds what may follow. *)
Definition after (prev : Z) (idxs : list Z) : Prop :=
  prev = UINT64_MAX ∨ Forall (Z.lt prev) idxs.

(** The indices ascend from [prev] and are what [set'] has gained over [set]. *)
Definition ascends (prev : Z) (set : index_set) (idxs : list Z) (set' : index_set) : Prop :=
  StronglySorted Z.lt (valid_indices idxs) ∧ after prev (valid_indices idxs) ∧
  (∀ j, has set' j ↔ j ∈ valid_indices idxs ∨ has set j).

Lemma ascends_nil prev set : ascends prev set [] set.
Proof. split; [constructor|]. split; [right; constructor|]. intros j. set_solver. Qed.

(** One call: it returns, and when it reports no violation the index may be put in
    front of any ascending rest. *)
Lemma ascending_step prev i set w :
  set_ok set → index_range i →
  ∃ ok prev' set' w', check_ascending_generic prev i set w = Ret (ok, prev', set', w') ∧
    set_ok set' ∧
    (ok = true → ∀ idxs set2, ascends prev' set' idxs set2 → ascends prev set (i :: idxs) set2).
Proof.
  intros Hok Hi. unfold check_ascending_generic, ascends, valid_indices.
  destruct (Z.eqb_spec i INVALID_INDEX) as [->|Hne]; cbn [negb].
  { exists true, prev, set, w. split; [done|]. split; [done|]. intros _ idxs set2 Ha.
    by rewrite filter_cons_False by (intros H; by apply H). }
  destruct (negb (prev =? UINT64_MAX) && (i <=? prev)) eqn:Ep; [by exists false, prev, set, w|].
  destruct Hi as [Hi|]; [|done].
  destruct (insert_spec set i w Hok Hi) as (ok & set1 & w1 & -> & Hins & _). cbn [obind].
  exists ok, i, set1, w1. split; [done|]. split; [destruct ok; [apply Hins|by subst]|].
  intros -> idxs set2 (Hs & Ha & Hm). destruct Hins as (_ & Hhas & _).
  assert (Forall (Z.lt i) (filter (fun i => i ≠ INVALID_INDEX) idxs)) as Hall.
  { destruct Ha as [->|]; [|done]. unfold UINT64_MAX in Hi. lia. }
  rewrite filter_cons_True by done. split; [by constructor|]. split.
  - apply andb_false_iff in Ep as [E1|E1]; [left; lia|right]. apply Z.leb_gt in E1.
    constructor; [done|]. eapply Forall_impl; [exact Hall|]. simpl. lia.
  - intros j. rewrite Hm, Hhas, elem_of_cons. tauto.
Qed.

Lemma check_all_spec idxs : ∀ prev set w,
  set_ok set → Forall index_range idxs → w_faults w = [] →
  ∃ failed set', check_all prev idxs set w false = Ret (failed, set', w) ∧ set_ok set' ∧
    (failed = false ↔ StronglySorted Z.lt (valid_indices idxs) ∧ after prev (valid_indices idxs)) ∧
    (failed = false → ∀ j, has set' j ↔ j ∈ valid_indices idxs ∨ has set j).
Proof.
  induction idxs as [|i idxs IH]; intros prev set w Hok Hr Hf; cbn [check_all].
  - exists false, set. split; [done|]. split; [done|]. split.
    + split; [|done]. intros _. split; [constructor|right; constructor].
    + intros _ j. set_solver.
  - apply Forall_cons in Hr as [Hi Hr]. unfold check_ascending_generic, valid_indices in *.
    destruct (Z.eqb_spec i INVALID_INDEX) as [->|Hne]; cbn [negb obind orb].
    { rewrite filter_cons_False by (intros H; by apply H). by apply IH. }
    rewrite filter_cons_True by done. destruct Hi as [Hi|]; [|done].
    assert (after prev (i :: filter (fun i => i ≠ INVALID_INDEX) idxs) →
      prev = UINT64_MAX ∨ prev < i) as Hhd.
    { intros [?|H]; [by left|right]. by apply Forall_cons in H as [? _]. }
    destruct (negb (prev =? UINT64_MAX) && (i <=? prev)) eqn:Ep; cbn [obind orb negb].
    + apply andb_true_iff in Ep as [E1 E2]. apply negb_true_iff, Z.eqb_neq in E1. apply Z.leb_le in E2.
      destruct (check_all_failed idxs prev set w Hok Hr) as (set' & w' & -> & Hok' & Hw).
      rewrite (Hw Hf). exists true, set'. split; [done|]. split; [done|]. split; [|done].
      split; [done|]. intros [_ Ha]. destruct (Hhd Ha); [done|lia].
    + assert (prev = UINT64_MAX ∨ prev < i) as Hpi.
      { apply andb_false_iff in Ep as [E1|E1]; [left|right].
        - apply negb_false_iff in E1. by apply Z.eqb_eq.
        - by apply Z.leb_gt. }
      destruct (insert_spec set i w Hok Hi) as (ok & set1 & w1 & -> & Hins & Hnf).
      destruct (Hnf Hf) as [-> ->]. destruct Hins as (Hok1 & Hhas1 & _). cbn [obind orb negb].
      destruct (IH i set1 w Hok1 Hr Hf) as (failed & set' & E & Hok' & Hiff & Hmem).
      exists failed, set'. split; [done|]. split; [done|].
      assert (i ≠ UINT64_MAX) as Himax by (unfold UINT64_MAX; lia). split.
      * rewrite Hiff. split.
        -- intros [Hs [?|Ha]]; [done|]. split; [by constructor|].
           destruct Hpi as [?|Hpi]; [by left|right]. constructor; [done|].
           eapply Forall_impl; [exact Ha|]. simpl. lia.
        -- intros [Hs Ha]. apply StronglySorted_inv in Hs as [Hs Hall]. split; [done|by right].
      * intros Hfl j. rewrite (Hmem Hfl), Hhas1, elem_of_cons. tauto.
Qed.

(** The order check accepts exactly the ascending pages: over the indices of a
    page, skipping entries without one, no call reports a violation if and only
    if the indices strictly increase, and then the set has gained exactly them. *)
Theorem ascending_exact idxs set w :
  set_ok set → Forall index_range idxs → w_faults w = [] →
  ∃ failed set', check_all UINT64_MAX idxs set w false = Ret (failed, set', w) ∧ set_ok set' ∧
    (failed = false ↔ StronglySorted Z.lt (valid_indices idxs)) ∧
    (failed = false → ∀ j, has set' j ↔ j ∈ valid_indices idxs ∨ has set j).
Proof.
  intros Hok Hr Hf. destruct (check_all_spec idxs UINT64_MAX set w Hok Hr Hf)
    as (failed & set' & E & Hok' & Hiff & Hmem).
  exists failed, set'. do 2 (split; [done|]). split; [|done]. rewrite Hiff. split; [tauto|].
  intros Hs. split; [done|by left].
Qed.

Lemma gaps_reported_witness :
  ∃ r, check_not_seen_generic_indexes (IndexSet 2 4 (Some [true; false; true; false])) = Ret (r, empty_set).
Proof.
  destruct (gaps_reported (IndexSet 2 4 (Some [true; false; true; false]))) as (r & H & _).
  - split; simpl; try done; auto.
    + right. by exists 2.
    + split; [done|]. intros j [Hj H]. simpl in H. apply lookup_lt_Some in H as Hlt. simpl in Hlt.
      assert (j = 0 ∨ j = 1 ∨ j = 2 ∨ j = 3) as Hc by lia.
      destruct Hc as [->|[->|[->| ->]]]; try lia. discriminate H.
    + right. by split.
  - exists r. exact H.
Defined.

Lemma ascending_exact_witness :
  ∃ failed set', check_all UINT64_MAX [3; INVALID_INDEX; 5; 4] empty_set (World ∅ [] []) false
    = Ret (failed, set', World ∅ [] []).
Proof.
  destruct (ascending_exact [3; INVALID_INDEX; 5; 4] empty_set (World ∅ [] []))
    as (failed & set' & H & _).
  - apply empty_set_ok.
  - repeat apply Forall_cons_2; try apply Forall_nil_2; unfold index_range;
      try (left; lia); by right.
  - reflexivity.
  - exists failed, set'. exact H.
Defined.
