(* ===== verification/Checker.v ===== *)
(** * The trace checker (test/checkers/trace_checker.c)

    The checker replaces the weak [coldtrace_writer_close]: it walks every page a
    writer closes, checks the version header, the order of the indices and the
    callbacks, and matches the entries against the expected trace of the thread. *)

From stdpp Require Import base list numbers strings gmap.
From Stdlib Require Import ZArith Lia.
From S2P Require Import Prelude Version Entries Libc Utils Config Codec Lz4 Writer Thread Trace Reader Indexes.

Definition MAX_NTHREADS : Z := 128.
Definition MAX_ENTRY_VALUES : Z := 128.
Definition MAX_ENTRY_CALLBACKS : Z := 100.
Definition NO_CHECK : Z := -1.
Definition CHECK_UNINITIALIZED : Z := 2 ^ 64 - 1.

(** [struct expected_entry]; an expected trace is an array of them. *)
Record expected_entry := Expected {
  ee_atleast : Z;
  ee_atmost : Z;
  ee_check : Z;
  ee_type : Z;
  ee_set : bool;
  ee_wild : bool;
  ee_size : Z;
}.

Definition EXPECT_ENTRY (ty : Z) : expected_entry := Expected 1 1 (-1) ty true false (-1).
Definition EXPECT_VALUE (ty check : Z) : expected_entry := Expected 1 1 check ty true false (-1).
Definition EXPECT_SIZE (ty size : Z) : expected_entry := Expected 1 1 (-1) ty true false size.
Definition EXPECT_VALUE_SIZE (ty check size : Z) : expected_entry :=
  Expected 1 1 check ty true false size.
Definition EXPECT_SUFFIX (ty : Z) : expected_entry := Expected 1 1 (-1) ty true true (-1).
Definition EXPECT_SUFFIX_VALUE (ty check : Z) : expected_entry :=
  Expected 1 1 check ty true true (-1).
Definition EXPECT_SOME (ty atleast atmost : Z) : expected_entry :=
  Expected atleast atmost (-1) ty true false (-1).
Definition EXPECT_SOME_VALUE (ty atleast atmost check : Z) : expected_entry :=
  Expected atleast atmost check ty true false (-1).
Definition EXPECT_SOME_SIZE (ty atleast atmost size : Z) : expected_entry :=
  Expected atleast atmost (-1) ty true false size.
Definition EXPECT_SOME_VALUE_SIZE (ty atleast atmost check size : Z) : expected_entry :=
  Expected atleast atmost check ty true false size.
Definition EXPECT_END : expected_entry := Expected 0 0 (-1) 0 false false (-1).

(** [struct expected_entry_iterator]: [xi_e] is the position of [e] in the
    expected array, [None] for NULL. *)
Record expected_it := ExpectedIt {
  xi_atleast : Z;
  xi_atmost : Z;
  xi_check : Z;
  xi_e : option nat;
}.

Definition null_it : expected_it := ExpectedIt 0 0 0 None.

Inductive pointer_match := MATCH_PTR | MATCH_INIT_PTR | MISMATCH_PTR | NOCHECK_PTR.
Inductive size_match := MATCH_SIZE | MISMATCH_SIZE | NOCHECK_SIZE.

(** [*iter->e] *)
Definition deref (exp : list expected_entry) (it : expected_it) : outcome expected_entry :=
  match xi_e it with
  | None => Undef NullDeref
  | Some p => or_undef OutOfBounds (exp !! p)
  end.

Definition init_expected_entry_iterator (exp : list expected_entry) : outcome expected_it :=
  let! e := or_undef OutOfBounds (exp !! 0%nat) in
  Ret (ExpectedIt (i32 (ee_atleast e)) (i32 (ee_atmost e)) (ee_check e) (Some 0%nat)).

Definition next_expected_entry_and_reset (exp : list expected_entry) (it : expected_it) :
    outcome expected_it :=
  let! e := deref exp it in
  if negb (ee_set e) then Ret it
  else
    let p := S (default 0%nat (xi_e it)) in
    let! e := or_undef OutOfBounds (exp !! p) in
    Ret (ExpectedIt (i32 (ee_atleast e)) (i32 (ee_atmost e)) (ee_check e) (Some p)).

(** [_entry_ptr_values] is threaded through as [vals]. *)
Definition _check_ptr (ptr_value : Z) (it : expected_it) (vals : list Z) :
    outcome (pointer_match * list Z) :=
  if xi_check it =? NO_CHECK then Ret (NOCHECK_PTR, vals)
  else if xi_check it <? 0 then Undef OutOfBounds
  else
    let! v := or_undef OutOfBounds (vals !! Z.to_nat (xi_check it)) in
    if v =? CHECK_UNINITIALIZED
    then Ret (MATCH_INIT_PTR, <[Z.to_nat (xi_check it) := ptr_value]> vals)
    else if v =? ptr_value then Ret (MATCH_PTR, vals)
    else Ret (MISMATCH_PTR, vals).

Definition _check_type (type : Z) (e : expected_entry) : bool := type =? ee_type e.

Definition _check_size (size : Z) (e : expected_entry) : size_match :=
  if ee_size e =? INVALID_SIZE then NOCHECK_SIZE
  else if negb (size =? u64 (ee_size e)) then MISMATCH_SIZE
  else MATCH_SIZE.

Definition is_mismatch_ptr (p : pointer_match) : bool :=
  match p with MISMATCH_PTR => true | _ => false end.
Definition is_mismatch_size (s : size_match) : bool :=
  match s with MISMATCH_SIZE => true | _ => false end.

(** [_check_non_wildcard] and [_check_wildcard]; [next] is [_check_next_expected]. *)
Definition _check_non_wildcard (exp : list expected_entry) (mem : list Z) (eit : entry_it)
    (next : expected_it → list Z → outcome (bool * expected_it * list Z))
    (it : expected_it) (vals : list Z) : outcome (bool * expected_it * list Z) :=
  let! type := iter_type mem eit in
  let! ptr_value := iter_pointer_value mem eit in
  let! size := iter_size mem eit in
  let! e := deref exp it in
  let t := _check_type type e in
  if negb t && (0 <? xi_atleast it) then Ret (false, it, vals)
  else if negb t then next it vals
  else if is_mismatch_size (_check_size size e) then
    if xi_atleast it =? 0 then next it vals else Ret (false, it, vals)
  else
    let! (p, vals) := _check_ptr ptr_value it vals in
    if is_mismatch_ptr p then
      if xi_atleast it =? 0 then next it vals else Ret (false, it, vals)
    else
      let it := if 0 <? xi_atleast it
                then ExpectedIt (xi_atleast it - 1) (xi_atmost it) (xi_check it) (xi_e it)
                else it in
      if xi_atmost it =? 0 then Ret (true, it, vals)
      else
        let was := xi_atmost it in
        let it := ExpectedIt (xi_atleast it) (i32 (was - 1)) (xi_check it) (xi_e it) in
        if was =? 1 then
          let! it := next_expected_entry_and_reset exp it in
          Ret (true, it, vals)
        else Ret (true, it, vals).

Definition _check_wildcard (exp : list expected_entry) (mem : list Z) (eit : entry_it)
    (it : expected_it) (vals : list Z) : outcome (bool * expected_it * list Z) :=
  let! type := iter_type mem eit in
  let! ptr_value := iter_pointer_value mem eit in
  let! e := deref exp it in
  if negb (_check_type type e) then Ret (true, it, vals)
  else
    let! (p, vals) := _check_ptr ptr_value it vals in
    if is_mismatch_ptr p then Ret (false, it, vals)
    else
      let! it := next_expected_entry_and_reset exp it in
      Ret (true, it, vals).

(** [_check_next_expected]; [check_entry] is the call of [_check_entry] at its end. *)
Definition _check_next_expected (exp : list expected_entry)
    (check_entry : expected_it → list Z → outcome (bool * expected_it * list Z))
    (it : expected_it) (vals : list Z) : outcome (bool * expected_it * list Z) :=
  let! it := next_expected_entry_and_reset exp it in
  let! e := deref exp it in
  if negb (ee_set e) then Ret (false, it, vals) else check_entry it vals.

(** [_check_entry]; going to the next expected entry uses one unit of fuel. *)
Fixpoint _check_entry (fuel : nat) (exp : list expected_entry) (mem : list Z) (eit : entry_it)
    (it : expected_it) (vals : list Z) : outcome (bool * expected_it * list Z) :=
  match fuel with
  | O => NoFuel
  | S fuel =>
      let! e := deref exp it in
      if negb (ee_wild e)
      then _check_non_wildcard exp mem eit
             (_check_next_expected exp (_check_entry fuel exp mem eit)) it vals
      else _check_wildcard exp mem eit it vals
  end.

(** ** The checker's state and entry points *)

(** An entry callback sees the page, the position of the entry and the thread;
    the close and final callbacks are client code and only observe. *)
Definition entry_callback : Type := list Z → Z → Z → bool.

Record checker := CheckerState {
  ck_callbacks : list entry_callback;
  ck_vals : list Z;
  ck_failed : bool;
  ck_expected : list (option (list expected_entry));
  ck_its : list expected_it;
  ck_alloc : index_set;
  ck_atomic : index_set;
  ck_test_wait : bool;
}.

(** The zero-initialised statics. *)
Definition checker0 : checker :=
  CheckerState [] (replicate 128 0) false (replicate 128 None) (replicate 128 null_it)
    empty_set empty_set false.

Definition register_entry_callback (ck : checker) (callback : entry_callback) : checker :=
  CheckerState
    (if len (ck_callbacks ck) <? MAX_ENTRY_CALLBACKS then ck_callbacks ck ++ [callback]
     else ck_callbacks ck)
    (ck_vals ck) (ck_failed ck) (ck_expected ck) (ck_its ck) (ck_alloc ck) (ck_atomic ck) true.

(** [None] is the failed assertion on [tid]. *)
Definition register_expected_trace (ck : checker) (tid : Z) (trace : list expected_entry) :
    option checker :=
  if (0 <? tid) && (tid <? MAX_NTHREADS) then
    Some (CheckerState (ck_callbacks ck) (replicate (Z.to_nat MAX_ENTRY_VALUES) CHECK_UNINITIALIZED)
            (ck_failed ck) (<[Z.to_nat tid := Some trace]> (ck_expected ck)) (ck_its ck)
            (ck_alloc ck) (ck_atomic ck) true)
  else None.

Section Checker.
Context `{B : BuildInfo}.

Definition validate_coldtrace_version_header (page : list Z) : outcome bool :=
  let! file_header := or_undef OutOfBounds (load_version_header page 0) in
  Ret (version_header_equal file_header).

(** The local state of the loop in [coldtrace_writer_close]. *)
Record loop_state := LoopState {
  ls_prev_alloc : Z;
  ls_prev_atomic : Z;
  ls_alloc : index_set;
  ls_atomic : index_set;
  ls_it : expected_it;
  ls_vals : list Z;
  ls_failed : bool;
}.

(** Matching one entry against the expected trace of the thread. *)
Definition match_step (exp : list expected_entry) (page : list Z) (eit : entry_it)
    (it : expected_it) (vals : list Z) (failed : bool) : outcome (expected_it * list Z * bool) :=
  match xi_e it with
  | None => Ret (it, vals, failed)
  | Some _ =>
      let! e := deref exp it in
      if negb (ee_set e) then Ret (it, vals, failed)
      else
        let! (r, vals) := _check_entry (S (length exp)) exp page eit it vals in
        let '(ok, it) := r in
        Ret (it, vals, failed || negb ok)
  end.

(** One iteration of the loop. *)
Definition close_step (callbacks : list entry_callback) (exp : list expected_entry) (md : Z)
    (page : list Z) (eit : entry_it) (ls : loop_state) (w : world) : outcome (loop_state * world) :=
  let! alloc_index := iter_alloc_index_value page eit in
  let! (r, w) := check_ascending_generic (ls_prev_alloc ls) alloc_index (ls_alloc ls) w in
  let '(ok1, prev_alloc, alloc) := r in
  let! atomic_index := iter_atomic_index_value page eit in
  let! (r, w) := check_ascending_generic (ls_prev_atomic ls) atomic_index (ls_atomic ls) w in
  let '(ok2, prev_atomic, atomic) := r in
  let failed := ls_failed ls || negb ok1 || negb ok2 in
  let failed := foldl (fun f cb => f || negb (cb page (it_buf eit) md)) failed callbacks in
  let! (r, failed) := match_step exp page eit (ls_it ls) (ls_vals ls) failed in
  let '(it, vals) := r in
  Ret (LoopState prev_alloc prev_atomic alloc atomic it vals failed, w).

Fixpoint close_loop (fuel : nat) (callbacks : list entry_callback) (exp : list expected_entry)
    (md : Z) (page : list Z) (eit : entry_it) (ls : loop_state) (w : world) :
    outcome (loop_state * world) :=
  match fuel with
  | O => NoFuel
  | S fuel =>
      let! more := iter_next page eit in
      if negb more then Ret (ls, w)
      else
        let! (ls, w) := close_step callbacks exp md page eit ls w in
        let! eit := iter_advance page eit in
        close_loop fuel callbacks exp md page eit ls w
  end.

(** The checker's [coldtrace_writer_close]; [tid] is [self_id(md)].  The lock
    around the loop makes the loops of different threads atomic. *)
Definition checker_writer_close (ck : checker) (page : list Z) (size tid : Z) (w : world) :
    outcome (checker * world) :=
  if size =? 0 then Ret (ck, w)
  else
    let! version_ok := validate_coldtrace_version_header page in
    let! exp := or_undef OutOfBounds (if tid <? 0 then None else ck_expected ck !! Z.to_nat tid) in
    let! it := or_undef OutOfBounds (ck_its ck !! Z.to_nat tid) in
    let! it :=
      match xi_e it, exp with
      | None, Some e => init_expected_entry_iterator e
      | _, _ => Ret it
      end in
    let! (ls, w) := close_loop (S (Z.to_nat (size / 8))) (ck_callbacks ck) (default [] exp) tid page
      (iter_init 0 size)
      (LoopState UINT64_MAX UINT64_MAX (ck_alloc ck) (ck_atomic ck) it (ck_vals ck)
         (negb version_ok)) w in
    Ret (CheckerState (ck_callbacks ck) (ls_vals ls) (ck_failed ck || ls_failed ls)
           (ck_expected ck) (<[Z.to_nat tid := ls_it ls]> (ck_its ck))
           (ls_alloc ls) (ls_atomic ls) (ck_test_wait ck), w).
End Checker.

(** The [while] of [check_empty_expected_trace]. *)
Fixpoint skip_optional (fuel : nat) (exp : list expected_entry) (it : expected_it) :
    outcome expected_it :=
  match fuel with
  | O => NoFuel
  | S fuel =>
      let! e := deref exp it in
      if ee_set e && (xi_atleast it =? 0) then
        let! it := next_expected_entry_and_reset exp it in
        skip_optional fuel exp it
      else Ret it
  end.

(** The [for] over the threads with an expected trace; [n] is how many are left. *)
Fixpoint check_empty_loop (n tid : nat) (ck : checker) (ret : bool) : outcome (checker * bool) :=
  match n with
  | O => Ret (ck, ret)
  | S n =>
      match ck_expected ck !! tid with
      | Some (Some exp) =>
          let! it := or_undef OutOfBounds (ck_its ck !! tid) in
          match xi_e it with
          | None => check_empty_loop n (S tid) ck false
          | Some _ =>
              let! it := skip_optional (S (length exp)) exp it in
              let! e := deref exp it in
              check_empty_loop n (S tid)
                (CheckerState (ck_callbacks ck) (ck_vals ck) (ck_failed ck) (ck_expected ck)
                   (<[tid := it]> (ck_its ck)) (ck_alloc ck) (ck_atomic ck) (ck_test_wait ck))
                (if ee_set e then false else ret)
          end
      | _ => Ret (ck, ret)
      end
  end.

Definition check_empty_expected_trace (ck : checker) : outcome (checker * bool) :=
  check_empty_loop (Z.to_nat (MAX_NTHREADS - 1)) 1 ck true.

(** [coldtrace_main_thread_fini]: [true] is the message TEST PASSED; [final] is
    the result of the final callback when there is one. *)
Definition checker_main_thread_fini (ck : checker) (final : option bool) : outcome (checker * bool) :=
  let! (ck, empty_ok) := check_empty_expected_trace ck in
  let! (alloc_ok, alloc) := check_not_seen_generic_indexes (ck_alloc ck) in
  let! (atomic_ok, atomic) := check_not_seen_generic_indexes (ck_atomic ck) in
  let failed := negb empty_ok || negb alloc_ok || negb atomic_ok
                || match final with Some status => negb status | None => false end in
  Ret (CheckerState (ck_callbacks ck) (ck_vals ck) (ck_failed ck) (ck_expected ck) (ck_its ck)
         alloc atomic (ck_test_wait ck),
       negb (failed || ck_failed ck)).
