(* ===== verification/Verdict.v ===== *)
(** * What a passed test means (test/checkers)

    A declarative reading of expected traces, and the proof that the checker's
    verdict is sound for it: when the final verdict of [coldtrace_main_thread_fini]
    is TEST PASSED, the entries every thread closed conform to its expected trace,
    the indices on every page ascend, and no index is missing.  The checker also
    always reaches a verdict on well-formed pages. *)

From stdpp Require Import base list numbers strings gmap.
From Stdlib Require Import ZArith Lia Sorted.
From S2P Require Import Prelude Version Entries Libc Utils Config Codec Lz4 Writer Thread Trace Reader Indexes Checker.

(** ** The meaning of an expected trace *)

(** The entry [e] is one that [x] describes; [vals] binds the pointer variables. *)
Definition ptr_matches (vals : list Z) (x : expected_entry) (e : entry) : Prop :=
  ee_check x = NO_CHECK ∨ (0 <= ee_check x ∧ vals !! Z.to_nat (ee_check x) = Some (en_ptr e)).

Definition type_matches (x : expected_entry) (e : entry) : Prop :=
  base_type (en_type e) = ee_type x.

Definition size_matches (x : expected_entry) (e : entry) : Prop :=
  ee_size x = INVALID_SIZE ∨ size_of (base_type (en_type e)) (en_fields e) = u64 (ee_size x).

Definition matches (vals : list Z) (x : expected_entry) (e : entry) : Prop :=
  type_matches x e ∧ size_matches x e ∧ ptr_matches vals x e.

(** The run of entries one expected entry stands for: between [atleast] and
    [atmost] matching ones (0: no limit), or, for a wildcard, anything up to the
    first entry of the type. *)
Definition block_ok (vals : list Z) (x : expected_entry) (blk : list entry) : Prop :=
  if ee_wild x then
    ∃ skipped e, blk = skipped ++ [e] ∧ Forall (fun e => ~ type_matches x e) skipped ∧
      type_matches x e ∧ ptr_matches vals x e
  else
    Forall (matches vals x) blk ∧ ee_atleast x <= len blk ∧
    (ee_atmost x = 0 ∨ len blk <= ee_atmost x).

(** A trace conforms when it splits into one run per expected entry; what follows
    the last one is not checked. *)
Definition conforms (vals : list Z) (xs : list expected_entry) (es : list entry) : Prop :=
  ∃ blocks trailing, es = concat blocks ++ trailing ∧ Forall2 (block_ok vals) xs blocks.

(** Expected entries as the [EXPECT_] macros build them, with sensible bounds. *)
Record expected_ok (x : expected_entry) : Prop := {
  eo_set : ee_set x = true;
  eo_atleast : 0 <= ee_atleast x < 2 ^ 31;
  eo_atmost : 0 <= ee_atmost x < 2 ^ 31;
  eo_bounds : ee_atmost x = 0 ∨ ee_atleast x <= ee_atmost x;
  eo_check : ee_check x = NO_CHECK ∨ 0 <= ee_check x < MAX_ENTRY_VALUES;
  eo_wild : ee_wild x = true → 0 < ee_atleast x;
}.

(** The array that holds [xs]. *)
Definition terminated (xs : list expected_entry) : list expected_entry := xs ++ [EXPECT_END].

(** ** Binding pointer variables only adds bindings *)

Definition extends (vals vals' : list Z) : Prop :=
  ∀ k v, vals !! k = Some v → v ≠ CHECK_UNINITIALIZED → vals' !! k = Some v.

#[export] Instance extends_preorder : PreOrder extends.
Proof.
  split; [by intros vals k v H _|]. intros v1 v2 v3 H1 H2 k v Hk Hv. apply H2; [|done]. by apply H1.
Qed.

Section Monotone.
Context (vals vals' : list Z) (Hext : extends vals vals').

Lemma ptr_matches_mono x e : entry_wf e → ptr_matches vals x e → ptr_matches vals' x e.
Proof.
  intros Hwf [H|[H0 H]]; [by left|right]. split; [done|]. apply Hext; [done|].
  pose proof (wf_ptr _ Hwf). unfold CHECK_UNINITIALIZED. lia.
Qed.

Lemma matches_mono x es :
  Forall entry_wf es → Forall (matches vals x) es → Forall (matches vals' x) es.
Proof.
  intros Hwf H. apply Forall_forall. intros e He.
  rewrite Forall_forall in Hwf. rewrite Forall_forall in H.
  specialize (Hwf e He). destruct (H e He) as (Ht & Hs & Hp). repeat split; [done|done|]. by apply ptr_matches_mono.
Qed.

Lemma block_ok_mono x blk : Forall entry_wf blk → block_ok vals x blk → block_ok vals' x blk.
Proof.
  unfold block_ok. intros Hwf. destruct (ee_wild x).
  - intros (sk & e & -> & Hsk & Ht & Hp). apply Forall_app in Hwf as [_ Hwf].
    apply Forall_cons in Hwf as [Hwf _]. exists sk, e. do 3 (split; [done|]).
    by apply ptr_matches_mono.
  - intros [H ?]. split; [by apply matches_mono|done].
Qed.

Lemma blocks_ok_mono xs blocks :
  Forall entry_wf (concat blocks) → Forall2 (block_ok vals) xs blocks →
  Forall2 (block_ok vals') xs blocks.
Proof.
  intros Hwf H. induction H as [|x blk xs blocks Hb _ IH]; constructor; simpl in Hwf;
    apply Forall_app in Hwf as [Hw1 Hw2]; [by apply block_ok_mono|by apply IH].
Qed.
End Monotone.

(** ** How far the iterator has come *)

(** The entries [cur] matched so far by the expected entry the iterator is at. *)
Definition cur_ok (vals : list Z) (x : expected_entry) (it : expected_it) (cur : list entry) : Prop :=
  ee_set x = true →
  if ee_wild x then Forall (fun e => ~ type_matches x e) cur ∧ xi_atleast it = ee_atleast x
  else
    Forall (matches vals x) cur ∧
    xi_atleast it = Z.max 0 (ee_atleast x - len cur) ∧
    xi_atmost it = (if ee_atmost x =? 0 then 0 else ee_atmost x - len cur) ∧
    (ee_atmost x = 0 ∨ len cur < ee_atmost x).

Definition progress (vals : list Z) (exp : list expected_entry) (it : expected_it)
    (es : list entry) : Prop :=
  ∃ p x blocks cur, xi_e it = Some p ∧ exp !! p = Some x ∧ es = concat blocks ++ cur ∧
    Forall2 (block_ok vals) (take p exp) blocks ∧ cur_ok vals x it cur.

(** The part that also holds once a check has failed. *)
Definition it_ok (exp : list expected_entry) (it : expected_it) : Prop :=
  ∃ p x, xi_e it = Some p ∧ exp !! p = Some x ∧ xi_check it = ee_check x.

Lemma progress_mono vals vals' exp it es :
  extends vals vals' → Forall entry_wf es → progress vals exp it es → progress vals' exp it es.
Proof.
  intros Hext Hwf (p & x & blocks & cur & Hp & Hx & -> & Hb & Hc).
  apply Forall_app in Hwf as [Hw1 Hw2]. exists p, x, blocks, cur. do 3 (split; [done|]).
  split; [by apply (blocks_ok_mono vals)|]. intros Hset. specialize (Hc Hset).
  destruct (ee_wild x); [done|]. destruct Hc as [Hm ?]. split; [|done].
  by apply (matches_mono vals).
Qed.

Section Matching.
Context (xs : list expected_entry) (Hxs : Forall expected_ok xs).

#[local] Abbreviation exp := (terminated xs).

Lemma lookup_terminated p x :
  exp !! p = Some x → (expected_ok x ∧ xs !! p = Some x) ∨ (x = EXPECT_END ∧ p = length xs).
Proof.
  unfold terminated. intros [H|[Hge H]]%lookup_app_Some.
  - left. split; [|done]. by eapply Forall_lookup_1.
  - right. apply list_lookup_singleton_Some in H as [H <-]. split; [done|lia].
Qed.

Lemma lookup_set p x : exp !! p = Some x → ee_set x = true → expected_ok x ∧ (p < length xs)%nat.
Proof.
  intros [[Hok Hl]|[-> _]]%lookup_terminated Hs; [|done]. split; [done|]. by eapply lookup_lt_Some.
Qed.

Lemma deref_at it p x : xi_e it = Some p → exp !! p = Some x → deref exp it = Ret x.
Proof. unfold deref. intros -> Hx. by rewrite Hx. Qed.

(** A freshly loaded iterator has matched nothing of its entry. *)
Definition load_it (x : expected_entry) (p : nat) : expected_it :=
  ExpectedIt (i32 (ee_atleast x)) (i32 (ee_atmost x)) (ee_check x) (Some p).

Lemma load_it_ok p x : exp !! p = Some x → it_ok exp (load_it x p).
Proof. intros H. by exists p, x. Qed.

Lemma load_it_progress vals p x blocks :
  exp !! p = Some x → Forall2 (block_ok vals) (take p exp) blocks →
  progress vals exp (load_it x p) (concat blocks).
Proof.
  intros Hx Hb. exists p, x, blocks, []. rewrite app_nil_r. do 4 (split; [done|]).
  intros Hset. destruct (lookup_set p x Hx Hset) as [[_ Hl Hm Hbd _ _] _]. simpl.
  rewrite !i32_id by lia. destruct (ee_wild x); [by split; [constructor|]|].
  split; [constructor|]. destruct (Z.eqb_spec (ee_atmost x) 0); simpl; lia.
Qed.

(** Going to the next expected entry once the run of the current one is complete. *)
Lemma next_expected_spec it p x :
  xi_e it = Some p → exp !! p = Some x → ee_set x = true →
  ∃ x', exp !! S p = Some x' ∧ next_expected_entry_and_reset exp it = Ret (load_it x' (S p)).
Proof.
  intros Hp Hx Hset. destruct (lookup_set p x Hx Hset) as [_ Hlt].
  destruct (lookup_lt_is_Some_2 exp (S p)) as [x' Hx'].
  { unfold terminated. rewrite length_app. simpl. lia. }
  exists x'. split; [done|]. unfold next_expected_entry_and_reset. rewrite (deref_at it p x Hp Hx). simpl.
  rewrite Hset, Hp. simpl. by rewrite Hx'.
Qed.

Lemma progress_next vals p x x' blocks blk :
  exp !! p = Some x → exp !! S p = Some x' →
  Forall2 (block_ok vals) (take p exp) blocks → block_ok vals x blk →
  progress vals exp (load_it x' (S p)) (concat blocks ++ blk).
Proof.
  intros Hx Hx' Hb Hk. replace (concat blocks ++ blk) with (concat (blocks ++ [blk])).
  2: { rewrite concat_app. simpl. by rewrite app_nil_r. }
  apply load_it_progress; [done|]. rewrite (take_S_r _ _ _ Hx).
  apply Forall2_app; [done|]. by repeat constructor.
Qed.

(** A run whose required entries have all been seen is complete. *)
Lemma cur_complete vals x it cur :
  ee_set x = true → ee_wild x = false → cur_ok vals x it cur → xi_atleast it = 0 →
  block_ok vals x cur.
Proof.
  intros Hs Hw Hc Ha. specialize (Hc Hs). unfold block_ok. rewrite Hw in *.
  destruct Hc as (Hm & Hal & _ & Hmost). split; [done|]. split; [lia|].
  destruct Hmost; [by left|right; lia].
Qed.

Lemma check_ptr_spec x it e vals :
  expected_ok x → xi_check it = ee_check x → len vals = MAX_ENTRY_VALUES →
  ∃ r vals', _check_ptr (en_ptr e) it vals = Ret (r, vals') ∧ len vals' = MAX_ENTRY_VALUES ∧
    extends vals vals' ∧ (is_mismatch_ptr r = false → ptr_matches vals' x e).
Proof.
  intros Hok Hc Hl. unfold _check_ptr, ptr_matches. rewrite Hc.
  destruct (Z.eqb_spec (ee_check x) NO_CHECK) as [Hn|Hn].
  { exists NOCHECK_PTR, vals. split; [done|]. split; [done|]. split; [reflexivity|]. by left. }
  destruct (eo_check x Hok) as [|Hr]; [done|]. destruct (Z.ltb_spec (ee_check x) 0); [lia|].
  destruct (lookup_lt_is_Some_2 vals (Z.to_nat (ee_check x))) as [v Hv]; [lia|]. rewrite Hv. simpl.
  destruct (Z.eqb_spec v CHECK_UNINITIALIZED) as [->|Hne].
  - exists MATCH_INIT_PTR, (<[Z.to_nat (ee_check x):=en_ptr e]> vals). split; [done|].
    split; [by rewrite length_insert|]. split.
    + intros k u Hk Hu. destruct (decide (k = Z.to_nat (ee_check x))) as [->|Hd]; [congruence|].
      by rewrite list_lookup_insert_ne by done.
    + intros _. right. split; [lia|]. apply list_lookup_insert_eq. lia.
  - destruct (Z.eqb_spec v (en_ptr e)) as [->|]; [exists MATCH_PTR, vals|exists MISMATCH_PTR, vals];
      (split; [done|]; split; [done|]; split; [reflexivity|]).
    + intros _. right. split; [lia|done].
    + done.
Qed.

(** What one call of [_check_entry] does: it returns, keeps the iterator and the
    pointer variables in range, and an accepted entry is progress. *)
Definition step_ok (vals : list Z) (it : expected_it) (e : entry)
    (r : outcome (bool * expected_it * list Z)) : Prop :=
  ∃ ok it' vals', r = Ret (ok, it', vals') ∧ it_ok exp it' ∧ len vals' = MAX_ENTRY_VALUES ∧
    extends vals vals' ∧
    (ok = true → ∀ es, Forall entry_wf es → progress vals exp it es →
       progress vals' exp it' (es ++ [e])).

Lemma step_fail vals vals' it e :
  it_ok exp it → len vals' = MAX_ENTRY_VALUES → extends vals vals' →
  step_ok vals it e (Ret (false, it, vals')).
Proof. intros. exists false, it, vals'. done. Qed.

(** [_check_next_expected] is reached when the run of the current entry may end here. *)
Lemma next_expected_step fuel page eit e it p x vals0 vals :
  xi_e it = Some p → exp !! p = Some x → ee_set x = true → ee_wild x = false →
  xi_atleast it <= 0 → extends vals0 vals → len vals = MAX_ENTRY_VALUES →
  (∀ it' p', xi_e it' = Some p' → p' = S p → it_ok exp it' →
     (∃ x', exp !! p' = Some x' ∧ ee_set x' = true) →
     step_ok vals it' e (_check_entry fuel exp page eit it' vals)) →
  step_ok vals0 it e (_check_next_expected exp (_check_entry fuel exp page eit) it vals).
Proof.
  intros Hp Hx Hs Hw Ha Hext Hl IH. unfold _check_next_expected.
  destruct (next_expected_spec it p x Hp Hx Hs) as (x' & Hx' & ->). simpl.
  unfold deref. simpl. rewrite Hx'. simpl. destruct (ee_set x') eqn:Es; simpl.
  2: { exists false, (load_it x' (S p)), vals. split; [done|]. split; [by apply load_it_ok|].
       done. }
  destruct (IH (load_it x' (S p)) (S p)) as (ok & it' & vals' & -> & Hi & Hl' & He & Hprog);
    [done|done|by apply load_it_ok|by exists x'|].
  exists ok, it', vals'. do 3 (split; [done|]). split; [by etransitivity|].
  intros Hok es Hwf Hpr. apply Hprog; [done|done|].
  apply (progress_mono vals0 vals) in Hpr; [|done|done].
  destruct Hpr as (p0 & x0 & blocks & cur & Hp0 & Hx0 & -> & Hb & Hc). simplify_eq.
  eapply progress_next; [done|done|done|]. apply (cur_complete vals x it); [done|done|done|].
  specialize (Hc Hs). rewrite Hw in Hc. lia.
Qed.

(** Counting an accepted entry in. *)
Definition count_it (it : expected_it) : expected_it :=
  ExpectedIt (if 0 <? xi_atleast it then xi_atleast it - 1 else xi_atleast it) (xi_atmost it)
    (xi_check it) (xi_e it).

Lemma accept_spec vals0 vals it e p x :
  xi_e it = Some p → exp !! p = Some x → xi_check it = ee_check x → ee_set x = true →
  ee_wild x = false → extends vals0 vals → len vals = MAX_ENTRY_VALUES → matches vals x e →
  step_ok vals0 it e
    (let it := count_it it in
     if xi_atmost it =? 0 then Ret (true, it, vals)
     else
       let was := xi_atmost it in
       let it := ExpectedIt (xi_atleast it) (i32 (was - 1)) (xi_check it) (xi_e it) in
       if was =? 1 then
         let! it := next_expected_entry_and_reset exp it in
         Ret (true, it, vals)
       else Ret (true, it, vals)).
Proof.
  intros Hp Hx Hck Hs Hw Hext Hl Hm. cbv zeta. unfold count_it. cbn [xi_atmost xi_atleast xi_check xi_e].
  destruct (lookup_set p x Hx Hs) as [[_ Hal Ham Hbd _ _] _].
  assert (∀ es, Forall entry_wf es → progress vals0 exp it es →
    ∃ blocks cur, es ++ [e] = concat blocks ++ (cur ++ [e]) ∧
      Forall2 (block_ok vals) (take p exp) blocks ∧ Forall (matches vals x) (cur ++ [e]) ∧
      xi_atleast it = Z.max 0 (ee_atleast x - len cur) ∧
      xi_atmost it = (if ee_atmost x =? 0 then 0 else ee_atmost x - len cur) ∧
      (ee_atmost x = 0 ∨ len cur < ee_atmost x)) as Hinv.
  { intros es Hwf Hpr. apply (progress_mono vals0 vals) in Hpr; [|done|done].
    destruct Hpr as (p0 & x0 & blocks & cur & Hp0 & Hx0 & -> & Hb & Hc). simplify_eq.
    specialize (Hc Hs). rewrite Hw in Hc. destruct Hc as (Hc & ?). exists blocks, cur.
    split; [by rewrite app_assoc|]. split; [done|]. split; [|done].
    apply Forall_app. split; [done|]. by apply Forall_singleton. }
  destruct (Z.eqb_spec (xi_atmost it) 0) as [Hz|Hz]; [|destruct (Z.eqb_spec (xi_atmost it) 1) as [H1|H1]].
  - eexists true, _, vals. split; [done|]. split; [by exists p, x|]. do 2 (split; [done|]).
    intros _ es Hwf Hpr. destruct (Hinv es Hwf Hpr) as (blocks & cur & -> & Hb & Hc & H2 & H3 & H4).
    exists p, x, blocks, (cur ++ [e]). do 4 (split; [done|]). intros _. rewrite Hw.
    split; [done|]. simpl. rewrite length_app. simpl.
    destruct (Z.eqb_spec (ee_atmost x) 0); destruct (Z.ltb_spec 0 (xi_atleast it)); lia.
  - edestruct (next_expected_spec
      (ExpectedIt (if 0 <? xi_atleast it then xi_atleast it - 1 else xi_atleast it)
         (i32 (xi_atmost it - 1)) (xi_check it) (xi_e it)) p x) as (x' & Hx' & ->); [done..|]. simpl.
    eexists true, _, vals. split; [done|]. split; [by apply load_it_ok|]. do 2 (split; [done|]).
    intros _ es Hwf Hpr. destruct (Hinv es Hwf Hpr) as (blocks & cur & -> & Hb & Hc & H2 & H3 & H4).
    eapply progress_next; [done|done|done|]. unfold block_ok. rewrite Hw. split; [done|].
    rewrite length_app. simpl.
    destruct (Z.eqb_spec (ee_atmost x) 0); lia.
  - eexists true, _, vals. split; [done|]. split; [by exists p, x|]. do 2 (split; [done|]).
    intros _ es Hwf Hpr. destruct (Hinv es Hwf Hpr) as (blocks & cur & -> & Hb & Hc & H2 & H3 & H4).
    exists p, x, blocks, (cur ++ [e]). do 4 (split; [done|]). intros _. rewrite Hw.
    split; [done|]. simpl. rewrite length_app. simpl.
    destruct (Z.eqb_spec (ee_atmost x) 0); [lia|]. rewrite i32_id by lia.
    destruct (Z.ltb_spec 0 (xi_atleast it)); lia.
Qed.

Lemma non_wildcard_spec fuel page eit e it p x vals :
  seen_as page eit e → entry_wf e → xi_e it = Some p → exp !! p = Some x →
  xi_check it = ee_check x → ee_set x = true → ee_wild x = false → len vals = MAX_ENTRY_VALUES →
  (∀ vals' it' p', len vals' = MAX_ENTRY_VALUES → xi_e it' = Some p' → p' = S p → it_ok exp it' →
     (∃ x', exp !! p' = Some x' ∧ ee_set x' = true) →
     step_ok vals' it' e (_check_entry fuel exp page eit it' vals')) →
  step_ok vals it e (_check_non_wildcard exp page eit (_check_next_expected exp (_check_entry fuel exp page eit)) it vals).
Proof.
  intros [Ht Hpt Hsz _ _] Hwf Hp Hx Hck Hs Hw Hl IH. unfold _check_non_wildcard.
  rewrite Ht, Hpt, Hsz, (deref_at it p x Hp Hx). cbn [obind].
  destruct (lookup_set p x Hx Hs) as [Hok _].
  assert (it_ok exp it) as Hio by (by exists p, x).
  assert (∀ vals', extends vals vals' → len vals' = MAX_ENTRY_VALUES → xi_atleast it <= 0 →
    step_ok vals it e (_check_next_expected exp (_check_entry fuel exp page eit) it vals')) as Hnext.
  { intros vals' He Hl' Ha. eapply next_expected_step; [done..|]. intros it' p'. by apply IH. }
  unfold _check_type. destruct (Z.eqb_spec (base_type (en_type e)) (ee_type x)) as [Hty|Hty];
    cbn [negb andb].
  2: { destruct (Z.ltb_spec 0 (xi_atleast it)); [by apply step_fail|by apply Hnext]. }
  destruct (is_mismatch_size _) eqn:Em.
  { destruct (Z.eqb_spec (xi_atleast it) 0); [apply Hnext; [done|done|lia]|by apply step_fail]. }
  destruct (check_ptr_spec x it e vals Hok Hck Hl) as (r & vals' & -> & Hl' & He & Hpm).
  cbn [obind]. destruct (is_mismatch_ptr r).
  { destruct (Z.eqb_spec (xi_atleast it) 0); [apply Hnext; [done|done|lia]|by apply step_fail]. }
  assert (matches vals' x e) as Hmat.
  { split; [done|]. split; [|by apply Hpm]. unfold _check_size in Em. unfold size_matches.
    destruct (Z.eqb_spec (ee_size x) INVALID_SIZE); [by left|right].
    destruct (Z.eqb_spec (size_of (base_type (en_type e)) (en_fields e)) (u64 (ee_size x))); done. }
  pose proof (accept_spec vals vals' it e p x Hp Hx Hck Hs Hw He Hl' Hmat) as Hacc.
  unfold count_it in Hacc. destruct (0 <? xi_atleast it); [exact Hacc|]. by destruct it.
Qed.

Lemma wildcard_spec page eit e it p x vals :
  seen_as page eit e → entry_wf e → xi_e it = Some p → exp !! p = Some x →
  xi_check it = ee_check x → ee_set x = true → ee_wild x = true → len vals = MAX_ENTRY_VALUES →
  step_ok vals it e (_check_wildcard exp page eit it vals).
Proof.
  intros [Ht Hpt _ _ _] Hwf Hp Hx Hck Hs Hw Hl. unfold _check_wildcard.
  rewrite Ht, Hpt, (deref_at it p x Hp Hx). cbn [obind].
  destruct (lookup_set p x Hx Hs) as [Hok _].
  assert (it_ok exp it) as Hio by (by exists p, x).
  unfold _check_type. destruct (Z.eqb_spec (base_type (en_type e)) (ee_type x)) as [Hty|Hty];
    cbn [negb].
  2: { exists true, it, vals. do 3 (split; [done|]). split; [reflexivity|].
       intros _ es Hwes (p0 & x0 & blocks & cur & Hp0 & Hx0 & -> & Hb & Hc). simplify_eq.
       exists p, x, blocks, (cur ++ [e]). rewrite app_assoc. do 4 (split; [done|]).
       intros _. specialize (Hc Hs). rewrite Hw in *. destruct Hc as [Hc ?]. split; [|done].
       apply Forall_app. split; [done|]. by apply Forall_singleton. }
  destruct (check_ptr_spec x it e vals Hok Hck Hl) as (r & vals' & -> & Hl' & He & Hpm).
  cbn [obind]. destruct (is_mismatch_ptr r); [by apply step_fail|].
  destruct (next_expected_spec it p x Hp Hx Hs) as (x' & Hx' & ->). cbn [obind].
  eexists true, _, vals'. split; [done|]. split; [by apply load_it_ok|]. do 2 (split; [done|]).
  intros _ es Hwes Hpr. apply (progress_mono vals vals') in Hpr; [|done|done].
  destruct Hpr as (p0 & x0 & blocks & cur & Hp0 & Hx0 & -> & Hb & Hc). simplify_eq.
  rewrite <- app_assoc. eapply progress_next; [done|done|done|]. unfold block_ok. rewrite Hw.
  specialize (Hc Hs). rewrite Hw in Hc. exists cur, e. split; [done|]. split; [apply Hc|].
  split; [done|]. by apply Hpm.
Qed.

(** One unit of fuel per remaining expected entry is enough. *)
Lemma check_entry_spec fuel : ∀ page eit e it p x vals,
  seen_as page eit e → entry_wf e → xi_e it = Some p → exp !! p = Some x →
  xi_check it = ee_check x → ee_set x = true → len vals = MAX_ENTRY_VALUES →
  (length exp < fuel + p)%nat →
  step_ok vals it e (_check_entry fuel exp page eit it vals).
Proof.
  induction fuel as [|fuel IH]; intros page eit e it p x vals Hse Hwf Hp Hx Hck Hs Hl Hf.
  { apply lookup_lt_Some in Hx. lia. }
  cbn [_check_entry]. rewrite (deref_at it p x Hp Hx). cbn [obind].
  destruct (ee_wild x) eqn:Hw; cbn [negb].
  - by eapply wildcard_spec.
  - apply (non_wildcard_spec fuel page eit e it p x vals); try done.
    intros vals' it' p' Hl' Hp' -> (p0 & x0 & Hp0 & Hx0 & Hc0) (x' & Hx' & Hs'). simplify_eq.
    eapply IH; [done..|]. lia.
Qed.
End Matching.

(** ** One page *)

Definition alloc_indices (es : list entry) : list Z :=
  (fun e => alloc_index_of (base_type (en_type e)) (en_fields e)) <$> es.
Definition atomic_indices (es : list entry) : list Z :=
  (fun e => atomic_index_of (base_type (en_type e)) (en_fields e)) <$> es.

(** Threads may have no expected trace. *)
Definition array (o : option (list expected_entry)) : option (list expected_entry) :=
  terminated <$> o.

Definition it_at (o : option (list expected_entry)) (it : expected_it) : Prop :=
  match o with Some xs => it_ok (terminated xs) it | None => xi_e it = None end.

Definition progress_at (vals : list Z) (o : option (list expected_entry)) (it : expected_it)
    (es : list entry) : Prop :=
  match o with Some xs => progress vals (terminated xs) it es | None => True end.

Definition trace_wf (o : option (list expected_entry)) : Prop :=
  match o with Some xs => Forall expected_ok xs | None => True end.

Lemma match_step_spec o page eit e it vals failed :
  trace_wf o → seen_as page eit e → entry_wf e → it_at o it → len vals = MAX_ENTRY_VALUES →
  ∃ it' vals' failed', match_step (default [] (array o)) page eit it vals failed
      = Ret (it', vals', failed') ∧
    it_at o it' ∧ len vals' = MAX_ENTRY_VALUES ∧ extends vals vals' ∧
    (failed' = false → failed = false ∧
       ∀ es, Forall entry_wf es → progress_at vals o it es → progress_at vals' o it' (es ++ [e])).
Proof.
  intros Ho Hse Hwf Hit Hl. unfold match_step. destruct o as [xs|].
  2: { simpl in *. rewrite Hit. by exists it, vals, failed. }
  change (default [] (array (Some xs))) with (terminated xs).
  destruct Hit as (p & x & Hp & Hx & Hc). rewrite Hp.
  rewrite (deref_at xs it p x Hp Hx). cbn [obind].
  assert (it_ok (terminated xs) it) as Hio by (by exists p, x).
  destruct (ee_set x) eqn:Es; cbn [negb].
  - destruct (check_entry_spec xs Ho (S (length (terminated xs))) page eit e it p x vals)
      as (ok & it' & vals' & -> & Hi' & Hl' & He & Hpr); try done; [lia|]. cbn [obind].
    exists it', vals', (failed || negb ok). do 4 (split; [done|]).
    intros [-> Hok]%orb_false_iff. apply negb_false_iff in Hok. split; [done|]. by apply Hpr.
  - exists it, vals, failed. do 3 (split; [done|]). split; [reflexivity|]. intros ->. split; [done|].
    intros es _ (p0 & x0 & blocks & cur & Hp0 & Hx0 & -> & Hb & _). simplify_eq.
    exists p, x, blocks, (cur ++ [e]). rewrite app_assoc. do 4 (split; [done|]).
    intros Hs. congruence.
Qed.

(** The state of the loop is in range, whatever the outcome of the checks. *)
Record loop_ok (o : option (list expected_entry)) (ls : loop_state) : Prop := {
  lo_it : it_at o (ls_it ls);
  lo_vals : len (ls_vals ls) = MAX_ENTRY_VALUES;
  lo_alloc : set_ok (ls_alloc ls);
  lo_atomic : set_ok (ls_atomic ls);
}.

(** What the absence of a failure from [ls] to [ls'] says of the entries between. *)
Record passed (o : option (list expected_entry)) (ls ls' : loop_state) (es : list entry) : Prop := {
  pa_failed : ls_failed ls = false;
  pa_alloc : ascends (ls_prev_alloc ls) (ls_alloc ls) (alloc_indices es) (ls_alloc ls');
  pa_atomic : ascends (ls_prev_atomic ls) (ls_atomic ls) (atomic_indices es) (ls_atomic ls');
  pa_progress : ∀ es0, Forall entry_wf es0 → progress_at (ls_vals ls) o (ls_it ls) es0 →
    progress_at (ls_vals ls') o (ls_it ls') (es0 ++ es);
}.

Definition entry_ok (e : entry) : Prop :=
  entry_wf e ∧ index_range (alloc_index_of (base_type (en_type e)) (en_fields e)) ∧
  index_range (atomic_index_of (base_type (en_type e)) (en_fields e)).

Lemma entry_ok_wf es : Forall entry_ok es → Forall entry_wf es.
Proof. intros H. eapply Forall_impl; [exact H|]. by intros e [? _]. Qed.

Lemma callbacks_fail (cbs : list entry_callback) page buf md f :
  foldl (fun f cb => f || negb (cb page buf md)) f cbs = false → f = false.
Proof.
  revert f. induction cbs as [|cb cbs IH]; intros f; [done|]. simpl. intros H%IH.
  by apply orb_false_iff in H as [? _].
Qed.

Section Page.
Context `{B : BuildInfo, !BuildInfoOk B}.
Context (o : option (list expected_entry)) (Ho : trace_wf o) (cbs : list entry_callback) (md : Z).

Lemma close_step_spec page eit e ls w :
  entry_ok e → seen_as page eit e → loop_ok o ls →
  ∃ ls' w', close_step cbs (default [] (array o)) md page eit ls w = Ret (ls', w') ∧ loop_ok o ls' ∧
    extends (ls_vals ls) (ls_vals ls') ∧
    (ls_failed ls' = false → ∀ ls2 es, passed o ls' ls2 es → passed o ls ls2 (e :: es)).
Proof.
  intros (Hwf & Hal & Hat) Hse [Hit Hv Hs1 Hs2]. unfold close_step.
  rewrite (se_alloc _ _ _ Hse). cbn [obind].
  destruct (ascending_step (ls_prev_alloc ls) _ (ls_alloc ls) w Hs1 Hal)
    as (ok1 & pa & sa & w1 & -> & Hsa & Ha). cbn [obind].
  rewrite (se_atomic _ _ _ Hse). cbn [obind].
  destruct (ascending_step (ls_prev_atomic ls) _ (ls_atomic ls) w1 Hs2 Hat)
    as (ok2 & pt & st & w2 & -> & Hst & Ht). cbn [obind].
  destruct (match_step_spec o page eit e (ls_it ls) (ls_vals ls)
    (foldl (fun f cb => f || negb (cb page (it_buf eit) md))
       (ls_failed ls || negb ok1 || negb ok2) cbs) Ho Hse Hwf Hit Hv)
    as (it' & vals' & failed' & -> & Hit' & Hv' & He & Hm). cbn [obind].
  eexists _, w2. split; [done|]. split; [done|]. split; [done|]. simpl.
  intros Hf ls2 es [Hp1 Hp2 Hp3 Hp4]. destruct (Hm Hf) as [Hcb Hpr].
  apply callbacks_fail in Hcb. apply orb_false_iff in Hcb as [[Hf0 Ho1]%orb_false_iff Ho2].
  apply negb_false_iff in Ho1, Ho2. split; [done|by apply Ha|by apply Ht|].
  intros es0 Hw0 H0. replace (es0 ++ e :: es) with ((es0 ++ [e]) ++ es)
    by (by rewrite <- app_assoc).
  apply Hp4; [apply Forall_app; split; [done|by apply Forall_singleton]|]. by apply Hpr.
Qed.

Lemma passed_refl ls : ls_failed ls = false → passed o ls ls [].
Proof.
  intros Hf. split; [done|apply ascends_nil|apply ascends_nil|]. intros es0 _ H. by rewrite app_nil_r.
Qed.

Lemma close_loop_spec es : ∀ fuel pre post n ls w,
  Forall entry_ok es → n = len (encode_all es) → n < 2 ^ 63 → n / 8 < Z.of_nat fuel → loop_ok o ls →
  ∃ ls' w', close_loop fuel cbs (default [] (array o)) md (pre ++ encode_all es ++ post)
      (EntryIt (len pre) n) ls w = Ret (ls', w') ∧ loop_ok o ls' ∧
    extends (ls_vals ls) (ls_vals ls') ∧ (ls_failed ls' = false → passed o ls ls' es).
Proof.
  induction es as [|e es IH]; intros [|fuel] pre post n ls w Hes Hn Hb Hf Hls;
    try (pose proof (Z.div_pos n 8); lia).
  - simpl in *. subst n. cbn [close_loop]. exists ls, w. do 2 (split; [done|]).
    split; [reflexivity|]. apply passed_refl.
  - apply Forall_cons in Hes as [He Hes]. cbn [encode_all] in *. rewrite length_app in Hn.
    rewrite <- app_assoc.
    destruct (iter_step_encode e pre (encode_all es ++ post) n (proj1 He)) as (H8 & Hnx & Had); [lia|].
    cbn [close_loop]. rewrite Hnx. cbn [obind negb].
    destruct (close_step_spec (pre ++ encode_entry e ++ encode_all es ++ post) (EntryIt (len pre) n)
      e ls w He) as (ls1 & w1 & -> & Hls1 & Hx1 & Hp1); [by apply seen_encode, He|done|].
    cbn [obind]. rewrite Had. cbn [obind].
    destruct (IH fuel (pre ++ encode_entry e) post (n - len (encode_entry e)) ls1 w1)
      as (ls' & w' & E & Hls' & Hx' & Hp'); [done|lia|lia|apply fuel_step; lia|done|].
    rewrite <- app_assoc in E. rewrite E. exists ls', w'. do 2 (split; [done|]).
    split; [by etransitivity|]. intros Hfl. specialize (Hp' Hfl). apply Hp1; [|done]. apply Hp'.
Qed.
End Page.

(** ** A whole run of the checker *)

(** One call of [coldtrace_writer_close]: the page holds the encoding of the
    entries behind the version header, possibly followed by unused bytes. *)
Record closing := Closing {
  cg_tid : nat;
  cg_page : list Z;
  cg_size : Z;
  cg_entries : list entry;
}.

(** The entries of a thread, over all the pages it closed. *)
Definition entries_of (tid : nat) (cs : list closing) : list entry :=
  concat ((fun c => if decide (cg_tid c = tid) then cg_entries c else []) <$> cs).

(** The indices of all pages. *)
Definition indices_of (idxs : list entry → list Z) (cs : list closing) : list Z :=
  concat ((fun c => valid_indices (idxs (cg_entries c))) <$> cs).

(** The expected traces a test has registered so far. *)
Inductive registered : list (option (list expected_entry)) → checker → Prop :=
| reg_none : registered (replicate 128 None) checker0
| reg_trace R ck tid xs ck' :
    registered R ck → Forall expected_ok xs →
    register_expected_trace ck tid (terminated xs) = Some ck' →
    registered (<[Z.to_nat tid := Some xs]> R) ck'
| reg_callback R ck cb : registered R ck → registered R (register_entry_callback ck cb).

Section Run.
Context `{B : BuildInfo, !BuildInfoOk B}.

Record closing_ok (c : closing) : Prop := {
  cg_ok_tid : Z.of_nat (cg_tid c) < MAX_NTHREADS;
  cg_ok_page : take (Z.to_nat (cg_size c)) (cg_page c) = frag_bytes (cg_entries c);
  cg_ok_size : cg_size c = len (frag_bytes (cg_entries c));
  cg_ok_bound : cg_size c < 2 ^ 63;
  cg_ok_entries : Forall entry_ok (cg_entries c);
}.

Fixpoint run_closings (ck : checker) (cs : list closing) (w : world) : outcome (checker * world) :=
  match cs with
  | [] => Ret (ck, w)
  | c :: cs =>
      let! (ck, w) := checker_writer_close ck (cg_page c) (cg_size c) (Z.of_nat (cg_tid c)) w in
      run_closings ck cs w
  end.

Context (R : list (option (list expected_entry))).

(** The state is in range after any closings. *)
Record checker_ok (ck : checker) : Prop := {
  co_len : length R = 128%nat;
  co_wf : Forall trace_wf R;
  co_expected : ck_expected ck = array <$> R;
  co_vals : len (ck_vals ck) = MAX_ENTRY_VALUES;
  co_its_len : length (ck_its ck) = 128%nat;
  co_its : ∀ t o it, R !! t = Some o → ck_its ck !! t = Some it → xi_e it = None ∨ it_at o it;
  co_alloc : set_ok (ck_alloc ck);
  co_atomic : set_ok (ck_atomic ck);
}.

Definition set_gained (set : index_set) (idxs : list entry → list Z) (cs : list closing) : Prop :=
  Forall (fun c => StronglySorted Z.lt (valid_indices (idxs (cg_entries c)))) cs ∧
  ∀ j, has set j ↔ j ∈ indices_of idxs cs.

(** What the checker knows of the pages closed so far while nothing has failed. *)
Record knows (ck : checker) (cs : list closing) : Prop := {
  kn_progress : ∀ t xs it, R !! t = Some (Some xs) → ck_its ck !! t = Some it →
    match xi_e it with
    | Some _ => progress (ck_vals ck) (terminated xs) it (entries_of t cs)
    | None => entries_of t cs = []
    end;
  kn_alloc : set_gained (ck_alloc ck) alloc_indices cs;
  kn_atomic : set_gained (ck_atomic ck) atomic_indices cs;
}.

Lemma set_gained_snoc set idxs cs c set' :
  set_gained set idxs cs → ascends UINT64_MAX set (idxs (cg_entries c)) set' →
  set_gained set' idxs (cs ++ [c]).
Proof.
  intros [Hs Hh] (Hs1 & _ & Hh1). split; [apply Forall_app; split; [done|by apply Forall_singleton]|].
  intros j. unfold indices_of. rewrite fmap_app, concat_app. simpl. rewrite app_nil_r, elem_of_app.
  rewrite Hh1, Hh. unfold indices_of. tauto.
Qed.

Lemma entries_of_snoc t cs c :
  entries_of t (cs ++ [c]) = entries_of t cs ++ (if decide (cg_tid c = t) then cg_entries c else []).
Proof. unfold entries_of. rewrite fmap_app, concat_app. simpl. by rewrite app_nil_r. Qed.

Lemma entries_of_wf t cs : Forall closing_ok cs → Forall entry_wf (entries_of t cs).
Proof.
  intros H. induction H as [|c cs Hc _ IH]; [constructor|]. unfold entries_of in *. simpl.
  apply Forall_app. split; [|done]. destruct (decide _); [|constructor].
  apply entry_ok_wf, Hc.
Qed.

(** The loop of [coldtrace_writer_close] on a well-formed page. *)
Lemma close_page_spec c o cbs ls w :
  closing_ok c → trace_wf o → loop_ok o ls →
  ∃ ls' w', close_loop (S (Z.to_nat (cg_size c / 8))) cbs (default [] (array o))
      (Z.of_nat (cg_tid c)) (cg_page c) (iter_init 0 (cg_size c)) ls w = Ret (ls', w') ∧
    loop_ok o ls' ∧ extends (ls_vals ls) (ls_vals ls') ∧
    (ls_failed ls' = false → passed o ls ls' (cg_entries c)).
Proof.
  intros [_ Hpage Hsz Hb He] Ho Hls. unfold frag_bytes in *.
  pose proof length_header_bytes as Hh. rewrite length_app in Hsz.
  rewrite <- (take_drop (Z.to_nat (cg_size c)) (cg_page c)), Hpage, <- app_assoc.
  unfold iter_init, sizeof_version_header. rewrite u64_id by ulia.
  replace (0 + 8) with (len header_bytes) by lia.
  apply close_loop_spec; [done|done|lia|lia| |done].
  assert ((cg_size c - 8) / 8 <= cg_size c / 8) by (apply Z.div_le_mono; lia).
  pose proof (Z.div_pos (cg_size c) 8). lia.
Qed.

Lemma validate_page c : closing_ok c → validate_coldtrace_version_header (cg_page c) = Ret true.
Proof.
  intros [_ Hpage _ _ _]. unfold validate_coldtrace_version_header.
  rewrite <- (take_drop (Z.to_nat (cg_size c)) (cg_page c)), Hpage. unfold frag_bytes.
  rewrite <- app_assoc. destruct (current_header_accepted (encode_all (cg_entries c) ++
    drop (Z.to_nat (cg_size c)) (cg_page c))) as (h & -> & Hv). simpl. by rewrite Hv.
Qed.

(** The iterator a page starts with. *)
Lemma init_spec o it :
  trace_wf o → xi_e it = None ∨ it_at o it →
  ∃ it0, match xi_e it, array o with
         | None, Some e => init_expected_entry_iterator e
         | _, _ => Ret it
         end = Ret it0 ∧ it_at o it0 ∧
    (∀ vals es, match o, xi_e it with
       | Some xs, Some _ => progress vals (terminated xs) it es
       | Some _, None => es = []
       | None, _ => True
       end → progress_at vals o it0 es).
Proof.
  intros Ho Hit. destruct o as [xs|]; simpl.
  2: { exists it. split; [by destruct (xi_e it)|]. split; [by destruct Hit|done]. }
  destruct (xi_e it) as [p|] eqn:Ep.
  - exists it. split; [done|]. split; [by destruct Hit|done].
  - destruct (lookup_lt_is_Some_2 (terminated xs) 0) as [x Hx].
    { unfold terminated. rewrite length_app. simpl. lia. }
    exists (load_it x 0). unfold init_expected_entry_iterator. rewrite Hx. split; [done|].
    split; [by apply load_it_ok|]. intros vals es ->.
    by apply (load_it_progress xs Ho vals 0 x []).
Qed.

Lemma close_spec c ck cs w :
  closing_ok c → checker_ok ck → Forall closing_ok cs →
  ∃ ck' w', checker_writer_close ck (cg_page c) (cg_size c) (Z.of_nat (cg_tid c)) w = Ret (ck', w') ∧
    checker_ok ck' ∧
    (ck_failed ck' = false → ck_failed ck = false ∧ (knows ck cs → knows ck' (cs ++ [c]))).
Proof.
  intros Hc [HR Hwf Hexp Hvals Hil Hits Hs1 Hs2] Hcs. unfold checker_writer_close.
  pose proof (cg_ok_size _ Hc) as Hsz. pose proof (cg_ok_tid _ Hc) as Htid. unfold MAX_NTHREADS in Htid.
  unfold frag_bytes in Hsz. rewrite length_app, length_header_bytes in Hsz.
  destruct (Z.eqb_spec (cg_size c) 0); [lia|]. rewrite validate_page by done. cbn [obind].
  destruct (Z.ltb_spec (Z.of_nat (cg_tid c)) 0); [lia|]. rewrite Nat2Z.id, Hexp, list_lookup_fmap.
  destruct (lookup_lt_is_Some_2 R (cg_tid c)) as [o Ho]; [lia|].
  destruct (lookup_lt_is_Some_2 (ck_its ck) (cg_tid c)) as [it Hit]; [lia|].
  rewrite Ho, Hit. cbn [fmap option_fmap option_map or_undef obind].
  assert (trace_wf o) as Hto by (by eapply Forall_lookup_1).
  destruct (init_spec o it Hto (Hits _ _ _ Ho Hit)) as (it0 & -> & Hit0 & Hinit). cbn [obind].
  destruct (close_page_spec c o (ck_callbacks ck)
    (LoopState UINT64_MAX UINT64_MAX (ck_alloc ck) (ck_atomic ck) it0 (ck_vals ck) (negb true)) w
    Hc Hto) as (ls & w' & -> & [Hl1 Hl2 Hl3 Hl4] & Hx & Hp); [done|]. cbn [obind].
  eexists _, w'. split; [done|]. split.
  - split; simpl; try done.
    + by rewrite length_insert.
    + intros t o' it' Ht Hit'. destruct (decide (t = cg_tid c)) as [->|Hne].
      * rewrite list_lookup_insert_eq in Hit' by lia. simplify_eq. by right.
      * rewrite list_lookup_insert_ne in Hit' by done. by eapply Hits.
  - simpl. intros [Hf1 Hf2]%orb_false_iff. split; [done|]. intros [Hk1 Hk2 Hk3].
    destruct (Hp Hf2) as [_ Hp1 Hp2 Hp3]. simpl in *.
    split; [|by eapply set_gained_snoc|by eapply set_gained_snoc]. simpl.
    intros t xs it' Ht Hit'. rewrite entries_of_snoc. destruct (decide (cg_tid c = t)) as [<-|Hne].
    + rewrite list_lookup_insert_eq in Hit' by lia. simplify_eq. simpl in *.
      specialize (Hp3 (entries_of (cg_tid c) cs) (entries_of_wf _ _ Hcs)).
      destruct Hl1 as (p & x & Hpos & _). rewrite Hpos. apply Hp3, Hinit. by apply Hk1.
    + rewrite list_lookup_insert_ne in Hit' by done. specialize (Hk1 t xs it' Ht Hit').
      rewrite app_nil_r. destruct (xi_e it'); [|done].
      by apply (progress_mono (ck_vals ck)); [|apply entries_of_wf|].
Qed.

Lemma run_closings_spec cs : ∀ cs0 ck w,
  Forall closing_ok cs0 → Forall closing_ok cs → checker_ok ck →
  ∃ ck' w', run_closings ck cs w = Ret (ck', w') ∧ checker_ok ck' ∧
    (ck_failed ck' = false → ck_failed ck = false ∧ (knows ck cs0 → knows ck' (cs0 ++ cs))).
Proof.
  induction cs as [|c cs IH]; intros cs0 ck w Hcs0 Hcs Hck; cbn [run_closings].
  { exists ck, w. rewrite app_nil_r. done. }
  apply Forall_cons in Hcs as [Hc Hcs].
  destruct (close_spec c ck cs0 w Hc Hck Hcs0) as (ck1 & w1 & -> & Hck1 & Hk1). cbn [obind].
  destruct (IH (cs0 ++ [c]) ck1 w1) as (ck' & w' & -> & Hck' & Hk'); [|done|done|].
  { apply Forall_app. split; [done|by apply Forall_singleton]. }
  exists ck', w'. do 2 (split; [done|]). intros Hf. destruct (Hk' Hf) as [Hf1 Hkk].
  destruct (Hk1 Hf1) as [Hf0 Hk0]. split; [done|]. intros Hk.
  replace (cs0 ++ c :: cs) with ((cs0 ++ [c]) ++ cs) by (by rewrite <- app_assoc). auto.
Qed.

(** *** The end of the run *)

Lemma skip_optional_spec xs fuel : ∀ it,
  Forall expected_ok xs → it_ok (terminated xs) it →
  (∀ p, xi_e it = Some p → length (terminated xs) < fuel + p)%nat →
  ∃ it' x, skip_optional fuel (terminated xs) it = Ret it' ∧ it_ok (terminated xs) it' ∧
    deref (terminated xs) it' = Ret x ∧
    (ee_set x = false → ∀ vals es, progress vals (terminated xs) it es → conforms vals xs es).
Proof.
  induction fuel as [|fuel IH]; intros it Hxs (p & x & Hp & Hx & Hc) Hf; specialize (Hf p Hp).
  { apply lookup_lt_Some in Hx. lia. }
  cbn [skip_optional]. rewrite (deref_at xs it p x Hp Hx). cbn [obind].
  destruct (ee_set x) eqn:Es; cbn [andb].
  2: { exists it, x. split; [done|]. split; [by exists p, x|]. split; [by apply (deref_at xs it p)|].
       intros _ vals es (p0 & x0 & blocks & cur & Hp0 & Hx0 & -> & Hb & _). simplify_eq.
       apply (lookup_terminated xs Hxs) in Hx as [[[] _]|[_ ->]]; [congruence|].
       exists blocks, cur. split; [done|]. unfold terminated in Hb. by rewrite take_app_length in Hb. }
  destruct (Z.eqb_spec (xi_atleast it) 0) as [Ha|Ha].
  2: { exists it, x. split; [done|]. split; [by exists p, x|]. split; [by apply (deref_at xs it p)|]. congruence. }
  destruct (next_expected_spec xs Hxs it p x Hp Hx Es) as (x' & Hx' & ->). cbn [obind].
  destruct (IH (load_it x' (S p)) Hxs) as (it' & x2 & E & Hi' & Hd & Hcf);
    [by apply load_it_ok|intros q Hq; simpl in Hq; simplify_eq; lia|].
  exists it', x2. do 3 (split; [done|]). intros Hs2 vals es Hpr. apply Hcf; [done|].
  destruct Hpr as (p0 & x0 & blocks & cur & Hp0 & Hx0 & -> & Hb & Hcur). simplify_eq.
  eapply progress_next; [done|done|done|done|]. apply (cur_complete vals x it); try done.
  destruct (ee_wild x) eqn:Ew; [|done]. exfalso. destruct (lookup_set xs Hxs p x Hx Es) as [Hok _].
  specialize (Hcur Es). rewrite Ew in Hcur. pose proof (eo_wild _ Hok Ew). lia.
Qed.

(** The threads numbered from 1 without a gap. *)
Definition in_sequence (from t : nat) : Prop :=
  (from <= t)%nat ∧ ∀ u, (from <= u <= t)%nat → ∃ xs, R !! u = Some (Some xs).

Lemma check_empty_spec n : ∀ tid ck ret,
  (tid + n = 128)%nat → checker_ok ck →
  ∃ ck' r, check_empty_loop n tid ck ret = Ret (ck', r) ∧
    ck_failed ck' = ck_failed ck ∧ ck_alloc ck' = ck_alloc ck ∧ ck_atomic ck' = ck_atomic ck ∧
    (r = true → ret = true ∧ ∀ vals (es : nat → list entry),
      (∀ t xs it, (tid <= t)%nat → R !! t = Some (Some xs) → ck_its ck !! t = Some it →
         match xi_e it with Some _ => progress vals (terminated xs) it (es t) | None => es t = [] end) →
      ∀ t xs, in_sequence tid t → R !! t = Some (Some xs) → conforms vals xs (es t)).
Proof.
  induction n as [|n IH]; intros tid ck ret Hn Hck; cbn [check_empty_loop].
  { exists ck, ret. do 4 (split; [done|]). intros ->. split; [done|]. intros vals es _ t xs [Hle _] Ht.
    apply lookup_lt_Some in Ht. rewrite (co_len _ Hck) in Ht. lia. }
  rewrite (co_expected _ Hck), list_lookup_fmap.
  destruct (lookup_lt_is_Some_2 R tid) as [o Ho]; [rewrite (co_len _ Hck); lia|].
  destruct (lookup_lt_is_Some_2 (ck_its ck) tid) as [it Hit]; [rewrite (co_its_len _ Hck); lia|].
  rewrite Ho. destruct o as [xs|]; cbn [fmap option_fmap option_map array].
  2: { exists ck, ret. do 4 (split; [done|]). intros ->. split; [done|]. intros vals es _ t xs [Hle Hseq] _.
       destruct (Hseq tid) as [? ?]; [lia|]. simplify_eq. }
  rewrite Hit. cbn [or_undef obind]. destruct (xi_e it) as [p|] eqn:Ep.
  2: { destruct (IH (S tid) ck false ltac:(lia) Hck) as (ck' & r & -> & H1 & H2 & H3 & H4).
       exists ck', r. do 4 (split; [done|]). intros Hr. by destruct (H4 Hr). }
  assert (Forall expected_ok xs) as Hxs by (by apply (Forall_lookup_1 _ _ _ _ (co_wf _ Hck) Ho)).
  destruct (co_its _ Hck tid _ it Ho Hit) as [?|Hio]; [congruence|].
  destruct (skip_optional_spec xs (S (length (terminated xs))) it Hxs Hio) as (it' & x & -> & Hi' & Hd & Hcf).
  { intros; lia. }
  cbn [obind]. rewrite Hd. cbn [obind].
  set (ck1 := CheckerState _ _ _ _ _ _ _ _).
  assert (checker_ok ck1) as Hck1.
  { destruct Hck as [? ? ? ? ? Hits ? ?]. split; simpl; try done; [by rewrite length_insert|].
    intros t o' it2 Ht Hit2. destruct (decide (t = tid)) as [->|Hne].
    - rewrite list_lookup_insert_eq in Hit2 by lia. simplify_eq. by right.
    - rewrite list_lookup_insert_ne in Hit2 by done. by eapply Hits. }
  destruct (IH (S tid) ck1 (if ee_set x then false else ret) ltac:(lia) Hck1)
    as (ck' & r & -> & H1 & H2 & H3 & H4).
  exists ck', r. do 4 (split; [done|]). intros Hr. destruct (H4 Hr) as [Hret Hrest].
  destruct (ee_set x) eqn:Es; [done|]. split; [done|]. intros vals es Hpr t xs' [Hle Hseq] Ht.
  destruct (decide (t = tid)) as [->|Hne].
  - simplify_eq. apply Hcf; [done|]. specialize (Hpr tid xs it Hle Ho Hit). by rewrite Ep in Hpr.
  - apply Hrest; [|split; [lia|intros u Hu; apply Hseq; lia]|done].
    intros u xs2 it2 Hu Hxs2 Hit2. apply Hpr; [lia|done|]. simpl in Hit2.
    by rewrite list_lookup_insert_ne in Hit2 by lia.
Qed.

(** The verdict of [coldtrace_main_thread_fini]. *)
Lemma fini_spec ck final :
  checker_ok ck →
  ∃ ck' verdict, checker_main_thread_fini ck final = Ret (ck', verdict) ∧
    (verdict = true →
      ck_failed ck = false ∧
      (∀ cs, knows ck cs →
        (∀ t xs, in_sequence 1 t → R !! t = Some (Some xs) →
           conforms (ck_vals ck) xs (entries_of t cs)) ∧
        (∀ i j, i ∈ indices_of alloc_indices cs → 0 <= j < i → j ∈ indices_of alloc_indices cs) ∧
        (∀ i j, i ∈ indices_of atomic_indices cs → 0 <= j < i → j ∈ indices_of atomic_indices cs))).
Proof.
  intros Hck. unfold checker_main_thread_fini, check_empty_expected_trace.
  destruct (check_empty_spec (Z.to_nat (MAX_NTHREADS - 1)) 1 ck true) as
    (ck1 & r & -> & Hf & Ha & Ht & Hr); [done|done|]. cbn [obind]. rewrite Ha, Ht.
  destruct (not_seen_spec _ (co_alloc _ Hck)) as (r1 & -> & Hr1). cbn [obind].
  destruct (not_seen_spec _ (co_atomic _ Hck)) as (r2 & -> & Hr2). cbn [obind].
  eexists _, _. split; [done|]. rewrite negb_true_iff, !orb_false_iff, !negb_false_iff, Hf.
  intros [[[[Hre H1] H2] _] Hfl]. split; [done|]. intros cs [Hk1 [_ Hk2] [_ Hk3]].
  split; [|split].
  - apply Hr; [done|]. intros t xs it _. apply Hk1.
  - intros i j Hi Hj. apply Hk2. apply (proj1 Hr1 H1). apply Hk2 in Hi.
    pose proof (proj2 (so_max _ (co_alloc _ Hck)) i Hi). lia.
  - intros i j Hi Hj. apply Hk3. apply (proj1 Hr2 H2). apply Hk3 in Hi.
    pose proof (proj2 (so_max _ (co_atomic _ Hck)) i Hi). lia.
Qed.
End Run.

(** Registration leaves the checker ready to run. *)
Lemma registered_ready R ck :
  registered R ck → checker_ok R ck ∧ ck_failed ck = false ∧ knows R ck [].
Proof.
  intros H. assert (checker_ok R ck ∧ ck_failed ck = false ∧ ck_its ck = replicate 128 null_it ∧
    ck_alloc ck = empty_set ∧ ck_atomic ck = empty_set) as (Hck & Hf & Hi & Ha & Ht).
  { induction H as [|R ck tid xs ck' _ IH Hxs E|R ck cb _ IH].
    - split; [|done]. split; try done; try apply empty_set_ok.
      + by apply Forall_replicate.
      + intros t o it Ho [-> _]%lookup_replicate. by left.
    - destruct IH as ([? ? He ? ? Hits ? ?] & ? & Hi & ?). unfold register_expected_trace in E.
      case_match eqn:Er; simplify_eq. apply andb_true_iff in Er as [E1%Z.ltb_lt E2%Z.ltb_lt].
      split; [|done]. split; simpl; try done.
      + by rewrite length_insert.
      + by apply Forall_insert.
      + by rewrite He, list_fmap_insert.
      + rewrite Hi. intros t o it _ [-> _]%lookup_replicate. by left.
    - destruct IH as ([] & ?). done. }
  do 2 (split; [done|]). split.
  - intros t xs it _ Hit. rewrite Hi in Hit. by apply lookup_replicate in Hit as [-> _].
  - rewrite Ha. split; [constructor|]. intros j. split; [|by intros ?%elem_of_nil].
    by intros ?%has_empty.
  - rewrite Ht. split; [constructor|]. intros j. split; [|by intros ?%elem_of_nil].
    by intros ?%has_empty.
Qed.

(** The verdict of a test. *)
Lemma verdict_total `{B : BuildInfo, !BuildInfoOk B} R ck cs final w :
  registered R ck → Forall closing_ok cs →
  ∃ ck1 w' ck2 verdict,
    run_closings ck cs w = Ret (ck1, w') ∧
    checker_main_thread_fini ck1 final = Ret (ck2, verdict) ∧
    (verdict = true →
      ∃ vals,
        (∀ t xs, in_sequence R 1 t → R !! t = Some (Some xs) → conforms vals xs (entries_of t cs)) ∧
        Forall (fun c => StronglySorted Z.lt (valid_indices (alloc_indices (cg_entries c)))) cs ∧
        Forall (fun c => StronglySorted Z.lt (valid_indices (atomic_indices (cg_entries c)))) cs ∧
        (∀ i j, i ∈ indices_of alloc_indices cs → 0 <= j < i → j ∈ indices_of alloc_indices cs) ∧
        (∀ i j, i ∈ indices_of atomic_indices cs → 0 <= j < i → j ∈ indices_of atomic_indices cs)).
Proof.
  intros (Hck & Hf & Hk)%registered_ready Hcs.
  destruct (run_closings_spec R cs [] ck w) as (ck1 & w' & E & Hck1 & Hrun); [constructor|done|done|].
  destruct (fini_spec R ck1 final Hck1) as (ck2 & verdict & E2 & Hv).
  exists ck1, w', ck2, verdict. do 2 (split; [done|]). intros Hverd.
  destruct (Hv Hverd) as [Hf1 Hall]. destruct (Hrun Hf1) as [_ Hkn]. specialize (Hkn Hk).
  destruct (Hall _ Hkn) as (H1 & H2 & H3). exists (ck_vals ck1). split; [done|].
  split; [apply Hkn|]. split; [apply Hkn|]. done.
Qed.

(** C9: the checker's verdict is sound, and always reached.  After any registrations
    and any sequence of well-formed pages closed by the threads, in any interleaving
    and with allocations failing or not, every call returns and so does the final
    check; and if it says TEST PASSED, then there is a binding of the pointer
    variables under which the entries of every thread in front of the first one
    without an expected trace, counted from thread 1, conform to its expected trace,
    the allocation and atomic indices ascend on every page, and no index below a
    recorded one is missing.  The final check stops at the first thread without an
    expected trace, so nothing is said of a thread behind such a gap. *)
Theorem verdict_sound `{B : BuildInfo, !BuildInfoOk B} R ck cs final w :
  registered R ck → Forall closing_ok cs →
  ∃ ck1 w' ck2 verdict,
    run_closings ck cs w = Ret (ck1, w') ∧
    checker_main_thread_fini ck1 final = Ret (ck2, verdict) ∧
    (verdict = true →
      ∃ vals,
        (∀ t xs, in_sequence R 1 t → R !! t = Some (Some xs) → conforms vals xs (entries_of t cs)) ∧
        Forall (fun c => StronglySorted Z.lt (valid_indices (alloc_indices (cg_entries c)))) cs ∧
        Forall (fun c => StronglySorted Z.lt (valid_indices (atomic_indices (cg_entries c)))) cs ∧
        (∀ i j, i ∈ indices_of alloc_indices cs → 0 <= j < i → j ∈ indices_of alloc_indices cs) ∧
        (∀ i j, i ∈ indices_of atomic_indices cs → 0 <= j < i → j ∈ indices_of atomic_indices cs)).
Proof. apply verdict_total. Qed.

Section Demo.
#[local] Existing Instance demo_build.
#[local] Existing Instance demo_build_ok.

(** Two fences and an exit of thread 1, checked against an expected trace that
    skips to the exit. *)
Definition demo_entries : list entry :=
  [Entry COLDTRACE_FENCE 0 [0] None; Entry COLDTRACE_FENCE 0 [1] None;
   Entry COLDTRACE_THREAD_EXIT 0 [2] None].

Definition demo_expected : list expected_entry :=
  [EXPECT_SOME COLDTRACE_FENCE 1 0; EXPECT_SUFFIX_VALUE COLDTRACE_THREAD_EXIT 3].

Definition demo_closing : closing :=
  Closing 1 (frag_bytes demo_entries ++ [7; 7]) (len (frag_bytes demo_entries)) demo_entries.

Definition demo_checker : checker :=
  default checker0 (register_expected_trace checker0 1 (terminated demo_expected)).

(** The run passes, and a run that misses the exit does not. *)
Lemma demo_verdicts :
  (let! (ck, _) := run_closings demo_checker [demo_closing] (World ∅ [] []) in
   let! (_, v) := checker_main_thread_fini ck None in Ret v) = Ret true ∧
  (let! (ck, _) := run_closings demo_checker
     [Closing 1 (frag_bytes (take 2 demo_entries)) (len (frag_bytes (take 2 demo_entries)))
        (take 2 demo_entries)] (World ∅ [] []) in
   let! (_, v) := checker_main_thread_fini ck None in Ret v) = Ret false.
Proof. split; vm_compute; reflexivity. Qed.

Lemma demo_registered : registered (<[1%nat := Some demo_expected]> (replicate 128 None)) demo_checker.
Proof.
  apply (reg_trace (replicate 128 None) checker0 1 demo_expected); [apply reg_none| |done].
  apply Forall_cons_2; [|apply Forall_singleton]; (split; simpl; try done; try lia;
    try (by left); right; unfold MAX_ENTRY_VALUES; lia).
Qed.

Lemma demo_closing_ok : closing_ok demo_closing.
Proof.
  split; try done.
  assert (∀ t, (COLDTRACE_FENCE = t ∨ COLDTRACE_THREAD_EXIT = t) → ∀ i, 0 <= i < 10 →
    entry_ok (Entry t 0 [i] None)) as Hok.
  { intros t Ht i Hi. assert (entry_wf (Entry t 0 [i] None)) as Hwf.
    { assert (Forall is_u64 [i]) by (apply Forall_singleton; unfold is_u64; lia).
      destruct Ht as [<-|<-]; (split; cbn [en_type en_ptr en_fields en_stack];
        [done|done|lia|reflexivity|assumption|done]). }
    split; [exact Hwf|]. destruct Ht as [<-|<-]; (split; [right; reflexivity|left; change (0 <= i < 2 ^ 63); lia]). }
  repeat apply Forall_cons_2; try apply Forall_nil_2; apply Hok; auto; lia.
Qed.

Lemma verdict_sound_witness :
  ∃ vals, conforms vals demo_expected demo_entries.
Proof.
  destruct (verdict_sound (<[1%nat := Some demo_expected]> (replicate 128 None)) demo_checker
    [demo_closing] None (World ∅ [] []) demo_registered) as (ck1 & w' & ck2 & v & E1 & E2 & H).
  - apply Forall_singleton, demo_closing_ok.
  - assert (v = true) as Hv.
    { pose proof (proj1 demo_verdicts) as Hd. rewrite E1 in Hd. cbn [obind] in Hd.
      rewrite E2 in Hd. cbn [obind] in Hd. by injection Hd. }
    destruct (H Hv) as (vals & Hc & _). exists vals. apply (Hc 1%nat demo_expected); [|done].
    split; [done|]. intros u Hu. exists demo_expected. by replace u with 1%nat by lia.
Defined.
End Demo.
