(* ===== verification/Exact.v ===== *)
(** * When the verdict of a test is exact (test/checkers)

    [Verdict] shows that a passed test conforms.  The matcher of the checker is
    greedy, so the converse needs expected traces in which it cannot go wrong: behind
    an entry that may repeat a varying number of times come, up to one that has to
    occur, only entries of other types.  For these the checker decides conformance,
    and a test fails only if there is a reason. *)

From stdpp Require Import base list numbers strings gmap.
From Stdlib Require Import ZArith Lia Sorted.
From S2P Require Import Prelude Version Entries Libc Utils Config Codec Lz4 Writer Thread Trace Reader Indexes Checker Verdict.

(** ** Expected traces without ambiguity *)

(** The number of entries is fixed. *)
Definition fixed (x : expected_entry) : bool :=
  ee_wild x || ((0 <? ee_atleast x) && (ee_atmost x =? ee_atleast x)).

(** No entry that [x'] describes has both the type and the size of [x]. *)
Definition apart (x x' : expected_entry) : bool :=
  negb (ee_type x' =? ee_type x) ||
  (negb (ee_size x =? INVALID_SIZE) && negb (ee_size x' =? INVALID_SIZE) &&
   negb (u64 (ee_size x') =? u64 (ee_size x))).

(** Whatever comes first of [xs] cannot be taken for [x]: it is one of some optional
    entries up to one that has to occur. *)
Fixpoint follows (x : expected_entry) (xs : list expected_entry) : bool :=
  match xs with
  | [] => false
  | x' :: xs => negb (ee_wild x') && apart x x' && ((0 <? ee_atleast x') || follows x xs)
  end.

Fixpoint definite (xs : list expected_entry) : bool :=
  match xs with
  | [] => true
  | x :: xs => (fixed x || follows x xs) && definite xs
  end.

Lemma definite_at xs : ∀ p x, definite xs = true → xs !! p = Some x →
  fixed x = true ∨ follows x (drop (S p) xs) = true.
Proof.
  induction xs as [|y xs IH]; intros p x H Hp; [done|]. cbn [definite] in H.
  apply andb_true_iff in H as [H1 H2]. destruct p as [|p]; [|by apply (IH p)].
  injection Hp as ->. by apply orb_true_iff in H1.
Qed.

Lemma apart_sound x x' e : apart x x' = true → type_matches x' e → size_matches x' e → type_matches x e → ¬ size_matches x e.
Proof.
  unfold apart, type_matches, size_matches.
  rewrite orb_true_iff, !andb_true_iff, !negb_true_iff, !Z.eqb_neq. intros [H|[[H1 H2] H]] Ht Hs Ht'; [congruence|].
  intros [?|Hs']; [done|]. destruct Hs as [?|Hs]; [done|]. congruence.
Qed.

(** The runs of such entries are not all empty, and begin with an entry that is not
    for [x]. *)
Lemma follows_first V x xs : ∀ blocks,
  follows x xs = true → Forall2 (block_ok V) xs blocks →
  ∃ e es, concat blocks = e :: es ∧ (type_matches x e → ¬ size_matches x e).
Proof.
  induction xs as [|x' xs IH]; intros blocks Hf Hb; [done|]. cbn [follows] in Hf.
  inversion Hb as [|? blk ? blocks' Hk Hr E1 E2]; subst. rewrite !andb_true_iff, negb_true_iff in Hf.
  destruct Hf as [[Hw Hap] Hf]. unfold block_ok in Hk. rewrite Hw in Hk. destruct Hk as (Hm & Hlen & _).
  destruct blk as [|e blk].
  - apply orb_true_iff in Hf as [Ha%Z.ltb_lt|Hf]; [simpl in Hlen; lia|]. by apply (IH blocks').
  - apply Forall_cons in Hm as [(Hte & Hse & _) _]. exists e, (blk ++ concat blocks'). split; [done|].
    by apply (apart_sound x x').
Qed.

(** [_check_size] decides [size_matches]. *)
Lemma check_size_spec x e :
  is_mismatch_size (_check_size (size_of (base_type (en_type e)) (en_fields e)) x) = false ↔ size_matches x e.
Proof.
  unfold _check_size, size_matches. destruct (Z.eqb_spec (ee_size x) INVALID_SIZE); [by split; [left|]|].
  destruct (Z.eqb_spec (size_of (base_type (en_type e)) (en_fields e)) (u64 (ee_size x))); cbn [negb is_mismatch_size].
  - by split; [right|].
  - split; [done|]. by intros [?|?].
Qed.

(** ** Bindings that agree with a given one *)

Section Exact.
Context (V : list Z).

(** A variable is not bound yet, or bound as in [V]. *)
Definition below (vals : list Z) : Prop :=
  len vals = MAX_ENTRY_VALUES ∧ ∀ k v, vals !! k = Some v → v = CHECK_UNINITIALIZED ∨ V !! k = Some v.

Lemma check_ptr_fits x it e vals :
  expected_ok x → xi_check it = ee_check x → below vals → ptr_matches V x e →
  ∃ r vals', _check_ptr (en_ptr e) it vals = Ret (r, vals') ∧ is_mismatch_ptr r = false ∧ below vals'.
Proof.
  intros Hok Hc [Hl Hb] Hm. unfold _check_ptr. rewrite Hc.
  destruct (Z.eqb_spec (ee_check x) NO_CHECK) as [|Hn]; [by eexists _, _|].
  destruct Hm as [|[H0 Hm]]; [done|]. destruct (eo_check x Hok) as [|Hr]; [done|].
  destruct (Z.ltb_spec (ee_check x) 0); [lia|].
  destruct (lookup_lt_is_Some_2 vals (Z.to_nat (ee_check x))) as [v Hv]; [lia|]. rewrite Hv. cbn [or_undef obind].
  destruct (Z.eqb_spec v CHECK_UNINITIALIZED) as [->|Hne].
  - eexists _, _. split; [done|]. split; [done|]. split; [by rewrite length_insert|].
    intros k u Hk. destruct (decide (k = Z.to_nat (ee_check x))) as [->|Hd].
    + rewrite list_lookup_insert_eq in Hk by lia. injection Hk as <-. by right.
    + rewrite list_lookup_insert_ne in Hk by done. by apply Hb.
  - destruct (Hb _ _ Hv) as [?|Hv']; [done|]. rewrite Hm in Hv'. injection Hv' as ->.
    rewrite Z.eqb_refl. by eexists _, _.
Qed.

Section Matching.
Context (xs : list expected_entry) (Hxs : Forall expected_ok xs) (Hdef : definite xs = true).

#[local] Abbreviation exp := (terminated xs).

(** What the matcher at an iterator still needs: the rest of the current run, the
    runs of the following expected entries, and anything after them. *)
Definition run_left (x : expected_entry) (it : expected_it) (blk : list entry) : Prop :=
  if ee_wild x then block_ok V x blk
  else Forall (matches V x) blk ∧ 0 <= xi_atleast it <= len blk ∧ xi_atmost it < 2 ^ 31 ∧
    (ee_atmost x = 0 ∧ xi_atmost it = 0 ∨ 1 <= xi_atmost it ∧ len blk <= xi_atmost it) ∧
    (fixed x = true → 0 < xi_atleast it ∧ xi_atmost it = xi_atleast it).

Definition fits (it : expected_it) (rest : list entry) : Prop :=
  ∃ p x, xi_e it = Some p ∧ exp !! p = Some x ∧ xi_check it = ee_check x ∧
    (ee_set x = true → ∃ blk blocks trailing, rest = blk ++ concat blocks ++ trailing ∧
       Forall2 (block_ok V) (drop (S p) xs) blocks ∧ run_left x it blk).

(** A run that has not begun. *)
Lemma run_left_load x p blk : expected_ok x → block_ok V x blk → run_left x (load_it x p) blk.
Proof.
  intros [_ Hal Ham Hbd _ _] Hb. unfold run_left, block_ok, fixed in *. destruct (ee_wild x); [done|].
  destruct Hb as (Hm & H1 & H2). simpl. rewrite !i32_id by lia. split; [done|]. split; [lia|]. split; [lia|].
  split; [lia|]. rewrite andb_true_iff, Z.ltb_lt, Z.eqb_eq. lia.
Qed.

Lemma fits_load p x blocks trailing :
  exp !! p = Some x → Forall2 (block_ok V) (drop p xs) blocks → fits (load_it x p) (concat blocks ++ trailing).
Proof.
  intros Hx Hb. exists p, x. do 3 (split; [done|]). intros Hs.
  destruct (lookup_set xs Hxs p x Hx Hs) as [Hok Hlt].
  apply (lookup_terminated xs Hxs) in Hx as [[_ Hx]|[-> ->]]; [|lia].
  rewrite (drop_S _ _ _ Hx) in Hb. inversion Hb as [|? blk ? blocks' Hk Hr E1 E2]; subst.
  exists blk, blocks', trailing. split; [cbn [concat]; by rewrite <- app_assoc|].
  split; [done|]. by apply run_left_load.
Qed.

(** The first entry of a run that has to be non-empty. *)
Lemma fits_next it p x rest :
  xi_e it = Some p → exp !! p = Some x → ee_set x = true →
  (∃ blocks trailing, rest = concat blocks ++ trailing ∧ Forall2 (block_ok V) (drop (S p) xs) blocks) →
  ∃ it', next_expected_entry_and_reset exp it = Ret it' ∧ fits it' rest.
Proof.
  intros Hp Hx Hs (blocks & trailing & -> & Hb).
  destruct (next_expected_spec xs Hxs it p x Hp Hx Hs) as (x' & Hx' & ->).
  eexists. split; [done|]. by apply fits_load.
Qed.

Definition accepts (r : outcome (bool * expected_it * list Z)) (rest : list entry) : Prop :=
  ∃ it' vals', r = Ret (true, it', vals') ∧ below vals' ∧ fits it' rest.

(** An entry of the current run. *)
Lemma non_wildcard_fits page eit e it p x vals next blk blocks trailing :
  seen_as page eit e → xi_e it = Some p → exp !! p = Some x → xi_check it = ee_check x →
  ee_set x = true → ee_wild x = false → below vals → run_left x it (e :: blk) →
  Forall2 (block_ok V) (drop (S p) xs) blocks →
  accepts (_check_non_wildcard exp page eit next it vals) (blk ++ concat blocks ++ trailing).
Proof.
  intros [Ht Hpt Hsz _ _] Hp Hx Hck Hs Hw Hb Hrun Hbl. unfold _check_non_wildcard.
  rewrite Ht, Hpt, Hsz, (deref_at xs it p x Hp Hx). cbn [obind].
  destruct (lookup_set xs Hxs p x Hx Hs) as [Hok _]. unfold run_left in Hrun. rewrite Hw in Hrun.
  destruct Hrun as (Hm & Ha & Hlim & Hmost & Hfix). apply Forall_cons in Hm as [(Hty & Hsize & Hptr) Hm].
  assert (_check_type (base_type (en_type e)) x = true) as Et by by apply Z.eqb_eq.
  apply check_size_spec in Hsize as Es.
  cbv zeta. rewrite Et, Es. cbn [negb andb]. destruct (check_ptr_fits x it e vals Hok Hck Hb Hptr) as (r & vals' & -> & Hr & Hb').
  cbn [obind]. rewrite Hr. cbn [length] in Ha, Hmost.
  assert (∀ it', xi_e it' = Some p → xi_check it' = ee_check x →
    xi_atleast it' = (if 0 <? xi_atleast it then xi_atleast it - 1 else xi_atleast it) →
    (xi_atmost it = 0 ∧ xi_atmost it' = 0 ∨ 1 < xi_atmost it ∧ xi_atmost it' = xi_atmost it - 1) →
    fits it' (blk ++ concat blocks ++ trailing)) as Hstay.
  { intros it' Hp' Hc' Ha' Hm'. exists p, x. do 3 (split; [done|]). intros _. exists blk, blocks, trailing.
    split; [done|]. split; [done|]. unfold run_left. rewrite Hw. split; [done|]. rewrite Ha'.
    split; [destruct (Z.ltb_spec 0 (xi_atleast it)); lia|]. split; [lia|]. split; [lia|]. intros Hf.
    destruct (Hfix Hf). destruct (Z.ltb_spec 0 (xi_atleast it)); lia. }
  set (it1 := if 0 <? xi_atleast it then _ else it).
  assert (xi_e it1 = Some p ∧ xi_check it1 = ee_check x ∧ xi_atmost it1 = xi_atmost it ∧
    xi_atleast it1 = (if 0 <? xi_atleast it then xi_atleast it - 1 else xi_atleast it)) as (E1 & E2 & E3 & E4).
  { unfold it1. by destruct (0 <? xi_atleast it). }
  clearbody it1. rewrite E3.
  destruct (Z.eqb_spec (xi_atmost it) 0) as [Hz|Hz].
  { exists it1, vals'. do 2 (split; [done|]). apply Hstay; auto. left. by rewrite E3. }
  destruct (Z.eqb_spec (xi_atmost it) 1) as [H1|H1].
  - edestruct (fits_next (ExpectedIt (xi_atleast it1) (i32 (xi_atmost it - 1)) (xi_check it1) (xi_e it1)) p x
      (blk ++ concat blocks ++ trailing)) as (it' & -> & Hf); [done..| |by eexists _, _].
    exists blocks, trailing. split; [|done]. destruct blk; [done|]. simpl in Hmost. lia.
  - eexists _, vals'. split; [done|]. split; [done|]. apply Hstay; try done. simpl. rewrite i32_id by lia. lia.
Qed.

(** The run of an entry that may repeat ends before the next one. *)
Lemma run_over_fits page eit e rest it p x vals next blocks trailing :
  seen_as page eit e → xi_e it = Some p → exp !! p = Some x → ee_set x = true → ee_wild x = false →
  run_left x it [] → e :: rest = concat blocks ++ trailing →
  Forall2 (block_ok V) (drop (S p) xs) blocks →
  (∀ it' x', xi_e it' = Some (S p) → exp !! S p = Some x' → ee_set x' = true → fits it' (e :: rest) →
     accepts (next it' vals) rest) →
  accepts (_check_non_wildcard exp page eit (_check_next_expected exp next) it vals) rest.
Proof.
  intros [Ht Hpt Hsz _ _] Hp Hx Hs Hw Hrun E Hbl Hnext.
  unfold run_left in Hrun. rewrite Hw in Hrun. destruct Hrun as (_ & Ha & _ & _ & Hfix). simpl in Ha.
  assert (xs !! p = Some x) as Hxp.
  { apply (lookup_terminated xs Hxs) in Hx as [[_ ?]|[-> _]]; [done|discriminate Hs]. }
  destruct (definite_at xs p x Hdef Hxp) as [Hf|Hf]; [destruct (Hfix Hf); lia|].
  destruct (follows_first V x (drop (S p) xs) blocks Hf Hbl) as (e1 & es & E1 & Hty).
  pose proof E as E'. rewrite E1 in E'. injection E' as <- _.
  assert (accepts (_check_next_expected exp next it vals) rest) as Hskip.
  { unfold _check_next_expected. destruct (next_expected_spec xs Hxs it p x Hp Hx Hs) as (x' & Hx' & ->).
    cbn [obind]. rewrite (deref_at xs (load_it x' (S p)) (S p) x' eq_refl Hx'). cbn [obind].
    destruct (ee_set x') eqn:Es'; cbn [negb].
    - apply (Hnext (load_it x' (S p)) x'); [done..|]. rewrite E. by apply fits_load.
    - exfalso. apply (lookup_terminated xs Hxs) in Hx' as [[[] _]|[_ Hl]]; [congruence|].
      by rewrite drop_ge in Hf by lia. }
  unfold _check_non_wildcard. rewrite Ht, Hpt, Hsz, (deref_at xs it p x Hp Hx). cbn [obind]. cbv zeta.
  assert (xi_atleast it = 0) as -> by lia. cbn [Z.ltb Z.compare Z.eqb]. rewrite andb_false_r. unfold _check_type.
  destruct (Z.eqb_spec (base_type (en_type e)) (ee_type x)) as [Heq|]; cbn [negb]; [|done].
  destruct (is_mismatch_size _) eqn:Em; [done|]. apply check_size_spec in Em. by destruct (Hty Heq).
Qed.

Lemma wildcard_fits page eit e rest it p x vals blk blocks trailing :
  seen_as page eit e → xi_e it = Some p → exp !! p = Some x → xi_check it = ee_check x →
  ee_set x = true → ee_wild x = true → below vals → block_ok V x blk →
  e :: rest = blk ++ concat blocks ++ trailing → Forall2 (block_ok V) (drop (S p) xs) blocks →
  accepts (_check_wildcard exp page eit it vals) rest.
Proof.
  intros [Ht Hpt _ _ _] Hp Hx Hck Hs Hw Hb Hk E Hbl. unfold _check_wildcard.
  rewrite Ht, Hpt, (deref_at xs it p x Hp Hx). cbn [obind]. destruct (lookup_set xs Hxs p x Hx Hs) as [Hok _].
  unfold block_ok in Hk. rewrite Hw in Hk. destruct Hk as (sk & e' & -> & Hsk & Hty & Hptr).
  destruct sk as [|e1 sk]; cbn [app] in E; injection E as -> ->.
  - assert (_check_type (base_type (en_type e')) x = true) as -> by by apply Z.eqb_eq. cbn [negb].
    destruct (check_ptr_fits x it e' vals Hok Hck Hb Hptr) as (r & vals' & -> & Hr & Hb'). cbn [obind]. rewrite Hr.
    destruct (fits_next it p x (concat blocks ++ trailing)) as (it' & -> & Hf); [done..|by exists blocks, trailing|].
    by exists it', vals'.
  - apply Forall_cons in Hsk as [Hne Hsk].
    assert (_check_type (base_type (en_type e1)) x = false) as -> by by apply Z.eqb_neq. cbn [negb].
    exists it, vals. split; [done|]. split; [done|]. exists p, x. do 3 (split; [done|]). intros _.
    exists (sk ++ [e']), blocks, trailing. split; [done|]. split; [done|]. unfold run_left, block_ok.
    rewrite Hw. by exists sk, e'.
Qed.

(** One entry that the rest of the expected trace accounts for; one unit of fuel per
    remaining expected entry is enough. *)
Lemma check_entry_fits fuel : ∀ page eit e rest it p x vals,
  seen_as page eit e → xi_e it = Some p → exp !! p = Some x → ee_set x = true → below vals →
  (length exp < fuel + p)%nat → fits it (e :: rest) → accepts (_check_entry fuel exp page eit it vals) rest.
Proof.
  induction fuel as [|fuel IH]; intros page eit e rest it p x vals Hse Hp Hx Hs Hb Hfuel Hfit.
  { apply lookup_lt_Some in Hx. lia. }
  destruct Hfit as (p0 & x0 & Hp0 & Hx0 & Hck & Hf). simplify_eq.
  destruct (Hf Hs) as (blk & blocks & trailing & E & Hbl & Hrun). clear Hf.
  cbn [_check_entry]. rewrite (deref_at xs it p x Hp Hx). cbn [obind]. destruct (ee_wild x) eqn:Hw; cbn [negb].
  - unfold run_left in Hrun. rewrite Hw in Hrun. by eapply wildcard_fits.
  - destruct blk as [|e1 blk].
    + eapply run_over_fits; try done. intros it' x' Hp' Hx' Hs' Hf'. eapply IH; try done. lia.
    + cbn [app] in E. injection E as -> ->. by eapply non_wildcard_fits.
Qed.

(** At the end of the trace nothing is missing. *)
Lemma fits_nil it : fits it [] → ∃ p x, xi_e it = Some p ∧ exp !! p = Some x ∧ ee_set x = false.
Proof.
  intros (p & x & Hp & Hx & _ & Hf). exists p, x. do 2 (split; [done|]).
  destruct (ee_set x) eqn:Hs; [|done]. exfalso. destruct (Hf eq_refl) as (blk & blocks & tr & E & Hbl & Hrun).
  symmetry in E. apply app_eq_nil in E as [-> E]. apply app_eq_nil in E as [E _].
  unfold run_left, block_ok in Hrun. destruct (ee_wild x) eqn:Hw.
  { destruct Hrun as ([|? ?] & ? & ? & _); done. }
  destruct Hrun as (_ & Ha & _ & _ & Hfix). simpl in Ha.
  apply (lookup_terminated xs Hxs) in Hx as [[_ Hx]|[-> _]]; [|done].
  destruct (definite_at xs p x Hdef Hx) as [Hfx|Hfx]; [destruct (Hfix Hfx); lia|].
  destruct (follows_first V x _ _ Hfx Hbl) as (e & es & E1 & _). congruence.
Qed.
End Matching.

Lemma conforms_some xs : xs ≠ [] → definite xs = true → Forall expected_ok xs → ¬ conforms V xs [].
Proof.
  intros Hne Hd Hxs (blocks & tr & E & Hb). destruct xs as [|x xs]; [done|].
  assert (tr = []) as -> by (symmetry in E; by apply app_eq_nil in E as [_ ?]).
  destruct (fits_nil (x :: xs) Hxs Hd (load_it x 0)) as (p & y & Hp & Hy & Hs).
  { rewrite E. by apply (fits_load (x :: xs) Hxs 0 x blocks []). }
  injection Hp as <-. injection Hy as <-. apply Forall_cons in Hxs as [[Hset _ _ _ _ _] _]. congruence.
Qed.
(** ** One page *)

(** The indices still to come ascend from [prev]. *)
Definition ascending_from (prev : Z) (idxs : list Z) : Prop :=
  StronglySorted Z.lt (valid_indices idxs) ∧ after prev (valid_indices idxs).

Lemma ascending_accepts prev i idxs set w :
  set_ok set → index_range i → w_faults w = [] → ascending_from prev (i :: idxs) →
  ∃ prev' set', check_ascending_generic prev i set w = Ret (true, prev', set', w) ∧ set_ok set' ∧
    ascending_from prev' idxs.
Proof.
  intros Hok Hi Hw. unfold ascending_from, valid_indices, check_ascending_generic.
  destruct (Z.eqb_spec i INVALID_INDEX) as [->|Hne]; cbn [negb].
  { rewrite filter_cons_False by (intros H; by apply H). by exists prev, set. }
  rewrite filter_cons_True by done. intros [Hs Ha]. apply StronglySorted_inv in Hs as [Hs Hall].
  assert (negb (prev =? UINT64_MAX) && (i <=? prev) = false) as ->.
  { apply andb_false_iff. rewrite negb_false_iff, Z.eqb_eq, Z.leb_gt.
    destruct Ha as [?|Ha]; [by left|right]. by apply Forall_cons in Ha as [? _]. }
  destruct Hi as [Hi|]; [|done].
  destruct (insert_spec set i w Hok Hi) as (ok & set1 & w1 & -> & Hins & Hnf).
  destruct (Hnf Hw) as [-> ->]. cbn [obind]. exists i, set1. split; [done|]. split; [apply Hins|].
  split; [done|by right].
Qed.

Definition fits_at (o : option (list expected_entry)) (it : expected_it) (rest : list entry) : Prop :=
  match o with Some xs => fits xs it rest | None => xi_e it = None end.

Definition definite_trace (o : option (list expected_entry)) : Prop :=
  match o with Some xs => xs ≠ [] ∧ definite xs = true | None => True end.

Lemma match_step_fits o page eit e rest it vals failed :
  trace_wf o → definite_trace o → seen_as page eit e → below vals → fits_at o it (e :: rest) →
  ∃ it' vals', match_step (default [] (array o)) page eit it vals failed = Ret (it', vals', failed) ∧
    below vals' ∧ fits_at o it' rest.
Proof.
  intros Ho Hd Hse Hb Hf. unfold match_step. destruct o as [xs|]; simpl in Hf.
  2: { rewrite Hf. by exists it, vals. }
  change (default [] (array (Some xs))) with (terminated xs). destruct Hd as [_ Hd].
  pose proof Hf as (p & x & Hp & Hx & Hc & _). rewrite Hp, (deref_at xs it p x Hp Hx). cbn [obind].
  destruct (ee_set x) eqn:Es; cbn [negb].
  - destruct (check_entry_fits xs Ho Hd (S (length (terminated xs))) page eit e rest it p x vals)
      as (it' & vals' & -> & Hb' & Hf'); try done; [lia|].
    cbn [obind]. exists it', vals'. by rewrite orb_false_r.
  - exists it, vals. do 2 (split; [done|]). exists p, x. do 3 (split; [done|]). congruence.
Qed.

(** The loop can accept [es], the rest of the page, and [rest], the thread's later
    entries. *)
Record ready (o : option (list expected_entry)) (ls : loop_state) (es rest : list entry) : Prop := {
  re_failed : ls_failed ls = false;
  re_vals : below (ls_vals ls);
  re_set_alloc : set_ok (ls_alloc ls);
  re_set_atomic : set_ok (ls_atomic ls);
  re_alloc : ascending_from (ls_prev_alloc ls) (alloc_indices es);
  re_atomic : ascending_from (ls_prev_atomic ls) (atomic_indices es);
  re_fits : fits_at o (ls_it ls) (es ++ rest);
}.

Definition callbacks_pass (cbs : list entry_callback) : Prop :=
  Forall (fun cb : entry_callback => ∀ page buf md, cb page buf md = true) cbs.

Lemma callbacks_pass_fold cbs page buf md :
  callbacks_pass cbs → foldl (fun f cb => f || negb (cb page buf md)) false cbs = false.
Proof. induction 1 as [|cb cbs H _ IH]; [done|]. simpl. by rewrite H. Qed.

Section Page.
Context `{B : BuildInfo, !BuildInfoOk B}.
Context (o : option (list expected_entry)) (Ho : trace_wf o) (Hd : definite_trace o).
Context (cbs : list entry_callback) (Hcbs : callbacks_pass cbs) (md : Z) (w : world) (Hw : w_faults w = []).

Lemma close_step_fits page eit e es rest ls :
  entry_ok e → seen_as page eit e → ready o ls (e :: es) rest →
  ∃ ls', close_step cbs (default [] (array o)) md page eit ls w = Ret (ls', w) ∧ ready o ls' es rest.
Proof.
  intros (_ & Hal & Hat) Hse [Hf Hv Hs1 Hs2 Ha Ht Hfit]. unfold close_step.
  rewrite (se_alloc _ _ _ Hse). cbn [obind].
  destruct (ascending_accepts _ _ _ (ls_alloc ls) w Hs1 Hal Hw Ha) as (pa & sa & -> & Hsa & Ha').
  cbn [obind]. rewrite (se_atomic _ _ _ Hse). cbn [obind].
  destruct (ascending_accepts _ _ _ (ls_atomic ls) w Hs2 Hat Hw Ht) as (pt & st & -> & Hst & Ht').
  cbn [obind]. rewrite Hf. cbn [negb orb]. rewrite callbacks_pass_fold by done.
  destruct (match_step_fits o page eit e (es ++ rest) (ls_it ls) (ls_vals ls) false Ho Hd Hse Hv Hfit)
    as (it' & vals' & -> & Hv' & Hf'). cbn [obind]. by eexists.
Qed.

Lemma close_loop_fits es : ∀ fuel pre post n ls rest,
  Forall entry_ok es → n = len (encode_all es) → n < 2 ^ 63 → n / 8 < Z.of_nat fuel →
  ready o ls es rest →
  ∃ ls', close_loop fuel cbs (default [] (array o)) md (pre ++ encode_all es ++ post)
      (EntryIt (len pre) n) ls w = Ret (ls', w) ∧ ready o ls' [] rest.
Proof.
  induction es as [|e es IH]; intros [|fuel] pre post n ls rest Hes Hn Hb Hf Hls;
    try (pose proof (Z.div_pos n 8); lia).
  - simpl in *. subst n. cbn [close_loop]. by exists ls.
  - apply Forall_cons in Hes as [He Hes]. cbn [encode_all] in *. rewrite length_app in Hn.
    rewrite <- app_assoc.
    destruct (iter_step_encode e pre (encode_all es ++ post) n (proj1 He)) as (H8 & Hnx & Had); [lia|].
    cbn [close_loop]. rewrite Hnx. cbn [obind negb].
    destruct (close_step_fits (pre ++ encode_entry e ++ encode_all es ++ post) (EntryIt (len pre) n)
      e es rest ls He) as (ls1 & -> & Hls1); [by apply seen_encode, He|done|].
    cbn [obind]. rewrite Had. cbn [obind].
    destruct (IH fuel (pre ++ encode_entry e) post (n - len (encode_entry e)) ls1 rest)
      as (ls' & E & Hls'); [done|lia|lia|apply fuel_step; lia|done|].
    rewrite <- app_assoc in E. rewrite E. by exists ls'.
Qed.

Lemma close_page_fits c rest ls :
  closing_ok c → ready o ls (cg_entries c) rest → md = Z.of_nat (cg_tid c) →
  ∃ ls', close_loop (S (Z.to_nat (cg_size c / 8))) cbs (default [] (array o))
      md (cg_page c) (iter_init 0 (cg_size c)) ls w = Ret (ls', w) ∧ ready o ls' [] rest.
Proof.
  intros [_ Hpage Hsz Hb He] Hls _. unfold frag_bytes in *.
  pose proof length_header_bytes as Hh. rewrite length_app in Hsz.
  rewrite <- (take_drop (Z.to_nat (cg_size c)) (cg_page c)), Hpage, <- app_assoc.
  unfold iter_init, sizeof_version_header. rewrite u64_id by ulia.
  replace (0 + 8) with (len header_bytes) by lia.
  apply close_loop_fits; [done|lia|lia| |done].
  assert ((cg_size c - 8) / 8 <= cg_size c / 8) by (apply Z.div_le_mono; lia).
  pose proof (Z.div_pos (cg_size c) 8). lia.
Qed.
End Page.

(** ** A whole run *)

Section Run.
Context `{B : BuildInfo, !BuildInfoOk B}.
Context (R : list (option (list expected_entry))) (HRd : Forall definite_trace R).
Context (w : world) (Hw : w_faults w = []).

(** The checker can accept the pages still to come. *)
Record awaits (ck : checker) (cs : list closing) : Prop := {
  aw_failed : ck_failed ck = false;
  aw_callbacks : callbacks_pass (ck_callbacks ck);
  aw_vals : below (ck_vals ck);
  aw_its : ∀ t xs it, R !! t = Some (Some xs) → ck_its ck !! t = Some it →
    match xi_e it with
    | Some _ => fits xs it (entries_of t cs)
    | None => conforms V xs (entries_of t cs)
    end;
}.

Definition page_ordered (c : closing) : Prop :=
  StronglySorted Z.lt (valid_indices (alloc_indices (cg_entries c))) ∧
  StronglySorted Z.lt (valid_indices (atomic_indices (cg_entries c))).

Lemma entries_of_cons t c cs :
  entries_of t (c :: cs) = (if decide (cg_tid c = t) then cg_entries c else []) ++ entries_of t cs.
Proof. done. Qed.

(** The iterator a page starts with. *)
Lemma init_fits o it es :
  trace_wf o → xi_e it = None ∨ it_at o it →
  match o, xi_e it with
  | Some xs, Some _ => fits xs it es
  | Some xs, None => conforms V xs es
  | None, _ => True
  end →
  ∃ it0, match xi_e it, array o with
         | None, Some e => init_expected_entry_iterator e
         | _, _ => Ret it
         end = Ret it0 ∧ fits_at o it0 es.
Proof.
  intros Ho Hit Hf. destruct o as [xs|]; simpl.
  2: { exists it. split; [by destruct (xi_e it)|]. by destruct Hit. }
  destruct (xi_e it) as [p|]; [by exists it|]. destruct Hf as (blocks & tr & -> & Hb).
  destruct (lookup_lt_is_Some_2 (terminated xs) 0) as [x Hx].
  { unfold terminated. rewrite length_app. simpl. lia. }
  exists (load_it x 0). unfold init_expected_entry_iterator. rewrite Hx. split; [done|].
  by apply (fits_load xs Ho 0 x blocks tr).
Qed.

Lemma close_fits c ck cs :
  closing_ok c → page_ordered c → checker_ok R ck → awaits ck (c :: cs) →
  ∃ ck', checker_writer_close ck (cg_page c) (cg_size c) (Z.of_nat (cg_tid c)) w = Ret (ck', w) ∧
    awaits ck' cs.
Proof.
  intros Hc [Ho1 Ho2] [HR Hwf Hexp Hvals Hil Hits Hs1 Hs2] [Hnf Hcb Hb Haw]. unfold checker_writer_close.
  pose proof (cg_ok_size _ Hc) as Hsz. pose proof (cg_ok_tid _ Hc) as Htid. unfold MAX_NTHREADS in Htid.
  unfold frag_bytes in Hsz. rewrite length_app, length_header_bytes in Hsz.
  destruct (Z.eqb_spec (cg_size c) 0); [lia|]. rewrite validate_page by done. cbn [obind].
  destruct (Z.ltb_spec (Z.of_nat (cg_tid c)) 0); [lia|]. rewrite Nat2Z.id, Hexp, list_lookup_fmap.
  destruct (lookup_lt_is_Some_2 R (cg_tid c)) as [o Ho]; [lia|].
  destruct (lookup_lt_is_Some_2 (ck_its ck) (cg_tid c)) as [it Hit]; [lia|].
  rewrite Ho, Hit. cbn [fmap option_fmap option_map or_undef obind].
  assert (trace_wf o) as Hto by (by eapply Forall_lookup_1).
  assert (definite_trace o) as Hdo by exact (Forall_lookup_1 _ _ _ _ HRd Ho).
  destruct (init_fits o it (cg_entries c ++ entries_of (cg_tid c) cs) Hto (Hits _ _ _ Ho Hit))
    as (it0 & -> & Hit0).
  { destruct o as [xs|]; [|done]. specialize (Haw _ _ _ Ho Hit). rewrite entries_of_cons in Haw.
    by rewrite decide_True in Haw. }
  cbn [obind].
  destruct (close_page_fits o Hto Hdo (ck_callbacks ck) Hcb (Z.of_nat (cg_tid c)) w Hw c
    (entries_of (cg_tid c) cs)
    (LoopState UINT64_MAX UINT64_MAX (ck_alloc ck) (ck_atomic ck) it0 (ck_vals ck) (negb true)))
    as (ls & -> & [Hf' Hb' _ _ _ _ Hfit]); [done| |done|].
  { split; try done; (split; [done|by left]). }
  cbn [obind]. eexists. split; [done|]. split; cbn [ck_failed ck_callbacks ck_vals ck_its]; [by rewrite Hnf, Hf'|done|done|].
  intros t xs it' Ht Hit'. destruct (decide (cg_tid c = t)) as [<-|Hne].
  - rewrite list_lookup_insert_eq in Hit' by lia. simplify_eq. simpl in Hfit.
    pose proof Hfit as (p & x & Hp & _). by rewrite Hp.
  - rewrite list_lookup_insert_ne in Hit' by done. specialize (Haw _ _ _ Ht Hit').
    rewrite entries_of_cons in Haw. by rewrite decide_False in Haw.
Qed.

Lemma run_closings_fits cs : ∀ ck,
  Forall closing_ok cs → Forall page_ordered cs → checker_ok R ck → awaits ck cs →
  ∃ ck', run_closings ck cs w = Ret (ck', w) ∧ awaits ck' [].
Proof.
  induction cs as [|c cs IH]; intros ck Hcs Hord Hck Haw; cbn [run_closings]; [by exists ck|].
  apply Forall_cons in Hcs as [Hc Hcs]. apply Forall_cons in Hord as [Ho Hord].
  destruct (close_fits c ck cs Hc Ho Hck Haw) as (ck1 & E & Haw1).
  destruct (close_spec R c ck [] w Hc Hck) as (ck1' & w1 & E' & Hck1 & _); [constructor|].
  rewrite E in E'. injection E' as <- <-. rewrite E. cbn [obind]. by apply IH.
Qed.

(** Every thread with an expected trace has reached its end. *)
Lemma check_empty_fits n : ∀ tid ck ret,
  (tid + n = 128)%nat → checker_ok R ck → awaits ck [] →
  check_empty_loop n tid ck ret = Ret (ck, ret).
Proof.
  induction n as [|n IH]; intros tid ck ret Hn Hck Haw; cbn [check_empty_loop]; [done|].
  rewrite (co_expected _ _ Hck), list_lookup_fmap.
  destruct (lookup_lt_is_Some_2 R tid) as [o Ho]; [rewrite (co_len _ _ Hck); lia|].
  destruct (lookup_lt_is_Some_2 (ck_its ck) tid) as [it Hit]; [rewrite (co_its_len _ _ Hck); lia|].
  rewrite Ho. destruct o as [xs|]; cbn [fmap option_fmap option_map array]; [|done].
  rewrite Hit. cbn [or_undef obind]. pose proof (aw_its _ _ Haw tid xs it Ho Hit) as Hf.
  change (entries_of tid []) with (@nil entry) in Hf.
  assert (Forall expected_ok xs) as Hxs by exact (Forall_lookup_1 _ _ _ _ (co_wf _ _ Hck) Ho).
  assert (xs ≠ [] ∧ definite xs = true) as [Hne Hdef] by exact (Forall_lookup_1 _ _ _ _ HRd Ho).
  destruct (xi_e it) as [q|] eqn:Ep; [|by destruct (conforms_some xs Hne Hdef Hxs Hf)].
  destruct (fits_nil xs Hxs Hdef it Hf) as (p & x & Hp & Hx & Hs).
  cbn [skip_optional]. rewrite (deref_at xs it p x Hp Hx). cbn [obind]. rewrite Hs. cbn [andb obind].
  rewrite (deref_at xs it p x Hp Hx). cbn [obind]. rewrite Hs, list_insert_id by done.
  rewrite <- (co_expected _ _ Hck). replace (CheckerState _ _ _ _ _ _ _ _) with ck by (by destruct ck). apply IH; [lia|done..].
Qed.
End Run.
End Exact.

(** What registration leaves for the variables. *)
Lemma registered_below V R ck :
  registered R ck →
  below V (ck_vals ck) ∨ (below (ck_vals ck) (ck_vals ck) ∧ ∀ t xs, R !! t ≠ Some (Some xs)).
Proof.
  induction 1 as [|R ck tid xs ck' _ IH Hxs E|R ck cb _ IH].
  - right. split; [split; [done|by right]|]. intros t xs H. by apply lookup_replicate in H as [? _].
  - left. unfold register_expected_trace in E. case_match; simplify_eq. cbn [ck_vals]. split; [done|].
    intros k v [-> _]%lookup_replicate. by left.
  - done.
Qed.

Lemma registered_its R ck : registered R ck → ck_its ck = replicate 128 null_it.
Proof.
  induction 1 as [|R ck tid xs ck' _ IH _ E|R ck cb _ IH]; [done| |done].
  unfold register_expected_trace in E. case_match; by simplify_eq.
Qed.

Section Verdict.
Context `{B : BuildInfo, !BuildInfoOk B}.

(** The specification of a test: the entries of every thread conform to its expected
    trace for one binding of the variables, and the indices are in order. *)
Definition conforming (R : list (option (list expected_entry))) (cs : list closing) : Prop :=
  (∃ vals, ∀ t xs, R !! t = Some (Some xs) → conforms vals xs (entries_of t cs)) ∧
  Forall page_ordered cs ∧
  (∀ i j, i ∈ indices_of alloc_indices cs → 0 <= j < i → j ∈ indices_of alloc_indices cs) ∧
  (∀ i j, i ∈ indices_of atomic_indices cs → 0 <= j < i → j ∈ indices_of atomic_indices cs).

(** The final search for gaps in a set that has gained the indices of the pages. *)
Lemma not_seen_complete set idxs cs :
  set_ok set → set_gained set idxs cs →
  (∀ i j, i ∈ indices_of idxs cs → 0 <= j < i → j ∈ indices_of idxs cs) →
  ∃ set', check_not_seen_generic_indexes set = Ret (true, set').
Proof.
  intros Hok [_ Hg] Hall. destruct (not_seen_spec set Hok) as (r & E & Hr). exists empty_set.
  rewrite E. do 2 f_equal. apply Hr. intros j Hj. apply Hg.
  destruct (so_top _ Hok) as [[_ Hz]|Ht]; [lia|]. apply (Hall (max_idx set)); [by apply Hg|done].
Qed.

Lemma conforming_passes R ck cs final w :
  registered R ck → Forall definite_trace R → Forall closing_ok cs →
  callbacks_pass (ck_callbacks ck) → final ≠ Some false → w_faults w = [] → conforming R cs →
  ∃ ck1 ck2, run_closings ck cs w = Ret (ck1, w) ∧ checker_main_thread_fini ck1 final = Ret (ck2, true).
Proof.
  intros Hreg HRd Hcs Hcb Hfin Hw ([V HV] & Hord & Ha & Ht).
  pose proof (registered_ready R ck Hreg) as (Hck & Hf & Hk).
  assert (∃ V, awaits V R ck cs) as [V' Haw].
  { pose proof (registered_its R ck Hreg) as Hits.
    assert (∀ V, (∀ t xs, R !! t = Some (Some xs) → conforms V xs (entries_of t cs)) →
      below V (ck_vals ck) → awaits V R ck cs) as Hstart.
    { intros V1 H1 Hb. split; [done..|]. intros t xs it Ht1 Hit. rewrite Hits in Hit.
      apply lookup_replicate in Hit as [-> _]. by apply H1. }
    destruct (registered_below V R ck Hreg) as [Hb|[Hb Hno]]; [exists V; by apply Hstart|].
    exists (ck_vals ck). apply Hstart; [|done]. intros t xs Ht1. by apply Hno in Ht1. }
  destruct (run_closings_fits V' R HRd w Hw cs ck Hcs Hord Hck Haw) as (ck1 & E & Haw1).
  destruct (run_closings_spec R cs [] ck w) as (ck1' & w1 & E' & Hck1 & Hrun); [constructor|done|done|].
  rewrite E in E'. injection E' as <- <-. destruct (Hrun (aw_failed _ _ _ _ Haw1)) as [_ Hkn].
  destruct (Hkn Hk) as [_ Hk1 Hk2]. cbn [app] in *.
  exists ck1. unfold checker_main_thread_fini, check_empty_expected_trace.
  rewrite (check_empty_fits V' R HRd) by done. cbn [obind].
  destruct (not_seen_complete _ _ _ (co_alloc _ _ Hck1) Hk1 Ha) as [sa ->]. cbn [obind].
  destruct (not_seen_complete _ _ _ (co_atomic _ _ Hck1) Hk2 Ht) as [st ->]. cbn [obind].
  eexists. split; [done|]. rewrite (aw_failed _ _ _ _ Haw1).
  destruct final as [[]|]; done.
Qed.
(** The traces a test registers: without a gap in the thread numbers, and definite. *)
Definition definite_test (R : list (option (list expected_entry))) : Prop :=
  ∀ t xs, R !! t = Some (Some xs) → in_sequence R 1 t ∧ xs ≠ [] ∧ definite xs = true.

Lemma definite_test_all R : definite_test R → Forall definite_trace R.
Proof.
  intros H. apply Forall_lookup_2. intros t [xs|] Ht; [|done]. by destruct (H t xs Ht) as (_ & ? & ?).
Qed.

(** C10: the verdict of the checker is exact.  Let a test register, for threads
    numbered from 1 without a gap, expected traces in which every entry either has a
    fixed count or is followed, up to one that has to occur, by entries that differ
    from it in type or size; let its callbacks accept and no allocation of the checker
    fail.  Then for any pages, closed in any interleaving, the checker says TEST PASSED
    if and only if there is one binding of the pointer variables under which the
    entries of every thread conform to its expected trace, the indices of both kinds
    ascend on every page, and none is missing. *)
Theorem verdict_exact R ck cs final w :
  registered R ck → definite_test R → Forall closing_ok cs →
  callbacks_pass (ck_callbacks ck) → final ≠ Some false → w_faults w = [] →
  ∃ ck1 w' ck2 verdict,
    run_closings ck cs w = Ret (ck1, w') ∧
    checker_main_thread_fini ck1 final = Ret (ck2, verdict) ∧
    (verdict = true ↔ conforming R cs).
Proof.
  intros Hreg HR Hcs Hcb Hfin Hw.
  destruct (verdict_total R ck cs final w Hreg Hcs) as (ck1 & w' & ck2 & v & E1 & E2 & Hv).
  exists ck1, w', ck2, v. do 2 (split; [done|]). split.
  - intros Hpass. destruct (Hv Hpass) as (vals & Hc & Ha & Ht & Hgaps). split; [|split; [|done]].
    + exists vals. intros t xs Ht1. apply Hc; [by apply (HR t xs)|done].
    + apply Forall_and. by split.
  - intros Hconf.
    destruct (conforming_passes R ck cs final w) as (c1 & c2 & E1' & E2'); try done; [by apply definite_test_all|].
    rewrite E1 in E1'. injection E1' as <- _. rewrite E2 in E2'. by injection E2' as _ <-.
Qed.
End Verdict.

Section Demo.
#[local] Existing Instance demo_build.
#[local] Existing Instance demo_build_ok.

(** The expected trace of test/trace_lock_unlock.c. *)
Definition lock_expected : list expected_entry :=
  [EXPECT_SUFFIX COLDTRACE_TEST_MARKER; EXPECT_SOME COLDTRACE_ALLOC 0 1; EXPECT_SOME COLDTRACE_FREE 0 1;
   EXPECT_SOME COLDTRACE_WRITE 0 1; EXPECT_VALUE COLDTRACE_LOCK_ACQUIRE 0;
   EXPECT_VALUE COLDTRACE_LOCK_RELEASE 0; EXPECT_SUFFIX COLDTRACE_THREAD_EXIT].

Definition lock_checker : checker :=
  default checker0 (register_expected_trace checker0 1 (terminated lock_expected)).

Definition lock_entries (released : Z) : list entry :=
  [Entry COLDTRACE_FENCE 0 [0] None; Entry COLDTRACE_TEST_MARKER 0 [] None;
   Entry COLDTRACE_LOCK_ACQUIRE 0x7f10 [1] None; Entry COLDTRACE_LOCK_RELEASE released [2] None;
   Entry COLDTRACE_THREAD_EXIT 0 [3] None].

Definition lock_closing (released : Z) : closing :=
  Closing 1 (frag_bytes (lock_entries released)) (len (frag_bytes (lock_entries released))) (lock_entries released).

Lemma lock_registered : registered (<[1%nat := Some lock_expected]> (replicate 128 None)) lock_checker.
Proof.
  apply (reg_trace (replicate 128 None) checker0 1 lock_expected); [apply reg_none| |done].
  repeat apply Forall_cons_2; try apply Forall_nil_2; (split; simpl; try done; try lia;
    try (by left); right; unfold MAX_ENTRY_VALUES; lia).
Qed.

Lemma lock_closing_ok released : 0 <= released < 2 ^ 48 → closing_ok (lock_closing released).
Proof.
  intros Hr. split; try done.
  repeat apply Forall_cons_2; try apply Forall_nil_2; (split; [split|split]);
    cbn [en_type en_ptr en_fields en_stack]; try done;
    try (apply Forall_singleton; unfold is_u64; lia); try (right; reflexivity);
    try lia; left; split; vm_compute; first [reflexivity|discriminate].
Qed.

(** The lock that is acquired has to be released: the verdict is exact for both
    runs, and they differ. *)
Lemma verdict_exact_witness :
  conforming (<[1%nat := Some lock_expected]> (replicate 128 None)) [lock_closing 0x7f10] ∧
  ¬ conforming (<[1%nat := Some lock_expected]> (replicate 128 None)) [lock_closing 0x7f18].
Proof.
  assert (∀ released, 0 <= released < 2 ^ 48 → ∃ ck1 w' ck2 verdict,
    run_closings lock_checker [lock_closing released] (World ∅ [] []) = Ret (ck1, w') ∧
    checker_main_thread_fini ck1 None = Ret (ck2, verdict) ∧
    (verdict = true ↔ conforming (<[1%nat := Some lock_expected]> (replicate 128 None)) [lock_closing released])) as H.
  { intros released Hr. apply verdict_exact; [apply lock_registered| | |constructor|done|done].
    - intros t xs Ht. destruct (decide (t = 1%nat)) as [->|Hne].
      + rewrite list_lookup_insert_eq in Ht by (simpl; lia). injection Ht as <-. split; [|by split].
        split; [done|]. intros u Hu. replace u with 1%nat by lia. by exists lock_expected.
      + rewrite list_lookup_insert_ne in Ht by done. by apply lookup_replicate in Ht as [? _].
    - by apply Forall_singleton, lock_closing_ok. }
  split.
  - destruct (H 0x7f10) as (ck1 & w' & ck2 & v & E1 & E2 & Hv); [lia|]. apply Hv.
    assert ((let! (ck, _) := run_closings lock_checker [lock_closing 0x7f10] (World ∅ [] []) in
      let! (_, v) := checker_main_thread_fini ck None in Ret v) = Ret true) as E by (vm_compute; reflexivity).
    rewrite E1 in E. cbn [obind] in E. rewrite E2 in E. by injection E.
  - destruct (H 0x7f18) as (ck1 & w' & ck2 & v & E1 & E2 & Hv); [lia|]. rewrite <- Hv. intros ->.
    assert ((let! (ck, _) := run_closings lock_checker [lock_closing 0x7f18] (World ∅ [] []) in
      let! (_, v) := checker_main_thread_fini ck None in Ret v) = Ret false) as E by (vm_compute; reflexivity).
    rewrite E1 in E. cbn [obind] in E. rewrite E2 in E. by injection E.
Defined.
End Demo.
