(* ===== verification/Recorder.v ===== *)
(** * The recorder a thread implements

    The abstract machine behind thread.c and writer.c: a call stack, the events
    handed over so far, the events of the current fragment, and two flags for
    the ways recording can stop.  Every run of the concrete functions is a run of
    this machine. *)

From stdpp Require Import base list numbers strings gmap.
From Stdlib Require Import ZArith Lia.
From S2P Require Import Prelude Version Entries Libc Utils Config Codec Lz4 Writer Thread Trace.

(** The calls the subscribers make on a thread. *)
Inductive op :=
| OLog (type ptr : Z) (fields : list Z)
| OPush (caller : Z)
| OPop
| OSetCreate (idx : Z)
| OInit
| OFini.

Record recorder := Recorder {
  re_stack : list Z;
  re_closed : list event;
  re_cur : list event;
  re_stuck : bool;    (* the shadow stack could not grow *)
  re_mute : bool;     (* the writer failed or is finished *)
}.

Definition recorder0 : recorder := Recorder [] [] [] false false.

Definition event_on (st : list Z) (type ptr : Z) (fields : list Z) : event :=
  Event type (ptr mod 2 ^ 48) fields (if with_stack_ type then Some st else None).

(** The specification: a log extends the current fragment, or closes it first,
    or closes it and silences the recorder; a recorder that is stuck or mute
    logs nothing; initialising again discards what was not handed over. *)
Inductive spec_step : op → recorder → recorder → Prop :=
| sp_log st cl cu ty p fs :
    spec_step (OLog ty p fs) (Recorder st cl cu false false)
      (Recorder st cl (cu ++ [event_on st ty p fs]) false false)
| sp_rotate st cl cu ty p fs :
    spec_step (OLog ty p fs) (Recorder st cl cu false false)
      (Recorder st (cl ++ cu) [event_on st ty p fs] false false)
| sp_log_fail st cl cu ty p fs :
    spec_step (OLog ty p fs) (Recorder st cl cu false false)
      (Recorder st (cl ++ cu) [] false true)
| sp_log_off st cl cu k m ty p fs : k || m = true →
    spec_step (OLog ty p fs) (Recorder st cl cu k m) (Recorder st cl cu k m)
| sp_push st cl cu m a :
    spec_step (OPush a) (Recorder st cl cu false m) (Recorder (st ++ [u64 a]) cl cu false m)
| sp_push_fail st cl cu m a :
    spec_step (OPush a) (Recorder st cl cu false m) (Recorder st cl cu true m)
| sp_push_stuck st cl cu m a :
    spec_step (OPush a) (Recorder st cl cu true m) (Recorder st cl cu true m)
| sp_pop st cl cu m :
    spec_step OPop (Recorder st cl cu false m) (Recorder (take (length st - 1) st) cl cu false m)
| sp_pop_stuck st cl cu m :
    spec_step OPop (Recorder st cl cu true m) (Recorder st cl cu true m)
| sp_set_create a i : spec_step (OSetCreate i) a a
| sp_init st cl cu k m :
    spec_step OInit (Recorder st cl cu k m) (Recorder st cl [] k false)
| sp_fini st cl cu k m :
    spec_step OFini (Recorder st cl cu k m) (Recorder [] (cl ++ cu) [] k true).

Inductive spec_run : list op → recorder → recorder → Prop :=
| sr_nil a : spec_run [] a a
| sr_cons o os a b d : spec_step o a b → spec_run os b d → spec_run (o :: os) a d.

Section Recorder.
Context `{B : BuildInfo, L : Lz4} (junk : nat → Z).

(** The concrete calls. *)
Definition exec (c : config) (md : Z) (o : op) (s : coldtrace_thread * world) :
    outcome (coldtrace_thread * world) :=
  let '(th, w) := s in
  match o with
  | OLog type ptr fields =>
      let! (r, w) := log_entry junk c md th w type ptr fields in Ret (r.2, w)
  | OPush a => coldtrace_thread_stack_push junk md th w a
  | OPop => Ret (coldtrace_thread_stack_pop md th, w)
  | OSetCreate i => Ret (coldtrace_thread_set_create_idx md th i, w)
  | OInit => Ret (coldtrace_thread_init md th, w)
  | OFini => coldtrace_thread_fini c md th w
  end.

Fixpoint run (c : config) (md : Z) (os : list op) (s : coldtrace_thread * world) :
    outcome (coldtrace_thread * world) :=
  match os with
  | [] => Ret s
  | o :: os => let! s := exec c md o s in run c md os s
  end.

Definition op_ok (o : op) : Prop :=
  match o with OLog type _ fields => request_ok type fields | _ => True end.

Definition muted (th : coldtrace_thread) : Prop := th_initd th = true ∧ dead (th_writer th).

(** The simulation relation. *)
Definition implements (s : coldtrace_thread * world) (a : recorder) : Prop :=
  ∃ frags cur, trace_ok s.1 s.2 frags cur ∧
    re_stack a = stack_of s.1 ∧ re_closed a = closed_events frags ∧
    re_cur a = replay [] cur ∧ re_stuck a = th_failed s.1 ∧
    (re_mute a = true ↔ muted s.1).

Context `{!Lz4Laws L}.

Lemma muted_get md th : muted (get_coldtrace_thread md th) ↔ muted th.
Proof.
  unfold muted, get_coldtrace_thread. destruct (th_initd th) eqn:E; simpl; [by rewrite E|].
  split; [|intros [? _]; congruence]. intros [_ (_ & _ & [H|H])]; done.
Qed.

Lemma muted_same md th th' :
  th_writer th' = th_writer (get_coldtrace_thread md th) → th_initd th' = true →
  muted th' ↔ muted th.
Proof.
  intros Hw Hi. rewrite <- (muted_get md th). unfold muted. rewrite Hw, Hi.
  unfold get_coldtrace_thread. destruct (th_initd th) eqn:E; simpl; [by rewrite E|done].
Qed.

Lemma reserve_dead c i w n :
  dead i → coldtrace_writer_reserve junk c i w n = Ret (None, i, w).
Proof.
  intros (_ & _ & Hd). unfold coldtrace_writer_reserve, ensure_buffer_.
  destruct (wi_initd i); simpl; [|done]. by destruct Hd as [->|].
Qed.

(** A fragment with a dead writer has no entries. *)
Lemma dead_empty th cur : thread_ok th cur → dead (th_writer th) → cur = [].
Proof.
  intros Ht (Hb & _). destruct (tk_pending _ _ Ht) as [Hp|[_ ?]]; [|done].
  unfold pending in Hp. by rewrite Hb in Hp.
Qed.

Lemma log_muted c md th w type ptr fields r th' w' frags cur :
  trace_ok th w frags cur → config_ok c → request_ok type fields → muted th →
  log_entry junk c md th w type ptr fields = Ret (r, th', w') → r = false.
Proof.
  intros Hok Hc Hr [Hi Hd] H. pose proof (to_thread _ _ _ _ Hok) as Ht.
  pose proof (fixed_size_fields type (rq_type _ _ Hr) (rq_valid _ _ Hr)) as Hn.
  rewrite (log_entry_unfold _ _ _ _ _ _ _ _ _ Hr Hn) in H. cbv zeta in H.
  unfold get_coldtrace_thread in H. rewrite Hi in H. simpl in H.
  destruct (th_failed th); [by simplify_eq|]. unfold log_body in H.
  destruct (with_stack_ type) eqn:Hst; simpl in H.
  - rewrite (append_stack_reduce _ _ _ _ _ _ _ _ Hr Hst Hn (tk_stack _ _ Ht)) in H.
    rewrite reserve_dead in H by done. simpl in H. by simplify_eq.
  - unfold append_plain in H.
    assert (∀ x : bool, th_writer (if x then set_stack_bottom 0 th else th) = th_writer th) as Hw
      by by intros [].
    rewrite Hw, reserve_dead in H by done. simpl in H. by simplify_eq.
Qed.

Lemma log_failed c md th w type ptr fields :
  th_failed th = true → request_ok type fields →
  log_entry junk c md th w type ptr fields = Ret (false, get_coldtrace_thread md th, w).
Proof.
  intros Hf Hr.
  pose proof (fixed_size_fields type (rq_type _ _ Hr) (rq_valid _ _ Hr)) as Hn.
  rewrite (log_entry_unfold _ _ _ _ _ _ _ _ _ Hr Hn). cbv zeta.
  assert (th_failed (get_coldtrace_thread md th) = true) as ->; [|done].
  unfold get_coldtrace_thread. by destruct (th_initd th).
Qed.

Lemma recorded_live th cur : thread_ok th cur → replay [] cur ≠ [] → ¬ muted th.
Proof. intros Ht Hne [_ Hd]. by rewrite (dead_empty th cur Ht Hd) in Hne. Qed.

Lemma simulate_log c md th w type ptr fields r th' w' a :
  implements (th, w) a → config_ok c → request_ok type fields →
  log_entry junk c md th w type ptr fields = Ret (r, th', w') →
  ∃ a', spec_step (OLog type ptr fields) a a' ∧ implements (th', w') a'.
Proof.
  destruct a as [st cl cu k m]. intros (frags & cur & Hok & Est & Ecl & Ecu & Ek & Em) Hc Hr H.
  simpl in *. subst st cl cu k. pose proof (to_thread _ _ _ _ Hok) as Ht.
  destruct (th_failed th) eqn:Hfail.
  { rewrite (log_failed c md th w type ptr fields Hfail Hr) in H. simplify_eq.
    destruct (get_thread_ok md th cur Ht) as (_ & _ & Est & Ef & _).
    eexists. split; [by apply sp_log_off|]. exists frags, cur. simpl.
    rewrite Est, Ef, muted_get. split; [by apply trace_ok_get|done]. }
  destruct (log_spec _ _ _ _ _ _ _ _ _ _ _ _ _ Hok Hc Hr H)
    as (((frags' & cur' & Hok' & Hrec) & E1 & E2 & E3 & _) & Hf).
  pose proof (to_thread _ _ _ _ Hok') as Ht'.
  assert (∀ a', re_stack a' = stack_of th → re_stuck a' = false →
    re_closed a' = closed_events frags' → re_cur a' = replay [] cur' →
    (re_mute a' = true ↔ muted th') → implements (th', w') a') as Hgo.
  { intros. exists frags', cur'. simpl. rewrite E1, E2, Hfail. done. }
  assert (r = false → muted th' ∧ cur' = []) as Hdead.
  { intros ->. destruct Hf as [Hf|Hf]; [done|congruence|]. split; [by split|]. by eapply dead_empty. }
  assert (muted th → cur = []) as Hcur by (intros [_ ?]; by eapply dead_empty).
  destruct m.
  - assert (muted th) as Hm by by apply Em. rewrite (Hcur Hm) in *.
    assert (r = false) as -> by exact (log_muted _ _ _ _ _ _ _ _ _ _ _ _ Hok Hc Hr Hm H).
    destruct (Hdead eq_refl) as [Hm' ->].
    eexists. split; [by apply sp_log_off, orb_true_r|].
    apply Hgo; simpl; try done. destruct Hrec as [[-> _]|[-> _]]; [done|by rewrite app_nil_r].
  - destruct r.
    + assert (¬ muted th') as Hl.
      { apply (recorded_live _ cur' Ht'). destruct Hrec as [[_ ->]|[_ ->]]; [|done].
        intros Hn. by apply app_eq_nil in Hn as [_ ?]. }
      destruct Hrec as [[Hc1 Hc2]|[Hc1 Hc2]].
      * eexists. split; [apply sp_log|]. by apply Hgo.
      * eexists. split; [apply sp_rotate|]. by apply Hgo.
    + destruct (Hdead eq_refl) as [Hm' ->]. eexists. split; [apply sp_log_fail|].
      apply Hgo; simpl; try done.
      destruct Hrec as [[-> Hn]|[-> _]]; [|done]. simpl in Hn. symmetry in Hn.
      apply app_eq_nil in Hn as [-> _]. by rewrite app_nil_r.
Qed.

Lemma simulate_push md th w a th' w' r :
  implements (th, w) r → coldtrace_thread_stack_push junk md th w a = Ret (th', w') →
  ∃ r', spec_step (OPush a) r r' ∧ implements (th', w') r'.
Proof.
  destruct r as [st cl cu k m]. intros (frags & cur & Hok & Est & Ecl & Ecu & Ek & Em) H.
  simpl in *. subst st cl cu k. destruct Hok as [Ht Hcl Hfr].
  apply (push_spec junk md _ _ _ cur) in H as (Ht' & Hc' & _ & Hw & Hi & Hcase); [|done].
  assert (trace_ok th' w' frags cur) as Hok'.
  { split; [done| |done]. rewrite <- Hcl. by apply closed_frags_eq. }
  rewrite <- (muted_same md th th' Hw Hi) in Em.
  assert (∀ st k, st = stack_of th' → k = th_failed th' →
    implements (th', w') (Recorder st (closed_events frags) (replay [] cur) k m)) as Hgo.
  { intros. exists frags, cur. done. }
  destruct (th_failed th).
  - destruct Hcase as [Hf Hs]. eexists. split; [apply sp_push_stuck|]. apply Hgo; done.
  - destruct Hcase as [[Hf Hs]|[Hf Hs]].
    + eexists. split; [apply sp_push_fail|]. by apply Hgo.
    + eexists. split; [apply sp_push|]. by apply Hgo.
Qed.

Lemma simulate_pop md th w r :
  implements (th, w) r →
  ∃ r', spec_step OPop r r' ∧ implements (coldtrace_thread_stack_pop md th, w) r'.
Proof.
  destruct r as [st cl cu k m]. intros (frags & cur & Hok & Est & Ecl & Ecu & Ek & Em).
  simpl in *. subst st cl cu k. destruct Hok as [Ht Hcl Hfr].
  destruct (pop_spec md th cur Ht) as (Ht' & Hw & Hi & Hf & Hs).
  rewrite <- (muted_same md th _ Hw Hi) in Em.
  destruct (th_failed th); eexists;
    (split; [apply sp_pop || apply sp_pop_stuck|]; exists frags, cur; simpl; rewrite ?Hf, ?Hs; done).
Qed.

Lemma simulate_set_create md th w i r :
  implements (th, w) r →
  ∃ r', spec_step (OSetCreate i) r r' ∧ implements (coldtrace_thread_set_create_idx md th i, w) r'.
Proof.
  intros (frags & cur & Hok & H1 & H2 & H3 & H4 & Hm). exists r. split; [constructor|].
  destruct Hok as [Ht Hcl Hf]. simpl in *.
  destruct (get_thread_ok md th cur Ht) as (Ht1 & _ & Es & Ef & Ei & _).
  exists frags, cur. simpl. split; [|rewrite H1, H4, <- Es, <- Ef, Hm, <- (muted_get md th); done].
  split; [|done..]. destruct Ht1 as [[] ? ? ? ? ? ?]. by split.
Qed.

Lemma init_trace_ok md th w frags cur :
  trace_ok th w frags cur → trace_ok (coldtrace_thread_init md th) w frags [].
Proof.
  intros [Ht Hcl Hfr]. destruct (get_thread_ok md th cur Ht) as (Ht1 & _).
  set (t := get_coldtrace_thread md th) in *.
  split; [|done..]. destruct Ht1 as [Hs _ _ _ _ _ _]. split; simpl; try done; auto.
  - by destruct Hs.
  - apply (writer_init_ok (th_writer t) md).
Qed.

Lemma simulate_init md th w r :
  implements (th, w) r →
  ∃ r', spec_step OInit r r' ∧ implements (coldtrace_thread_init md th, w) r'.
Proof.
  destruct r as [st cl cu k m]. intros (frags & cur & Hok & Est & Ecl & Ecu & Ek & Em).
  simpl in *. subst st cl cu k.
  destruct (get_thread_ok md th cur (to_thread _ _ _ _ Hok)) as (_ & _ & Es & Ef & _).
  eexists. split; [apply sp_init|]. exists frags, []. simpl.
  rewrite <- Es, <- Ef. split; [by eapply init_trace_ok|].
  do 4 (split; [done|]). split; [done|]. by intros (_ & _ & _ & [H|H]).
Qed.

Lemma simulate_fini c md th w th' w' r :
  implements (th, w) r → config_ok c → coldtrace_thread_fini c md th w = Ret (th', w') →
  ∃ r', spec_step OFini r r' ∧ implements (th', w') r'.
Proof.
  destruct r as [st cl cu k m]. intros (frags & cur & Hok & Est & Ecl & Ecu & Ek & Em) Hc H.
  simpl in *. subst st cl cu k.
  destruct (get_thread_ok md th cur (to_thread _ _ _ _ Hok)) as (Ht1 & _ & _ & Ef & Ei & _).
  apply (trace_ok_get md) in Hok. unfold coldtrace_thread_fini in H.
  set (t := get_coldtrace_thread md th) in *.
  destruct (writer_fini_spec c (th_writer t) w (tk_writer _ _ Ht1) Hc)
    as (wr & w1 & E & Hd & He & Hcl). rewrite E in H. simpl in H. injection H as <- <-.
  eexists. split; [apply sp_fini|].
  destruct (trace_ok_close t w frags cur [] (closed_frags w1)) as (frags' & Hcl' & Hev & Hf');
    [done|by left|by rewrite app_nil_r|].
  exists frags', []. simpl. split; [|split_and!; try done; by split].
  split; [|done..]. apply thread_ok_dead; [|done..].
  split; simpl; try done; try lia; try constructor.
Qed.

Lemma simulate_step c md o s s' a :
  implements s a → config_ok c → op_ok o → exec c md o s = Ret s' →
  ∃ a', spec_step o a a' ∧ implements s' a'.
Proof.
  destruct s as [th w], s' as [th' w']. intros Him Hc Ho H. destruct o; simpl in *.
  - inv_outcome. destruct p as [b t]. by apply (simulate_log _ _ _ _ _ _ _ _ _ _ _ Him Hc Ho E).
  - by eapply simulate_push.
  - simplify_eq. by apply simulate_pop.
  - simplify_eq. by apply simulate_set_create.
  - simplify_eq. by apply simulate_init.
  - by eapply simulate_fini.
Qed.

Lemma simulate_run c md os : ∀ s s' a,
  implements s a → config_ok c → Forall op_ok os → run c md os s = Ret s' →
  ∃ a', spec_run os a a' ∧ implements s' a'.
Proof.
  induction os as [|o os IH]; intros s s' a Him Hc Hos H.
  - simpl in H. simplify_eq. exists a. split; [constructor|done].
  - apply Forall_cons in Hos as [Ho Hos]. cbn [run] in H. inv_outcome.
    destruct (simulate_step _ _ _ _ _ _ Him Hc Ho E) as (b & Hb & Him').
    destruct (IH _ _ _ Him' Hc Hos H) as (d & Hd & Him''). exists d. split; [by econstructor|done].
Qed.

Lemma implements_zero w : w_closed w = [] → implements (zero_thread, w) recorder0.
Proof.
  intros Hw. exists [], []. split.
  - split; simpl; [|unfold closed_frags; by rewrite Hw|constructor].
    split; simpl; try done; auto.
    + split; simpl; try done; try lia; try constructor.
    + apply zero_writer_ok.
  - simpl. do 4 (split; [done|]). split; [done|]. by intros [? _].
Qed.
(** ** Progress *)

(** What a call needs in order not to leave the defined behaviour of C: room
    for the entry in a fragment, a stack below 2^31 frames. *)
Definition op_fits (c : config) (o : op) (s : coldtrace_thread * world) : Prop :=
  match o with
  | OLog type _ _ => world_small s.2 ∧ entry_fits c s.1 type
  | OPush _ => th_stack_size s.1 < 2 ^ 31
  | _ => True
  end.

Lemma push_returns md th w a cur :
  thread_ok th cur → th_stack_size th < 2 ^ 31 →
  ∃ s', coldtrace_thread_stack_push junk md th w a = Ret s'.
Proof.
  intros Ht Hsz. unfold coldtrace_thread_stack_push.
  destruct (get_thread_ok md th cur Ht) as (Ht1 & _ & _ & _ & _ & Ez & _).
  rewrite <- Ez in Hsz. set (t := get_coldtrace_thread md th) in *. clearbody t.
  destruct (th_failed t); [eauto|]. pose proof (tk_stack _ _ Ht1) as Hs. pose proof (sk_size _ Hs).
  assert (∀ t2 (w2 : world), stack_ok t2 → th_stack_size t2 < th_stack_capacity t2 → ∃ s',
    match th_stack t2 with
    | Some arr => if in_range arr (th_stack_size t2) 1 then
        Ret (set_stack_size (u32 (th_stack_size t2 + 1))
               (set_stack (Some (<[Z.to_nat (th_stack_size t2):=u64 a]> arr)) t2), w2)
        else Undef OutOfBounds
    | None => Undef NullDeref
    end = Ret s') as Hstore.
  { intros t2 w2 Hs2 Hlt. pose proof (sk_size _ Hs2). pose proof (sk_capacity _ Hs2) as Hc.
    destruct (sk_some _ Hs2) as [arr Harr]; [lia|]. rewrite Harr in *. simpl in Hc.
    assert (in_range arr (th_stack_size t2) 1 = true) as -> by (apply in_range_spec; lia). eauto. }
  destruct (Z.eqb_spec (th_stack_size t) (th_stack_capacity t)).
  - destruct (grow_stack_ junk t w) as [[ok t2] w2] eqn:Eg.
    apply grow_stack_spec in Eg as (_&_&_&_&Hs2&_&_&Hz2&Hk); [|done|left; lia].
    destruct ok; simpl; [|eauto]. apply Hstore; [done|]. destruct Hk. lia.
  - simpl. apply Hstore; [done|lia].
Qed.

Lemma exec_returns c md o s a :
  implements s a → config_ok c → op_ok o → op_fits c o s → ∃ s', exec c md o s = Ret s'.
Proof.
  destruct s as [th w]. intros (frags & cur & Hok & _) Hc Ho Hf. simpl in *.
  destruct o; simpl in *.
  - destruct Hf as [Hw Hfit].
    destruct (log_returns junk c md th w type ptr fields frags cur) as (r & th' & w' & ->);
      try done. simpl. eauto.
  - eapply push_returns; [apply Hok|done].
  - eauto.
  - eauto.
  - eauto.
  - unfold coldtrace_thread_fini.
    pose proof (to_thread _ _ _ _ (trace_ok_get md _ _ _ _ Hok)) as Ht.
    destruct (writer_fini_spec c (th_writer (get_coldtrace_thread md th)) w (tk_writer _ _ Ht) Hc)
      as (wr & w1 & -> & _). simpl. eauto.
Qed.

(** ** Completeness of a trace *)

(** The events a run of logs, pushes and pops should record. *)
Fixpoint ideal (st : list Z) (os : list op) : list event :=
  match os with
  | [] => []
  | OLog ty p fs :: os => event_on st ty p fs :: ideal st os
  | OPush a :: os => ideal (st ++ [u64 a]) os
  | OPop :: os => ideal (take (length st - 1) st) os
  | _ :: os => ideal st os
  end.

Definition traced_op (o : op) : Prop :=
  match o with OInit | OFini => False | _ => True end.

Lemma spec_run_ideal os a a' :
  spec_run os a a' → Forall traced_op os → re_stuck a' = false → re_mute a' = false →
  re_stuck a = false ∧ re_mute a = false ∧
  re_closed a' ++ re_cur a' = re_closed a ++ re_cur a ++ ideal (re_stack a) os.
Proof.
  induction 1 as [a|o os a b d Hstep Hrun IH]; intros Hos Hk Hm.
  - simpl. by rewrite app_nil_r.
  - apply Forall_cons in Hos as [Ho Hos]. destruct (IH Hos Hk Hm) as (Hk1 & Hm1 & E).
    rewrite E. destruct Hstep; simpl in *; try done; subst; rewrite <- ?app_assoc; try done.
Qed.
Lemma fini_trace_ok c md th w frags cur :
  trace_ok th w frags cur → config_ok c →
  ∃ th2 w2, coldtrace_thread_fini c md th w = Ret (th2, w2) ∧
    closed_frags w2 = closed_frags w ++ pending (th_writer th).
Proof.
  intros Hok Hc. pose proof (to_thread _ _ _ _ Hok) as Ht.
  destruct (get_thread_ok md th cur Ht) as (Ht1 & Hp & _).
  destruct (writer_fini_spec c (th_writer (get_coldtrace_thread md th)) w
    (tk_writer _ _ Ht1) Hc) as (wr & w2 & E & _ & _ & Hcl).
  unfold coldtrace_thread_fini. rewrite E. eexists _, w2. split; [done|]. by rewrite Hcl, Hp.
Qed.

(** ** Theorems *)

(** C4: refinement.  Whatever sequence of logs, pushes, pops, initialisations and
    finalisations a thread performs from its zero-filled state, and whichever
    allocations, opens and writes fail on the way, the thread is the recorder of
    the specification: its shadow stack is the recorder's, the bytes handed to
    the close hook are fragments whose entries replay to the recorder's closed
    events, and the buffer holds the events of the current fragment. *)
Theorem recorder_refines c md os w s' :
  w_closed w = [] → config_ok c → Forall op_ok os →
  run c md os (zero_thread, w) = Ret s' →
  ∃ a', spec_run os recorder0 a' ∧ implements s' a'.
Proof. intros Hw Hc Hos H. eapply simulate_run; [by apply implements_zero|done..]. Qed.

(** C5: no undefined behaviour.  In every state a run reaches, a call whose entry
    fits an empty fragment together with the whole stack, with fewer than 2^32
    files around and fewer than 2^31 frames on the stack, returns: it neither
    leaves a buffer, nor follows NULL, nor divides by zero, nor loops. *)
Theorem recorder_safe c md os o w s :
  w_closed w = [] → config_ok c → Forall op_ok os →
  run c md os (zero_thread, w) = Ret s → op_ok o → op_fits c o s →
  ∃ s', exec c md o s = Ret s'.
Proof.
  intros Hw Hc Hos H Ho Hf.
  destruct (simulate_run c md os (zero_thread, w) s recorder0) as (a & _ & Him);
    try done; [by apply implements_zero|]. by eapply exec_returns.
Qed.

(** Completeness of the trace.  After a run of logs, pushes and pops in which
    neither the shadow stack nor the writer failed, finishing the thread returns,
    and the fragments handed over decode to exactly the logged events in their
    order, each with the full call stack it was logged under, although only
    stack differences are stored and every fragment is read on its own. *)
Theorem trace_complete c md os w th w1 :
  w_closed w = [] → config_ok c → Forall op_ok os → Forall traced_op os →
  run c md os (zero_thread, w) = Ret (th, w1) →
  th_failed th = false → ¬ muted th →
  ∃ th2 w2 frags, coldtrace_thread_fini c md th w1 = Ret (th2, w2) ∧
    closed_frags w2 = frag_bytes <$> frags ∧ frags_ok frags ∧
    closed_events frags = ideal [] os.
Proof.
  intros Hw Hc Hos Htr H Hf Hm.
  destruct (simulate_run c md os (zero_thread, w) (th, w1) recorder0)
    as (a & Hrun & (fr & cur & Hok & _ & Ecl & Ecu & Ek & Em)); try done.
  { by apply implements_zero. }
  simpl in *. rewrite Hf in Ek.
  assert (re_mute a = false) as Hm' by (destruct (re_mute a); [|done]; destruct Hm; by apply Em).
  destruct (spec_run_ideal _ _ _ Hrun Htr Ek Hm') as (_ & _ & E). simpl in E.
  destruct (fini_trace_ok c md th w1 fr cur Hok Hc) as (th2 & w2 & Efini & Hcl).
  destruct (trace_ok_close _ _ _ _ [] (closed_frags w2) Hok) as (frags & Hcl' & Hev & Hf');
    [by left|by rewrite app_nil_r|].
  exists th2, w2, frags. split; [done|]. split; [done|]. split; [done|]. by rewrite Hev, <- E, Ecl, Ecu.
Qed.

(** C38: [coldtrace_thread_init] on a thread that is recording loses the entries
    of its current fragment: finishing the thread would have handed over that
    fragment, finishing it after the initialisation hands over only the
    fragments closed before. *)
Theorem init_discards_current c md th w frags cur :
  trace_ok th w frags cur → config_ok c → cur ≠ [] →
  ∃ th1 w1 th2 w2,
    coldtrace_thread_fini c md th w = Ret (th1, w1) ∧
    closed_frags w1 = frag_bytes <$> (frags ++ [cur]) ∧
    coldtrace_thread_fini c md (coldtrace_thread_init md th) w = Ret (th2, w2) ∧
    closed_frags w2 = frag_bytes <$> frags.
Proof.
  intros Hok Hc Hne.
  destruct (fini_trace_ok c md th w frags cur Hok Hc) as (th1 & w1 & E1 & H1).
  destruct (fini_trace_ok c md _ w frags [] (init_trace_ok md _ _ _ _ Hok) Hc)
    as (th2 & w2 & E2 & H2).
  exists th1, w1, th2, w2. rewrite H1, H2, (to_closed _ _ _ _ Hok), fmap_app.
  destruct (tk_pending _ _ (to_thread _ _ _ _ Hok)) as [->|[_ ?]]; [|done].
  split; [done|]. split; [done|]. split; [done|]. apply app_nil_r.
Qed.
End Recorder.

(** ** A run

    Two nested calls, an allocation, a read that shares a frame with it, and
    atomic accesses that fill several fragments of 96 bytes. *)
Section Demo.
#[local] Existing Instance demo_build.

Definition zero_junk (n : nat) : Z := 0.

Definition demo_config96 : config := coldtrace_set_trace_size demo_config 96.

Definition demo_ops : list op := [
  OPush 100; OLog COLDTRACE_ALLOC 0x7f0010 [16; 1; 100]; OPush 101;
  OLog COLDTRACE_READ 0x7f0018 [8; 101]; OPop; OLog COLDTRACE_ATOMIC_WRITE 0x7f0020 [4; 2];
  OLog COLDTRACE_WRITE 0x7f0028 [8; 102]; OLog COLDTRACE_FENCE 0 [3] ].

Definition demo_world : world := World demo_fs [] [].

Lemma demo_config_ok : config_ok demo_config96.
Proof. by vm_compute. Qed.

Lemma demo_ops_ok : Forall op_ok demo_ops ∧ Forall traced_op demo_ops.
Proof.
  unfold demo_ops. split; repeat constructor; simpl; try lia; try done.
Qed.

Lemma recorder_refines_witness :
  ∃ s' a', run zero_junk demo_config96 7 demo_ops (zero_thread, demo_world) = Ret s' ∧
    spec_run demo_ops recorder0 a' ∧ implements s' a'.
Proof.
  destruct (run zero_junk demo_config96 7 demo_ops (zero_thread, demo_world)) as [s'|u|] eqn:E;
    [|vm_compute in E; discriminate E..].
  destruct (recorder_refines zero_junk demo_config96 7 demo_ops demo_world s') as (a' & H1 & H2);
    [reflexivity|apply demo_config_ok|apply demo_ops_ok|exact E|].
  exists s', a'. exact (conj eq_refl (conj H1 H2)).
Defined.

Lemma recorder_safe_witness :
  ∃ s s', run zero_junk demo_config96 7 demo_ops (zero_thread, demo_world) = Ret s ∧
    exec zero_junk demo_config96 7 (OLog COLDTRACE_FENCE 0 [4]) s = Ret s'.
Proof.
  pose (r := run zero_junk demo_config96 7 demo_ops (zero_thread, demo_world)).
  assert (op_fits demo_config96 (OLog COLDTRACE_FENCE 0 [4])
    (match r with Ret s => s | _ => (zero_thread, demo_world) end)) as Hfit.
  { split; [vm_compute; reflexivity|]. intros n Hn. vm_compute in Hn. injection Hn as <-.
    vm_compute. discriminate. }
  destruct (run zero_junk demo_config96 7 demo_ops (zero_thread, demo_world)) as [s|u|] eqn:E;
    [|vm_compute in E; discriminate E..].
  destruct (recorder_safe zero_junk demo_config96 7 demo_ops (OLog COLDTRACE_FENCE 0 [4])
    demo_world s) as [s' H]; [reflexivity|apply demo_config_ok|apply demo_ops_ok|exact E| |exact Hfit|].
  { repeat constructor; simpl; try lia; done. }
  exists s, s'. exact (conj eq_refl H).
Defined.

Lemma trace_complete_witness :
  ∃ th w1 th2 w2 frags, run zero_junk demo_config96 7 demo_ops (zero_thread, demo_world) = Ret (th, w1) ∧
    coldtrace_thread_fini demo_config96 7 th w1 = Ret (th2, w2) ∧
    closed_frags w2 = frag_bytes <$> frags ∧ closed_events frags = ideal [] demo_ops.
Proof.
  pose (r := run zero_junk demo_config96 7 demo_ops (zero_thread, demo_world)).
  assert (th_failed (match r with Ret s => s.1 | _ => zero_thread end) = false) as Hf
    by (vm_compute; reflexivity).
  assert (wi_buffer (th_writer (match r with Ret s => s.1 | _ => zero_thread end)) ≠ None) as Hm
    by (vm_compute; discriminate).
  destruct (run zero_junk demo_config96 7 demo_ops (zero_thread, demo_world)) as [[th w1]|u|] eqn:E;
    [|vm_compute in E; discriminate E..].
  destruct (trace_complete zero_junk demo_config96 7 demo_ops demo_world th w1)
    as (th2 & w2 & frags & H1 & H2 & _ & H3);
    [reflexivity|apply demo_config_ok|apply demo_ops_ok|apply demo_ops_ok|exact E|exact Hf| |].
  { intros [_ (Hb & _)]. by apply Hm. }
  exists th, w1, th2, w2, frags. exact (conj eq_refl (conj H1 (conj H2 H3))).
Defined.

(** The state after one event, initialised again. *)
Lemma init_discards_current_witness :
  ∃ th w frags cur th1 w1 th2 w2,
    run zero_junk demo_config96 7 (take 2 demo_ops) (zero_thread, demo_world) = Ret (th, w) ∧
    coldtrace_thread_fini demo_config96 7 th w = Ret (th1, w1) ∧
    closed_frags w1 = frag_bytes <$> (frags ++ [cur]) ∧
    coldtrace_thread_fini demo_config96 7 (coldtrace_thread_init 7 th) w = Ret (th2, w2) ∧
    closed_frags w2 = frag_bytes <$> frags.
Proof.
  pose (r := run zero_junk demo_config96 7 (take 2 demo_ops) (zero_thread, demo_world)).
  assert (pending (th_writer (match r with Ret s => s.1 | _ => zero_thread end)) ≠ [header_bytes]
    ∧ pending (th_writer (match r with Ret s => s.1 | _ => zero_thread end)) ≠ []) as [Hp1 Hp2]
    by (split; vm_compute; discriminate).
  destruct (run zero_junk demo_config96 7 (take 2 demo_ops) (zero_thread, demo_world))
    as [[th w]|u|] eqn:E; [|vm_compute in E; discriminate E..].
  destruct (simulate_run zero_junk demo_config96 7 (take 2 demo_ops) (zero_thread, demo_world)
    (th, w) recorder0) as (a & _ & (frags & cur & Hok & _));
    [by apply implements_zero|apply demo_config_ok|apply Forall_take, demo_ops_ok|exact E|].
  destruct (init_discards_current demo_config96 7 th w frags cur) as (th1 & w1 & th2 & w2 & H);
    [exact Hok|apply demo_config_ok| |].
  { intros ->. destruct (tk_pending _ _ (to_thread _ _ _ _ Hok)) as [Hq|[Hq _]];
      [apply Hp1|apply Hp2]; exact Hq. }
  exists th, w, frags, cur, th1, w1, th2, w2. exact (conj eq_refl H).
Defined.
End Demo.
