(* ===== verification/Session.v ===== *)
(** * A traced thread from start-up

    The module initialiser of config.c followed by the calls of one thread: which
    environments give a well-behaved tracer, and which do not. *)

From stdpp Require Import base list numbers strings gmap.
From Stdlib Require Import ZArith Lia Ascii.
From S2P Require Import Prelude Version Entries Libc Utils Config Codec Lz4 Writer Thread Trace Recorder.

Section Session.
Context `{B : BuildInfo, L : Lz4} (junk : nat → Z).

(** [DICE_MODULE_INIT] of config.c, then the calls [os] of the thread [md]. *)
Definition session (env : gmap string string) (md : Z) (os : list op) (w : world) :
    outcome (config * (coldtrace_thread * world)) :=
  let! (c, w) := config_init env initial_config w in
  let! s := run junk c md os (zero_thread, w) in
  Ret (c, s).
End Session.

(** The environment of an enabled tracer. *)
Definition sane_env (env : gmap string string) : Prop :=
  (∀ p, env !! "COLDTRACE_PATH"%string = Some p → has_char "%"%char p = false) ∧
  (∀ v, env !! "COLDTRACE_MAX_FILES"%string = Some v → u32 (strtoul v) ≠ 0).

Lemma config_values_max env :
  (∀ v, env !! "COLDTRACE_MAX_FILES"%string = Some v → u32 (strtoul v) ≠ 0) →
  is_u32 (max_file_count_ (config_init_values env initial_config)) ∧
  max_file_count_ (config_init_values env initial_config) ≠ 0.
Proof.
  intros H. unfold config_init_values.
  assert (∀ v, u32 (u32 (strtoul v)) = u32 (strtoul v)) as Hu by (intros; apply u32_id, u32_range).
  destruct (env !! "COLDTRACE_MAX_FILES"%string) as [v|] eqn:E1;
    [specialize (H v eq_refl)|clear H];
    destruct (env !! "COLDTRACE_DISABLE_WRITES"%string) as [d|];
    destruct (env !! "COLDTRACE_TRACE_SIZE"%string) as [z|]; simpl;
    repeat case_match; simpl; rewrite ?Hu; auto using u32_range; try (split; [ulia|done]).
Qed.

(** C32: an environment without a conversion in COLDTRACE_PATH and without a zero
    COLDTRACE_MAX_FILES configures the tracer so that, if writing is enabled at
    all, the configuration satisfies the assumption of the recorder theorems. *)
Theorem sane_env_config_ok env w :
  sane_env env →
  ∃ c w', config_init env initial_config w = Ret (c, w') ∧
    (coldtrace_writes_disabled c = true ∨ config_ok c).
Proof.
  intros [Hp Hm]. apply config_values_max in Hm.
  unfold config_init. set (c := config_init_values env initial_config) in *. clearbody c.
  unfold config_init_path.
  destruct (env !! "COLDTRACE_PATH"%string) as [p|]; [|eexists _, _; split; [done|by left]].
  destruct (Z.lt_ge_cases (strlen p) 105) as [Hl|Hl];
    [rewrite set_path_short by done|rewrite set_path_long by done]; simpl;
    [|eexists _, _; split; [done|by left]].
  specialize (Hp p eq_refl).
  assert (∀ w' : world, ∃ c' w'', Ret (Config (max_file_count_ c) (trace_size_ c) (disable_writes_ c)
    p (p +:+ COLDTRACE_FILE_SUFFIX), w') = Ret (c', w'') ∧
    (coldtrace_writes_disabled c' = true ∨ config_ok c')) as Hgood.
  { intros w'. eexists _, _. split; [done|]. simpl. destruct (disable_writes_ c); [by left|right].
    by repeat split; try apply Hm. }
  destruct (ensure_dir_exists w p) as [r w1].
  destruct (negb (r =? 0)); [eexists _, _; split; [done|by left]|].
  destruct (env !! "COLDTRACE_DISABLE_CLEANUP"%string); [apply Hgood|].
  destruct (ensure_dir_empty w1 p) as [r2 w2].
  destruct (negb (r2 =? 0)); [eexists _, _; split; [done|by left]|apply Hgood].
Qed.

Definition env_of (kvs : list (string * string)) : gmap string string := list_to_map kvs.

Lemma sane_env_config_ok_witness :
  ∃ c w', config_init (env_of [("COLDTRACE_PATH", "t"); ("COLDTRACE_MAX_FILES", "3")]%string)
            initial_config (World demo_fs [] []) = Ret (c, w') ∧
          (coldtrace_writes_disabled c = true ∨ config_ok c).
Proof.
  apply (sane_env_config_ok
    (env_of [("COLDTRACE_PATH", "t"); ("COLDTRACE_MAX_FILES", "3")]%string)).
  split.
  - intros p Hp. vm_compute in Hp. injection Hp as <-. reflexivity.
  - intros v Hv. vm_compute in Hv. injection Hv as <-. vm_compute. discriminate.
Defined.

(** ** Environments that lead outside the defined behaviour

    One reachable run each, evaluated. *)
Section Undefined.
#[local] Existing Instance demo_build.

Definition fences (n : nat) : list op := replicate n (OLog COLDTRACE_FENCE 0 [0]).

(** COLDTRACE_MAX_FILES=0 makes the second fragment of a thread divide by
    zero: [advance_fragment_] takes the enumerator modulo the file limit. *)
Theorem max_files_zero_divides :
  session zero_junk
    (env_of [("COLDTRACE_PATH", "t"); ("COLDTRACE_MAX_FILES", "0");
             ("COLDTRACE_TRACE_SIZE", "24")]%string)
    1 (fences 2) (World demo_fs [] []) = Undef DivideByZero.
Proof. vm_compute. reflexivity. Qed.

(** An entry larger than a whole fragment is written past the buffer, as the
    reservation does not check that it fits the new one.  Here the trace size is 40, which the writer accepts, and an
    allocation entry needs 8 + 40 bytes. *)
Theorem oversized_entry_overflows :
  session zero_junk
    (env_of [("COLDTRACE_PATH", "t"); ("COLDTRACE_TRACE_SIZE", "40")]%string)
    1 [OLog COLDTRACE_ALLOC 16 [8; 1; 0]] (World demo_fs [] []) = Undef OutOfBounds.
Proof. vm_compute. reflexivity. Qed.

(** A path with a conversion is accepted and becomes part of the format
    string of [sprintf], which then reads arguments that were not passed. *)
Theorem percent_path_bad_format :
  session zero_junk (env_of [("COLDTRACE_PATH", "t%d")]%string)
    1 (fences 1) (World demo_fs [] []) = Undef BadFormat.
Proof. vm_compute. reflexivity. Qed.
End Undefined.
