(* ===== verification/Subs.v ===== *)
(** * Event subscribers (src/subs_*.c, include/coldtrace/subs_utils.h)

    Every subscriber is a handler that Dice calls on the thread that caused an
    event.  A handler works on the shared state (counters and areas), on the
    thread-local recorder and on the world, and may return early; the payload
    fields it reads are its arguments. *)

From stdpp Require Import base list numbers strings gmap.
From Stdlib Require Import ZArith Lia.
From S2P Require Import Prelude Version Counters Entries Libc Config Codec Lz4 Writer Thread.

Definition AREA_SHIFT : Z := 6.
Definition AREAS : Z := 128.

(** The events Dice delivers, with the payload fields the handlers read. *)
Inductive capture :=
| C_after_malloc (size ret pc : Z)
| C_after_calloc (number size ret pc : Z)
| C_before_realloc (ptr pc : Z)
| C_after_realloc (size ret pc : Z)
| C_before_free (ptr pc : Z)
| C_after_posix_memalign (r ptr size pc : Z)
| C_after_aligned_alloc (size ret pc : Z)
| C_after_mmap (length ret pc : Z)
| C_before_munmap (addr length pc : Z)
| C_before_memcpy (src num pc : Z)
| C_after_memcpy (dest num pc : Z)
| C_before_memmove (src count pc : Z)
| C_after_memmove (dest count pc : Z)
| C_after_memset (ptr num pc : Z)
| C_after_cxa_guard_acquire (addr : Z)
| C_before_cxa_guard_release (addr : Z)
| C_before_cxa_guard_abort (addr : Z)
| C_annotate_rwlock_create (lock : Z)
| C_annotate_rwlock_destroy (lock : Z)
| C_annotate_rwlock_acq (is_w : bool) (lock : Z)
| C_annotate_rwlock_rel (is_w : bool) (lock : Z)
| C_after_sem_wait (r sem : Z)
| C_after_sem_trywait (r sem : Z)
| C_after_sem_timedwait (r sem : Z)
| C_before_sem_post (sem : Z)
| C_test_marker
| C_thread_start (self stackaddr stacksize : Z)
| C_thread_exit (self : Z)
| C_self_fini (is_main : bool) (self : Z)
| C_before_thread_create
| C_after_thread_create (thread : Z)
| C_after_thread_join (thread : Z)
| C_before_mutex_unlock (mutex : Z)
| C_after_mutex_lock (r mutex : Z)
| C_after_mutex_trylock (r mutex : Z)
| C_after_mutex_timedlock (r mutex : Z)
| C_after_mutex_clocklock (r mutex : Z)
| C_before_cond_wait (mutex : Z)
| C_after_cond_wait (mutex : Z)
| C_before_cond_timedwait (mutex : Z)
| C_after_cond_timedwait (mutex : Z)
| C_before_cond_clockwait (mutex : Z)
| C_after_cond_clockwait (mutex : Z)
| C_before_rwlock_unlock (lock : Z)
| C_after_rwlock_rdlock (r lock : Z)
| C_after_rwlock_tryrdlock (r lock : Z)
| C_after_rwlock_timedrdlock (r lock : Z)
| C_after_rwlock_wrlock (r lock : Z)
| C_after_rwlock_trywrlock (r lock : Z)
| C_after_rwlock_timedwrlock (r lock : Z)
| C_before_spin_unlock (lock : Z)
| C_after_spin_lock (r lock : Z)
| C_after_spin_trylock (r lock : Z)
| C_stacktrace_enter (caller : Z)
| C_stacktrace_exit
| C_ma_read (addr size val pc : Z)
| C_ma_write (addr size pc : Z)
| C_ma_read_range (addr size val pc : Z)
| C_ma_write_range (addr size pc : Z)
| C_before_aread (addr : Z)
| C_before_awrite (addr : Z)
| C_before_rmw (addr : Z)
| C_before_xchg (addr : Z)
| C_before_cmpxchg (addr : Z)
| C_before_fence (pc : Z)
| C_after_aread (addr size : Z)
| C_after_awrite (addr size : Z)
| C_after_rmw (addr size : Z)
| C_after_xchg (addr size : Z)
| C_after_cmpxchg (addr size : Z) (ok : bool)
| C_after_fence (pc : Z).

Section Subs.
Context `{B : BuildInfo, L : Lz4, V : Vsync} (junk : nat → Z) (c : config) (md : Z).

(** [area_t] *)
Record area_t := Area {
  area_lock : caslock_t;
  area_idx_a : Z;
}.

(** What all threads share: the counters and [areas_]. *)
Record shared := Shared {
  sh_counters : counters;
  sh_areas : list area_t;
}.

Record hstate := HState {
  hs_shared : shared;
  hs_thread : coldtrace_thread;
  hs_world : world;
}.

(** ** Handlers as computations

    [None] is a handler that has returned [PS_OK] early. *)
Definition M (A : Type) : Type := hstate → outcome (option A * hstate).

Definition ret {A} (a : A) : M A := fun h => Ret (Some a, h).

Definition bind {A A'} (m : M A) (k : A → M A') : M A' := fun h =>
  let! (r, h) := m h in
  match r with
  | None => Ret (None, h)
  | Some a => k a h
  end.

Notation "x <- m ;; k" := (bind m (fun x => k))
  (at level 90, m at level 89, k at level 200, right associativity).
Notation "m ;;; k" := (bind m (fun _ => k)) (at level 90, k at level 200, right associativity).

(** The handler as Dice calls it. *)
Definition handler (m : M unit) (h : hstate) : outcome hstate :=
  let! (_, h) := m h in Ret h.

(** [coldtrace_thread_append(md, type, ptr)] *)
Definition append (type ptr : Z) : M (option Z) := fun h =>
  let! (r, w) := coldtrace_thread_append junk c md (hs_thread h) (hs_world h) type ptr in
  Ret (Some r.1, HState (hs_shared h) r.2 w).

(** [COLDTRACE_APPEND_OR_RETURN_OK(e, md, kind, value)] *)
Definition append_or_return_ok (kind value : Z) : M Z :=
  r <- append kind value ;;
  match r with
  | None => fun h => Ret (None, h)
  | Some e => ret e
  end.

(** [e->field = v] for a [uint64_t] field at byte [off] of the entry. *)
Definition store_field (e off v : Z) : M unit := fun h =>
  let! th := entry_store (hs_thread h) (e + off) (le_bytes 8 (u64 v)) in
  Ret (Some tt, HState (hs_shared h) th (hs_world h)).

Definition on_shared {A} (f : shared → A * shared) : M A := fun h =>
  let '(a, s) := f (hs_shared h) in
  Ret (Some a, HState s (hs_thread h) (hs_world h)).

Definition next_alloc : M Z := on_shared (fun s =>
  let '(i, k) := coldtrace_next_alloc_idx (sh_counters s) in (i, Shared k (sh_areas s))).
Definition next_atomic : M Z := on_shared (fun s =>
  let '(i, k) := coldtrace_next_atomic_idx (sh_counters s) in (i, Shared k (sh_areas s))).

Definition on_thread {A} (f : coldtrace_thread → A * coldtrace_thread) : M A := fun h =>
  let '(a, t) := f (hs_thread h) in
  Ret (Some a, HState (hs_shared h) t (hs_world h)).

(** The bodies that recur, one per entry struct. *)
Definition log_alloc_entry (type ptr size pc : Z) : M unit :=
  e <- append_or_return_ok type ptr ;;
  store_field e 8 size ;;;
  i <- next_alloc ;;
  store_field e 16 i ;;;
  store_field e 24 pc.

Definition log_free_entry (ptr pc : Z) : M unit :=
  e <- append_or_return_ok COLDTRACE_FREE ptr ;;
  i <- next_alloc ;;
  store_field e 8 i ;;;
  store_field e 16 pc.

Definition log_access_entry (type ptr size pc : Z) : M unit :=
  e <- append_or_return_ok type ptr ;;
  store_field e 8 size ;;;
  store_field e 16 pc.

Definition log_atomic_entry (type ptr : Z) : M unit :=
  e <- append_or_return_ok type ptr ;;
  i <- next_atomic ;;
  store_field e 8 i.

Definition log_atomic_access (type ptr size idx : Z) : M unit :=
  e <- append_or_return_ok type ptr ;;
  store_field e 8 size ;;;
  store_field e 16 idx.

(** ** subs_malloc.c *)
Definition after_malloc (size ret pc : Z) : M unit := log_alloc_entry COLDTRACE_ALLOC ret size pc.
Definition after_calloc (number size ret pc : Z) : M unit :=
  log_alloc_entry COLDTRACE_ALLOC ret (number * size) pc.
Definition before_realloc (ptr pc : Z) : M unit := log_free_entry ptr pc.
Definition after_realloc (size ret pc : Z) : M unit := log_alloc_entry COLDTRACE_ALLOC ret size pc.
Definition before_free (ptr pc : Z) : M unit := log_free_entry ptr pc.
(** [ptr] is the value of [*ev->ptr]. *)
Definition after_posix_memalign (r ptr size pc : Z) : M unit :=
  if r =? 0 then log_alloc_entry COLDTRACE_ALLOC ptr size pc else ret tt.
Definition after_aligned_alloc (size ret pc : Z) : M unit :=
  log_alloc_entry COLDTRACE_ALLOC ret size pc.

(** ** subs_mman.c *)
Definition after_mmap (length ret pc : Z) : M unit := log_alloc_entry COLDTRACE_MMAP ret length pc.
Definition before_munmap (addr length pc : Z) : M unit :=
  log_alloc_entry COLDTRACE_MUNMAP addr length pc.

(** ** subs_memcpy.c *)
Definition before_memcpy (src num pc : Z) : M unit := log_access_entry COLDTRACE_READ src num pc.
Definition after_memcpy (dest num pc : Z) : M unit := log_access_entry COLDTRACE_WRITE dest num pc.
Definition before_memmove (src count pc : Z) : M unit := log_access_entry COLDTRACE_READ src count pc.
Definition after_memmove (dest count pc : Z) : M unit := log_access_entry COLDTRACE_WRITE dest count pc.
Definition after_memset (ptr num pc : Z) : M unit := log_access_entry COLDTRACE_WRITE ptr num pc.

(** ** subs_cxa.c *)
Definition after_cxa_guard_acquire (addr : Z) : M unit :=
  log_atomic_entry COLDTRACE_CXA_GUARD_ACQUIRE addr.
Definition before_cxa_guard_release (addr : Z) : M unit :=
  log_atomic_entry COLDTRACE_CXA_GUARD_RELEASE addr.
Definition before_cxa_guard_abort (addr : Z) : M unit :=
  log_atomic_entry COLDTRACE_CXA_GUARD_RELEASE addr.

(** ** subs_annotate_rwlock.c *)
Definition annotate_rwlock_create (lock : Z) : M unit :=
  log_atomic_entry COLDTRACE_RW_LOCK_CREATE lock.
Definition annotate_rwlock_destroy (lock : Z) : M unit :=
  log_atomic_entry COLDTRACE_RW_LOCK_DESTROY lock.
Definition annotate_rwlock_acq (is_w : bool) (lock : Z) : M unit :=
  log_atomic_entry (if is_w then COLDTRACE_RW_LOCK_ACQ_EXC else COLDTRACE_RW_LOCK_ACQ_SHR) lock.
Definition annotate_rwlock_rel (is_w : bool) (lock : Z) : M unit :=
  log_atomic_entry (if is_w then COLDTRACE_RW_LOCK_REL_EXC else COLDTRACE_RW_LOCK_REL_SHR) lock.

(** A lock operation that is logged only when it succeeded. *)
Definition if_acquired (r type ptr : Z) : M unit :=
  if r =? 0 then log_atomic_entry type ptr else ret tt.

(** ** subs_sem.c *)
Definition after_sem_wait (r sem : Z) : M unit := if_acquired r COLDTRACE_LOCK_ACQUIRE sem.
Definition after_sem_trywait (r sem : Z) : M unit := if_acquired r COLDTRACE_LOCK_ACQUIRE sem.
Definition after_sem_timedwait (r sem : Z) : M unit := if_acquired r COLDTRACE_LOCK_ACQUIRE sem.
Definition before_sem_post (sem : Z) : M unit := log_atomic_entry COLDTRACE_LOCK_RELEASE sem.

(** ** subs_marker.c: the entry is its header. *)
Definition test_marker : M unit := append COLDTRACE_TEST_MARKER 0 ;;; ret tt.

(** ** subs_pthread.c *)
Definition thread_init : M unit :=
  on_thread (fun th => (tt, coldtrace_thread_init md th)).
Definition thread_fini : M unit := fun h =>
  let! (th, w) := coldtrace_thread_fini c md (hs_thread h) (hs_world h) in
  Ret (Some tt, HState (hs_shared h) th w).
(** The weak [coldtrace_main_thread_fini] of thread.c. *)
Definition coldtrace_main_thread_fini : M unit := ret tt.

(** [self], [stackaddr] and [stacksize] are what the real [pthread_self] and
    [pthread_attr_getstack] return. *)
Definition thread_start (self stackaddr stacksize : Z) : M unit :=
  thread_init ;;;
  e <- append_or_return_ok COLDTRACE_THREAD_START self ;;
  i <- next_atomic ;;
  store_field e 8 i ;;;
  store_field e 16 stackaddr ;;;
  store_field e 24 stacksize.
Definition thread_exit (self : Z) : M unit := log_atomic_entry COLDTRACE_THREAD_EXIT self.
(** [is_main] is [self_id(md) == MAIN_THREAD]. *)
Definition self_fini (is_main : bool) (self : Z) : M unit :=
  if is_main then
    r <- append COLDTRACE_THREAD_EXIT self ;;
    match r with
    | Some e => i <- next_atomic ;; store_field e 8 i
    | None => ret tt
    end ;;;
    thread_fini ;;;
    coldtrace_main_thread_fini
  else thread_fini.
Definition before_thread_create : M unit :=
  i <- next_atomic ;;
  on_thread (fun th => (tt, coldtrace_thread_set_create_idx md th i)).
Definition after_thread_create (thread : Z) : M unit :=
  e <- append_or_return_ok COLDTRACE_THREAD_CREATE thread ;;
  i <- on_thread (coldtrace_thread_get_create_idx md) ;;
  store_field e 8 i.
Definition after_thread_join (thread : Z) : M unit := log_atomic_entry COLDTRACE_THREAD_JOIN thread.
Definition before_mutex_unlock (mutex : Z) : M unit := log_atomic_entry COLDTRACE_LOCK_RELEASE mutex.
Definition after_mutex_lock (r mutex : Z) : M unit := if_acquired r COLDTRACE_LOCK_ACQUIRE mutex.
Definition after_mutex_trylock (r mutex : Z) : M unit := if_acquired r COLDTRACE_LOCK_ACQUIRE mutex.
Definition after_mutex_timedlock (r mutex : Z) : M unit := if_acquired r COLDTRACE_LOCK_ACQUIRE mutex.
Definition after_mutex_clocklock (r mutex : Z) : M unit := if_acquired r COLDTRACE_LOCK_ACQUIRE mutex.
Definition before_cond_wait (mutex : Z) : M unit := log_atomic_entry COLDTRACE_LOCK_RELEASE mutex.
Definition after_cond_wait (mutex : Z) : M unit := log_atomic_entry COLDTRACE_LOCK_ACQUIRE mutex.
Definition before_cond_timedwait (mutex : Z) : M unit := log_atomic_entry COLDTRACE_LOCK_RELEASE mutex.
Definition after_cond_timedwait (mutex : Z) : M unit := log_atomic_entry COLDTRACE_LOCK_ACQUIRE mutex.
Definition before_cond_clockwait (mutex : Z) : M unit := log_atomic_entry COLDTRACE_LOCK_RELEASE mutex.
Definition after_cond_clockwait (mutex : Z) : M unit := log_atomic_entry COLDTRACE_LOCK_ACQUIRE mutex.
Definition before_rwlock_unlock (lock : Z) : M unit := log_atomic_entry COLDTRACE_RW_LOCK_REL lock.
Definition after_rwlock_rdlock (r lock : Z) : M unit := if_acquired r COLDTRACE_RW_LOCK_ACQ_SHR lock.
Definition after_rwlock_tryrdlock (r lock : Z) : M unit := if_acquired r COLDTRACE_RW_LOCK_ACQ_SHR lock.
Definition after_rwlock_timedrdlock (r lock : Z) : M unit := if_acquired r COLDTRACE_RW_LOCK_ACQ_SHR lock.
Definition after_rwlock_wrlock (r lock : Z) : M unit := if_acquired r COLDTRACE_RW_LOCK_ACQ_EXC lock.
Definition after_rwlock_trywrlock (r lock : Z) : M unit := if_acquired r COLDTRACE_RW_LOCK_ACQ_EXC lock.
Definition after_rwlock_timedwrlock (r lock : Z) : M unit := if_acquired r COLDTRACE_RW_LOCK_ACQ_EXC lock.
Definition before_spin_unlock (lock : Z) : M unit := log_atomic_entry COLDTRACE_LOCK_RELEASE lock.
Definition after_spin_lock (r lock : Z) : M unit := if_acquired r COLDTRACE_LOCK_ACQUIRE lock.
Definition after_spin_trylock (r lock : Z) : M unit := if_acquired r COLDTRACE_LOCK_ACQUIRE lock.

(** ** subs_tsan.c *)
Definition stacktrace_enter (caller : Z) : M unit := fun h =>
  let! (th, w) := coldtrace_thread_stack_push junk md (hs_thread h) (hs_world h) caller in
  Ret (Some tt, HState (hs_shared h) th w).
Definition stacktrace_exit : M unit :=
  on_thread (fun th => (tt, coldtrace_thread_stack_pop md th)).

(** The type of a read of [size] bytes at an address that holds the 64-bit word
    [val]: an 8-byte read of zero carries the zero flag. *)
Definition read_type (size val : Z) : Z :=
  if (size =? 8) && (val =? 0) then Z.lor COLDTRACE_READ ZERO_FLAG else COLDTRACE_READ.

Definition ma_read (addr size val pc : Z) : M unit :=
  log_access_entry (read_type size val) addr size pc.
Definition ma_write (addr size pc : Z) : M unit := log_access_entry COLDTRACE_WRITE addr size pc.
Definition ma_read_range (addr size val pc : Z) : M unit :=
  log_access_entry (read_type size val) addr size pc.
Definition ma_write_range (addr size pc : Z) : M unit := log_access_entry COLDTRACE_WRITE addr size pc.

Definition get_area (addr : Z) : nat := Z.to_nat (Z.shiftr (u64 addr) AREA_SHIFT mod AREAS).

Definition area_get (i : nat) : M area_t := fun h =>
  match sh_areas (hs_shared h) !! i with
  | None => Undef OutOfBounds
  | Some a => Ret (Some a, h)
  end.
Definition area_set (i : nat) (a : area_t) : M unit :=
  on_shared (fun s => (tt, Shared (sh_counters s) (<[i := a]> (sh_areas s)))).

Definition area_acquire (i : nat) : M unit :=
  a <- area_get i ;;
  match caslock_acquire (area_lock a) with
  | None => fun _ => NoFuel
  | Some l => area_set i (Area l (area_idx_a a))
  end.
Definition area_release (i : nat) : M unit :=
  a <- area_get i ;; area_set i (Area (caslock_release (area_lock a)) (area_idx_a a)).

(** [FETCH_STACK_ACQ] *)
Definition fetch_stack_acq (addr : Z) : M unit :=
  let area := get_area addr in
  area_acquire area ;;;
  i <- next_atomic ;;
  a <- area_get area ;;
  area_set area (Area (area_lock a) i).

(** [REL_LOG_R], [REL_LOG_W] *)
Definition rel_log_one (type addr sz : Z) : M unit :=
  let area := get_area addr in
  a <- area_get area ;;
  let idx_a := area_idx_a a in
  area_release area ;;;
  log_atomic_access type addr sz idx_a.
Definition rel_log_r (addr sz : Z) : M unit := rel_log_one COLDTRACE_ATOMIC_READ addr sz.
Definition rel_log_w (addr sz : Z) : M unit := rel_log_one COLDTRACE_ATOMIC_WRITE addr sz.

(** [REL_LOG_RW] *)
Definition rel_log_rw (addr sz : Z) : M unit :=
  let area := get_area addr in
  a <- area_get area ;;
  let idx_a := area_idx_a a in
  idx_b <- next_atomic ;;
  area_release area ;;;
  log_atomic_access COLDTRACE_ATOMIC_READ addr sz idx_a ;;;
  log_atomic_access COLDTRACE_ATOMIC_WRITE addr sz idx_b.

(** [REL_LOG_RW_COND] *)
Definition rel_log_rw_cond (addr sz : Z) (success : bool) : M unit :=
  idx_b <- (if success then next_atomic else ret 0) ;;
  let area := get_area addr in
  a <- area_get area ;;
  let idx_a := area_idx_a a in
  area_release area ;;;
  log_atomic_access COLDTRACE_ATOMIC_READ addr sz idx_a ;;;
  if success then log_atomic_access COLDTRACE_ATOMIC_WRITE addr sz idx_b else ret tt.

(** [REL_LOG_FENCE] *)
Definition rel_log_fence (addr : Z) : M unit :=
  let area := get_area addr in
  a <- area_get area ;;
  let idx_a := area_idx_a a in
  area_release area ;;;
  e <- append_or_return_ok COLDTRACE_FENCE addr ;;
  store_field e 8 idx_a.

Definition before_aread (addr : Z) : M unit := fetch_stack_acq addr.
Definition after_aread (addr size : Z) : M unit := rel_log_r addr size.
Definition before_awrite (addr : Z) : M unit := fetch_stack_acq addr.
Definition after_awrite (addr size : Z) : M unit := rel_log_w addr size.
Definition before_rmw (addr : Z) : M unit := fetch_stack_acq addr.
Definition after_rmw (addr size : Z) : M unit := rel_log_rw addr size.
Definition before_xchg (addr : Z) : M unit := fetch_stack_acq addr.
Definition after_xchg (addr size : Z) : M unit := rel_log_rw addr size.
Definition before_cmpxchg (addr : Z) : M unit := fetch_stack_acq addr.
Definition after_cmpxchg (addr size : Z) (ok : bool) : M unit := rel_log_rw_cond addr size ok.
Definition before_fence (pc : Z) : M unit := fetch_stack_acq pc.
Definition after_fence (pc : Z) : M unit := rel_log_fence pc.

(** The subscription table. *)
Definition subscriber (ev : capture) : M unit :=
  match ev with
  | C_after_malloc size ret pc => after_malloc size ret pc
  | C_after_calloc number size ret pc => after_calloc number size ret pc
  | C_before_realloc ptr pc => before_realloc ptr pc
  | C_after_realloc size ret pc => after_realloc size ret pc
  | C_before_free ptr pc => before_free ptr pc
  | C_after_posix_memalign r ptr size pc => after_posix_memalign r ptr size pc
  | C_after_aligned_alloc size ret pc => after_aligned_alloc size ret pc
  | C_after_mmap length ret pc => after_mmap length ret pc
  | C_before_munmap addr length pc => before_munmap addr length pc
  | C_before_memcpy src num pc => before_memcpy src num pc
  | C_after_memcpy dest num pc => after_memcpy dest num pc
  | C_before_memmove src count pc => before_memmove src count pc
  | C_after_memmove dest count pc => after_memmove dest count pc
  | C_after_memset ptr num pc => after_memset ptr num pc
  | C_after_cxa_guard_acquire addr => after_cxa_guard_acquire addr
  | C_before_cxa_guard_release addr => before_cxa_guard_release addr
  | C_before_cxa_guard_abort addr => before_cxa_guard_abort addr
  | C_annotate_rwlock_create lock => annotate_rwlock_create lock
  | C_annotate_rwlock_destroy lock => annotate_rwlock_destroy lock
  | C_annotate_rwlock_acq is_w lock => annotate_rwlock_acq is_w lock
  | C_annotate_rwlock_rel is_w lock => annotate_rwlock_rel is_w lock
  | C_after_sem_wait r sem => after_sem_wait r sem
  | C_after_sem_trywait r sem => after_sem_trywait r sem
  | C_after_sem_timedwait r sem => after_sem_timedwait r sem
  | C_before_sem_post sem => before_sem_post sem
  | C_test_marker => test_marker
  | C_thread_start self stackaddr stacksize => thread_start self stackaddr stacksize
  | C_thread_exit self => thread_exit self
  | C_self_fini is_main self => self_fini is_main self
  | C_before_thread_create => before_thread_create
  | C_after_thread_create thread => after_thread_create thread
  | C_after_thread_join thread => after_thread_join thread
  | C_before_mutex_unlock mutex => before_mutex_unlock mutex
  | C_after_mutex_lock r mutex => after_mutex_lock r mutex
  | C_after_mutex_trylock r mutex => after_mutex_trylock r mutex
  | C_after_mutex_timedlock r mutex => after_mutex_timedlock r mutex
  | C_after_mutex_clocklock r mutex => after_mutex_clocklock r mutex
  | C_before_cond_wait mutex => before_cond_wait mutex
  | C_after_cond_wait mutex => after_cond_wait mutex
  | C_before_cond_timedwait mutex => before_cond_timedwait mutex
  | C_after_cond_timedwait mutex => after_cond_timedwait mutex
  | C_before_cond_clockwait mutex => before_cond_clockwait mutex
  | C_after_cond_clockwait mutex => after_cond_clockwait mutex
  | C_before_rwlock_unlock lock => before_rwlock_unlock lock
  | C_after_rwlock_rdlock r lock => after_rwlock_rdlock r lock
  | C_after_rwlock_tryrdlock r lock => after_rwlock_tryrdlock r lock
  | C_after_rwlock_timedrdlock r lock => after_rwlock_timedrdlock r lock
  | C_after_rwlock_wrlock r lock => after_rwlock_wrlock r lock
  | C_after_rwlock_trywrlock r lock => after_rwlock_trywrlock r lock
  | C_after_rwlock_timedwrlock r lock => after_rwlock_timedwrlock r lock
  | C_before_spin_unlock lock => before_spin_unlock lock
  | C_after_spin_lock r lock => after_spin_lock r lock
  | C_after_spin_trylock r lock => after_spin_trylock r lock
  | C_stacktrace_enter caller => stacktrace_enter caller
  | C_stacktrace_exit => stacktrace_exit
  | C_ma_read addr size val pc => ma_read addr size val pc
  | C_ma_write addr size pc => ma_write addr size pc
  | C_ma_read_range addr size val pc => ma_read_range addr size val pc
  | C_ma_write_range addr size pc => ma_write_range addr size pc
  | C_before_aread addr => before_aread addr
  | C_before_awrite addr => before_awrite addr
  | C_before_rmw addr => before_rmw addr
  | C_before_xchg addr => before_xchg addr
  | C_before_cmpxchg addr => before_cmpxchg addr
  | C_before_fence pc => before_fence pc
  | C_after_aread addr size => after_aread addr size
  | C_after_awrite addr size => after_awrite addr size
  | C_after_rmw addr size => after_rmw addr size
  | C_after_xchg addr size => after_xchg addr size
  | C_after_cmpxchg addr size ok => after_cmpxchg addr size ok
  | C_after_fence pc => after_fence pc
  end.

Definition handle (ev : capture) : hstate → outcome hstate := handler (subscriber ev).
End Subs.

(** ** subs_wait.c: the test flag and the event field [ev->wait]. *)
Definition coldtrace_enable_test_wait (_test_wait : bool) : bool := true.
Definition self_wait (_test_wait wait : bool) : bool := if _test_wait then true else wait.

(** Opening a subscription down to the body it shares with others; [subs_log]
    opens these bodies too. *)
Create HintDb subs.
Create HintDb subs_log.
#[export] Hint Unfold after_malloc after_calloc before_realloc after_realloc before_free
  after_posix_memalign after_aligned_alloc after_mmap before_munmap before_memcpy
  after_memcpy before_memmove after_memmove after_memset after_cxa_guard_acquire
  before_cxa_guard_release before_cxa_guard_abort annotate_rwlock_create
  annotate_rwlock_destroy annotate_rwlock_acq annotate_rwlock_rel after_sem_wait
  after_sem_trywait after_sem_timedwait before_sem_post thread_exit after_thread_join
  before_mutex_unlock after_mutex_lock after_mutex_trylock after_mutex_timedlock
  after_mutex_clocklock before_cond_wait after_cond_wait before_cond_timedwait
  after_cond_timedwait before_cond_clockwait after_cond_clockwait before_rwlock_unlock
  after_rwlock_rdlock after_rwlock_tryrdlock after_rwlock_timedrdlock after_rwlock_wrlock
  after_rwlock_trywrlock after_rwlock_timedwrlock before_spin_unlock after_spin_lock
  after_spin_trylock ma_read ma_write ma_read_range ma_write_range before_aread
  before_awrite before_rmw before_xchg before_cmpxchg before_fence after_aread
  after_awrite after_rmw after_xchg after_cmpxchg after_fence rel_log_r rel_log_w
  if_acquired : subs.
#[export] Hint Unfold log_alloc_entry log_free_entry log_access_entry log_atomic_entry
  test_marker thread_start self_fini before_thread_create after_thread_create stacktrace_exit
  thread_init coldtrace_main_thread_fini rel_log_one rel_log_rw rel_log_rw_cond rel_log_fence
  : subs_log.
