(* ===== verification/Subscribers.v ===== *)
(** * What the subscribers record

    Each handler amounts to a short list of recorder operations: which entries it
    logs, with which fields.  The theorems compose this with the recorder, so that
    a sequence of events leaves exactly the expected trace. *)

From stdpp Require Import base list numbers strings gmap.
From Stdlib Require Import ZArith Lia.
From S2P Require Import Prelude Version Counters Entries Libc Utils Config Codec Lz4 Writer Thread Trace Recorder Subs.

Section Subscribers.
Context `{B : BuildInfo, L : Lz4, V : Vsync} (junk : nat → Z) (c : config) (md : Z).

(** The index the area of an address holds. *)
Definition idx_at (s : shared) (addr : Z) : Z :=
  default 0 (area_idx_a <$> sh_areas s !! get_area addr).

(** The recorder operations of each event, as the documentation of the trace
    format describes them: [al] and [at_] are the next indices. *)
Definition capture_ops (s : shared) (th : coldtrace_thread) (ev : capture) : list op :=
  let al := (coldtrace_next_alloc_idx (sh_counters s)).1 in
  let at_ := (coldtrace_next_atomic_idx (sh_counters s)).1 in
  match ev with
  | C_after_malloc size ret pc =>
      [OLog COLDTRACE_ALLOC ret [u64 size; u64 al; u64 pc]]
  | C_after_calloc number size ret pc =>
      [OLog COLDTRACE_ALLOC ret [u64 (number * size); u64 al; u64 pc]]
  | C_before_realloc ptr pc =>
      [OLog COLDTRACE_FREE ptr [u64 al; u64 pc]]
  | C_after_realloc size ret pc =>
      [OLog COLDTRACE_ALLOC ret [u64 size; u64 al; u64 pc]]
  | C_before_free ptr pc =>
      [OLog COLDTRACE_FREE ptr [u64 al; u64 pc]]
  | C_after_posix_memalign r ptr size pc =>
      if r =? 0 then [OLog COLDTRACE_ALLOC ptr [u64 size; u64 al; u64 pc]] else []
  | C_after_aligned_alloc size ret pc =>
      [OLog COLDTRACE_ALLOC ret [u64 size; u64 al; u64 pc]]
  | C_after_mmap length ret pc =>
      [OLog COLDTRACE_MMAP ret [u64 length; u64 al; u64 pc]]
  | C_before_munmap addr length pc =>
      [OLog COLDTRACE_MUNMAP addr [u64 length; u64 al; u64 pc]]
  | C_before_memcpy src num pc =>
      [OLog COLDTRACE_READ src [u64 num; u64 pc]]
  | C_after_memcpy dest num pc =>
      [OLog COLDTRACE_WRITE dest [u64 num; u64 pc]]
  | C_before_memmove src count pc =>
      [OLog COLDTRACE_READ src [u64 count; u64 pc]]
  | C_after_memmove dest count pc =>
      [OLog COLDTRACE_WRITE dest [u64 count; u64 pc]]
  | C_after_memset ptr num pc =>
      [OLog COLDTRACE_WRITE ptr [u64 num; u64 pc]]
  | C_after_cxa_guard_acquire addr =>
      [OLog COLDTRACE_CXA_GUARD_ACQUIRE addr [u64 at_]]
  | C_before_cxa_guard_release addr =>
      [OLog COLDTRACE_CXA_GUARD_RELEASE addr [u64 at_]]
  | C_before_cxa_guard_abort addr =>
      [OLog COLDTRACE_CXA_GUARD_RELEASE addr [u64 at_]]
  | C_annotate_rwlock_create lock =>
      [OLog COLDTRACE_RW_LOCK_CREATE lock [u64 at_]]
  | C_annotate_rwlock_destroy lock =>
      [OLog COLDTRACE_RW_LOCK_DESTROY lock [u64 at_]]
  | C_annotate_rwlock_acq is_w lock =>
      [OLog (if is_w then COLDTRACE_RW_LOCK_ACQ_EXC else COLDTRACE_RW_LOCK_ACQ_SHR) lock [u64 at_]]
  | C_annotate_rwlock_rel is_w lock =>
      [OLog (if is_w then COLDTRACE_RW_LOCK_REL_EXC else COLDTRACE_RW_LOCK_REL_SHR) lock [u64 at_]]
  | C_after_sem_wait r sem =>
      if r =? 0 then [OLog COLDTRACE_LOCK_ACQUIRE sem [u64 at_]] else []
  | C_after_sem_trywait r sem =>
      if r =? 0 then [OLog COLDTRACE_LOCK_ACQUIRE sem [u64 at_]] else []
  | C_after_sem_timedwait r sem =>
      if r =? 0 then [OLog COLDTRACE_LOCK_ACQUIRE sem [u64 at_]] else []
  | C_before_sem_post sem =>
      [OLog COLDTRACE_LOCK_RELEASE sem [u64 at_]]
  | C_test_marker =>
      [OLog COLDTRACE_TEST_MARKER 0 []]
  | C_thread_start self stackaddr stacksize =>
      [OInit; OLog COLDTRACE_THREAD_START self [u64 at_; u64 stackaddr; u64 stacksize]]
  | C_thread_exit self =>
      [OLog COLDTRACE_THREAD_EXIT self [u64 at_]]
  | C_self_fini is_main self =>
      if is_main then [OLog COLDTRACE_THREAD_EXIT self [u64 at_]; OFini] else [OFini]
  | C_before_thread_create => [OSetCreate at_]
  | C_after_thread_create thread =>
      [OLog COLDTRACE_THREAD_CREATE thread [u64 (th_created_thread_idx th)]]
  | C_after_thread_join thread =>
      [OLog COLDTRACE_THREAD_JOIN thread [u64 at_]]
  | C_before_mutex_unlock mutex =>
      [OLog COLDTRACE_LOCK_RELEASE mutex [u64 at_]]
  | C_after_mutex_lock r mutex =>
      if r =? 0 then [OLog COLDTRACE_LOCK_ACQUIRE mutex [u64 at_]] else []
  | C_after_mutex_trylock r mutex =>
      if r =? 0 then [OLog COLDTRACE_LOCK_ACQUIRE mutex [u64 at_]] else []
  | C_after_mutex_timedlock r mutex =>
      if r =? 0 then [OLog COLDTRACE_LOCK_ACQUIRE mutex [u64 at_]] else []
  | C_after_mutex_clocklock r mutex =>
      if r =? 0 then [OLog COLDTRACE_LOCK_ACQUIRE mutex [u64 at_]] else []
  | C_before_cond_wait mutex =>
      [OLog COLDTRACE_LOCK_RELEASE mutex [u64 at_]]
  | C_after_cond_wait mutex =>
      [OLog COLDTRACE_LOCK_ACQUIRE mutex [u64 at_]]
  | C_before_cond_timedwait mutex =>
      [OLog COLDTRACE_LOCK_RELEASE mutex [u64 at_]]
  | C_after_cond_timedwait mutex =>
      [OLog COLDTRACE_LOCK_ACQUIRE mutex [u64 at_]]
  | C_before_cond_clockwait mutex =>
      [OLog COLDTRACE_LOCK_RELEASE mutex [u64 at_]]
  | C_after_cond_clockwait mutex =>
      [OLog COLDTRACE_LOCK_ACQUIRE mutex [u64 at_]]
  | C_before_rwlock_unlock lock =>
      [OLog COLDTRACE_RW_LOCK_REL lock [u64 at_]]
  | C_after_rwlock_rdlock r lock =>
      if r =? 0 then [OLog COLDTRACE_RW_LOCK_ACQ_SHR lock [u64 at_]] else []
  | C_after_rwlock_tryrdlock r lock =>
      if r =? 0 then [OLog COLDTRACE_RW_LOCK_ACQ_SHR lock [u64 at_]] else []
  | C_after_rwlock_timedrdlock r lock =>
      if r =? 0 then [OLog COLDTRACE_RW_LOCK_ACQ_SHR lock [u64 at_]] else []
  | C_after_rwlock_wrlock r lock =>
      if r =? 0 then [OLog COLDTRACE_RW_LOCK_ACQ_EXC lock [u64 at_]] else []
  | C_after_rwlock_trywrlock r lock =>
      if r =? 0 then [OLog COLDTRACE_RW_LOCK_ACQ_EXC lock [u64 at_]] else []
  | C_after_rwlock_timedwrlock r lock =>
      if r =? 0 then [OLog COLDTRACE_RW_LOCK_ACQ_EXC lock [u64 at_]] else []
  | C_before_spin_unlock lock =>
      [OLog COLDTRACE_LOCK_RELEASE lock [u64 at_]]
  | C_after_spin_lock r lock =>
      if r =? 0 then [OLog COLDTRACE_LOCK_ACQUIRE lock [u64 at_]] else []
  | C_after_spin_trylock r lock =>
      if r =? 0 then [OLog COLDTRACE_LOCK_ACQUIRE lock [u64 at_]] else []
  | C_stacktrace_enter caller =>
      [OPush caller]
  | C_stacktrace_exit =>
      [OPop]
  | C_ma_read addr size val pc =>
      [OLog (read_type size val) addr [u64 size; u64 pc]]
  | C_ma_write addr size pc =>
      [OLog COLDTRACE_WRITE addr [u64 size; u64 pc]]
  | C_ma_read_range addr size val pc =>
      [OLog (read_type size val) addr [u64 size; u64 pc]]
  | C_ma_write_range addr size pc =>
      [OLog COLDTRACE_WRITE addr [u64 size; u64 pc]]
  | C_before_aread _ =>
      []
  | C_before_awrite _ =>
      []
  | C_before_rmw _ =>
      []
  | C_before_xchg _ =>
      []
  | C_before_cmpxchg _ =>
      []
  | C_before_fence _ =>
      []
  | C_after_aread addr size =>
      [OLog COLDTRACE_ATOMIC_READ addr [u64 size; u64 (idx_at s addr)]]
  | C_after_awrite addr size =>
      [OLog COLDTRACE_ATOMIC_WRITE addr [u64 size; u64 (idx_at s addr)]]
  | C_after_rmw addr size =>
      [OLog COLDTRACE_ATOMIC_READ addr [u64 size; u64 (idx_at s addr)];
       OLog COLDTRACE_ATOMIC_WRITE addr [u64 size; u64 at_]]
  | C_after_xchg addr size =>
      [OLog COLDTRACE_ATOMIC_READ addr [u64 size; u64 (idx_at s addr)];
       OLog COLDTRACE_ATOMIC_WRITE addr [u64 size; u64 at_]]
  | C_after_cmpxchg addr size ok =>
      OLog COLDTRACE_ATOMIC_READ addr [u64 size; u64 (idx_at s addr)] ::
      (if ok then [OLog COLDTRACE_ATOMIC_WRITE addr [u64 size; u64 at_]] else [])
  | C_after_fence pc =>
      [OLog COLDTRACE_FENCE pc [u64 (idx_at s pc)]]
  end.

(** ** Handlers as logs *)

(** Logging one entry and leaving the shared state as [s'] if that worked. *)
Definition log_then (type ptr : Z) (fields : list Z) (s' : shared) : M unit := fun h =>
  let! (r, w) := log_entry junk c md (hs_thread h) (hs_world h) type ptr fields in
  if r.1 : bool then Ret (Some tt, HState s' r.2 w)
  else Ret (None, HState (hs_shared h) r.2 w).

Definition bump_alloc (s : shared) : shared :=
  Shared (coldtrace_next_alloc_idx (sh_counters s)).2 (sh_areas s).
Definition bump_atomic (s : shared) : shared :=
  Shared (coldtrace_next_atomic_idx (sh_counters s)).2 (sh_areas s).

Ltac log_pattern :=
  unfold log_then, log_entry, append_or_return_ok, append, bind, store_field, next_alloc,
    next_atomic, on_shared, bump_alloc, bump_atomic, ret in *; simpl;
  match goal with |- context [coldtrace_thread_append ?j ?c ?m ?t ?w ?ty ?p] =>
    destruct (coldtrace_thread_append j c m t w ty p) as [[[[e|] th] w']|u|]; simpl; [|done..] end;
  repeat match goal with
  | E : coldtrace_next_alloc_idx ?k = _ |- context [coldtrace_next_alloc_idx ?k] =>
      rewrite E; simpl
  | E : coldtrace_next_atomic_idx ?k = _ |- context [coldtrace_next_atomic_idx ?k] =>
      rewrite E; simpl
  | |- context [coldtrace_next_alloc_idx ?k] => destruct (coldtrace_next_alloc_idx k) eqn:?; simpl
  | |- context [coldtrace_next_atomic_idx ?k] => destruct (coldtrace_next_atomic_idx k) eqn:?; simpl
  | |- context [?x + 8 + 8 + 8] => replace (x + 8 + 8 + 8) with (x + 24) by lia
  | |- context [?x + 8 + 8] => replace (x + 8 + 8) with (x + 16) by lia
  | |- context [entry_store ?t ?o ?bs] => destruct (entry_store t o bs); simpl; try done
  end; try done.

Lemma log_alloc_entry_eq type ptr size pc h :
  log_alloc_entry junk c md type ptr size pc h =
  log_then type ptr [u64 size; u64 (coldtrace_next_alloc_idx (sh_counters (hs_shared h))).1; u64 pc]
    (bump_alloc (hs_shared h)) h.
Proof. unfold log_alloc_entry. log_pattern. Qed.

Lemma log_free_entry_eq ptr pc h :
  log_free_entry junk c md ptr pc h =
  log_then COLDTRACE_FREE ptr
    [u64 (coldtrace_next_alloc_idx (sh_counters (hs_shared h))).1; u64 pc]
    (bump_alloc (hs_shared h)) h.
Proof. unfold log_free_entry. log_pattern. Qed.

Lemma log_access_entry_eq type ptr size pc h :
  log_access_entry junk c md type ptr size pc h =
  log_then type ptr [u64 size; u64 pc] (hs_shared h) h.
Proof. unfold log_access_entry. log_pattern. Qed.

Lemma log_atomic_entry_eq type ptr h :
  log_atomic_entry junk c md type ptr h =
  log_then type ptr [u64 (coldtrace_next_atomic_idx (sh_counters (hs_shared h))).1]
    (bump_atomic (hs_shared h)) h.
Proof. unfold log_atomic_entry. log_pattern. Qed.

Lemma log_atomic_access_eq type ptr size idx h :
  log_atomic_access junk c md type ptr size idx h =
  log_then type ptr [u64 size; u64 idx] (hs_shared h) h.
Proof. unfold log_atomic_access. log_pattern. Qed.
(** ** Handlers as recorder operations *)

(** A log that did not happen is what ends a handler early. *)
Definition stopped (os : list op) (s : coldtrace_thread * world) (s' : coldtrace_thread * world) : Prop :=
  ∃ os0 type ptr fields s0, os = os0 ++ [OLog type ptr fields] ∧
    run junk c md os0 s = Ret s0 ∧
    log_entry junk c md s0.1 s0.2 type ptr fields = Ret (false, s'.1, s'.2).

Definition tw (h : hstate) : coldtrace_thread * world := (hs_thread h, hs_world h).

(** A handler performs [os]: all of it, or a prefix that ends in a failed log. *)
Definition performs {A} (m : M A) (h : hstate) (os : list op) : Prop :=
  ∀ r h', m h = Ret (r, h') →
  ∃ os1, os1 `prefix_of` os ∧ run junk c md os1 (tw h) = Ret (tw h') ∧
    match r with Some _ => os1 = os | None => stopped os1 (tw h) (tw h') end.

(** Steps that touch neither the thread nor the world. *)
Definition silent {A} (m : M A) : Prop :=
  ∀ h r h', m h = Ret (r, h') → is_Some r ∧ tw h' = tw h.

Lemma run_app os1 os2 s :
  run junk c md (os1 ++ os2) s = let! s' := run junk c md os1 s in run junk c md os2 s'.
Proof.
  revert s. induction os1 as [|o os1 IH]; intros s; cbn [run app]; [done|].
  destruct (exec junk c md o s) as [s1|u|]; simpl; [apply IH|done..].
Qed.

Lemma bind_inv {A A'} (m : M A) (k : A → M A') h r h' :
  bind m k h = Ret (r, h') →
  ∃ r1 h1, m h = Ret (r1, h1) ∧
    match r1 with None => r = None ∧ h' = h1 | Some a => k a h1 = Ret (r, h') end.
Proof.
  unfold bind. destruct (m h) as [[r1 h1]|u|]; simpl; [|done..].
  intros H. exists r1, h1. split; [done|]. destruct r1; [done|]. by simplify_eq.
Qed.

Lemma performs_seq {A A'} (m : M A) (k : A → M A') h os1 os2 :
  performs m h os1 →
  (∀ a h1, m h = Ret (Some a, h1) → performs (k a) h1 os2) →
  performs (bind m k) h (os1 ++ os2).
Proof.
  intros Hm Hk r h' H. apply bind_inv in H as (r1 & h1 & E & H).
  destruct (Hm _ _ E) as (oa & Hpre & Hrun & Hr). destruct r1 as [a|].
  - subst oa. destruct (Hk a h1 E _ _ H) as (ob & Hpre2 & Hrun2 & Hr2).
    exists (os1 ++ ob). split; [destruct Hpre2 as [x ->]; exists x; by rewrite app_assoc|]. split; [by rewrite run_app, Hrun|].
    destruct r; [by subst|]. destruct Hr2 as (o0 & ty & p & fs & s0 & -> & Hr0 & Hlog).
    exists (os1 ++ o0), ty, p, fs, s0. rewrite app_assoc, run_app, Hrun. done.
  - destruct H as [-> ->]. exists oa. split; [by apply prefix_app_r|]. done.
Qed.

Lemma performs_silent {A A'} (m : M A) (k : A → M A') h os :
  silent m → (∀ a h1, m h = Ret (Some a, h1) → performs (k a) h1 os) →
  performs (bind m k) h os.
Proof.
  intros Hm Hk. apply (performs_seq m k h [] os); [|done].
  intros r h' E. destruct (Hm _ _ _ E) as [[a ->] Htw]. exists []. rewrite Htw. done.
Qed.

Lemma performs_ret {A} (a : A) h : performs (ret a) h [].
Proof. intros r h' H. injection H as <- <-. by exists []. Qed.

Lemma exec_log type ptr fields h :
  exec junk c md (OLog type ptr fields) (tw h) =
  let! (r, w) := log_entry junk c md (hs_thread h) (hs_world h) type ptr fields in Ret (r.2, w).
Proof. done. Qed.

Lemma performs_log_then type ptr fields s' h :
  performs (log_then type ptr fields s') h [OLog type ptr fields].
Proof.
  intros r h' H. unfold log_then in H. exists [OLog type ptr fields]. split; [done|].
  cbn [run]. rewrite exec_log.
  destruct (log_entry junk c md (hs_thread h) (hs_world h) type ptr fields) as [[[b th] w]|u|] eqn:E;
    [|done..]. simpl in *. destruct b; simplify_eq; simpl; [done|]. split; [done|].
  exists [], type, ptr, fields, (tw h). done.
Qed.

Lemma performs_eq {A} (m m' : M A) h os : m h = m' h → performs m' h os → performs m h os.
Proof. unfold performs. by intros ->. Qed.

(** The silent steps. *)
Lemma silent_shared {A} (f : shared → A * shared) : silent (on_shared f).
Proof.
  intros h r h' H. unfold on_shared in H. destruct (f (hs_shared h)). by simplify_eq.
Qed.

Lemma silent_area_get i : silent (area_get i).
Proof. intros h r h' H. unfold area_get in H. case_match; by simplify_eq. Qed.

Lemma silent_bind {A A'} (m : M A) (k : A → M A') :
  silent m → (∀ a, silent (k a)) → silent (bind m k).
Proof.
  intros Hm Hk h r h' H. apply bind_inv in H as (r1 & h1 & E & H).
  destruct (Hm _ _ _ E) as [[a ->] <-]. by eapply Hk.
Qed.

Lemma silent_area_release i : silent (area_release i).
Proof. apply silent_bind; [apply silent_area_get|]. intros. apply silent_shared. Qed.

Lemma silent_area_acquire i : silent (area_acquire i).
Proof.
  apply silent_bind; [apply silent_area_get|]. intros a. case_match; [|done].
  apply silent_shared.
Qed.

Lemma silent_fetch addr : silent (fetch_stack_acq addr).
Proof.
  repeat (apply silent_bind; [first [apply silent_area_acquire|apply silent_area_get|apply silent_shared]
    |intros ?]). apply silent_shared.
Qed.

Lemma performs_none (m : M unit) h : silent m → performs m h [].
Proof. intros Hm r h' E. destruct (Hm _ _ _ E) as [[[] ->] Htw]. exists []. by rewrite Htw. Qed.
(** The steps on the thread. *)
Lemma performs_op o (m : M unit) h :
  (∀ r h', m h = Ret (r, h') → is_Some r ∧ exec junk c md o (tw h) = Ret (tw h')) →
  performs m h [o].
Proof.
  intros Hm r h' E. destruct (Hm _ _ E) as [[[] ->] Hex]. exists [o]. split; [done|].
  cbn [run]. by rewrite Hex.
Qed.

Lemma performs_thread_init h : performs (thread_init md) h [OInit].
Proof. apply performs_op. intros r h' E. unfold thread_init, on_thread in E. by simplify_eq/=. Qed.

Lemma performs_thread_fini h : performs (thread_fini c md) h [OFini].
Proof.
  apply performs_op. intros r h' E. unfold thread_fini in E. simpl.
  destruct (coldtrace_thread_fini c md (hs_thread h) (hs_world h)) as [[th w]|u|]; [|done..].
  by simplify_eq/=.
Qed.

Lemma performs_push a h : performs (stacktrace_enter junk md a) h [OPush a].
Proof.
  apply performs_op. intros r h' E. unfold stacktrace_enter in E. simpl.
  destruct (coldtrace_thread_stack_push junk md (hs_thread h) (hs_world h) a) as [[th w]|u|]; [|done..].
  by simplify_eq/=.
Qed.

Lemma performs_pop h : performs (stacktrace_exit md) h [OPop].
Proof. apply performs_op. intros r h' E. unfold stacktrace_exit, on_thread in E. by simplify_eq/=. Qed.

Lemma performs_before_create h :
  performs (before_thread_create md) h
    [OSetCreate (coldtrace_next_atomic_idx (sh_counters (hs_shared h))).1].
Proof.
  apply performs_op. intros r h' E. unfold before_thread_create in E.
  apply bind_inv in E as (r1 & h1 & E1 & E2). unfold next_atomic, on_shared in E1.
  destruct (coldtrace_next_atomic_idx (sh_counters (hs_shared h))) as [i k]. simplify_eq/=.
  unfold on_thread in E2. by simplify_eq/=.
Qed.

Lemma thread_start_entry_eq self stackaddr stacksize h :
  bind (append_or_return_ok junk c md COLDTRACE_THREAD_START self) (fun e =>
  bind next_atomic (fun i => bind (store_field e 8 i) (fun _ =>
  bind (store_field e 16 stackaddr) (fun _ => store_field e 24 stacksize)))) h =
  log_then COLDTRACE_THREAD_START self
    [u64 (coldtrace_next_atomic_idx (sh_counters (hs_shared h))).1; u64 stackaddr; u64 stacksize]
    (bump_atomic (hs_shared h)) h.
Proof. log_pattern. Qed.

Lemma fence_entry_eq pc idx h :
  bind (append_or_return_ok junk c md COLDTRACE_FENCE pc) (fun e => store_field e 8 idx) h =
  log_then COLDTRACE_FENCE pc [u64 idx] (hs_shared h) h.
Proof. log_pattern. Qed.

(** An append whose failure does not end the handler. *)
Lemma performs_log_keep (m : M unit) type ptr fields s' h :
  m h = (let! (r, w) := log_entry junk c md (hs_thread h) (hs_world h) type ptr fields in
         Ret (Some tt, HState (if r.1 : bool then s' else hs_shared h) r.2 w)) →
  performs m h [OLog type ptr fields].
Proof.
  intros E. apply performs_op. intros r h' H. rewrite E in H. rewrite exec_log.
  destruct (log_entry junk c md (hs_thread h) (hs_world h) type ptr fields) as [[[b th] w]|u|];
    [|done..]. by simplify_eq/=.
Qed.

Lemma marker_eq h :
  test_marker junk c md h =
  (let! (r, w) := log_entry junk c md (hs_thread h) (hs_world h) COLDTRACE_TEST_MARKER 0 [] in
   Ret (Some tt, HState (if r.1 : bool then hs_shared h else hs_shared h) r.2 w)).
Proof.
  unfold test_marker, log_entry, append, bind, ret.
  destruct (coldtrace_thread_append _ _ _ _ _ _ _) as [[[[e|] th] w']|u|]; done.
Qed.

Lemma performs_marker h : performs (test_marker junk c md) h [OLog COLDTRACE_TEST_MARKER 0 []].
Proof. eapply performs_log_keep. apply marker_eq. Qed.

Lemma exit_entry_eq self h :
  bind (append junk c md COLDTRACE_THREAD_EXIT self) (fun r =>
    match r with
    | Some e => bind next_atomic (fun i => store_field e 8 i)
    | None => ret tt
    end) h =
  (let! (r, w) := log_entry junk c md (hs_thread h) (hs_world h) COLDTRACE_THREAD_EXIT self
     [u64 (coldtrace_next_atomic_idx (sh_counters (hs_shared h))).1] in
   Ret (Some tt, HState (if r.1 : bool then bump_atomic (hs_shared h) else hs_shared h) r.2 w)).
Proof. log_pattern. Qed.
(** Appending leaves the rest of the thread alone. *)
Definition same_rest (th th' : coldtrace_thread) : Prop :=
  th_created_thread_idx th' = th_created_thread_idx th ∧ th_initd th' = th_initd th.

Lemma entry_store_rest th off bs th' : entry_store th off bs = Ret th' → same_rest th th'.
Proof. intros (b & b' & _ & -> & _)%entry_store_bound. done. Qed.

Lemma append_rest th w type ptr o th' w' :
  coldtrace_thread_append junk c md th w type ptr = Ret (o, th', w') →
  th_created_thread_idx th' = th_created_thread_idx th ∧ th_initd th' = true.
Proof.
  assert (th_created_thread_idx (get_coldtrace_thread md th) = th_created_thread_idx th ∧
    th_initd (get_coldtrace_thread md th) = true) as [<- Hi].
  { unfold get_coldtrace_thread. by destruct (th_initd th) eqn:E. }
  unfold coldtrace_thread_append. rewrite <- Hi. set (t := get_coldtrace_thread md th). clearbody t.
  intros H. enough (same_rest t th') by done.
  destruct (th_failed t); [by simplify_eq|]. inv_outcome.
  case_match; [by simplify_eq|]. case_match.
  - unfold append_plain in H. destruct (coldtrace_writer_new_trace c (th_writer t) r); inv_outcome;
      case_match; inv_outcome; try done;
      match goal with E : entry_store _ _ _ = Ret _ |- _ => apply entry_store_rest in E; done end.
  - unfold append_stack in H. case_match. inv_outcome. case_match; inv_outcome; [|done].
    apply entry_store_rest in E1 as [? ?], E2 as [? ?], E3 as [? ?].
    assert (same_rest r2 r3) as [? ?].
    { destruct (0 <? z0); inv_outcome; [|done]. by eapply entry_store_rest. }
    split; simpl in *; congruence.
Qed.

Lemma create_entry_eq thread h :
  after_thread_create junk c md thread h =
  log_then COLDTRACE_THREAD_CREATE thread [u64 (th_created_thread_idx (hs_thread h))]
    (hs_shared h) h.
Proof.
  unfold after_thread_create, log_then, log_entry, append_or_return_ok, append, bind, ret,
    on_thread, store_field. simpl.
  destruct (coldtrace_thread_append _ _ _ _ _ _ _) as [[[[e|] th] w']|u|] eqn:E; simpl; [|done..].
  apply append_rest in E as [Hc Hi].
  unfold coldtrace_thread_get_create_idx, get_coldtrace_thread. rewrite Hi. simpl. rewrite Hc.
  destruct (entry_store th (e + 8) _); done.
Qed.

Lemma bind_assoc {A A' A''} (m : M A) (k : A → M A') (k' : A' → M A'') h :
  bind m (fun a => bind (k a) k') h = bind (bind m k) k' h.
Proof. unfold bind. destruct (m h) as [[[a|] h1]|u|]; done. Qed.

Lemma performs_rel_one type addr sz h :
  performs (rel_log_one junk c md type addr sz) h
    [OLog type addr [u64 sz; u64 (idx_at (hs_shared h) addr)]].
Proof.
  apply performs_silent; [apply silent_area_get|]. intros a h1 E.
  unfold area_get in E. unfold idx_at. case_match; simplify_eq. simpl.
  apply performs_silent; [apply silent_area_release|]. intros [] h2 _.
  eapply performs_eq; [apply log_atomic_access_eq|]. apply performs_log_then.
Qed.

Lemma performs_rel_fence pc h :
  performs (rel_log_fence junk c md pc) h [OLog COLDTRACE_FENCE pc [u64 (idx_at (hs_shared h) pc)]].
Proof.
  apply performs_silent; [apply silent_area_get|]. intros a h1 E.
  unfold area_get in E. unfold idx_at. case_match; simplify_eq. simpl.
  apply performs_silent; [apply silent_area_release|]. intros [] h2 _.
  eapply performs_eq; [apply fence_entry_eq|]. apply performs_log_then.
Qed.

Lemma performs_two addr sz i j h :
  performs (bind (log_atomic_access junk c md COLDTRACE_ATOMIC_READ addr sz i) (fun _ =>
    log_atomic_access junk c md COLDTRACE_ATOMIC_WRITE addr sz j)) h
    [OLog COLDTRACE_ATOMIC_READ addr [u64 sz; u64 i]; OLog COLDTRACE_ATOMIC_WRITE addr [u64 sz; u64 j]].
Proof.
  apply (performs_seq _ _ h [_] [_]); [|intros [] h1 _];
    (eapply performs_eq; [apply log_atomic_access_eq|]; apply performs_log_then).
Qed.

Lemma performs_rel_rw addr sz h :
  performs (rel_log_rw junk c md addr sz) h
    [OLog COLDTRACE_ATOMIC_READ addr [u64 sz; u64 (idx_at (hs_shared h) addr)];
     OLog COLDTRACE_ATOMIC_WRITE addr
       [u64 sz; u64 (coldtrace_next_atomic_idx (sh_counters (hs_shared h))).1]].
Proof.
  apply performs_silent; [apply silent_area_get|]. intros a h1 E.
  unfold area_get in E. unfold idx_at. case_match; simplify_eq. simpl.
  apply performs_silent; [apply silent_shared|]. intros j h2 E2.
  unfold next_atomic, on_shared in E2.
  destruct (coldtrace_next_atomic_idx _) as [j' k]. simplify_eq/=.
  apply performs_silent; [apply silent_area_release|]. intros [] h3 _. apply performs_two.
Qed.

Lemma performs_rel_rw_cond addr sz ok h :
  performs (rel_log_rw_cond junk c md addr sz ok) h
    (OLog COLDTRACE_ATOMIC_READ addr [u64 sz; u64 (idx_at (hs_shared h) addr)] ::
     if ok then [OLog COLDTRACE_ATOMIC_WRITE addr
                   [u64 sz; u64 (coldtrace_next_atomic_idx (sh_counters (hs_shared h))).1]]
     else []).
Proof.
  unfold rel_log_rw_cond.
  assert (silent (if ok then next_atomic else ret 0)) as Hs.
  { destruct ok; [apply silent_shared|]. intros h0 r h' E. injection E as <- <-. done. }
  apply performs_silent; [done|]. intros j h1 E1.
  assert (sh_areas (hs_shared h1) = sh_areas (hs_shared h) ∧
    (ok = true → j = (coldtrace_next_atomic_idx (sh_counters (hs_shared h))).1)) as [Ha Hj].
  { destruct ok; unfold next_atomic, on_shared, ret in E1; [|by simplify_eq].
    destruct (coldtrace_next_atomic_idx _) as [j' k]. by simplify_eq/=. }
  apply performs_silent; [apply silent_area_get|]. intros a h2 E.
  unfold area_get in E. rewrite Ha in E. unfold idx_at. case_match; simplify_eq. simpl.
  apply performs_silent; [apply silent_area_release|]. intros [] h3 _.
  destruct ok; [rewrite <- Hj by done; apply performs_two|].
  apply (performs_seq _ _ h3 [_] []); [|intros [] h4 _; apply performs_ret].
  eapply performs_eq; [apply log_atomic_access_eq|]. apply performs_log_then.
Qed.

Lemma performs_self_fini is_main self h :
  performs (self_fini junk c md is_main self) h
    (if is_main then
       [OLog COLDTRACE_THREAD_EXIT self [u64 (coldtrace_next_atomic_idx (sh_counters (hs_shared h))).1];
        OFini]
     else [OFini]).
Proof.
  unfold self_fini. destruct is_main; [|apply performs_thread_fini].
  eapply performs_eq; [apply bind_assoc|].
  apply (performs_seq _ _ h [_] [_]); [|intros [] h1 _].
  - eapply performs_log_keep. apply exit_entry_eq.
  - apply (performs_seq _ _ h1 [_] []); [apply performs_thread_fini|intros; apply performs_ret].
Qed.

Lemma performs_thread_start self a z h :
  performs (thread_start junk c md self a z) h
    [OInit; OLog COLDTRACE_THREAD_START self
      [u64 (coldtrace_next_atomic_idx (sh_counters (hs_shared h))).1; u64 a; u64 z]].
Proof.
  apply (performs_seq _ _ h [_] [_]); [apply performs_thread_init|]. intros [] h1 E.
  unfold thread_init, on_thread in E. simplify_eq/=.
  eapply performs_eq; [apply thread_start_entry_eq|]. apply performs_log_then.
Qed.

Ltac solve_handler :=
  lazymatch goal with
  | |- performs (ret _) _ _ => apply performs_ret
  | |- performs (log_alloc_entry _ _ _ _ _ _ _) _ _ =>
      eapply performs_eq; [apply log_alloc_entry_eq|apply performs_log_then]
  | |- performs (log_free_entry _ _ _ _ _) _ _ =>
      eapply performs_eq; [apply log_free_entry_eq|apply performs_log_then]
  | |- performs (log_access_entry _ _ _ _ _ _ _) _ _ =>
      eapply performs_eq; [apply log_access_entry_eq|apply performs_log_then]
  | |- performs (log_atomic_entry _ _ _ _ _) _ _ =>
      eapply performs_eq; [apply log_atomic_entry_eq|apply performs_log_then]
  | |- performs (after_thread_create _ _ _ _) _ _ =>
      eapply performs_eq; [apply create_entry_eq|apply performs_log_then]
  | |- performs (test_marker _ _ _) _ _ => apply performs_marker
  | |- performs (thread_start _ _ _ _ _ _) _ _ => apply performs_thread_start
  | |- performs (self_fini _ _ _ _ _) _ _ => apply performs_self_fini
  | |- performs (before_thread_create _) _ _ => apply performs_before_create
  | |- performs (stacktrace_enter _ _ _) _ _ => apply performs_push
  | |- performs (stacktrace_exit _) _ _ => apply performs_pop
  | |- performs (fetch_stack_acq _) _ _ => apply performs_none, silent_fetch
  | |- performs (rel_log_one _ _ _ _ _ _) _ _ => apply performs_rel_one
  | |- performs (rel_log_fence _ _ _ _) _ _ => apply performs_rel_fence
  | |- performs (rel_log_rw _ _ _ _ _) _ _ => apply performs_rel_rw
  | |- performs (rel_log_rw_cond _ _ _ _ _ _) _ _ => apply performs_rel_rw_cond
  end.

(** Every subscriber performs the operations of its event. *)
Lemma subscriber_performs ev h :
  performs (subscriber junk c md ev) h (capture_ops (hs_shared h) (hs_thread h) ev).
Proof.
  destruct ev; cbn [subscriber capture_ops]; autounfold with subs;
    repeat match goal with |- context [if ?b =? 0 then _ else _] => destruct (b =? 0) end;
    solve_handler.
Qed.

(** ** The trace of a thread *)

Lemma op_ok_log t p fs :
  (0 <=? t) && (t <? 256) && (base_type t <? COLDTRACE_END_)
    && (length fs =? field_count (base_type t))%nat = true →
  Forall is_u64 fs → op_ok (OLog t p fs).
Proof.
  rewrite !andb_true_iff, Z.leb_le, !Z.ltb_lt, Nat.eqb_eq. intros [[[? ?] ?] ?] Hf.
  split; done || ulia.
Qed.

(** Every subscriber passes a defined type and exactly the fields of the struct. *)
Lemma capture_requests_ok s th ev : Forall op_ok (capture_ops s th ev).
Proof.
  destruct ev; cbn [capture_ops]; unfold read_type;
    repeat match goal with
    | |- context [if ?b then _ else _] => destruct b
    | |- Forall op_ok [] => constructor
    | |- Forall op_ok (_ :: _) => constructor
    | |- op_ok (OLog _ _ _) => apply op_ok_log; [reflexivity|repeat constructor; apply u64_range]
    | |- op_ok _ => exact I
    end.
Qed.

(** Only logs follow a log that can end a handler early. *)
Definition is_log (o : op) : Prop := match o with OLog _ _ _ => True | _ => False end.

Lemma self_fini_ends is_main self h r h' :
  subscriber junk c md (C_self_fini is_main self) h = Ret (r, h') → is_Some r.
Proof.
  cbn [subscriber]. unfold self_fini, coldtrace_main_thread_fini, ret.
  assert (∀ h r h', thread_fini c md h = Ret (r, h') → is_Some r) as Hf.
  { intros h0 r0 h0' H. unfold thread_fini in H. inv_outcome. by eexists. }
  destruct is_main; [|apply Hf]. intros H.
  apply bind_inv in H as (r1 & h1 & H1 & H). unfold append in H1. inv_outcome.
  apply bind_inv in H as (r2 & h2 & H2 & H). destruct r2 as [[]|].
  - apply bind_inv in H as (r3 & h3 & H3 & H). apply Hf in H3 as [[] ->]. simplify_eq. by eexists.
  - exfalso. destruct p.1; [|by unfold ret in H2].
    unfold bind, next_atomic, on_shared, store_field in H2. destruct (coldtrace_next_atomic_idx _).
    simpl in H2. inv_outcome.
Qed.

Lemma logs_after_log s th ev os0 ty p fs os2 :
  capture_ops s th ev = (os0 ++ [OLog ty p fs]) ++ os2 →
  Forall is_log os2 ∨ ∃ is_main self, ev = C_self_fini is_main self.
Proof.
  rewrite <- app_assoc. intros H.
  destruct ev; try (right; by eauto); left; cbn [capture_ops] in H; repeat case_match;
    repeat (destruct os0 as [|? os0]; simplify_list_eq; try by repeat constructor).
Qed.

Lemma handle_performs ev s th w h' :
  handle junk c md ev (HState s th w) = Ret h' →
  ∃ os1 os2, capture_ops s th ev = os1 ++ os2 ∧ run junk c md os1 (th, w) = Ret (tw h') ∧
    (os2 = [] ∨ stopped os1 (th, w) (tw h') ∧ Forall is_log os2).
Proof.
  intros H. unfold handle, handler in H.
  destruct (subscriber junk c md ev (HState s th w)) as [[r h1]|u|] eqn:E; [|done..].
  simpl in H. simplify_eq. destruct (subscriber_performs ev _ _ _ E) as (os1 & [os2 Hos] & Hrun & Hr).
  simpl in Hos. destruct r.
  - exists os1, []. split; [by rewrite app_nil_r|]. auto.
  - exists os1, os2. do 2 (split; [done|]). right. split; [done|].
    destruct Hr as (os0 & ty & p & fs & s0 & -> & _). apply logs_after_log in Hos as [?|(b & self & ->)]; [done|].
    apply self_fini_ends in E as [? ?]. done.
Qed.

(** One handler against the recorder: it makes the steps of its event's operations,
    those that a handler which returns early no longer asks for included, since
    the recorder ignores them. *)
Context `{!Lz4Laws L}.

Lemma spec_run_app os1 os2 a b d :
  spec_run os1 a b → spec_run os2 b d → spec_run (os1 ++ os2) a d.
Proof. induction 1; intros; simpl; [done|]. econstructor; eauto. Qed.

Lemma spec_logs_off os a : Forall is_log os → re_stuck a || re_mute a = true → spec_run os a a.
Proof.
  intros Hos Ha. induction Hos as [|o os Ho _ IH]; [constructor|]. econstructor; [|exact IH].
  destruct o; try done. destruct a. by apply sp_log_off.
Qed.

(** A handler that a failed log ended leaves a recorder that records nothing more. *)
Lemma stopped_off os s s' a a' :
  implements s a → config_ok c → Forall op_ok os → stopped os s s' → implements s' a' →
  re_stuck a' || re_mute a' = true.
Proof.
  intros Him Hc Hok (os0 & ty & p & fs & [th0 w0] & -> & Hrun0 & Hl) Him'. simpl in Hl.
  apply Forall_app in Hok as [Hok0 [Ho _]%Forall_cons].
  destruct (simulate_run junk c md os0 _ _ a Him Hc Hok0 Hrun0) as (a0 & _ & (fr & cu & Htr & _)).
  apply (log_spec _ _ _ _ _ _ _ _ _ _ _ _ _ Htr Hc Ho) in Hl as [(_ & _ & _ & Hi & _) Hd].
  destruct Him' as (fr' & cu' & _ & _ & _ & _ & Ek & Em). simpl in *.
  apply orb_true_iff. destruct (Hd eq_refl) as [Hf|Hf]; [left; congruence|right].
  apply Em. by split.
Qed.

Lemma performed_simulates os1 os2 s s' a :
  implements s a → config_ok c → Forall op_ok (os1 ++ os2) → run junk c md os1 s = Ret s' →
  (os2 = [] ∨ stopped os1 s s' ∧ Forall is_log os2) →
  ∃ a', spec_run (os1 ++ os2) a a' ∧ implements s' a'.
Proof.
  intros Him Hc [Hok1 _]%Forall_app Hrun Hr.
  destruct (simulate_run junk c md os1 _ _ a Him Hc Hok1 Hrun) as (a' & Hsp & Him').
  exists a'. split; [|done]. eapply spec_run_app; [done|].
  destruct Hr as [->|[Hr Hlog]]; [constructor|]. apply spec_logs_off; [done|].
  exact (stopped_off _ _ _ _ _ Him Hc Hok1 Hr Him').
Qed.

Lemma handle_simulates ev s th w h' a :
  implements (th, w) a → config_ok c → handle junk c md ev (HState s th w) = Ret h' →
  ∃ a', spec_run (capture_ops s th ev) a a' ∧ implements (tw h') a'.
Proof.
  intros Him Hc (os1 & os2 & Hos & Hrun & Hr)%handle_performs. rewrite Hos.
  eapply performed_simulates; try done. rewrite <- Hos. apply capture_requests_ok.
Qed.

(** The events of a thread one after the other, with whatever the other threads
    have done to the shared state in between; the operations they stand for. *)
Inductive traced : coldtrace_thread * world → list op → coldtrace_thread * world → Prop :=
| tr_nil s : traced s [] s
| tr_cons th w s ev h' os s' :
    handle junk c md ev (HState s th w) = Ret h' → traced (tw h') os s' →
    traced (th, w) (capture_ops s th ev ++ os) s'.

Lemma traced_simulates s os s' :
  traced s os s' → config_ok c → ∀ a, implements s a → ∃ a', spec_run os a a' ∧ implements s' a'.
Proof.
  intros Htr Hc. induction Htr as [s|th w sh ev h' os s' Hh Htr IH]; intros a Him.
  - exists a. split; [constructor|done].
  - destruct (handle_simulates _ _ _ _ _ _ Him Hc Hh) as (a1 & Hsp1 & Him1).
    destruct (IH a1 Him1) as (a' & Hsp & Him'). exists a'. split; [by eapply spec_run_app|done].
Qed.

(** The same, as a function. *)
Fixpoint trace_events (evs : list (shared * capture)) (s : coldtrace_thread * world) :
    outcome (list op * (coldtrace_thread * world)) :=
  match evs with
  | [] => Ret ([], s)
  | (sh, ev) :: evs =>
      let! h := handle junk c md ev (HState sh s.1 s.2) in
      let! (os, s') := trace_events evs (tw h) in
      Ret (capture_ops sh s.1 ev ++ os, s')
  end.

Lemma trace_events_traced evs : ∀ s os s', trace_events evs s = Ret (os, s') → traced s os s'.
Proof.
  induction evs as [|[sh ev] evs IH]; intros [th w] os s' H; cbn [trace_events] in H.
  - simplify_eq. constructor.
  - apply obind_Ret_inv in H as (h & Eh & H). apply obind_Ret_inv in H as ([os1 s1] & Es & H).
    simplify_eq. econstructor; [exact Eh|]. by apply IH.
Qed.

Lemma spec_run_nil_inv a b : spec_run [] a b → a = b.
Proof. by inversion 1. Qed.

Lemma start_run_inv ty p fs a :
  spec_run [OInit; OLog ty p fs] recorder0 a → re_stuck a = false → re_mute a = false →
  re_stack a = [] ∧ re_closed a ++ re_cur a = [event_on [] ty p fs].
Proof.
  inversion 1 as [|o os a1 b d Hs Hr]; subst. inversion Hs; subst.
  inversion Hr as [|o os a1 b2 d Hs2 Hr2]; subst. apply spec_run_nil_inv in Hr2 as ->.
  inversion Hs2; subst; done.
Qed.

(** The life of a traced thread.  After its THREAD_START event, any sequence
    of subscribed events, interleaved with arbitrary changes other threads make
    to the shared counters and areas, leaves a trace that, once the thread is
    finished, decodes to exactly the entries the events stand for, in order and
    with their full call stacks, provided that no allocation or file operation
    of the thread failed. *)
Theorem thread_trace_complete self stackaddr stacksize sh w h1 os th w1 :
  w_closed w = [] → config_ok c →
  handle junk c md (C_thread_start self stackaddr stacksize) (HState sh zero_thread w) = Ret h1 →
  traced (tw h1) os (th, w1) → Forall traced_op os →
  th_failed th = false → ¬ muted th →
  ∃ th2 w2 frags, coldtrace_thread_fini c md th w1 = Ret (th2, w2) ∧
    closed_frags w2 = frag_bytes <$> frags ∧ frags_ok frags ∧
    closed_events frags =
      event_on [] COLDTRACE_THREAD_START self
        [u64 (coldtrace_next_atomic_idx (sh_counters sh)).1; u64 stackaddr; u64 stacksize]
      :: ideal [] os.
Proof.
  intros Hw Hc Hstart Htr Hos Hf Hm.
  destruct (handle_simulates _ _ _ _ _ _ (implements_zero w Hw) Hc Hstart) as (a1 & Hsp1 & Him1).
  destruct (traced_simulates _ _ _ Htr Hc a1 Him1)
    as (a & Hrun & (fr & cur & Hok & Est & Ecl & Ecu & Ek & Em)).
  simpl in *. rewrite Hf in Ek.
  assert (re_mute a = false) as Hm' by (destruct (re_mute a); [|done]; destruct Hm; by apply Em).
  destruct (spec_run_ideal _ _ _ Hrun Hos Ek Hm') as (Hk1 & Hm1 & E).
  destruct (start_run_inv _ _ _ _ Hsp1 Hk1 Hm1) as [Es1 Ee1].
  rewrite app_assoc, Ee1, Es1 in E.
  destruct (fini_trace_ok c md th w1 fr cur Hok Hc) as (th2 & w2 & Efini & Hcl).
  destruct (trace_ok_close _ _ _ _ [] (closed_frags w2) Hok) as (frags & Hcl' & Hev & Hf');
    [by left|by rewrite app_nil_r|].
  exists th2, w2, frags. do 3 (split; [done|]). by rewrite Hev, <- Ecl, <- Ecu, E.
Qed.

End Subscribers.

Section Demo.
#[local] Existing Instance demo_build.

Definition demo_shared : shared :=
  Shared (Counters 0 0) (replicate 128 (Area CASLOCK_INIT 0)).

(** A call that allocates, zeroes a word, reads it back and updates it atomically;
    the counters have moved on between the events. *)
Definition demo_events : list (shared * capture) :=
  let held := Shared (Counters 5 9) (replicate 128 (Area true 9)) in
  [ (demo_shared, C_stacktrace_enter 100); (demo_shared, C_after_malloc 32 0x7f0040 100);
    (demo_shared, C_ma_write 0x7f0040 8 101); (demo_shared, C_stacktrace_enter 102);
    (demo_shared, C_ma_read 0x7f0040 8 0 103); (demo_shared, C_before_rmw 0x7f0040);
    (held, C_after_rmw 0x7f0040 4); (demo_shared, C_stacktrace_exit);
    (demo_shared, C_after_mutex_lock 0 0x7f0080); (demo_shared, C_before_free 0x7f0040 104) ].

Lemma thread_trace_complete_witness :
  ∃ h1 os th w1 th2 w2 frags,
    handle zero_junk demo_config96 7 (C_thread_start 1 2 3) (HState demo_shared zero_thread demo_world)
      = Ret h1 ∧
    traced zero_junk demo_config96 7 (tw h1) os (th, w1) ∧
    coldtrace_thread_fini demo_config96 7 th w1 = Ret (th2, w2) ∧
    closed_frags w2 = frag_bytes <$> frags ∧
    closed_events frags = event_on [] COLDTRACE_THREAD_START 1 [0; 2; 3] :: ideal [] os.
Proof.
  pose (r1 := handle zero_junk demo_config96 7 (C_thread_start 1 2 3)
                (HState demo_shared zero_thread demo_world)).
  pose (r := let! h := r1 in trace_events zero_junk demo_config96 7 demo_events (tw h)).
  assert (match r with
          | Ret (os, (th, w1)) => forallb (fun o => match o with OInit | OFini => false | _ => true end) os
              && negb (th_failed th) && match wi_buffer (th_writer th) with Some _ => true | None => false end
          | _ => false end = true) as Hr by (vm_compute; reflexivity).
  destruct r1 as [h1|u|] eqn:E1; subst r1; [|discriminate Hr..]. simpl in r.
  destruct r as [[os [th w1]]|u|] eqn:E; subst r; [|discriminate Hr..].
  apply andb_true_iff in Hr as [Hr Hb]. apply andb_true_iff in Hr as [Hos Hf].
  assert (Forall traced_op os) as Hos'.
  { clear -Hos. induction os as [|o os IH]; [constructor|]. apply andb_true_iff in Hos as [Ho Hos].
    constructor; [by destruct o|auto]. }
  destruct (thread_trace_complete zero_junk demo_config96 7 1 2 3 demo_shared demo_world h1 os th w1)
    as (th2 & w2 & frags & H1 & H2 & _ & H3);
    [reflexivity|apply demo_config_ok|exact E1|by apply (trace_events_traced _ _ _ demo_events)
    |exact Hos'|by destruct (th_failed th)| |].
  { intros [_ (Hn & _)]. by rewrite Hn in Hb. }
  exists h1, os, th, w1, th2, w2, frags. split; [exact E1|].
  split; [by apply (trace_events_traced _ _ _ demo_events)|]. split; [exact H1|]. split; [exact H2|exact H3].
Defined.
End Demo.
