(* ===== verification/Atomics.v ===== *)
(** * The order of atomic accesses (subs_tsan.c)

    Every atomic access is bracketed by two events.  The first takes the lock of
    the area of the address and draws an index under it, the second reads the
    index, releases the lock and logs.  This file runs the handlers of several
    threads as a transition system and shows that the indices in the trace order
    the accesses to an area the way they happened.  It also shows that every
    handler returns. *)

From stdpp Require Import base list numbers strings gmap.
From Stdlib Require Import ZArith Lia Sorted.
From S2P Require Import Prelude Version Counters Entries Libc Utils Config Codec Lz4 Writer Thread Trace Recorder Subs Subscribers.

(** The address an event brackets. *)
Definition before_addr (ev : capture) : option Z :=
  match ev with
  | C_before_aread addr | C_before_awrite addr | C_before_rmw addr | C_before_xchg addr
  | C_before_cmpxchg addr | C_before_fence addr => Some addr
  | _ => None
  end.

Definition after_addr (ev : capture) : option Z :=
  match ev with
  | C_after_aread addr _ | C_after_awrite addr _ | C_after_rmw addr _ | C_after_xchg addr _
  | C_after_cmpxchg addr _ _ | C_after_fence addr => Some addr
  | _ => None
  end.

(** Whether the second event draws an index of its own for the write. *)
Definition draws (ev : capture) : bool :=
  match ev with
  | C_after_rmw _ _ | C_after_xchg _ _ => true
  | C_after_cmpxchg _ _ ok => ok
  | _ => false
  end.

Lemma StronglySorted_snoc {A} (R : A → A → Prop) l x :
  StronglySorted R l → Forall (fun y => R y x) l → StronglySorted R (l ++ [x]).
Proof.
  induction 1 as [|y l _ IH Hy]; intros Hx; simpl; [by repeat constructor|].
  apply Forall_cons in Hx as [Hyx Hx]. constructor; [by apply IH|].
  apply Forall_app. split; [done|by apply Forall_singleton].
Qed.

Lemma get_area_lt addr : (get_area addr < 128)%nat.
Proof.
  unfold get_area, AREAS. pose proof (Z.mod_pos_bound (Z.shiftr (u64 addr) AREA_SHIFT) 128). lia.
Qed.

Section Effects.
Context `{B : BuildInfo, L : Lz4, V : Vsync, !VsyncLaws V} (junk : nat → Z) (c : config).

(** ** What a handler does to the shared state *)

(** The events that are no atomic accesses leave the areas alone and draw at most
    one index. *)
Definition shared_step (s s' : shared) : Prop :=
  s' = s ∨ s' = bump_alloc s ∨ s' = bump_atomic s.

Definition tame {A} (m : M A) : Prop :=
  ∀ h r h', m h = Ret (r, h') → shared_step (hs_shared h) (hs_shared h').

Definition same_shared {A} (m : M A) : Prop :=
  ∀ h r h', m h = Ret (r, h') → hs_shared h' = hs_shared h.

Lemma tame_same {A} (m : M A) : same_shared m → tame m.
Proof. intros Hm h r h' E. left. by eapply Hm. Qed.

Lemma tame_bind_l {A A'} (m : M A) (k : A → M A') :
  same_shared m → (∀ a, tame (k a)) → tame (bind m k).
Proof.
  intros Hm Hk h r h' E. apply bind_inv in E as (r1 & h1 & E1 & E). apply Hm in E1.
  destruct r1; [|destruct E as [_ ->]; by left]. rewrite <- E1. by eapply Hk.
Qed.

Lemma tame_bind_r {A A'} (m : M A) (k : A → M A') :
  tame m → (∀ a, same_shared (k a)) → tame (bind m k).
Proof.
  intros Hm Hk h r h' E. apply bind_inv in E as (r1 & h1 & E1 & E). apply Hm in E1.
  destruct r1; [|by destruct E as [_ ->]]. by rewrite (Hk _ _ _ _ E).
Qed.

Lemma same_bind {A A'} (m : M A) (k : A → M A') :
  same_shared m → (∀ a, same_shared (k a)) → same_shared (bind m k).
Proof.
  intros Hm Hk h r h' E. apply bind_inv in E as (r1 & h1 & E1 & E). apply Hm in E1.
  destruct r1; [|by destruct E as [_ ->]]. by rewrite (Hk _ _ _ _ E).
Qed.

Lemma same_ret {A} (a : A) : same_shared (ret a).
Proof. intros h r h' E. by injection E as <- <-. Qed.

Lemma same_thread {A} (f : coldtrace_thread → A * coldtrace_thread) : same_shared (on_thread f).
Proof. intros h r h' E. unfold on_thread in E. destruct (f (hs_thread h)). by simplify_eq/=. Qed.

Lemma same_fini md : same_shared (thread_fini c md).
Proof. intros h r h' E. unfold thread_fini in E. inv_outcome. done. Qed.

Lemma same_enter md a : same_shared (stacktrace_enter junk md a).
Proof. intros h r h' E. unfold stacktrace_enter in E. inv_outcome. done. Qed.

Lemma same_append md type ptr : same_shared (append junk c md type ptr).
Proof. intros h r h' E. unfold append in E. inv_outcome. done. Qed.

Lemma same_append_or md type ptr : same_shared (append_or_return_ok junk c md type ptr).
Proof.
  apply same_bind; [apply same_append|]. intros [e|]; [apply same_ret|]. intros h r h' E. by simplify_eq.
Qed.

Lemma same_store e off v : same_shared (store_field e off v).
Proof. intros h r h' E. unfold store_field in E. inv_outcome. done. Qed.

Lemma tame_next_alloc : tame next_alloc.
Proof.
  intros h r h' E. unfold next_alloc, on_shared in E. right. left. unfold bump_alloc.
  destruct (coldtrace_next_alloc_idx _). by simplify_eq/=.
Qed.

Lemma tame_next_atomic : tame next_atomic.
Proof.
  intros h r h' E. unfold next_atomic, on_shared in E. do 2 right. unfold bump_atomic.
  destruct (coldtrace_next_atomic_idx _). by simplify_eq/=.
Qed.

End Effects.

Ltac solve_same :=
  repeat match goal with
  | |- same_shared (ret _) => apply same_ret
  | |- same_shared (on_thread _) => apply same_thread
  | |- same_shared (thread_fini _ _) => apply same_fini
  | |- same_shared (stacktrace_enter _ _ _) => apply same_enter
  | |- same_shared (append _ _ _ _ _) => apply same_append
  | |- same_shared (append_or_return_ok _ _ _ _ _) => apply same_append_or
  | |- same_shared (store_field _ _ _) => apply same_store
  | |- same_shared (bind _ _) => apply same_bind; [|intros ?]
  end.

Section Atomics.
Context `{B : BuildInfo, L : Lz4, V : Vsync, !VsyncLaws V} (junk : nat → Z) (c : config).

(** At most one step of the handler draws an index. *)
Ltac solve_tame :=
  repeat match goal with
  | |- tame next_alloc => apply tame_next_alloc
  | |- tame next_atomic => apply tame_next_atomic
  | |- tame (if ?b then _ else _) => destruct b
  | |- tame (match ?x with Some _ => _ | None => _ end) => destruct x
  | |- tame (bind ?m _) => first
      [ apply tame_bind_l; [solve [solve_same]|intros ?]
      | apply tame_bind_r; [|solve [intros ?; solve_same]] ]
  | |- tame _ => apply tame_same; solve [solve_same]
  end.

Lemma subscriber_tame md ev :
  before_addr ev = None → after_addr ev = None → tame (subscriber junk c md ev).
Proof.
  destruct ev; try done; intros _ _; cbn [subscriber];
    autounfold with subs subs_log; solve_tame.
Qed.

(** ** The two events of an atomic access *)

Lemma area_get_inv i h r h' :
  area_get i h = Ret (r, h') → ∃ a, r = Some a ∧ h' = h ∧ sh_areas (hs_shared h) !! i = Some a.
Proof. unfold area_get. case_match; intros; simplify_eq. eauto. Qed.

Lemma fetch_shared addr h r h' :
  fetch_stack_acq addr h = Ret (r, h') →
  ∃ a l, sh_areas (hs_shared h) !! get_area addr = Some a ∧ caslock_acquire (area_lock a) = Some l ∧
    hs_shared h' = Shared (coldtrace_next_atomic_idx (sh_counters (hs_shared h))).2
      (<[get_area addr := Area l (coldtrace_next_atomic_idx (sh_counters (hs_shared h))).1]>
         (sh_areas (hs_shared h))).
Proof.
  unfold fetch_stack_acq, area_acquire. set (i := get_area addr). intros H.
  apply bind_inv in H as (r1 & h1 & H1 & H).
  apply bind_inv in H1 as (r0 & h0 & (a & -> & -> & Ha)%area_get_inv & H1).
  destruct (caslock_acquire (area_lock a)) as [l|] eqn:El; [|done].
  unfold area_set, on_shared in H1. simplify_eq/=. exists a, l. do 2 (split; [done|]).
  unfold bind, next_atomic, area_get, area_set, on_shared in H. simpl in H.
  destruct (coldtrace_next_atomic_idx (sh_counters (hs_shared h))) as [n k]. simpl in *.
  apply lookup_lt_Some in Ha. rewrite list_lookup_insert_eq in H by done. simplify_eq/=.
  by rewrite list_insert_insert_eq.
Qed.

Lemma release_shared i h r h' :
  area_release i h = Ret (r, h') →
  ∃ a, r = Some tt ∧ sh_areas (hs_shared h) !! i = Some a ∧
    hs_shared h' = Shared (sh_counters (hs_shared h))
      (<[i := Area (caslock_release (area_lock a)) (area_idx_a a)]> (sh_areas (hs_shared h))).
Proof.
  intros H. apply bind_inv in H as (r0 & h0 & (a & -> & -> & Ha)%area_get_inv & H).
  unfold area_set, on_shared in H. simplify_eq/=. by exists a.
Qed.

Lemma same_atomic_access md type ptr size idx :
  same_shared (log_atomic_access junk c md type ptr size idx).
Proof. unfold log_atomic_access. solve_same. Qed.

(** The effect of the second event, whether or not its logs succeed. *)
Definition released (s : shared) (addr : Z) (draw : bool) (s' : shared) : Prop :=
  ∃ a, sh_areas s !! get_area addr = Some a ∧
    s' = Shared (if draw then (coldtrace_next_atomic_idx (sh_counters s)).2 else sh_counters s)
           (<[get_area addr := Area (caslock_release (area_lock a)) (area_idx_a a)]> (sh_areas s)).

Lemma release_then_log {A} addr h r h' (k : unit → M A) :
  (∀ a, same_shared (k a)) → bind (area_release (get_area addr)) k h = Ret (r, h') →
  released (hs_shared h) addr false (hs_shared h').
Proof.
  intros Hk H. apply bind_inv in H as (r1 & h1 & (a & -> & Ha & Hs)%release_shared & H).
  apply Hk in H. rewrite H, Hs. by exists a.
Qed.

Lemma draw_then_release {A} addr h r h' (k : Z → M A) :
  (∀ i h1 r' h', k i h1 = Ret (r', h') → released (hs_shared h1) addr false (hs_shared h')) →
  bind next_atomic k h = Ret (r, h') → released (hs_shared h) addr true (hs_shared h').
Proof.
  intros Hk H. apply bind_inv in H as (r1 & h1 & H1 & H). unfold next_atomic, on_shared in H1.
  unfold released. destruct (coldtrace_next_atomic_idx (sh_counters (hs_shared h))) as [n k0].
  simplify_eq/=. apply Hk in H as (a & Ha & Hs). by exists a.
Qed.

Lemma after_shared md ev addr h r h' :
  after_addr ev = Some addr → subscriber junk c md ev h = Ret (r, h') →
  released (hs_shared h) addr (draws ev) (hs_shared h').
Proof.
  destruct ev; try done; intros [= ->] H; cbn [subscriber draws] in *; autounfold with subs subs_log in H;
    cbv zeta in H.
  - apply bind_inv in H as (r1 & h1 & (a & -> & -> & Ha)%area_get_inv & H).
    eapply release_then_log; [|exact H]. intros []. apply same_atomic_access.
  - apply bind_inv in H as (r1 & h1 & (a & -> & -> & Ha)%area_get_inv & H).
    eapply release_then_log; [|exact H]. intros []. apply same_atomic_access.
  - apply bind_inv in H as (r1 & h1 & (a & -> & -> & Ha)%area_get_inv & H).
    eapply draw_then_release; [|exact H]. intros i h1 r' h2 H1. eapply release_then_log; [|exact H1].
    intros []. apply same_bind; intros; apply same_atomic_access.
  - apply bind_inv in H as (r1 & h1 & (a & -> & -> & Ha)%area_get_inv & H).
    eapply draw_then_release; [|exact H]. intros i h1 r' h2 H1. eapply release_then_log; [|exact H1].
    intros []. apply same_bind; intros; apply same_atomic_access.
  - assert (∀ i h1 r' h', bind (area_get (get_area addr)) (fun a =>
      bind (area_release (get_area addr)) (fun _ =>
      bind (log_atomic_access junk c md COLDTRACE_ATOMIC_READ addr size (area_idx_a a)) (fun _ =>
      if ok then log_atomic_access junk c md COLDTRACE_ATOMIC_WRITE addr size i else ret tt))) h1
      = Ret (r', h') → released (hs_shared h1) addr false (hs_shared h')) as Hk.
    { intros i h1 r' h2 H1. apply bind_inv in H1 as (r1 & h0 & (a & -> & -> & Ha)%area_get_inv & H1).
      eapply release_then_log; [|exact H1]. intros []. apply same_bind; [apply same_atomic_access|].
      intros []. destruct ok; [apply same_atomic_access|apply same_ret]. }
    destruct ok.
    + eapply draw_then_release; [|exact H]. done.
    + unfold bind at 1, ret at 1 in H. by eapply Hk.
  - apply bind_inv in H as (r1 & h1 & (a & -> & -> & Ha)%area_get_inv & H).
    eapply release_then_log; [|exact H]. intros []. solve_same.
Qed.

(** ** Threads interleaved *)

(** The threads run their handlers one at a time; [sy_pending] holds, for each
    thread between the two events of an access, the address and the index it has
    drawn, [sy_done] the area and the logged indices of the finished accesses. *)
Record system := System {
  sy_shared : shared;
  sy_world : world;
  sy_threads : gmap Z coldtrace_thread;
  sy_pending : gmap Z (Z * Z);
  sy_done : list (nat * list Z);
}.

(** The indices in the entries of an event, the last field of each. *)
Definition logged_indices (s : shared) (th : coldtrace_thread) (ev : capture) : list Z :=
  omap (fun o => match o with OLog _ _ fields => last fields | _ => None end) (capture_ops s th ev).

Definition thread_of (sy : system) (t : Z) : coldtrace_thread :=
  default zero_thread (sy_threads sy !! t).

(** Thread [t] handles [ev]; less than 2^64 indices have been drawn. *)
Definition handles (sy : system) (t : Z) (ev : capture) (h' : hstate) : Prop :=
  next_atomic_index (sh_counters (sy_shared sy)) + 1 < 2 ^ 64 ∧
  handle junk c t ev (HState (sy_shared sy) (thread_of sy t) (sy_world sy)) = Ret h'.

Definition after_handler (sy : system) (t : Z) (h' : hstate) (pending : gmap Z (Z * Z))
    (accesses : list (nat * list Z)) : system :=
  System (hs_shared h') (hs_world h') (<[t := hs_thread h']> (sy_threads sy)) pending accesses.

Inductive step (sy : system) : system → Prop :=
| step_before t ev addr h' :
    before_addr ev = Some addr → sy_pending sy !! t = None → handles sy t ev h' →
    step sy (after_handler sy t h'
      (<[t := (addr, (coldtrace_next_atomic_idx (sh_counters (sy_shared sy))).1)]> (sy_pending sy))
      (sy_done sy))
| step_after t ev addr i h' :
    after_addr ev = Some addr → sy_pending sy !! t = Some (addr, i) → handles sy t ev h' →
    step sy (after_handler sy t h' (delete t (sy_pending sy))
      (sy_done sy ++ [(get_area addr, logged_indices (sy_shared sy) (thread_of sy t) ev)]))
| step_other t ev h' :
    before_addr ev = None → after_addr ev = None → handles sy t ev h' →
    step sy (after_handler sy t h' (sy_pending sy) (sy_done sy)).

(** Accesses to the same area have increasing indices. *)
Definition later (x y : nat * list Z) : Prop :=
  x.1 = y.1 → ∀ i j, i ∈ x.2 → j ∈ y.2 → i < j.

Definition all_free (s : shared) : Prop :=
  length (sh_areas s) = 128%nat ∧ counters_ok (sh_counters s) ∧
  ∀ i a, sh_areas s !! i = Some a → caslock_held (area_lock a) = false.

Inductive reachable : system → Prop :=
| reach_init s w threads : all_free s → reachable (System s w threads ∅ [])
| reach_step sy sy' : reachable sy → step sy sy' → reachable sy'.

(** A lock is held by exactly the thread between its two events, which finds the
    index it has drawn; every index in use is below the counter and those of an
    area are below the one that is pending there. *)
Record ordered (sy : system) : Prop := {
  or_len : length (sh_areas (sy_shared sy)) = 128%nat;
  or_counters : counters_ok (sh_counters (sy_shared sy));
  or_held : ∀ i a, sh_areas (sy_shared sy) !! i = Some a → caslock_held (area_lock a) = true →
    ∃ t addr n, sy_pending sy !! t = Some (addr, n) ∧ get_area addr = i;
  or_pending : ∀ t addr n, sy_pending sy !! t = Some (addr, n) →
    ∃ a, sh_areas (sy_shared sy) !! get_area addr = Some a ∧ caslock_held (area_lock a) = true ∧
      area_idx_a a = n ∧ 0 <= n < next_atomic_index (sh_counters (sy_shared sy)) ∧
      Forall (fun x => x.1 = get_area addr → Forall (fun i => i < n) x.2) (sy_done sy);
  or_excl : ∀ t t' addr n addr' n', sy_pending sy !! t = Some (addr, n) →
    sy_pending sy !! t' = Some (addr', n') → get_area addr = get_area addr' → t = t';
  or_done : Forall (fun x => Forall
    (fun i => i < next_atomic_index (sh_counters (sy_shared sy))) x.2) (sy_done sy);
  or_sorted : Forall (fun x => StronglySorted Z.lt x.2) (sy_done sy);
  or_later : StronglySorted later (sy_done sy);
}.

Lemma draw_spec k :
  counters_ok k → next_atomic_index k + 1 < 2 ^ 64 →
  coldtrace_next_atomic_idx k = (next_atomic_index k,
    Counters (next_alloc_index k) (next_atomic_index k + 1)).
Proof.
  intros Hk Hr. rewrite next_atomic_spec by done. destruct Hk. by rewrite u64_id by ulia.
Qed.

Lemma handles_inv sy t ev h' :
  handles sy t ev h' →
  next_atomic_index (sh_counters (sy_shared sy)) + 1 < 2 ^ 64 ∧
  ∃ r, subscriber junk c t ev (HState (sy_shared sy) (thread_of sy t) (sy_world sy)) = Ret (r, h').
Proof.
  intros [Hr H]. split; [done|]. unfold handle, handler in H.
  destruct (subscriber _ _ _ _ _) as [[r h1]|u|]; [|done..]. simplify_eq/=. eauto.
Qed.

Lemma ordered_other sy t ev h' :
  ordered sy → before_addr ev = None → after_addr ev = None → handles sy t ev h' →
  ordered (after_handler sy t h' (sy_pending sy) (sy_done sy)).
Proof.
  intros [Hl Hc Hh Hp Hx Hd Hs Hlt] Hb Ha (Hroom & r & H)%handles_inv.
  apply (subscriber_tame t ev Hb Ha) in H. simpl in H.
  assert (sh_areas (hs_shared h') = sh_areas (sy_shared sy) ∧
    counters_ok (sh_counters (hs_shared h')) ∧
    next_atomic_index (sh_counters (sy_shared sy)) <= next_atomic_index (sh_counters (hs_shared h')))
    as (Ea & Hc' & Hle).
  { destruct H as [-> |[-> | ->]]; [done| |]; unfold bump_alloc, bump_atomic; simpl.
    - rewrite next_alloc_spec by done. simpl. destruct Hc as [? ?]. split; [done|].
      split; [|lia]. split; [apply u64_range|done].
    - rewrite draw_spec by done. simpl. destruct Hc as [? ?]. split; [done|]. split; [|lia].
      split; simpl; [done|ulia]. }
  split; simpl; rewrite ?Ea; try done.
  - intros t' addr n Ht. destruct (Hp t' addr n Ht) as (a & ? & ? & ? & ? & ?).
    exists a. repeat (split; [done || lia|]). done.
  - eapply Forall_impl; [exact Hd|]. simpl. intros x Hx'. eapply Forall_impl; [exact Hx'|]. simpl. lia.
Qed.

Lemma ordered_before sy t ev addr h' :
  ordered sy → before_addr ev = Some addr → sy_pending sy !! t = None → handles sy t ev h' →
  ordered (after_handler sy t h'
    (<[t := (addr, (coldtrace_next_atomic_idx (sh_counters (sy_shared sy))).1)]> (sy_pending sy))
    (sy_done sy)).
Proof.
  intros [Hl Hc Hh Hp Hx Hd Hs Hlt] Hb Hnone (Hroom & r & H)%handles_inv.
  assert (fetch_stack_acq addr (HState (sy_shared sy) (thread_of sy t) (sy_world sy)) = Ret (r, h')) as H'
    by (destruct ev; try done; by injection Hb as ->). clear H.
  apply fetch_shared in H' as (a & l & Ha & Hacq & Hs'). simpl in *.
  rewrite draw_spec in * by done. simpl in *. set (n := next_atomic_index (sh_counters (sy_shared sy))) in *.
  destruct (caslock_held (area_lock a)) eqn:Hheld; [by rewrite acquire_held in Hacq|].
  assert (caslock_held l = true) as Hlh.
  { destruct (acquire_free _ Hheld) as (l' & ? & ?). congruence. }
  assert (∀ t' addr' n', sy_pending sy !! t' = Some (addr', n') → get_area addr' ≠ get_area addr) as Hfree.
  { intros t' addr' n' Ht E. destruct (Hp _ _ _ Ht) as (a' & Ha' & ? & _). rewrite E in Ha'. congruence. }
  pose proof (lookup_lt_Some _ _ _ Ha) as Hlt'.
  split; simpl; rewrite ?Hs'; simpl; try done.
  - by rewrite length_insert.
  - destruct Hc. split; [done|]. simpl. ulia.
  - intros i b Hi Hbh. destruct (decide (i = get_area addr)) as [->|Hne].
    + exists t, addr, n. by rewrite lookup_insert_eq.
    + rewrite list_lookup_insert_ne in Hi by done. destruct (Hh i b Hi Hbh) as (t' & ad & m & Ht & Hg).
      exists t', ad, m. rewrite lookup_insert_ne by congruence. done.
  - intros t' addr' n' Ht. apply lookup_insert_Some in Ht as [[<- [= <- <-]]|[Hne Ht]].
    + exists (Area l n). split; [by rewrite list_lookup_insert_eq|]. do 2 (split; [done|]).
      destruct Hc as [_ Hc]. fold n in Hc. split; [ulia|]. eapply Forall_impl; [exact Hd|]. done.
    + destruct (Hp _ _ _ Ht) as (a' & Ha' & H1 & H2 & H3 & H4). exists a'.
      rewrite list_lookup_insert_ne by (apply not_eq_sym; by eapply Hfree). do 3 (split; [done|]).
      split; [lia|done].
  - intros t1 t2 a1 n1 a2 n2 H1 H2 E.
    apply lookup_insert_Some in H1 as [[<- [= <- <-]]|[Hn1 H1]];
      apply lookup_insert_Some in H2 as [[<- [= <- <-]]|[Hn2 H2]]; [done| | |by eapply Hx].
    + by destruct (Hfree _ _ _ H2).
    + by destruct (Hfree _ _ _ H1).
  - eapply Forall_impl; [exact Hd|]. simpl. intros x Hx'. eapply Forall_impl; [exact Hx'|]. simpl. lia.
Qed.

Lemma logged_after s th ev addr :
  after_addr ev = Some addr →
  logged_indices s th ev = u64 (idx_at s addr) ::
    (if draws ev then [u64 (coldtrace_next_atomic_idx (sh_counters s)).1] else []).
Proof. destruct ev; try done; intros [= ->]; try done. by destruct ok. Qed.

Lemma ordered_after sy t ev addr i h' :
  ordered sy → after_addr ev = Some addr → sy_pending sy !! t = Some (addr, i) → handles sy t ev h' →
  ordered (after_handler sy t h' (delete t (sy_pending sy))
    (sy_done sy ++ [(get_area addr, logged_indices (sy_shared sy) (thread_of sy t) ev)])).
Proof.
  intros [Hl Hc Hh Hp Hx Hd Hs Hlt] Hb Hpend (Hroom & r & H)%handles_inv.
  apply (after_shared t ev addr _ _ _ Hb) in H as (a & Ha & Hs'). simpl in *.
  destruct (Hp _ _ _ Hpend) as (a' & Ha' & Hheld & Hidx & Hi & Hall). simplify_eq.
  rewrite (logged_after _ _ _ _ Hb).
  assert (idx_at (sy_shared sy) addr = area_idx_a a) as -> by (unfold idx_at; by rewrite Ha).
  destruct Hc as [Hc1 Hc2]. rewrite draw_spec in * by done. simpl in *.
  set (n := next_atomic_index (sh_counters (sy_shared sy))) in *.
  rewrite !u64_id by ulia. set (new := area_idx_a a :: _).
  assert (∃ n', next_atomic_index (sh_counters (hs_shared h')) = n' ∧ n <= n' ∧ n' < 2 ^ 64 ∧
    counters_ok (sh_counters (hs_shared h')) ∧ Forall (fun j => area_idx_a a <= j < n') new ∧
    StronglySorted Z.lt new) as (n' & En & Hn & Hn64 & Hc' & Hnew & Hsort).
  { rewrite Hs'. simpl. unfold new. destruct (draws ev); simpl.
    - eexists. split; [done|]. do 2 (split; [lia|]). split; [split; simpl; [done|ulia]|].
      split; [apply Forall_cons_2; [lia|]; apply Forall_singleton; lia|].
      apply SSorted_cons; [repeat constructor|apply Forall_singleton; lia].
    - eexists. split; [done|]. split; [done|]. split; [ulia|]. split; [done|].
      split; [apply Forall_singleton; lia|]. repeat constructor. }
  pose proof (lookup_lt_Some _ _ _ Ha) as Hlen.
  assert (∀ t' ad m, delete t (sy_pending sy) !! t' = Some (ad, m) →
    sy_pending sy !! t' = Some (ad, m) ∧ get_area ad ≠ get_area addr) as Hrest.
  { intros t' ad m [Hne Ht]%lookup_delete_Some. split; [done|]. intros E. by destruct Hne; eapply Hx. }
  split; simpl; rewrite ?En; try done.
  - rewrite Hs'. simpl. by rewrite length_insert.
  - rewrite Hs'. simpl. intros k b Hk Hbh. destruct (decide (k = get_area addr)) as [->|Hne].
    + rewrite list_lookup_insert_eq in Hk by done. simplify_eq/=. by rewrite release_free in Hbh.
    + rewrite list_lookup_insert_ne in Hk by done. destruct (Hh k b Hk Hbh) as (t' & ad & m & Ht & Hg).
      exists t', ad, m. rewrite lookup_delete_ne by congruence. done.
  - rewrite Hs'. simpl. intros t' ad m [Ht Hne]%Hrest.
    destruct (Hp _ _ _ Ht) as (b & Hb' & H1 & H2 & H3 & H4). exists b.
    rewrite list_lookup_insert_ne by done. do 3 (split; [done|]). split; [lia|].
    apply Forall_app. split; [done|]. apply Forall_singleton. simpl. intros E. by destruct Hne.
  - intros t1 t2 a1 n1 a2 n2 [H1 _]%Hrest [H2 _]%Hrest. by eapply Hx.
  - apply Forall_app. split.
    + eapply Forall_impl; [exact Hd|]. simpl. intros x Hx'. eapply Forall_impl; [exact Hx'|]. simpl. lia.
    + apply Forall_singleton. simpl. eapply Forall_impl; [exact Hnew|]. simpl. lia.
  - apply Forall_app. split; [done|]. by apply Forall_singleton.
  - apply StronglySorted_snoc; [done|]. eapply Forall_impl; [exact Hall|]. simpl.
    intros x Hx' E j k Hj Hk. specialize (Hx' E). rewrite Forall_forall in Hx'.
    rewrite Forall_forall in Hnew. specialize (Hx' j Hj). specialize (Hnew k Hk). simpl in Hnew. lia.
Qed.

Lemma reachable_ordered sy : reachable sy → ordered sy.
Proof.
  induction 1 as [s w threads (Hl & Hc & Hf)|sy sy' _ IH Hstep].
  - split; simpl; try done; try constructor. intros i a Ha Hh. rewrite (Hf i a Ha) in Hh. done.
  - destruct Hstep; [by eapply ordered_before|by eapply ordered_after|by eapply ordered_other].
Qed.

(** C11: the trace orders atomic accesses.  In every interleaving of the handlers of
    any number of threads, starting with all areas free and drawing fewer than 2^64
    indices, at most one thread is inside an access to an area and it finds the
    index it has drawn; and the indices logged for two accesses to the same area
    increase in the order in which the accesses finished, both indices of a
    read-modify-write included. *)
Theorem atomics_ordered sy :
  reachable sy →
  StronglySorted later (sy_done sy) ∧ Forall (fun x => StronglySorted Z.lt x.2) (sy_done sy) ∧
  (∀ t t' addr n addr' n', sy_pending sy !! t = Some (addr, n) →
     sy_pending sy !! t' = Some (addr', n') → get_area addr = get_area addr' → t = t') ∧
  (∀ t addr n, sy_pending sy !! t = Some (addr, n) → idx_at (sy_shared sy) addr = n).
Proof.
  intros [Hl Hc Hh Hp Hx Hd Hs Hlt]%reachable_ordered. do 3 (split; [done|]).
  intros t addr n Ht. destruct (Hp _ _ _ Ht) as (a & Ha & _ & Hi & _). unfold idx_at. by rewrite Ha.
Qed.

(** The step a thread makes with an event, if it can. *)
Definition do_event (sy : system) (t : Z) (ev : capture) : option system :=
  let n := (coldtrace_next_atomic_idx (sh_counters (sy_shared sy))).1 in
  if negb (next_atomic_index (sh_counters (sy_shared sy)) + 1 <? 2 ^ 64) then None
  else
    match handle junk c t ev (HState (sy_shared sy) (thread_of sy t) (sy_world sy)) with
    | Ret h' =>
        match before_addr ev, after_addr ev, sy_pending sy !! t with
        | Some addr, _, None =>
            Some (after_handler sy t h' (<[t := (addr, n)]> (sy_pending sy)) (sy_done sy))
        | None, Some addr, Some (addr', _) =>
            if addr =? addr' then
              Some (after_handler sy t h' (delete t (sy_pending sy))
                (sy_done sy ++ [(get_area addr, logged_indices (sy_shared sy) (thread_of sy t) ev)]))
            else None
        | None, None, _ => Some (after_handler sy t h' (sy_pending sy) (sy_done sy))
        | _, _, _ => None
        end
    | _ => None
    end.

Fixpoint do_events (sy : system) (evs : list (Z * capture)) : option system :=
  match evs with
  | [] => Some sy
  | (t, ev) :: evs => sy' ← do_event sy t ev; do_events sy' evs
  end.

Lemma do_event_step sy t ev sy' : do_event sy t ev = Some sy' → step sy sy'.
Proof.
  unfold do_event. destruct (Z.ltb_spec (next_atomic_index (sh_counters (sy_shared sy)) + 1) (2 ^ 64));
    simpl; [|done].
  destruct (handle junk c t ev _) as [h'|u|] eqn:E; [|done..].
  assert (handles sy t ev h') as Hh by done.
  destruct (before_addr ev) as [addr|] eqn:Eb, (after_addr ev) as [addr2|] eqn:Ea,
    (sy_pending sy !! t) as [[addr' i]|] eqn:Ep; intros; simplify_eq;
    try (by eapply step_before); try (by eapply step_other).
  destruct (Z.eqb_spec addr2 addr'); simplify_eq. by eapply step_after.
Qed.

Lemma do_events_reachable evs : ∀ sy sy', reachable sy → do_events sy evs = Some sy' → reachable sy'.
Proof.
  induction evs as [|[t ev] evs IH]; intros sy sy' Hr H; simpl in H; [by simplify_eq|].
  destruct (do_event sy t ev) as [sy1|] eqn:E; [|done]. simpl in H.
  eapply IH; [|exact H]. eapply reach_step; [done|]. by eapply do_event_step.
Qed.
End Atomics.

Section Demo.
#[local] Existing Instance demo_build.

(** Threads 1 and 2 meet in one area, thread 3 works in another one meanwhile. *)
Definition demo_schedule : list (Z * capture) :=
  [ (1, C_before_rmw 0x7f0040); (3, C_before_aread 0x7f0080); (3, C_after_aread 0x7f0080 8);
    (1, C_after_rmw 0x7f0040 4); (2, C_before_cmpxchg 0x7f0048); (1, C_after_mutex_lock 0 0x10);
    (2, C_after_cmpxchg 0x7f0048 4 true) ].

Lemma atomics_ordered_witness :
  ∃ sy, reachable zero_junk demo_config96 sy ∧
    sy_done sy = [(2%nat, [1]); (1%nat, [0; 2]); (1%nat, [3; 5])] ∧ StronglySorted later (sy_done sy).
Proof.
  assert (all_free demo_shared) as Hfree.
  { split; [done|]. split; [done|]. intros i a Ha. apply lookup_replicate in Ha as [-> _]. done. }
  pose (sy0 := System demo_shared demo_world ∅ ∅ []).
  pose (r := do_events zero_junk demo_config96 sy0 demo_schedule).
  assert (sy_done <$> r = Some [(2%nat, [1]); (1%nat, [0; 2]); (1%nat, [3; 5])]) as Hd
    by (vm_compute; reflexivity).
  destruct r as [sy|] eqn:E; [|discriminate Hd]. subst r. simpl in Hd.
  assert (reachable zero_junk demo_config96 sy) as Hr.
  { eapply do_events_reachable; [|exact E]. apply reach_init. exact Hfree. }
  exists sy. split; [exact Hr|]. split; [injection Hd as Hd; exact Hd|].
  apply (atomics_ordered zero_junk demo_config96 sy Hr).
Defined.
End Demo.
