(* ===== verification/Handlers.v ===== *)
(** * Every handler returns

    Total correctness of the subscribers: when the operations of its event can be
    carried out, a handler carries them out and returns. *)

From stdpp Require Import base list numbers strings gmap.
From Stdlib Require Import ZArith Lia.
From S2P Require Import Prelude Version Counters Entries Libc Utils Config Codec Lz4 Writer Thread Trace Recorder Subs Subscribers Atomics.

Section Handlers.
Context `{B : BuildInfo, L : Lz4, V : Vsync, !VsyncLaws V} (junk : nat → Z) (c : config) (md : Z).

Definition total {A} (m : M A) (h : hstate) (os : list op) : Prop :=
  (∃ s', run junk c md os (tw h) = Ret s') → ∃ x, m h = Ret x.

Lemma total_eq {A} (m m' : M A) h os : m h = m' h → total m' h os → total m h os.
Proof. unfold total. by intros ->. Qed.

Lemma total_ret {A} (a : A) h : total (ret a) h [].
Proof. intros _. by eexists. Qed.

Lemma run_single o s s' : run junk c md [o] s = Ret s' → exec junk c md o s = Ret s'.
Proof. cbn [run]. destruct (exec junk c md o s); simpl; congruence. Qed.

(** The rest of the handler runs after the operations of its first part. *)
Lemma total_seq {A A'} (m : M A) (k : A → M A') h os1 os2 :
  performs junk c md m h os1 → total m h os1 →
  (∀ a h1, m h = Ret (Some a, h1) → total (k a) h1 os2) →
  total (bind m k) h (os1 ++ os2).
Proof.
  intros Hp Hm Hk [s' Hs]. rewrite run_app in Hs.
  destruct (run junk c md os1 (tw h)) as [s1|u|] eqn:E1; [|done..]. simpl in Hs.
  destruct (Hm (ex_intro _ s1 E1)) as [[r h1] Em]. unfold bind. rewrite Em. simpl.
  destruct r as [a|]; [|by eexists]. destruct (Hp _ _ Em) as (os & _ & Hrun & ->).
  rewrite E1 in Hrun. injection Hrun as ->. apply (Hk a h1 Em). by exists s'.
Qed.

(** A step on the shared state only. *)
Lemma total_step {A A'} (m : M A) (k : A → M A') h a h1 os :
  m h = Ret (Some a, h1) → tw h1 = tw h → total (k a) h1 os → total (bind m k) h os.
Proof. intros Em Htw Hk Hs. unfold bind. rewrite Em. simpl. apply Hk. by rewrite Htw. Qed.

Lemma total_log_then type ptr fields s' h :
  total (log_then junk c md type ptr fields s') h [OLog type ptr fields].
Proof.
  intros [s1 Hs%run_single]. rewrite exec_log in Hs. unfold log_then.
  destruct (log_entry _ _ _ _ _ _ _ _) as [[[[] th] w]|u|]; [by eexists..|done|done].
Qed.

Lemma total_log_keep (m : M unit) type ptr fields s' h :
  m h = (let! (r, w) := log_entry junk c md (hs_thread h) (hs_world h) type ptr fields in
         Ret (Some tt, HState (if r.1 : bool then s' else hs_shared h) r.2 w)) →
  total m h [OLog type ptr fields].
Proof.
  intros E [s1 Hs%run_single]. rewrite exec_log in Hs. rewrite E.
  destruct (log_entry _ _ _ _ _ _ _ _) as [[[b th] w]|u|]; [by eexists|done|done].
Qed.

Lemma total_thread_fini h : total (thread_fini c md) h [OFini].
Proof.
  intros [s1 Hs%run_single]. simpl in Hs. unfold thread_fini.
  destruct (coldtrace_thread_fini c md (hs_thread h) (hs_world h)) as [[th w]|u|]; [by eexists|done..].
Qed.

Lemma total_push a h : total (stacktrace_enter junk md a) h [OPush a].
Proof.
  intros [s1 Hs%run_single]. simpl in Hs. unfold stacktrace_enter.
  destruct (coldtrace_thread_stack_push junk md (hs_thread h) (hs_world h) a) as [[th w]|u|];
    [by eexists|done..].
Qed.

(** ** The areas *)

(** Between events the array is intact; an access only starts when its area is
    free, otherwise [caslock_acquire] spins until it is. *)
Definition areas_ready (s : shared) (ev : capture) : Prop :=
  length (sh_areas s) = 128%nat ∧
  ∀ addr a, before_addr ev = Some addr → sh_areas s !! get_area addr = Some a →
    caslock_held (area_lock a) = false.

Lemma area_get_ok addr h :
  length (sh_areas (hs_shared h)) = 128%nat →
  ∃ a, area_get (get_area addr) h = Ret (Some a, h) ∧
    sh_areas (hs_shared h) !! get_area addr = Some a.
Proof.
  intros Hl. destruct (lookup_lt_is_Some_2 (sh_areas (hs_shared h)) (get_area addr)) as [a Ha].
  { rewrite Hl. apply get_area_lt. }
  exists a. unfold area_get. by rewrite Ha.
Qed.

Lemma next_atomic_ok h : ∃ n h1, next_atomic h = Ret (Some n, h1) ∧ tw h1 = tw h ∧
  sh_areas (hs_shared h1) = sh_areas (hs_shared h).
Proof.
  unfold next_atomic, on_shared. destruct (coldtrace_next_atomic_idx _) as [n k]. by eexists _, _.
Qed.

Lemma area_set_ok i a h : ∃ h1, area_set i a h = Ret (Some tt, h1) ∧ tw h1 = tw h ∧
  sh_areas (hs_shared h1) = <[i := a]> (sh_areas (hs_shared h)).
Proof. unfold area_set, on_shared. by eexists. Qed.

Lemma release_ok addr h :
  length (sh_areas (hs_shared h)) = 128%nat →
  ∃ h1, area_release (get_area addr) h = Ret (Some tt, h1) ∧ tw h1 = tw h.
Proof.
  intros Hl. destruct (area_get_ok addr h Hl) as (a & Ea & _). unfold area_release, bind.
  rewrite Ea. simpl. by eexists.
Qed.

Lemma fetch_ok addr h :
  length (sh_areas (hs_shared h)) = 128%nat →
  (∀ a, sh_areas (hs_shared h) !! get_area addr = Some a → caslock_held (area_lock a) = false) →
  total (fetch_stack_acq addr) h [].
Proof.
  intros Hl Hf _. destruct (area_get_ok addr h Hl) as (a & Ea & Ha).
  destruct (acquire_free (area_lock a)) as (l & El & _); [by apply Hf|].
  unfold fetch_stack_acq, area_acquire. unfold bind at 1 2. rewrite Ea. simpl. rewrite El.
  destruct (area_set_ok (get_area addr) (Area l (area_idx_a a)) h) as (h1 & -> & _ & Hs1). simpl.
  destruct (next_atomic_ok h1) as (n & h2 & E2 & _ & Hs2). unfold bind at 1. rewrite E2. simpl.
  destruct (area_get_ok addr h2) as (a2 & E3 & _); [by rewrite Hs2, Hs1, length_insert|].
  unfold bind. rewrite E3. simpl. by eexists.
Qed.

Lemma total_release addr h os (k : unit → M unit) :
  length (sh_areas (hs_shared h)) = 128%nat → (∀ h1, total (k tt) h1 os) →
  total (bind (area_release (get_area addr)) k) h os.
Proof.
  intros Hl Hk. destruct (release_ok addr h Hl) as (h1 & E & Htw). by eapply total_step.
Qed.

(** Reading the index of the area, as every second event does. *)
Lemma total_area_get addr h os (k : area_t → M unit) :
  length (sh_areas (hs_shared h)) = 128%nat →
  (∀ a, area_idx_a a = idx_at (hs_shared h) addr → total (k a) h os) →
  total (bind (area_get (get_area addr)) k) h os.
Proof.
  intros Hl Hk. destruct (area_get_ok addr h Hl) as (a & E & Ha).
  eapply total_step; [exact E|done|]. apply Hk. unfold idx_at. by rewrite Ha.
Qed.

Lemma total_next_atomic h os (k : Z → M unit) :
  (∀ h1, tw h1 = tw h → sh_areas (hs_shared h1) = sh_areas (hs_shared h) →
    total (k (coldtrace_next_atomic_idx (sh_counters (hs_shared h))).1) h1 os) →
  total (bind next_atomic k) h os.
Proof.
  intros Hk. unfold bind, next_atomic, on_shared. unfold total.
  destruct (coldtrace_next_atomic_idx (sh_counters (hs_shared h))) as [n kk]. simpl in *.
  by apply (Hk (HState (Shared kk (sh_areas (hs_shared h))) (hs_thread h) (hs_world h))).
Qed.

Lemma total_access type ptr size idx h :
  total (log_atomic_access junk c md type ptr size idx) h [OLog type ptr [u64 size; u64 idx]].
Proof. eapply total_eq; [apply log_atomic_access_eq|apply total_log_then]. Qed.

Lemma total_two addr sz i j h :
  total (bind (log_atomic_access junk c md COLDTRACE_ATOMIC_READ addr sz i) (fun _ =>
    log_atomic_access junk c md COLDTRACE_ATOMIC_WRITE addr sz j)) h
    [OLog COLDTRACE_ATOMIC_READ addr [u64 sz; u64 i]; OLog COLDTRACE_ATOMIC_WRITE addr [u64 sz; u64 j]].
Proof.
  apply (total_seq _ _ h [_] [_]); [|apply total_access|intros [] h1 _; apply total_access].
  eapply performs_eq; [apply log_atomic_access_eq|apply performs_log_then].
Qed.

Section Releases.
Context (h : hstate) (Hl : length (sh_areas (hs_shared h)) = 128%nat).

Lemma total_rel_one type addr sz :
  total (rel_log_one junk c md type addr sz) h
    [OLog type addr [u64 sz; u64 (idx_at (hs_shared h) addr)]].
Proof.
  apply total_area_get; [done|]. intros a <-. apply total_release; [done|]. intros. apply total_access.
Qed.

Lemma total_rel_fence pc :
  total (rel_log_fence junk c md pc) h [OLog COLDTRACE_FENCE pc [u64 (idx_at (hs_shared h) pc)]].
Proof.
  apply total_area_get; [done|]. intros a <-. apply total_release; [done|]. intros h1.
  eapply total_eq; [apply fence_entry_eq|]. apply total_log_then.
Qed.

Lemma total_rel_rw addr sz :
  total (rel_log_rw junk c md addr sz) h
    [OLog COLDTRACE_ATOMIC_READ addr [u64 sz; u64 (idx_at (hs_shared h) addr)];
     OLog COLDTRACE_ATOMIC_WRITE addr
       [u64 sz; u64 (coldtrace_next_atomic_idx (sh_counters (hs_shared h))).1]].
Proof.
  apply total_area_get; [done|]. intros a <-. apply total_next_atomic. intros h1 _ Ha.
  apply total_release; [by rewrite Ha|]. intros. apply total_two.
Qed.

Lemma total_rel_rw_cond addr sz ok :
  total (rel_log_rw_cond junk c md addr sz ok) h
    (OLog COLDTRACE_ATOMIC_READ addr [u64 sz; u64 (idx_at (hs_shared h) addr)] ::
     if ok then [OLog COLDTRACE_ATOMIC_WRITE addr
                   [u64 sz; u64 (coldtrace_next_atomic_idx (sh_counters (hs_shared h))).1]]
     else []).
Proof.
  unfold rel_log_rw_cond. destruct ok.
  - apply total_next_atomic. intros h1 _ Ha. apply total_area_get; [by rewrite Ha|].
    unfold idx_at. rewrite Ha. intros a <-. apply total_release; [by rewrite Ha|].
    intros. apply total_two.
  - eapply total_step; [done|done|]. apply total_area_get; [done|]. intros a <-.
    apply total_release; [done|]. intros h1. apply (total_seq _ _ h1 [_] []).
    + eapply performs_eq; [apply log_atomic_access_eq|apply performs_log_then].
    + apply total_access.
    + intros. apply total_ret.
Qed.
End Releases.

Lemma total_self_fini is_main self h :
  total (self_fini junk c md is_main self) h
    (if is_main then
       [OLog COLDTRACE_THREAD_EXIT self [u64 (coldtrace_next_atomic_idx (sh_counters (hs_shared h))).1];
        OFini]
     else [OFini]).
Proof.
  unfold self_fini. destruct is_main; [|apply total_thread_fini].
  eapply total_eq; [apply bind_assoc|]. apply (total_seq _ _ h [_] [_]).
  - eapply performs_log_keep. apply exit_entry_eq.
  - eapply total_log_keep. apply exit_entry_eq.
  - intros [] h1 _. apply (total_seq _ _ h1 [_] []);
      [apply performs_thread_fini|apply total_thread_fini|intros; apply total_ret].
Qed.

Lemma total_thread_start self a z h :
  total (thread_start junk c md self a z) h
    [OInit; OLog COLDTRACE_THREAD_START self
      [u64 (coldtrace_next_atomic_idx (sh_counters (hs_shared h))).1; u64 a; u64 z]].
Proof.
  apply (total_seq _ _ h [_] [_]); [apply performs_thread_init|intros _; by eexists|].
  intros [] h1 E. unfold thread_init, on_thread in E. simplify_eq/=.
  eapply total_eq; [apply thread_start_entry_eq|]. apply total_log_then.
Qed.

Lemma before_create_ok h : ∃ x, before_thread_create md h = Ret x.
Proof.
  unfold before_thread_create, bind, next_atomic, on_shared.
  destruct (coldtrace_next_atomic_idx _). by eexists.
Qed.

Ltac solve_total :=
  lazymatch goal with
  | |- total (ret _) _ _ => apply total_ret
  | |- total (log_alloc_entry _ _ _ _ _ _ _) _ _ =>
      eapply total_eq; [apply log_alloc_entry_eq|apply total_log_then]
  | |- total (log_free_entry _ _ _ _ _) _ _ =>
      eapply total_eq; [apply log_free_entry_eq|apply total_log_then]
  | |- total (log_access_entry _ _ _ _ _ _ _) _ _ =>
      eapply total_eq; [apply log_access_entry_eq|apply total_log_then]
  | |- total (log_atomic_entry _ _ _ _ _) _ _ =>
      eapply total_eq; [apply log_atomic_entry_eq|apply total_log_then]
  | |- total (after_thread_create _ _ _ _) _ _ =>
      eapply total_eq; [apply create_entry_eq|apply total_log_then]
  | |- total (test_marker _ _ _) _ _ => eapply total_log_keep; apply marker_eq
  | |- total (thread_start _ _ _ _ _ _) _ _ => apply total_thread_start
  | |- total (self_fini _ _ _ _ _) _ _ => apply total_self_fini
  | |- total (before_thread_create _) _ _ => intros _; apply before_create_ok
  | |- total (stacktrace_enter _ _ _) _ _ => apply total_push
  | |- total (stacktrace_exit _) _ _ => intros _; by eexists
  | |- total (fetch_stack_acq _) _ _ => apply fetch_ok; [done|eauto]
  | |- total (rel_log_one _ _ _ _ _ _) _ _ => by apply total_rel_one
  | |- total (rel_log_fence _ _ _ _) _ _ => by apply total_rel_fence
  | |- total (rel_log_rw _ _ _ _ _) _ _ => by apply total_rel_rw
  | |- total (rel_log_rw_cond _ _ _ _ _ _) _ _ => by apply total_rel_rw_cond
  end.

Lemma subscriber_total ev h :
  areas_ready (hs_shared h) ev →
  total (subscriber junk c md ev) h (capture_ops (hs_shared h) (hs_thread h) ev).
Proof.
  intros [Hl Hf]. destruct ev; cbn [subscriber capture_ops before_addr] in *; autounfold with subs;
    repeat match goal with |- context [if ?b =? 0 then _ else _] => destruct (b =? 0) end;
    solve_total.
Qed.

Lemma handle_returns ev s th w s' :
  areas_ready s ev → run junk c md (capture_ops s th ev) (th, w) = Ret s' →
  ∃ h', handle junk c md ev (HState s th w) = Ret h'.
Proof.
  intros Ha Hr. destruct (subscriber_total ev (HState s th w) Ha (ex_intro _ s' Hr)) as [[r h'] E].
  exists h'. unfold handle, handler. by rewrite E.
Qed.

(** C25: every subscriber does what its event stands for and returns.  Whenever the
    recorder operations of the event can be carried out on the thread, and the area
    of an atomic access about to start is free, the handler returns, having carried
    out all of them, or those up to the first append that was refused; every entry
    it asks for has a defined type and exactly the fields of its struct. *)
Theorem handler_correct ev s th w s' :
  areas_ready s ev → run junk c md (capture_ops s th ev) (th, w) = Ret s' →
  ∃ h', handle junk c md ev (HState s th w) = Ret h' ∧
    (∃ os, os `prefix_of` capture_ops s th ev ∧ run junk c md os (th, w) = Ret (tw h') ∧
       (os = capture_ops s th ev ∨ stopped junk c md os (th, w) (tw h'))) ∧
    Forall op_ok (capture_ops s th ev).
Proof.
  intros Ha Hr. destruct (handle_returns ev s th w s' Ha Hr) as [h' Hh].
  exists h'. split; [done|]. split; [|apply capture_requests_ok].
  apply handle_performs in Hh as (os1 & os2 & Hos & Hrun & Hst). exists os1. split; [by exists os2|].
  split; [done|]. destruct Hst as [->|[Hst _]]; [left; by rewrite Hos, app_nil_r|by right].
Qed.
End Handlers.

Section Demo.
#[local] Existing Instance demo_build.

Lemma handler_correct_witness :
  ∃ h', handle zero_junk demo_config96 7 (C_after_rmw 0x7f0040 4)
    (HState demo_shared zero_thread demo_world) = Ret h'.
Proof.
  pose (ev := C_after_rmw 0x7f0040 4).
  pose (r := run zero_junk demo_config96 7 (capture_ops demo_shared zero_thread ev) (zero_thread, demo_world)).
  assert (match r with Ret _ => true | _ => false end = true) as Hr by (vm_compute; reflexivity).
  destruct r as [s'|u|] eqn:E; [|discriminate Hr..]. subst r.
  assert (areas_ready demo_shared ev) as Ha by (split; [reflexivity|intros addr a Hb; discriminate Hb]).
  destruct (handler_correct zero_junk demo_config96 7 ev demo_shared zero_thread demo_world s' Ha E)
    as (h' & H & _).
  exists h'. exact H.
Defined.
End Demo.
