(* ===== verification/Locality.v ===== *)
(** * What a thread leaves alone

    The writers of all threads share the directory and the close hook.  This file
    shows what a call of one thread does to them: it only adds calls of the hook
    that carry its own identifier, only touches files whose names carry it, and
    does not look at the calls that were made before. *)

From stdpp Require Import base list numbers strings gmap.
From Stdlib Require Import ZArith Lia.
From S2P Require Import Prelude Version Counters Entries Libc Utils Config Codec Lz4 Writer Thread Trace Recorder Subs Subscribers.

(** The same world with other calls of the close hook in its record. *)
Definition with_closed (w : world) (cl : list close_call) : world :=
  World (w_fs w) (w_faults w) cl.

Lemma with_closed_twice w cl cl' : with_closed (with_closed w cl) cl' = with_closed w cl'.
Proof. done. Qed.

Lemma with_closed_id w : with_closed w (w_closed w) = w.
Proof. by destruct w. Qed.

(** Files and outcomes to come: what bounds the search for a free file. *)
Definition files (w : world) : nat := size (w_fs w) + length (w_faults w).

Section Locality.
Context (c : config) (md : Z).

(** A file of another thread, or of no thread. *)
Definition foreign (name : string) : Prop := ∀ e, fragment_name c md e ≠ Ret name.

(** What happens between [w] and [w'] when this thread works: at most [n] new
    files, [ext] handed to the close hook. *)
Record local_change (n : nat) (w w' : world) (ext : list close_call) : Prop := {
  lc_closed : w_closed w' = w_closed w ++ ext;
  lc_md : Forall (fun cl => cl_md cl = Some md) ext;
  lc_foreign : ∀ name, foreign name → w_fs w' !! name = w_fs w !! name;
  lc_files : (files w' ≤ files w + n)%nat;
  lc_faults : w_faults w' `suffix_of` w_faults w;
}.

Lemma local_refl w : local_change 0 w w [].
Proof. split; [by rewrite app_nil_r|done|done|lia|done]. Qed.

Lemma local_trans n m w w1 w2 e1 e2 :
  local_change n w w1 e1 → local_change m w1 w2 e2 → local_change (n + m) w w2 (e1 ++ e2).
Proof.
  intros [C1 M1 F1 N1 S1] [C2 M2 F2 N2 S2]. split.
  - by rewrite C2, C1, app_assoc.
  - by apply Forall_app.
  - intros name Hn. by rewrite F2, F1.
  - lia.
  - by etrans.
Qed.

Lemma local_weaken n m w w' e : (n ≤ m)%nat → local_change n w w' e → local_change m w w' e.
Proof. intros ? []. split; try done. lia. Qed.

(** A computation that is local, whose results satisfy [P], and which would do
    the same with any other record of the close hook. *)
Definition local {A} (n : nat) (P : A → Prop) (f : world → outcome (A * world)) : Prop :=
  ∀ w a w', f w = Ret (a, w') → P a ∧ ∃ ext, local_change n w w' ext ∧
    ∀ cl, f (with_closed w cl) = Ret (a, with_closed w' (cl ++ ext)).

(** The same for a system call, which never reaches the hook; the number of new
    files depends on its result. *)
Definition local_call {A} (n : A → nat) (f : world → A * world) : Prop :=
  ∀ w, local_change (n (f w).1) w (f w).2 [] ∧
    ∀ cl, f (with_closed w cl) = ((f w).1, with_closed (f w).2 cl).

Lemma local_ret {A} n (P : A → Prop) a : P a → local n P (fun w => Ret (a, w)).
Proof.
  intros Ha w a' w' H. simplify_eq. split; [done|]. exists []. split.
  - eapply local_weaken, local_refl. lia.
  - intros cl. by rewrite app_nil_r.
Qed.

Lemma local_ext {A} n (P : A → Prop) f g : (∀ w, f w = g w) → local n P g → local n P f.
Proof.
  intros E Hg w a w' H. rewrite E in H. destruct (Hg _ _ _ H) as (Ha & e & Hl & F).
  split; [done|]. exists e. split; [done|]. intros cl. by rewrite E.
Qed.

Lemma local_undef {A} n (P : A → Prop) u : local n P (fun _ => Undef u).
Proof. by intros w a w' H. Qed.

Lemma local_bind {A A'} n m k (P : A → Prop) (Q : A' → Prop) f g :
  local n P f → (n + m ≤ k)%nat → (∀ a, P a → local m Q (fun w => g (a, w))) →
  local k Q (fun w => obind (f w) g).
Proof.
  intros Hf Hk Hg w a' w' H. apply obind_Ret_inv in H as ([a w1] & E & H).
  destruct (Hf _ _ _ E) as (Ha & e1 & H1 & F1). destruct (Hg a Ha _ _ _ H) as (Hq & e2 & H2 & F2).
  split; [done|]. exists (e1 ++ e2). split; [by eapply local_weaken, local_trans|].
  intros cl. rewrite F1. simpl. by rewrite F2, app_assoc.
Qed.

Lemma local_pure {A A'} n (P : A' → Prop) (m : outcome A) g :
  (∀ a, m = Ret a → local n P (fun w => g w a)) → local n P (fun w => obind m (g w)).
Proof. intros Hg. destruct m as [a|u|]; simpl; [by apply Hg|by intros ? ? ? ?..]. Qed.

Lemma local_sys {A A'} n k (Q : A' → Prop) (f : world → A * world) g :
  local_call n f → (∀ a, ∃ m, (n a + m ≤ k)%nat ∧ local m Q (g a)) →
  local k Q (fun w => let '(a, w1) := f w in g a w1).
Proof.
  intros Hf Hg w a' w' H. destruct (Hf w) as [H1 F1]. destruct (f w) as [a w1]. simpl in *.
  destruct (Hg a) as (m & Hk & Hl). destruct (Hl _ _ _ H) as (Hq & e2 & H2 & F2). split; [done|]. exists e2.
  split; [by eapply local_weaken, (local_trans _ _ _ _ _ [] e2)|].
  intros cl. rewrite F1. apply F2.
Qed.

Lemma local_more {A} n m (P Q : A → Prop) f :
  local n P f → (n ≤ m)%nat → (∀ a, P a → Q a) → local m Q f.
Proof.
  intros Hf Hn HP w a w' H. destruct (Hf _ _ _ H) as (Ha & e & Hl & F).
  split; [by apply HP|]. exists e. split; [by eapply local_weaken|done].
Qed.

(** ** The system calls *)

Lemma local_next_fault : local_call (fun _ => 0%nat) next_fault.
Proof.
  intros w. unfold next_fault. simpl. destruct (w_faults w) as [|f fs] eqn:E; simpl.
  - split; [apply local_refl|done].
  - split; [|done]. split; simpl; rewrite ?app_nil_r; try done.
    + unfold files. rewrite E. simpl. lia.
    + rewrite E. by apply suffix_cons_r.
Qed.

(** A call that takes an outcome and goes on with it. *)
Lemma call_after_fault {A} n (g : fault → world → A * world) :
  (∀ f, local_call n (g f)) → local_call n (fun w => let '(f, w1) := next_fault w in g f w1).
Proof.
  intros Hg w. destruct (local_next_fault w) as [H1 F1].
  destruct (next_fault w) as [f w1]. simpl in *. destruct (Hg f w1) as [H2 F2]. split.
  - exact (local_trans 0 _ _ _ _ [] [] H1 H2).
  - intros cl. rewrite F1. simpl. apply F2.
Qed.

Lemma call_const {A} n (a : A) : local_call n (fun w => (a, w)).
Proof. intros w. split; [|done]. simpl. eapply local_weaken, local_refl. lia. Qed.

Lemma local_attempt n : local_call n attempt.
Proof. apply (call_after_fault _ (fun f w => _)). intros []; apply call_const. Qed.

Lemma local_with_fs n w fs :
  (∀ name, foreign name → fs !! name = w_fs w !! name) → (size fs ≤ size (w_fs w) + n)%nat →
  local_change n w (with_fs w fs) [].
Proof. intros Hf Hs. split; simpl; rewrite ?app_nil_r; try done. unfold files. simpl. lia. Qed.

Lemma size_insert_le {A} (m : gmap string A) k a : (size (<[k := a]> m) ≤ size m + 1)%nat.
Proof. rewrite map_size_insert. case_match; simpl; lia. Qed.

Section Own.
Context (name : string) (e : Z) (Hname : fragment_name c md e = Ret name).

Lemma foreign_other name' : foreign name' → name ≠ name'.
Proof. intros H <-. by apply (H e). Qed.

(** Only a call that succeeds makes a file. *)
Definition made {A} (r : sysres A) : nat := match r with SOk _ => 1 | SErr _ => 0 end.

Lemma local_open_excl : local_call made (fun w => open_excl w name).
Proof.
  apply (call_after_fault _ (fun f w => _)). intros f w.
  destruct f as [|err|k]; [|by apply call_const|]; simpl; destruct (w_fs w !! name) as [x|] eqn:E;
    try (by apply call_const); (split; [|done]); apply local_with_fs;
    try apply size_insert_le; intros name' Hn; by rewrite lookup_insert_ne by by apply foreign_other.
Qed.

Lemma local_open_trunc : local_call made (fun w => open_trunc w name).
Proof.
  apply (call_after_fault _ (fun f w => _)). intros f w.
  destruct f as [|err|k]; [|by apply call_const|]; simpl; destruct (w_fs w !! name) as [[]|] eqn:E;
    try (by apply call_const); (split; [|done]); apply local_with_fs;
    try apply size_insert_le; intros name' Hn; by rewrite lookup_insert_ne by by apply foreign_other.
Qed.

Lemma local_sys_write bs : local_call (fun _ => 0%nat) (fun w => sys_write w name bs).
Proof.
  apply (call_after_fault _ (fun f w => _)). intros f w.
  destruct f as [|err|k]; [|by apply (call_const (fun _ => 0%nat))|]; simpl; destruct (w_fs w !! name) as [[d|]|] eqn:E;
    (split; [|done]); apply local_with_fs; try done; try lia;
    try (rewrite map_size_insert_Some by eauto; lia);
    intros name' Hn; by rewrite lookup_insert_ne by by apply foreign_other.
Qed.

Lemma local_sys_unlink n : local_call n (fun w => (tt, sys_unlink w name)).
Proof.
  intros w. split; [|done]. apply local_with_fs.
  - intros name' Hn. by rewrite lookup_delete_ne by by apply foreign_other.
  - rewrite map_size_delete. case_match; simpl; lia.
Qed.

Lemma local_write_all_loop fuel : ∀ rest, local 0 (fun _ => True) (fun w => write_all_loop fuel w name rest).
Proof.
  induction fuel as [|fuel IH]; intros [|b rest]; cbn [write_all_loop];
    try (by apply local_ret); [by intros ? ? ? ?|].
  eapply local_sys; [apply local_sys_write|].
  intros [n|err]; exists 0%nat; (split; [lia|]); simpl; [apply IH|].
  destruct (err =? EINTR); [apply IH|by apply local_ret].
Qed.

Lemma local_write_all bs : local 0 (fun _ => True) (fun w => write_all_ w name bs).
Proof. intros w a w' H. by apply (local_write_all_loop _ _ _ _ _ H). Qed.
End Own.

(** ** The writer *)

(** The writer works for this thread, and its buffer has the configured size. *)
Definition belongs (i : writer_impl) : Prop :=
  wi_md i = Some md ∧ wi_tid i = md ∧
  (is_Some (wi_buffer i) → wi_size i = coldtrace_get_trace_size c).

Definition owned (th : coldtrace_thread) : Prop := th_initd th = true → belongs (th_writer th).

Context `{B : BuildInfo, L : Lz4} (junk : nat → Z).

(** Setting up the buffer. *)
Lemma belongs_sized i j :
  belongs i → wi_md j = wi_md i → wi_tid j = wi_tid i →
  wi_buffer j = None ∨ wi_size j = coldtrace_get_trace_size c → belongs j.
Proof.
  intros (Hm & Ht & _) E1 E2 [Hn|Hs]; (split; [congruence|]); (split; [congruence|]); [|done].
  rewrite Hn. by intros [? ?].
Qed.

(** Storing into the buffer. *)
Lemma belongs_store i b : belongs i → is_Some (wi_buffer i) → belongs (set_buffer (Some b) i).
Proof. intros (? & ? & Hs) Hb. repeat split; try done. by intros _; apply Hs. Qed.

Lemma belongs_release i : belongs i → belongs (release_buffers_ i).
Proof.
  intros (H1 & H2 & H3). unfold release_buffers_.
  destruct i as [? ? ? [] []]; (split; [exact H1|split; [exact H2|]]); by intros [? ?].
Qed.

Lemma belongs_fail i : belongs i → belongs (fail_ i).
Proof. apply belongs_release. Qed.

Hint Resolve belongs_release belongs_fail : core.

Lemma local_first_fragment_loop fuel : ∀ i, belongs i →
  local 1 (fun r => belongs r.2) (first_fragment_loop fuel c i).
Proof.
  induction fuel as [|fuel IH]; intros i Hi; cbn [first_fragment_loop]; [by intros ? ? ? ?|].
  apply local_pure. intros name Hname. rewrite (proj1 (proj2 Hi)) in Hname.
  eapply local_sys; [by eapply local_open_excl|]. intros [[]|err].
  - exists 0%nat. split; [done|]. by apply local_ret.
  - exists 1%nat. split; [done|]. destruct (negb (err =? EEXIST)); [by apply local_ret|by apply IH].
Qed.

Lemma local_first_fragment i : belongs i → local 1 (fun r => belongs r.2) (first_fragment_ c i).
Proof. intros Hi w a w' H. by apply (local_first_fragment_loop _ _ Hi _ _ _ H). Qed.

Lemma local_change_close i b w :
  belongs i → local_change 0 w (coldtrace_writer_close b (wi_offset i) (wi_md i) w)
    [CloseCall b (wi_offset i) (wi_md i)].
Proof.
  intros Hi. split; simpl; try done; [by apply Forall_singleton, Hi|]. unfold files. simpl. lia.
Qed.

Lemma local_close i b n P (f g : world → outcome (writer_impl * world)) :
  belongs i → (∀ w, g w = f (coldtrace_writer_close b (wi_offset i) (wi_md i) w)) →
  local n P f → local n P g.
Proof.
  intros Hi Hg Hf w a w' H. rewrite Hg in H. destruct (Hf _ _ _ H) as (Ha & e & Hl & F). split; [done|].
  exists ([CloseCall b (wi_offset i) (wi_md i)] ++ e). split.
  - exact (local_trans 0 n _ _ _ _ _ (local_change_close i b w Hi) Hl).
  - intros cl. rewrite app_assoc, Hg. apply (F (cl ++ _)).
Qed.

(** Solves [l = ?f x], abstracting [x] from [l]. *)
Ltac abstract_rhs :=
  cbv zeta;
  lazymatch goal with
  | |- ?l = ?f ?x =>
      let t := eval pattern x in l in
      lazymatch t with ?F _ => unify f F end
  end; reflexivity.

Lemma local_flush i : belongs i → local 1 belongs (flush_ c i).
Proof.
  intros Hi. unfold flush_. destruct (wi_buffer i) as [b|]; [|apply local_undef].
  eapply (local_close i b); [done|intros w; abstract_rhs|]. cbv beta.
  destruct (negb (wi_mmapped i)); [by apply local_ret|].
  destruct (wi_comp_buf i) as [cb|]; [|apply local_undef].
  do 2 (apply local_pure; intros ? _). apply local_pure. intros src _. apply local_pure. intros cb' _.
  match goal with |- context [if ?x <=? 0 then _ else _] => destruct (x <=? 0) end;
    [by apply local_ret, belongs_fail|].
  apply local_pure. intros name Hname. cbn [wi_tid set_comp_buf] in Hname. rewrite (proj1 (proj2 Hi)) in Hname.
  eapply local_sys; [by eapply local_open_trunc|]. intros [[]|err].
  - exists 0%nat. split; [done|].
    eapply (local_bind 0 0); [by eapply local_write_all|lia|]. intros [] _; simpl; [by apply local_ret|].
    apply (local_sys (fun _ => 0%nat) 0 belongs (fun w => (tt, sys_unlink w name))
      (fun _ w => Ret (fail_ (set_comp_buf (Some cb') i), w))); [by eapply local_sys_unlink|].
    intros _. exists 0%nat. split; [lia|]. by apply (local_ret 0 belongs), belongs_fail.
  - exists 0%nat. split; [simpl; lia|]. by apply local_ret, belongs_fail.
Qed.

Lemma belongs_begin i i' : begin_fragment_ i = Ret i' → belongs i → belongs i'.
Proof.
  unfold begin_fragment_. destruct (wi_buffer i) as [b|] eqn:Eb; [|done]. intros H Hi. inv_outcome.
  by apply (belongs_store i r Hi).
Qed.

(** The buffer starts a fragment. *)
Lemma local_begin {A} n i (P : A → Prop) (f : writer_impl → A) :
  belongs i → (∀ i', belongs i' → P (f i')) →
  local n P (fun w => let! i' := begin_fragment_ i in Ret (f i', w)).
Proof.
  intros Hi HP. apply (local_pure n P _ (fun w i' => Ret (f i', w))). intros i' H.
  apply local_ret, HP. by eapply belongs_begin.
Qed.

Lemma local_ensure_buffer i : belongs i → local 1 (fun r => belongs r.2) (ensure_buffer_ junk c i).
Proof.
  intros Hi. unfold ensure_buffer_.
  destruct (negb (wi_initd i)); [by apply local_ret|]. destruct (wi_failed i); [by apply local_ret|].
  destruct (wi_buffer i) eqn:Eb; [by apply local_ret|]. cbv zeta.
  destruct (negb (validate_trace_size_ _ _)); [by apply local_ret, (belongs_sized i); auto|].
  destruct (coldtrace_writes_disabled c).
  - eapply local_sys; [apply (local_attempt (fun _ => 0%nat))|]. intros ok. exists 1%nat. split; [done|].
    destruct ok; cbn [wi_buffer set_mmapped set_buffer]; [|by apply local_ret, (belongs_sized i); auto].
    apply (local_begin 1 _ (fun r => belongs r.2) (fun i => (true, i))); [|done].
    by apply (belongs_sized i); auto.
  - eapply local_sys; [apply (local_attempt (fun _ => 0%nat))|]. intros ok. exists 1%nat. split; [done|].
    destruct ok; simpl; [|by apply local_ret, (belongs_sized i); auto].
    eapply local_sys; [apply (local_attempt (fun _ => 0%nat))|]. intros ok. exists 1%nat. split; [done|].
    destruct ok; cbn [negb]; [|by apply local_ret, belongs_fail, (belongs_sized i); auto].
    eapply (local_bind 1 0); [by apply local_first_fragment, (belongs_sized i); auto|lia|].
    intros [ok i'] Hi'. destruct ok; cbn [negb]; [|by apply local_ret, belongs_fail].
    by apply (local_begin 0 _ (fun r => belongs r.2) (fun i => (true, i))).
Qed.

Lemma local_advance i : belongs i → local 0 belongs (advance_fragment_ junk c i).
Proof.
  intros Hi. unfold advance_fragment_. destruct (negb (wi_mmapped i)); cbv zeta.
  - set (size := coldtrace_get_trace_size c).
    destruct (negb (wi_size i =? size) && validate_trace_size_ size false); [|by apply local_ret].
    apply (local_ext _ _ _ (fun w => let '(ok, w) := attempt w in
      Ret (set_offset 0 (if ok : bool then set_size size (set_buffer (Some (uninit junk size)) i)
                         else i), w))).
    { intros w. by destruct (attempt w) as [[] w1]. }
    eapply local_sys; [apply (local_attempt (fun _ => 0%nat))|]. intros ok. exists 0%nat. split; [done|].
    apply local_ret. destruct ok; [|done]. by apply (belongs_sized i); auto.
  - destruct (coldtrace_get_max c =? 0); [apply local_undef|by apply local_ret].
Qed.

Lemma local_new_trace i : belongs i → local 1 belongs (new_trace_ junk c i).
Proof.
  intros Hi. eapply (local_bind 1 0); [by apply local_flush|lia|]. intros i1 H1.
  destruct (wi_buffer i1); [|by apply local_ret].
  eapply (local_bind 0 0); [by apply local_advance|lia|]. intros i2 H2.
  by apply (local_begin 0 _ belongs (fun i => i)).
Qed.

Lemma local_reserve i n :
  belongs i → local 2 (fun r => belongs r.2) (fun w => coldtrace_writer_reserve junk c i w n).
Proof.
  intros Hi. eapply (local_bind 1 1); [by apply local_ensure_buffer|lia|]. intros [ok i1] H1.
  destruct ok; simpl; [|by apply local_ret].
  eapply (local_bind 1 0 1 belongs _ (fun w => if coldtrace_writer_new_trace c i1 n
    then new_trace_ junk c i1 w else Ret (i1, w))); [|lia|].
  - destruct (coldtrace_writer_new_trace c i1 n); [by apply local_new_trace|by apply local_ret].
  - intros i2 H2. destruct (wi_buffer i2); by apply local_ret.
Qed.

Lemma local_writer_fini i : belongs i → local 1 belongs (coldtrace_writer_fini c i).
Proof.
  intros Hi. unfold coldtrace_writer_fini. destruct (negb (wi_initd i)); [by apply local_ret|].
  eapply (local_bind 1 0 1 belongs _ (fun w => match wi_buffer i with
    | Some _ => flush_ c i w | None => Ret (i, w) end)); [|lia|].
  - destruct (wi_buffer i); [by apply local_flush|by apply local_ret].
  - intros i1 H1. by apply local_ret, (belongs_release i1).
Qed.

(** ** The thread *)

Lemma owned_get th : owned th → owned (get_coldtrace_thread md th) ∧ th_initd (get_coldtrace_thread md th) = true.
Proof.
  intros H. unfold get_coldtrace_thread. destruct (th_initd th) eqn:E; simpl; [done|].
  split; [|done]. intros _. repeat split; try done. by intros [? ?].
Qed.

Lemma owned_same th th' :
  th_initd th' = th_initd th → belongs (th_writer th') ∨ th_writer th' = th_writer th → owned th → owned th'.
Proof. intros Hi [H|H] Ho; intros E; [done|]. rewrite H. apply Ho. by rewrite <- Hi. Qed.

Lemma entry_store_owned th off bs th' : entry_store th off bs = Ret th' → owned th → owned th'.
Proof.
  unfold entry_store. destruct (wi_buffer (th_writer th)) eqn:Eb; [|done]. intros H Ho. inv_outcome.
  intros Hi. apply belongs_store; [by apply Ho|by rewrite Eb].
Qed.

Lemma owned_writer wr th : belongs wr → owned (set_writer wr th).
Proof. by intros H _. Qed.

(** Stores into the entry that has been reserved. *)
Lemma local_store {A} n th off bs (P : A → Prop) f :
  owned th → (∀ th', owned th' → local n P (fun w => f w th')) →
  local n P (fun w => obind (entry_store th off bs) (f w)).
Proof. intros Ho Hf. apply local_pure. intros th' H. by eapply Hf, entry_store_owned. Qed.

Section Append.
Context (th : coldtrace_thread) (Hown : owned th) (Hinitd : th_initd th = true).

Lemma local_append_plain len_ type ptr :
  local 2 (fun r => owned r.2) (fun w => append_plain junk c th w len_ type ptr).
Proof.
  unfold append_plain. cbv zeta. set (t := if coldtrace_writer_new_trace c (th_writer th) len_ then _ else th).
  assert (th_initd t = true ∧ belongs (th_writer t)) as [Hi Hb] by (unfold t; case_match; auto).
  eapply (local_bind 2 0); [by apply local_reserve|lia|]. intros [[e|] wr] Hwr;
    [|by apply local_ret, owned_writer].
  eapply (local_store 0); [by apply owned_writer|]. intros th' Ho. by apply local_ret.
Qed.

Lemma local_append_stack len_ type ptr :
  local 2 (fun r => owned r.2) (fun w => append_stack junk c th w len_ type ptr).
Proof.
  unfold append_stack. cbv zeta. case_match. 
  eapply (local_bind 2 0); [by apply local_reserve, Hown|lia|]. intros [[e|] wr] Hwr;
    [|by apply local_ret, owned_writer].
  eapply (local_store 0); [by apply owned_writer|]. intros t1 H1.
  eapply (local_store 0); [done|]. intros t2 H2. eapply (local_store 0); [done|]. intros t3 H3.
  apply (local_pure 0 (fun r => owned r.2) _ (fun w t => Ret (Some e, set_stack_bottom (th_stack_size th) t, w))).
  intros th' H'. apply local_ret. simpl.
  assert (owned th'); [|done]. case_match; inv_outcome; [by eapply entry_store_owned|done].
Qed.
End Append.

Lemma local_append th type ptr :
  owned th → local 2 (fun r => owned r.2) (fun w => coldtrace_thread_append junk c md th w type ptr).
Proof.
  intros [Ho Hi]%owned_get. unfold coldtrace_thread_append. cbv zeta.
  set (t := get_coldtrace_thread md th) in *. destruct (th_failed t); [by apply local_ret|].
  apply local_pure. intros n _. destruct (n =? 0); [by apply local_ret|].
  destruct (negb (with_stack_ type)); [by apply local_append_plain|by apply local_append_stack].
Qed.

Lemma local_thread_fini th :
  owned th → local 1 owned (coldtrace_thread_fini c md th).
Proof.
  intros [Ho Hi]%owned_get. unfold coldtrace_thread_fini. cbv zeta.
  eapply (local_bind 1 0); [by apply local_writer_fini, Ho|lia|]. intros wr Hwr. apply local_ret.
  by intros _.
Qed.

Lemma local_push th a :
  owned th → local 0 owned (fun w => coldtrace_thread_stack_push junk md th w a).
Proof.
  intros [Ho _]%owned_get. unfold coldtrace_thread_stack_push. cbv zeta.
  set (t := get_coldtrace_thread md th) in *. destruct (th_failed t); [by apply local_ret|].
  pose (store_frame := fun (t1 : coldtrace_thread) (w : world) => match th_stack t1 with
    | Some arr => if in_range arr (th_stack_size t1) 1 then
        Ret (set_stack_size (u32 (th_stack_size t1 + 1))
               (set_stack (Some (<[Z.to_nat (th_stack_size t1):=u64 a]> arr)) t1), w)
        else Undef OutOfBounds
    | None => Undef NullDeref end).
  assert (∀ t1, owned t1 → local 0 owned (store_frame t1)) as Hstore.
  { intros t1 H1. unfold store_frame. destruct (th_stack t1); [|apply local_undef].
    destruct (in_range _ _ _); [by apply local_ret|apply local_undef]. }
  destruct (th_stack_size t =? th_stack_capacity t); [|by apply Hstore].
  set (cap := if th_stack_capacity t =? 0 then INITIAL_STACK_CAPACITY else u32 (th_stack_capacity t * 2)).
  set (t1 := set_stack_capacity cap (set_stack (Some (take (Z.to_nat cap)
    (default [] (th_stack t) ++ (junk <$> seq 0 (Z.to_nat cap))))) t)).
  apply (local_ext _ _ _ (fun w => let '(ok, w) := attempt w in
    if ok : bool then store_frame t1 w else Ret (set_th_failed true t, w))).
  { intros w. unfold grow_stack_. cbv zeta. by destruct (attempt w) as [[] w1]. }
  eapply local_sys; [apply (local_attempt (fun _ => 0%nat))|]. intros ok. exists 0%nat. split; [done|].
  destruct ok; [by apply Hstore|by apply local_ret].
Qed.

Lemma write_fields_owned fs : ∀ th off th', write_fields th off fs = Ret th' → owned th → owned th'.
Proof.
  induction fs as [|f fs IH]; intros th off th' H Ho; cbn [write_fields] in H; inv_outcome; [done|].
  eapply IH; [done|]. by eapply entry_store_owned.
Qed.

Lemma local_log th type ptr fields :
  owned th → local 2 (fun r => owned r.2) (fun w => log_entry junk c md th w type ptr fields).
Proof.
  intros Ho. eapply (local_bind 2 0); [by apply local_append|lia|]. intros [[e|] t] Ht; cbn [store_fields];
    [|by apply local_ret].
  apply (local_pure 0 (fun r => owned r.2) _ (fun w th => Ret (true, th, w))). intros t' H.
  apply local_ret. by eapply write_fields_owned.
Qed.

Lemma owned_init th : owned (coldtrace_thread_init md th).
Proof. intros _. repeat split; try done. by intros [? ?]. Qed.

Lemma owned_pop th : owned th → owned (coldtrace_thread_stack_pop md th).
Proof.
  intros [Ho _]%owned_get. unfold coldtrace_thread_stack_pop. cbv zeta. repeat case_match; exact Ho.
Qed.

(** ** The operations of the recorder *)
Lemma local_exec o th : owned th → local 2 owned (fun w => exec junk c md o (th, w)).
Proof.
  intros Ho. destruct o; cbn [exec].
  - eapply (local_bind 2 0); [by apply local_log|lia|]. intros [b t] Ht. by apply local_ret.
  - eapply local_more; [by apply local_push|lia|done].
  - by apply local_ret, owned_pop.
  - apply local_ret. by apply (owned_get th).
  - apply local_ret, owned_init.
  - eapply local_more; [by apply local_thread_fini|lia|done].
Qed.

Lemma local_run os : ∀ th, owned th → local (2 * length os) owned (fun w => run junk c md os (th, w)).
Proof.
  induction os as [|o os IH]; intros th Ho; cbn [run]; [by apply local_ret|].
  eapply (local_bind 2 (2 * length os)); [by apply local_exec|simpl; lia|]. intros t Ht. simpl. by apply IH.
Qed.

(** ** The thread's own view *)

(** The record of the close hook with the calls of this thread only. *)
Definition own (w : world) : world := with_closed w (filter (fun cl => cl_md cl = Some md) (w_closed w)).

Lemma own_change n w w' ext :
  local_change n w w' ext → w_closed (own w') = w_closed (own w) ++ ext.
Proof.
  intros [Hc Hm _ _ _]. simpl. rewrite Hc, filter_app. f_equal. clear Hc.
  induction Hm as [|cl ext Hcl _ IH]; [done|]. rewrite filter_cons_True by done.
  by rewrite IH.
Qed.

(** A computation of the thread does in the own view what it does in the world. *)
Lemma local_own {A} n (P : A → Prop) f w a w' :
  local n P f → f w = Ret (a, w') → f (own w) = Ret (a, own w').
Proof.
  intros Hf H. destruct (Hf _ _ _ H) as (_ & ext & Hl & F). unfold own at 1. rewrite F.
  pose proof (own_change _ _ _ _ Hl) as E. simpl in E. unfold own. by rewrite E.
Qed.

(** And conversely, if it returns in the own view it returns in the world. *)
Lemma local_from_own {A} n (P : A → Prop) f w a w' :
  local n P f → f (own w) = Ret (a, w') → ∃ w2, f w = Ret (a, w2).
Proof.
  intros Hf H. destruct (Hf _ _ _ H) as (_ & ext & _ & F). specialize (F (w_closed w)).
  unfold own in F. rewrite with_closed_twice, with_closed_id in F. eauto.
Qed.

Lemma run_own os th w th' w' :
  owned th → run junk c md os (th, w) = Ret (th', w') →
  owned th' ∧ run junk c md os (th, own w) = Ret (th', own w') ∧
  ∃ ext, local_change (2 * length os) w w' ext.
Proof.
  intros Ho H. pose proof (local_run os th Ho) as Hl. split; [|split].
  - by destruct (Hl _ _ _ H).
  - exact (local_own _ _ _ _ _ _ Hl H).
  - destruct (Hl _ _ _ H) as (_ & ext & ? & _). eauto.
Qed.

Lemma stopped_own os th w th' w' :
  owned th → stopped junk c md os (th, w) (th', w') → stopped junk c md os (th, own w) (th', own w').
Proof.
  intros Ho (os0 & ty & p & fs & [t0 w0] & -> & Hrun & Hlog). simpl in Hlog.
  destruct (run_own _ _ _ _ _ Ho Hrun) as (Ho0 & Hrun0 & _).
  exists os0, ty, p, fs, (t0, own w0). do 2 (split; [done|]). simpl.
  exact (local_own _ _ _ _ _ _ (local_log t0 ty p fs Ho0) Hlog).
Qed.
End Locality.
