(* ===== verification/Threads.v ===== *)
(** * Many threads, one trace directory

    The interleaved system of [Atomics] against a system of independent recorders:
    whatever the schedule, each thread records what it would record alone, and no
    thread is kept from finishing an atomic access. *)

From stdpp Require Import base list numbers strings gmap.
From Stdlib Require Import ZArith Lia Sorted.
From S2P Require Import Prelude Version Counters Entries Libc Utils Config Codec Lz4 Writer Thread Trace Recorder Subs Subscribers Atomics Handlers Locality.

Section Threads.
Context `{B : BuildInfo, L : Lz4, V : Vsync, !VsyncLaws V, !Lz4Laws L}.
Context (junk : nat → Z) (c : config) (Hc : config_ok c).

(** ** The specification: a recorder for each thread *)

(** The recorder operations a schedule stands for, in order. *)
Fixpoint history (sy : system) (evs : list (Z * capture)) : list (Z * list op) :=
  match evs with
  | [] => []
  | (t, ev) :: evs =>
      (t, capture_ops (sy_shared sy) (thread_of sy t) ev) ::
      match do_event junk c sy t ev with
      | Some sy' => history sy' evs
      | None => []
      end
  end.

Definition ops_of (t : Z) (h : list (Z * list op)) : list op :=
  concat (snd <$> filter (fun x => x.1 = t) h).

Lemma ops_of_cons t t' os h : ops_of t ((t', os) :: h) = (if decide (t' = t) then os else []) ++ ops_of t h.
Proof. unfold ops_of. rewrite filter_cons. simpl. by destruct (decide (t' = t)). Qed.

(** A thread and its part of the trace implement a recorder. *)
Definition records_own (sy : system) (t : Z) (a : recorder) : Prop :=
  owned c t (thread_of sy t) ∧ implements (thread_of sy t, own t (sy_world sy)) a.

(** ** One event *)

Lemma do_event_inv sy t ev sy' :
  do_event junk c sy t ev = Some sy' →
  ∃ h', handle junk c t ev (HState (sy_shared sy) (thread_of sy t) (sy_world sy)) = Ret h' ∧
    sy_shared sy' = hs_shared h' ∧ sy_world sy' = hs_world h' ∧
    sy_threads sy' = <[t := hs_thread h']> (sy_threads sy).
Proof.
  unfold do_event. destruct (negb _); [done|].
  destruct (handle junk c t ev _) as [h'|u|]; [|done..]. intros H. exists h'. split; [done|].
  repeat case_match; by simplify_eq.
Qed.

Lemma thread_of_insert sy sy' t th t' :
  sy_threads sy' = <[t := th]> (sy_threads sy) →
  thread_of sy' t' = if decide (t = t') then th else thread_of sy t'.
Proof. intros H. unfold thread_of. rewrite H, lookup_insert. by case_decide. Qed.

(** The thread of the event makes its steps. *)
Lemma records_event sy t ev sy' a :
  records_own sy t a → do_event junk c sy t ev = Some sy' →
  ∃ a', spec_run (capture_ops (sy_shared sy) (thread_of sy t) ev) a a' ∧ records_own sy' t a'.
Proof.
  intros [Ho Him] (h' & Hh & _ & Hw & Ht)%do_event_inv.
  apply handle_performs in Hh as (os1 & os2 & Hos & Hrun & Hr).
  destruct (run_own _ _ _ _ _ _ _ _ Ho Hrun) as (Ho' & Hrun' & _).
  destruct (performed_simulates junk c t os1 os2 _ (hs_thread h', own t (hs_world h')) a Him Hc) as (a' & Hsp & Him').
  - rewrite <- Hos. apply capture_requests_ok.
  - exact Hrun'.
  - destruct Hr as [->|[Hst Hl]]; [by left|right]. split; [|done]. by apply stopped_own.
  - exists a'. rewrite Hos. split; [done|]. unfold records_own.
    rewrite (thread_of_insert _ _ _ _ t Ht), decide_True, Hw by done. done.
Qed.

(** What an event of [t] leaves of the world for the others. *)
Lemma event_change sy t ev sy' :
  owned c t (thread_of sy t) → do_event junk c sy t ev = Some sy' →
  ∃ ext, local_change c t 4 (sy_world sy) (sy_world sy') ext.
Proof.
  intros Ho (h' & Hh & _ & -> & _)%do_event_inv.
  apply handle_performs in Hh as (os1 & os2 & Hos & Hrun & _).
  destruct (run_own _ _ _ _ _ _ _ _ Ho Hrun) as (_ & _ & ext & Hl). exists ext.
  eapply local_weaken; [|exact Hl].
  assert (length (os1 ++ os2) ≤ 2)%nat as Hlen; [|rewrite length_app in Hlen; lia].
  rewrite <- Hos. clear. destruct ev; cbn [capture_ops]; repeat case_match; simpl; lia.
Qed.

Lemma own_other t t' n w w' ext :
  local_change c t n w w' ext → t ≠ t' → w_closed (own t' w') = w_closed (own t' w).
Proof.
  intros [Hcl Hm _ _ _] Hne. simpl. rewrite Hcl, filter_app.
  assert (filter (fun cl => cl_md cl = Some t') ext = []) as ->; [|by rewrite app_nil_r].
  clear Hcl. induction Hm as [|cl ext E _ IH]; [done|]. rewrite filter_cons_False; [done|congruence].
Qed.

Lemma implements_closed th w w' a : w_closed w' = w_closed w → implements (th, w) a → implements (th, w') a.
Proof.
  intros E (fr & cur & [Ht Hcl Hf] & H). exists fr, cur. split; [|exact H].
  split; try done. simpl. by rewrite (closed_frags_eq _ _ E).
Qed.

Lemma records_other sy t ev sy' t' a :
  owned c t (thread_of sy t) → do_event junk c sy t ev = Some sy' → t ≠ t' →
  records_own sy t' a → records_own sy' t' a.
Proof.
  intros Ho H Hne [Ho' Him]. destruct (event_change _ _ _ _ Ho H) as [ext Hl].
  apply do_event_inv in H as (h' & _ & _ & _ & Ht). unfold records_own.
  rewrite (thread_of_insert _ _ _ _ t' Ht), decide_False by done. split; [done|].
  eapply implements_closed; [|exact Him]. by eapply own_other.
Qed.

(** ** A schedule *)

Definition all_record (sy : system) (rec : Z → recorder) : Prop := ∀ t, records_own sy t (rec t).

Lemma all_record_event sy t ev sy' rec :
  all_record sy rec → do_event junk c sy t ev = Some sy' →
  ∃ rec', all_record sy' rec' ∧ (∀ t', t ≠ t' → rec' t' = rec t') ∧
    spec_run (capture_ops (sy_shared sy) (thread_of sy t) ev) (rec t) (rec' t).
Proof.
  intros Hall H. destruct (records_event _ _ _ _ _ (Hall t) H) as (a' & Hsp & Ha').
  exists (fun t' => if decide (t = t') then a' else rec t'). split; [|split].
  - intros t'. case_decide as E; [by subst|]. eapply records_other; try done; apply Hall.
  - intros t' Hne. by rewrite decide_False.
  - by rewrite decide_True.
Qed.

Lemma all_record_events evs : ∀ sy sy' rec,
  all_record sy rec → do_events junk c sy evs = Some sy' →
  ∃ rec', all_record sy' rec' ∧ ∀ t, spec_run (ops_of t (history sy evs)) (rec t) (rec' t).
Proof.
  induction evs as [|[t ev] evs IH]; intros sy sy' rec Hall H; cbn [do_events history] in *.
  - simplify_eq. exists rec. split; [done|]. intros t. constructor.
  - destruct (do_event junk c sy t ev) as [sy1|] eqn:E; [|done]. simpl in H.
    destruct (all_record_event _ _ _ _ _ Hall E) as (rec1 & Hall1 & Hoth & Hsp).
    destruct (IH _ _ _ Hall1 H) as (rec' & Hall' & Hsp'). exists rec'. split; [done|].
    intros t'. rewrite ops_of_cons. case_decide as Et.
    + subst t'. by eapply spec_run_app.
    + simpl. rewrite <- (Hoth t') by done. apply Hsp'.
Qed.

(** Before the first event: nothing recorded, no thread known. *)
Definition fresh (sy : system) : Prop :=
  all_free (sy_shared sy) ∧ w_closed (sy_world sy) = [] ∧ sy_threads sy = ∅ ∧
  sy_pending sy = ∅ ∧ sy_done sy = [].

Lemma fresh_records sy : fresh sy → all_record sy (fun _ => recorder0).
Proof.
  intros (_ & Hw & Ht & _) t. unfold records_own, thread_of. rewrite Ht, lookup_empty. simpl.
  split; [done|]. apply implements_zero. simpl. by rewrite Hw.
Qed.

Lemma fresh_reachable sy evs sy' :
  fresh sy → do_events junk c sy evs = Some sy' → reachable junk c sy'.
Proof.
  intros (Hf & _ & Ht & Hp & Hd) H. eapply do_events_reachable; [|exact H].
  destruct sy as [s w th pe dn]. simpl in *. subst. by apply reach_init.
Qed.

(** C3: any schedule of any number of threads refines independent recorders.  After
    every interleaving of events, each thread has made exactly the recorder steps
    its own events stand for, as if it were alone: its part of what the close hook
    received, and its buffer, hold the events of its recorder, whatever the others
    did to the shared counters, areas and directory in between. *)
Theorem threads_refine sy evs sy' :
  fresh sy → do_events junk c sy evs = Some sy' →
  ∃ rec, (∀ t, spec_run (ops_of t (history sy evs)) recorder0 (rec t)) ∧
    (∀ t, implements (thread_of sy' t, own t (sy_world sy')) (rec t)).
Proof.
  intros Hf H. destruct (all_record_events evs _ _ _ (fresh_records sy Hf) H) as (rec & Hall & Hsp).
  exists rec. split; [done|]. intros t. apply Hall.
Qed.

(** ** Progress *)

(** Logs without a stack, of at most three words. *)
Definition small_log (o : op) : Prop :=
  match o with
  | OLog ty _ _ => with_stack_ ty = false ∧ ∃ n, coldtrace_entry_fixed_size ty = Ret n ∧ n <= 24
  | _ => False
  end.

Lemma buf_size_own t th cur :
  owned c t th → thread_ok th cur → buf_size c (th_writer th) = coldtrace_get_trace_size c.
Proof.
  intros Ho Ht. unfold buf_size. destruct (wi_buffer (th_writer th)) eqn:Eb; [|done].
  destruct (th_initd th) eqn:Ei; [|by rewrite (tk_initd _ _ Ht Ei) in Eb].
  apply (Ho Ei). by rewrite Eb.
Qed.

Lemma run_logs_return t os : ∀ th w a,
  implements (th, w) a → owned c t th → Forall op_ok os → Forall small_log os →
  Z.of_nat (files w + 2 * length os) < 2 ^ 32 → 32 <= coldtrace_get_trace_size c →
  ∃ s', run junk c t os (th, w) = Ret s'.
Proof.
  induction os as [|o os IH]; intros th w a Him Ho Hok Hsm Hw Hsz; cbn [run]; [by eexists|].
  apply Forall_cons in Hok as [Hok1 Hok]. apply Forall_cons in Hsm as [Hsm1 Hsm].
  destruct (exec_returns junk c t o (th, w) a Him Hc Hok1) as [[th1 w1] E].
  { destruct o; try done. destruct Hsm1 as (Hst & n & Hn & Hle). destruct Him as (fr & cur & Htr & _).
    split; simpl in *; [unfold world_small, files in *; lia|].
    intros m Hm. rewrite Hst. rewrite (buf_size_own t _ cur Ho (to_thread _ _ _ _ Htr)).
    rewrite Hn in Hm. simplify_eq. lia. }
  rewrite E. simpl. destruct (simulate_step _ _ _ _ _ _ _ Him Hc Hok1 E) as (a1 & _ & Him1).
  destruct (local_exec c t junk o th Ho _ _ _ E) as (Ho1 & ext & Hl & _).
  eapply IH; try done. pose proof (lc_files _ _ _ _ _ _ Hl). simpl in Hw. lia.
Qed.

Lemma after_ops_small s th ev addr :
  after_addr ev = Some addr → Forall small_log (capture_ops s th ev) ∧
    (length (capture_ops s th ev) ≤ 2)%nat.
Proof.
  destruct ev; try done; intros _; cbn [capture_ops]; repeat case_match; (split; [|simpl; lia]);
    repeat constructor; eexists; (split; [vm_compute; reflexivity|lia]).
Qed.

(** The room a number of second events need: files, atomic indices. *)
Definition room (sy : system) (n : nat) : Prop :=
  32 <= coldtrace_get_trace_size c ∧ Z.of_nat (files (sy_world sy) + 4 * n) < 2 ^ 32 ∧
  next_atomic_index (sh_counters (sy_shared sy)) + Z.of_nat n + 1 < 2 ^ 64.

Lemma released_counter s addr d s' :
  counters_ok (sh_counters s) → next_atomic_index (sh_counters s) + 1 < 2 ^ 64 →
  released s addr d s' →
  next_atomic_index (sh_counters s') <= next_atomic_index (sh_counters s) + 1.
Proof.
  intros Hk Hr (a & _ & ->). simpl. destruct d; [|lia]. rewrite draw_spec by done. simpl. lia.
Qed.

(** A thread inside an access can always finish it. *)
Lemma second_event sy rec t ev addr i n :
  all_record sy rec → ordered sy → sy_pending sy !! t = Some (addr, i) →
  after_addr ev = Some addr → room sy (S n) →
  ∃ sy', do_event junk c sy t ev = Some sy' ∧ sy_pending sy' = delete t (sy_pending sy) ∧ room sy' n.
Proof.
  intros Hall Hord Hpend Hafter (Hsz & Hfiles & Hroom). destruct (Hall t) as [Ho Him].
  destruct (after_ops_small (sy_shared sy) (thread_of sy t) ev addr Hafter) as [Hsm Hlen].
  assert (before_addr ev = None) as Hbefore by by destruct ev.
  destruct (run_logs_return t (capture_ops (sy_shared sy) (thread_of sy t) ev) _ _ _ Him Ho)
    as [[th1 w1] E]; [apply capture_requests_ok|done| |done|].
  { change (files (own t (sy_world sy))) with (files (sy_world sy)). lia. }
  apply (local_from_own _ _ _ _ _ _ _ _ (local_run c t junk _ (thread_of sy t) Ho)) in E as [w2 E].
  apply (handle_returns junk c t ev (sy_shared sy)) in E as [h' Hh];
    [|split; [apply Hord|by rewrite Hbefore]].
  assert (do_event junk c sy t ev = Some (after_handler sy t h' (delete t (sy_pending sy))
    (sy_done sy ++ [(get_area addr, logged_indices (sy_shared sy) (thread_of sy t) ev)]))) as Hev.
  { unfold do_event. rewrite Hh, Hbefore, Hafter, Hpend, Z.eqb_refl.
    destruct (Z.ltb_spec (next_atomic_index (sh_counters (sy_shared sy)) + 1) (2 ^ 64)); [done|lia]. }
  eexists. split; [exact Hev|]. split; [done|]. split; [done|].
  destruct (event_change _ _ _ _ Ho Hev) as [ext Hl]. apply lc_files in Hl. simpl in Hl.
  split; [simpl; lia|]. simpl.
  assert (handles junk c sy t ev h') as (_ & r & Hsub)%handles_inv by (split; [lia|done]).
  apply (after_shared junk c t ev addr _ _ _ Hafter), released_counter in Hsub; simpl in *;
    [lia|apply Hord|lia].
Qed.

Lemma second_events (second : Z → capture) l : ∀ sy rec,
  all_record sy rec → reachable junk c sy → NoDup l →
  (∀ t, is_Some (sy_pending sy !! t) ↔ t ∈ l) →
  (∀ t addr i, sy_pending sy !! t = Some (addr, i) → after_addr (second t) = Some addr) →
  room sy (length l) →
  ∃ sy', do_events junk c sy ((fun t => (t, second t)) <$> l) = Some sy' ∧
    sy_pending sy' = ∅ ∧ reachable junk c sy' ∧ room sy' 0.
Proof.
  induction l as [|t l IH]; intros sy rec Hall Hr Hnd Hl Hsec Hroom.
  - exists sy. split; [done|]. split; [|done]. apply map_empty. intros t.
    destruct (sy_pending sy !! t) eqn:E; [|done]. destruct (Hl t) as [H _]. rewrite E in H.
    by apply not_elem_of_nil in H.
  - apply NoDup_cons in Hnd as [Hnin Hnd].
    destruct (Hl t) as [_ [[addr i] Hp]]; [by apply list_elem_of_here|].
    destruct (second_event sy rec t (second t) addr i (length l)) as (sy1 & Hev & Hp1 & Hroom1);
      [done|by eapply reachable_ordered|done|by eapply Hsec|done|].
    destruct (all_record_event _ _ _ _ _ Hall Hev) as (rec1 & Hall1 & _).
    destruct (IH sy1 rec1) as (sy' & Hevs & H'); try done.
    + eapply reach_step; [done|]. by eapply do_event_step.
    + intros t'. rewrite Hp1. destruct (decide (t = t')) as [<-|Hne].
      * rewrite lookup_delete_eq. split; [by intros [? ?]|done].
      * rewrite lookup_delete_ne, Hl, elem_of_cons by done. naive_solver.
    + intros t' addr' i'. rewrite Hp1. intros [_ H]%lookup_delete_Some. by eapply Hsec.
    + exists sy'. split; [|done]. rewrite fmap_cons. cbn [do_events]. by rewrite Hev.
Qed.

Lemma all_free_when_idle sy : ordered sy → sy_pending sy = ∅ → all_free (sy_shared sy).
Proof.
  intros [Hl Hk Hh _ _ _ _ _] Hp. split; [done|]. split; [done|]. intros i a Ha.
  destruct (caslock_held (area_lock a)) eqn:E; [|done].
  destruct (Hh i a Ha E) as (t & ad & n & Ht & _). by rewrite Hp, lookup_empty in Ht.
Qed.

Lemma first_event sy t ev addr :
  all_free (sy_shared sy) → sy_pending sy !! t = None → before_addr ev = Some addr →
  next_atomic_index (sh_counters (sy_shared sy)) + 1 < 2 ^ 64 → is_Some (do_event junk c sy t ev).
Proof.
  intros (Hl & _ & Hfree) Hp Hb Hroom.
  destruct (handle_returns junk c t ev (sy_shared sy) (thread_of sy t) (sy_world sy)
    (thread_of sy t, sy_world sy)) as [h' Hh].
  - split; [done|]. intros. by eapply Hfree.
  - by destruct ev.
  - unfold do_event. rewrite Hh, Hb, Hp.
    destruct (Z.ltb_spec (next_atomic_index (sh_counters (sy_shared sy)) + 1) (2 ^ 64)); [|lia].
    by eexists.
Qed.

(** C12: nobody waits for ever.  From every state an interleaving reaches, the threads
    inside an atomic access can finish it in any order [l], none of them waiting
    for another: their second events return, after them every area is free, and
    then the first event of any access of any thread returns too.  So a thread
    that spins on the lock of an area waits for a thread that can release it. *)
Theorem accesses_finish sy evs sy' second l :
  fresh sy → do_events junk c sy evs = Some sy' →
  l ≡ₚ (map_to_list (sy_pending sy')).*1 →
  (∀ t addr i, sy_pending sy' !! t = Some (addr, i) → after_addr (second t) = Some addr) →
  room sy' (length l) →
  ∃ sy2, do_events junk c sy' ((fun t => (t, second t)) <$> l) = Some sy2 ∧
    sy_pending sy2 = ∅ ∧ all_free (sy_shared sy2) ∧
    ∀ t ev addr, before_addr ev = Some addr → is_Some (do_event junk c sy2 t ev).
Proof.
  intros Hf H Hperm Hsec Hroom.
  destruct (all_record_events evs _ _ _ (fresh_records sy Hf) H) as (rec & Hall & _).
  destruct (second_events second l sy' rec Hall) as (sy2 & Hevs & Hp & Hr & Hroom2); try done.
  - by eapply fresh_reachable.
  - rewrite Hperm. apply NoDup_fst_map_to_list.
  - intros t. rewrite Hperm, list_elem_of_fmap. split.
    + intros [x Hx]. exists (t, x). split; [done|]. by apply elem_of_map_to_list.
    + intros ([t' x] & -> & Hx). apply elem_of_map_to_list in Hx. eauto.
  - exists sy2. do 2 (split; [done|]). apply reachable_ordered in Hr.
    pose proof (all_free_when_idle _ Hr Hp) as Hfree. split; [done|]. intros t ev addr Hb.
    eapply first_event; try done; [by rewrite Hp, lookup_empty|]. destruct Hroom2 as (_ & _ & ?). lia.
Qed.
End Threads.

Section Demo.
#[local] Existing Instance demo_build.

Definition demo_system : system := System demo_shared demo_world ∅ ∅ [].

Lemma demo_fresh : fresh demo_system.
Proof.
  split; [|done]. split; [done|]. split; [done|]. intros i a Ha.
  apply lookup_replicate in Ha as [-> _]. done.
Qed.

Lemma threads_refine_witness :
  ∃ sy' rec, do_events zero_junk demo_config96 demo_system demo_schedule = Some sy' ∧
    length (ops_of 1 (history zero_junk demo_config96 demo_system demo_schedule)) = 3%nat ∧
    spec_run (ops_of 1 (history zero_junk demo_config96 demo_system demo_schedule)) recorder0 (rec 1) ∧
    implements (thread_of sy' 1, own 1 (sy_world sy')) (rec 1).
Proof.
  assert (is_Some (do_events zero_junk demo_config96 demo_system demo_schedule)) as [sy' E]
    by (apply (bool_decide_unpack _); vm_compute; reflexivity).
  destruct (threads_refine zero_junk demo_config96 demo_config_ok demo_system demo_schedule sy')
    as (rec & H1 & H2); [apply demo_fresh|exact E|].
  exists sy', rec. split; [exact E|]. split; [vm_compute; reflexivity|]. split; [apply H1|apply H2].
Defined.

(** Threads 1 and 3 are inside an access; 3 finishes first. *)
Definition demo_inside : list (Z * capture) :=
  [ (1, C_before_rmw 0x7f0040); (3, C_before_aread 0x7f0080) ].

Definition demo_second (t : Z) : capture :=
  if t =? 1 then C_after_rmw 0x7f0040 4 else C_after_aread 0x7f0080 8.

Lemma accesses_finish_witness :
  ∃ sy' sy2, do_events zero_junk demo_config96 demo_system demo_inside = Some sy' ∧
    do_events zero_junk demo_config96 sy' ((fun t => (t, demo_second t)) <$> [3; 1]) = Some sy2 ∧
    sy_pending sy2 = ∅ ∧ all_free (sy_shared sy2).
Proof.
  pose (r := do_events zero_junk demo_config96 demo_system demo_inside).
  assert (match r with Some sy => bool_decide (map_to_list (sy_pending sy) =
      [(3, (0x7f0080, 1)); (1, (0x7f0040, 0))] ∧ room demo_config96 sy 2) | None => false end = true) as Hr by (vm_compute; reflexivity).
  destruct r as [sy'|] eqn:E; [|discriminate Hr]. subst r.
  apply bool_decide_eq_true in Hr as [Hp Hroom].
  destruct (accesses_finish zero_junk demo_config96 demo_config_ok demo_system demo_inside sy' demo_second [3; 1])
    as (sy2 & H1 & H2 & H3 & _); [apply demo_fresh|exact E| | |exact Hroom|].
  - rewrite Hp. reflexivity.
  - intros t addr i Ht. apply elem_of_map_to_list in Ht. rewrite Hp in Ht.
    repeat (apply elem_of_cons in Ht as [Ht|Ht]; [injection Ht as -> -> ->; reflexivity|]).
    by apply not_elem_of_nil in Ht.
  - exists sy', sy2. split; [exact E|]. split; [exact H1|]. split; [exact H2|exact H3].
Defined.
End Demo.
