(* ===== verification/TestRun.v ===== *)
(** * What a passed test says about the program

    The composition of the tracer with the trace checker of the tests: the
    checker's [coldtrace_writer_close] takes the place of the weak hook, so the
    pages the writers close are the pages it checks.  A test that passes has
    checked the events of the program, not only the bytes it was given. *)

From stdpp Require Import base list numbers strings gmap.
From Stdlib Require Import ZArith Lia.
From S2P Require Import Prelude Version Counters Entries Libc Utils Config Codec Lz4 Writer Thread Trace Reader Indexes Checker Verdict Recorder Subs Subscribers Atomics Handlers Locality Threads.

(** The hook is called with the page, its size and the thread. *)
Fixpoint feed `{B : BuildInfo} (ck : checker) (cls : list close_call) (w : world) :
    outcome (checker * world) :=
  match cls with
  | [] => Ret (ck, w)
  | cl :: cls =>
      match cl_md cl with
      | None => Undef NullDeref
      | Some tid =>
          let! (ck, w) := checker_writer_close ck (cl_page cl) (cl_size cl) tid w in
          feed ck cls w
      end
  end.

(** An event as the checker looks at it: expected traces say nothing of stacks. *)
Definition as_entry (ev : event) : entry := Entry (ev_type ev) (ev_ptr ev) (ev_fields ev) None.

(** The indices of an event are those of counters that have not run over 2^63. *)
Definition indices_small (ev : event) : Prop :=
  index_range (alloc_index_of (base_type (ev_type ev)) (ev_fields ev)) ∧
  index_range (atomic_index_of (base_type (ev_type ev)) (ev_fields ev)).

(** A thread is started at most once, before its first event. *)
Definition once_started (os : list op) : Prop :=
  Forall (fun o => o ≠ OInit) (match os with OInit :: os => os | _ => os end).

(** ** What is recorded is a beginning of what happened *)

Definition active (a : recorder) : bool := negb (re_stuck a || re_mute a).

Lemma spec_run_prefix os a a' :
  spec_run os a a' → Forall (fun o => o ≠ OInit) os → ∀ st evs,
  (active a = true → st = re_stack a ∧ re_closed a ++ re_cur a = evs) →
  re_closed a ++ re_cur a `prefix_of` evs →
  re_closed a' ++ re_cur a' `prefix_of` evs ++ ideal st os.
Proof.
  induction 1 as [a|o os a b d Hs _ IH]; intros Hos st evs Heq Hpre; [by rewrite app_nil_r|].
  apply Forall_cons in Hos as [Ho Hos]. specialize (IH Hos). unfold active in *.
  assert (∀ ev, re_closed a ++ re_cur a `prefix_of` evs ++ [ev]) as Hsnoc.
  { intros ev. etrans; [exact Hpre|]. by eexists. }
  destruct Hs as [st0 cl cu ty p fs|st0 cl cu ty p fs|st0 cl cu ty p fs|st0 cl cu k m ty p fs Hoff
    |st0 cl cu m x|st0 cl cu m x|st0 cl cu m x|st0 cl cu m|st0 cl cu m|b i|st0 cl cu k m|st0 cl cu k m];
    simpl in *; try (rewrite cons_middle, app_assoc); try done; apply IH; simpl; rewrite ?app_nil_r; auto.
  all: try (destruct Heq as [-> <-]; [done|]; by rewrite ?app_assoc).
  all: try (by rewrite Hoff); try (by intros [-> <-]%Heq); try (by rewrite orb_true_r); intros [=].
Qed.

Lemma recorded_prefix os a :
  spec_run os recorder0 a → once_started os → re_closed a `prefix_of` ideal [] os.
Proof.
  intros Hrun Hst. trans (re_closed a ++ re_cur a); [by eexists|].
  assert (Forall (fun o => o ≠ OInit) os ∨ ∃ os', os = OInit :: os' ∧ Forall (fun o => o ≠ OInit) os')
    as [Hos|(os' & -> & Hos)].
  { unfold once_started in Hst. destruct os as [|[] os]; eauto. }
  - by apply (spec_run_prefix os recorder0 a Hrun Hos [] []).
  - inversion Hrun as [|o os a1 b d Hs Hr]; subst. inversion Hs; subst.
    by apply (spec_run_prefix os' _ a Hr Hos [] []).
Qed.

(** ** Conforming does not depend on the stacks, nor on what follows *)

Definition stackless (e : entry) : entry := Entry (en_type e) (en_ptr e) (en_fields e) None.

Lemma strip_replay es : ∀ st, as_entry <$> replay st es = stackless <$> es.
Proof. induction es as [|e es IH]; intros st; [done|]. cbn [replay fmap list_fmap]. f_equal. apply IH. Qed.

Definition stackless_all (l : list entry) : list entry := stackless <$> l.

Lemma strip_concat ls : stackless_all (concat ls) = concat (stackless_all <$> ls).
Proof.
  induction ls as [|l ls IH]; [done|]. cbn [concat fmap list_fmap]. rewrite <- IH. apply fmap_app.
Qed.

Lemma strip_closed frags : as_entry <$> closed_events frags = stackless <$> concat frags.
Proof.
  unfold closed_events. induction frags as [|es frags IH]; [done|]. cbn [fmap list_fmap concat].
  rewrite !fmap_app, strip_replay. f_equal. apply IH.
Qed.

Lemma block_ok_strip vals x blk : block_ok vals x blk → block_ok vals x (stackless <$> blk).
Proof.
  unfold block_ok. destruct (ee_wild x).
  - intros (sk & e & -> & Hsk & Ht & Hp). exists (stackless <$> sk), (stackless e). rewrite fmap_app.
    split; [done|]. split; [|done]. by apply Forall_fmap.
  - intros (Hm & H). split; [|by rewrite length_fmap]. by apply Forall_fmap.
Qed.

Lemma conforms_strip vals xs es more : conforms vals xs es → conforms vals xs ((stackless <$> es) ++ more).
Proof.
  intros (blocks & tr & -> & H). exists (stackless_all <$> blocks), ((stackless <$> tr) ++ more).
  split; [by rewrite fmap_app, <- app_assoc, <- strip_concat|].
  induction H as [|x blk xs blocks Hb _ IH]; [constructor|]. constructor; [by apply block_ok_strip|done].
Qed.

(** ** From close calls to checked pages *)

Section Pages.
Context `{B : BuildInfo, !BuildInfoOk B}.

(** The checker sees the close call as this page. *)
Definition checked_as (cl : close_call) (cg : closing) : Prop :=
  cl_page cl = cg_page cg ∧ cl_size cl = cg_size cg ∧ cl_md cl = Some (Z.of_nat (cg_tid cg)).

Lemma feed_closings cls cs : ∀ ck w,
  Forall2 checked_as cls cs → feed ck cls w = run_closings ck cs w.
Proof.
  intros ck w H. revert ck w. induction H as [|cl cg cls cs (Hp & Hs & Hm) _ IH]; intros ck w; [done|].
  cbn [feed run_closings]. rewrite Hp, Hs, Hm.
  destruct (checker_writer_close ck _ _ _ w) as [[ck1 w1]| |]; [apply IH|done..].
Qed.

Definition holds (cl : close_call) (es : list entry) : Prop :=
  (if in_page cl then take (Z.to_nat (cl_size cl)) (cl_page cl) else []) = frag_bytes es ∧ Forall entry_ok es.

Lemma holds_closing cl es t :
  holds cl es → (t < 128)%nat → closing_ok (Closing t (cl_page cl) (cl_size cl) es).
Proof.
  intros [Hp Hok] Ht. pose proof length_header_bytes as Hh. unfold in_page in Hp.
  destruct ((0 <=? cl_size cl) && (cl_size cl <=? len (cl_page cl)) && (cl_size cl <? 2 ^ 63)) eqn:E.
  2: { exfalso. apply (f_equal length) in Hp. unfold frag_bytes in Hp. rewrite length_app in Hp. simpl in Hp. lia. }
  rewrite !andb_true_iff, !Z.leb_le, Z.ltb_lt in E.
  split; simpl; try done; [unfold MAX_NTHREADS; lia| |lia].
  rewrite <- Hp. llia.
Qed.

(** Distribute the fragments of the threads over their close calls. *)
Lemma close_calls_checked cls : ∀ frags : Z → list (list entry),
  Forall (fun cl => ∃ t, cl_md cl = Some t ∧ 0 <= t < 128) cls →
  (∀ t, Forall2 holds (filter (fun cl => cl_md cl = Some t) cls) (frags t)) →
  ∃ cs, Forall2 checked_as cls cs ∧ Forall closing_ok cs ∧
    ∀ t, entries_of t cs = concat (frags (Z.of_nat t)).
Proof.
  induction cls as [|cl cls IH]; intros frags Hmd Hh.
  - exists []. split_and!; [constructor..|]. intros t. specialize (Hh (Z.of_nat t)). by inversion Hh.
  - apply Forall_cons in Hmd as [(t0 & Ht0 & Hr) Hmd].
    pose proof (Hh t0) as H0. rewrite filter_cons_True in H0 by done.
    inversion H0 as [|? es ? rest Hes Hrest Hx Hy]; subst.
    destruct (IH (fun t => if decide (t = t0) then rest else frags t) Hmd) as (cs & Hc & Hok & Hen).
    { intros t. case_decide as E; [by subst|]. specialize (Hh t).
      rewrite filter_cons_False in Hh by congruence. done. }
    exists (Closing (Z.to_nat t0) (cl_page cl) (cl_size cl) es :: cs). split_and!.
    + constructor; [|done]. split_and!; [done..|]. simpl. rewrite Ht0. f_equal. lia.
    + constructor; [apply holds_closing; [done|lia]|done].
    + intros t. unfold entries_of in *. cbn [fmap list_fmap concat cg_tid cg_entries]. rewrite Hen.
      destruct (decide (Z.to_nat t0 = t)) as [E|E].
      * rewrite decide_True by lia. by replace (Z.of_nat t) with t0 by lia; rewrite <- Hy.
      * by rewrite decide_False by lia.
Qed.
End Pages.

(** ** A test run *)

Section TestRun.
Context `{B : BuildInfo, L : Lz4, V : Vsync, !VsyncLaws V, !Lz4Laws L, !BuildInfoOk B}.
Context (junk : nat → Z) (c : config) (Hc : config_ok c).

(** Pages are closed by the threads that run. *)
Lemma events_close (P : Z → Prop) evs : ∀ sy sy' rec,
  all_record c sy rec → do_events junk c sy evs = Some sy' → (∀ t ev, (t, ev) ∈ evs → P t) →
  Forall (fun cl => ∃ t, cl_md cl = Some t ∧ P t) (w_closed (sy_world sy)) →
  Forall (fun cl => ∃ t, cl_md cl = Some t ∧ P t) (w_closed (sy_world sy')).
Proof.
  induction evs as [|[t ev] evs IH]; intros sy sy' rec Hall H HP Hcl; cbn [do_events] in H; [by simplify_eq|].
  destruct (do_event junk c sy t ev) as [sy1|] eqn:E; [|done]. simpl in H.
  destruct (all_record_event _ _ Hc _ _ _ _ _ Hall E) as (rec1 & Hall1 & _).
  destruct (event_change _ _ _ _ _ _ (proj1 (Hall t)) E) as [ext Hl].
  apply (IH sy1 sy' rec1 Hall1 H); [intros t' ev' Hin; eapply HP; by apply list_elem_of_further|].
  rewrite (lc_closed _ _ _ _ _ _ Hl). apply Forall_app. split; [done|].
  eapply Forall_impl; [exact (lc_md _ _ _ _ _ _ Hl)|]. intros cl Hm. exists t. split; [done|].
  eapply HP. by apply list_elem_of_here.
Qed.

(** The fragments of a thread and its close calls. *)
Lemma own_holds t w frags :
  closed_frags (own t w) = frag_bytes <$> frags → Forall (Forall entry_ok) frags →
  Forall2 holds (filter (fun cl => cl_md cl = Some t) (w_closed w)) frags.
Proof.
  unfold closed_frags. simpl. generalize (filter (fun cl => cl_md cl = Some t) (w_closed w)). intros cls.
  revert frags. induction cls as [|cl cls IH]; intros [|es frags] E Hok; try done.
  apply Forall_cons in Hok as [Hes Hok]. injection E as E1 E2. constructor; [by split|by apply IH].
Qed.

Lemma recorded_entries_ok frags evs :
  frags_ok frags → closed_events frags `prefix_of` evs → Forall indices_small evs →
  Forall (Forall entry_ok) frags.
Proof.
  intros Hok [rest ->] Hs. apply Forall_app in Hs as [Hs _]. revert Hs. unfold closed_events.
  induction Hok as [|es frags [Hwf _] _ IH]; [by constructor|]. cbn [fmap list_fmap concat].
  rewrite Forall_app. intros [Hs1 Hs2]. constructor; [|by apply IH]. clear -Hwf Hs1.
  revert Hs1. generalize (@nil Z). induction Hwf as [|e es He _ IH]; intros st Hs; [constructor|].
  cbn [replay] in Hs. apply Forall_cons in Hs as [[H1 H2] Hs]. constructor; [by split|by eapply IH].
Qed.

(** The pages of a run as the checker sees them: the fragments of the threads, of
    which [Q] is known, are their entries. *)
Lemma closings_of_run (Q : Z → list event → Prop) sy evs sy' :
  fresh sy → do_events junk c sy evs = Some sy' → (∀ t ev, (t, ev) ∈ evs → 0 <= t < 128) →
  (∀ t, ∃ frags, closed_frags (own t (sy_world sy')) = frag_bytes <$> frags ∧ frags_ok frags ∧
     Q t (closed_events frags)) →
  (∀ t evs, Q t evs → Forall indices_small evs) →
  ∃ cs, Forall2 checked_as (w_closed (sy_world sy')) cs ∧ Forall closing_ok cs ∧
    ∀ t, (t < 128)%nat → ∃ evs, Q (Z.of_nat t) evs ∧ as_entry <$> evs = stackless <$> entries_of t cs.
Proof.
  intros Hf H Hids Hfr Hsmall.
  destruct (finite_choice (fun k fr => closed_frags (own (Z.of_nat k) (sy_world sy')) = frag_bytes <$> fr ∧
    frags_ok fr ∧ Q (Z.of_nat k) (closed_events fr)) 128) as [l Hl]; [auto|].
  assert (Forall (fun cl => ∃ t, cl_md cl = Some t ∧ 0 <= t < 128) (w_closed (sy_world sy'))) as Hmd.
  { eapply (events_close (fun t => 0 <= t < 128)); [by apply fresh_records|done|done|].
    destruct Hf as (_ & -> & _). constructor. }
  pose (frags := fun t : Z => if decide (0 <= t < 128) then default [] (l !! Z.to_nat t) else []).
  destruct (close_calls_checked (w_closed (sy_world sy')) frags Hmd) as (cs & Hcs & Hok & Hen).
  { intros t. unfold frags. case_decide as Ht.
    - destruct (Hl (Z.to_nat t)) as (fr & -> & Hcl & Hfok & HQ); [lia|].
      rewrite Z2Nat.id in Hcl, HQ by lia. apply own_holds; [done|].
      eapply recorded_entries_ok; [done|reflexivity|by eapply Hsmall].
    - assert (filter (fun cl => cl_md cl = Some t) (w_closed (sy_world sy')) = []) as ->; [|constructor].
      clear -Hmd Ht. induction Hmd as [|cl cls (t' & E & Ht') _ IH]; [done|].
      rewrite filter_cons_False; [done|]. intros E'. rewrite E in E'. injection E' as ->. done. }
  exists cs. do 2 (split; [done|]). intros t Ht. destruct (Hl t Ht) as (fr & Hlt & _ & _ & HQ).
  exists (closed_events fr). split; [done|]. rewrite strip_closed, Hen. unfold frags.
  rewrite decide_True by lia. by rewrite Nat2Z.id, Hlt.
Qed.

(** C6: a test that passes has checked the program.  Let any number of threads,
    numbered below 128 and each started once, handle any schedule of events, with
    allocations and file operations failing or not, and let the checker of the
    tests be called with every page that the writers close.  The checker never
    reads outside a page and always reaches a verdict; and if it says TEST PASSED,
    the events that happened in each thread up to the first one without an expected
    trace, counted from thread 1, not only those that reached a file, conform to its
    expected trace under one binding of the pointer variables.  The final check stops
    at the first thread without an expected trace, so nothing is said of a thread
    behind such a gap. *)
Theorem passed_test R ck sy evs sy' final w :
  registered R ck → fresh sy → do_events junk c sy evs = Some sy' →
  (∀ t ev, (t, ev) ∈ evs → 0 <= t < 128) →
  (∀ t, once_started (ops_of t (history junk c sy evs))) →
  (∀ t, Forall indices_small (ideal [] (ops_of t (history junk c sy evs)))) →
  ∃ ck1 w' ck2 verdict,
    feed ck (w_closed (sy_world sy')) w = Ret (ck1, w') ∧
    checker_main_thread_fini ck1 final = Ret (ck2, verdict) ∧
    (verdict = true → ∃ vals, ∀ t xs, in_sequence R 1 t → R !! t = Some (Some xs) →
       conforms vals xs (as_entry <$> ideal [] (ops_of (Z.of_nat t) (history junk c sy evs)))).
Proof.
  intros HR Hf H Hids Hst Hsmall.
  destruct (all_record_events _ _ Hc evs _ _ _ (fresh_records _ sy Hf) H) as (rec & Hall & Hsp).
  destruct (closings_of_run (fun t es => es `prefix_of` ideal [] (ops_of t (history junk c sy evs))) sy evs sy')
    as (cs & Hcs & Hok & Hen); [done..| | |].
  { intros t. destruct (Hall t) as [_ (fr & cur & [_ Hcl Hok] & _ & Ecl & _)]. exists fr. split; [done|].
    split; [done|]. rewrite <- Ecl. by apply recorded_prefix. }
  { intros t es [more E]. specialize (Hsmall t). rewrite E in Hsmall. by apply Forall_app in Hsmall as [? _]. }
  destruct (verdict_total R ck cs final w HR Hok) as (ck1 & w' & ck2 & verdict & E1 & E2 & Hv).
  exists ck1, w', ck2, verdict. rewrite (feed_closings _ cs) by done. do 2 (split; [done|]).
  intros Hver. destruct (Hv Hver) as (vals & Hconf & _). exists vals. intros t xs Hseq Hxs.
  assert (t < 128)%nat as Ht128.
  { apply registered_ready in HR as [[Hlen _ _ _ _ _ _ _] _]. rewrite <- Hlen. by eapply lookup_lt_Some. }
  destruct (Hen t Ht128) as (es & [more ->] & E). rewrite fmap_app, E. apply conforms_strip. by apply Hconf.
Qed.
End TestRun.

Section Demo.
#[local] Existing Instance demo_build.
#[local] Existing Instance demo_build_ok.

(** Thread 1 starts, locks and unlocks a mutex, and ends. *)
Definition demo_test : list (Z * capture) :=
  [ (1, C_thread_start 1 2 3); (1, C_after_mutex_lock 0 0x10); (1, C_before_mutex_unlock 0x10);
    (1, C_self_fini false 1) ].

Definition demo_test_expected : list expected_entry :=
  [EXPECT_ENTRY COLDTRACE_THREAD_START; EXPECT_VALUE COLDTRACE_LOCK_ACQUIRE 0;
   EXPECT_VALUE COLDTRACE_LOCK_RELEASE 0].

Definition demo_test_checker : checker :=
  default checker0 (register_expected_trace checker0 1 (terminated demo_test_expected)).

Lemma demo_test_registered :
  registered (<[1%nat := Some demo_test_expected]> (replicate 128 None)) demo_test_checker.
Proof.
  apply (reg_trace (replicate 128 None) checker0 1 demo_test_expected); [apply reg_none| |done].
  repeat apply Forall_cons_2; try apply Forall_nil_2; (split; simpl; try done; try lia;
    try (by left); right; unfold MAX_ENTRY_VALUES; lia).
Qed.

Definition demo_test_history : list (Z * list op) :=
  Eval vm_compute in history zero_junk demo_config96 demo_system demo_test.

Lemma demo_test_ops t :
  ops_of t demo_test_history = if decide (t = 1) then concat (snd <$> demo_test_history) else [].
Proof.
  unfold demo_test_history. rewrite !ops_of_cons. case_decide as E; [by subst|].
  by rewrite !decide_False by congruence.
Qed.

Lemma demo_test_once t : once_started (ops_of t demo_test_history).
Proof. rewrite demo_test_ops. case_decide; [|constructor]. repeat (constructor; [done|]). constructor. Qed.

Lemma demo_test_small t : Forall indices_small (ideal [] (ops_of t demo_test_history)).
Proof.
  rewrite demo_test_ops. case_decide; [|constructor].
  repeat (constructor; [split; first [by right|left; vm_compute; split; congruence]|]). constructor.
Qed.

Definition demo_test_verdict : option bool :=
  match do_events zero_junk demo_config96 demo_system demo_test with
  | None => None
  | Some sy =>
      match feed demo_test_checker (w_closed (sy_world sy)) (World ∅ [] []) with
      | Ret (ck, _) =>
          match checker_main_thread_fini ck None with Ret (_, v) => Some v | _ => None end
      | _ => None
      end
  end.

(** The test passes, and its expected trace describes the events of thread 1. *)
Lemma passed_test_witness :
  demo_test_verdict = Some true ∧
  ∃ vals, conforms vals demo_test_expected
    (as_entry <$> ideal [] (ops_of 1 (history zero_junk demo_config96 demo_system demo_test))).
Proof.
  assert (demo_test_verdict = Some true) as Hv by (vm_compute; reflexivity). split; [exact Hv|].
  assert (history zero_junk demo_config96 demo_system demo_test = demo_test_history) as Eh
    by (vm_compute; reflexivity).
  unfold demo_test_verdict in Hv.
  destruct (do_events zero_junk demo_config96 demo_system demo_test) as [sy'|] eqn:E; [|discriminate Hv].
  destruct (passed_test zero_junk demo_config96 demo_config_ok _ _ demo_system demo_test sy' None
    (World ∅ [] []) demo_test_registered demo_fresh E) as (ck1 & w' & ck2 & v & E1 & E2 & H).
  - clear. intros t ev Hin. repeat (apply elem_of_cons in Hin as [Hin|Hin]; [injection Hin as -> _; lia|]).
    destruct (not_elem_of_nil _ Hin).
  - intros t. rewrite Eh. apply demo_test_once.
  - intros t. rewrite Eh. apply demo_test_small.
  - rewrite E1, E2 in Hv. injection Hv as ->. destruct (H eq_refl) as [vals Hc]. exists vals.
    apply (Hc 1%nat demo_test_expected); [|reflexivity].
    split; [reflexivity|]. intros u Hu. exists demo_test_expected. by replace u with 1%nat by lia.
Defined.
End Demo.
