(* ===== verification/Files.v ===== *)
(** * The trace on disk

    The fragments a thread hands to the close hook are also what its files hold:
    the k-th fragment is in the file with enumerator k modulo the file limit, as
    long as no call failed and no later fragment took its place.  Together with the
    reader this closes the loop from the events of a program to the bytes a
    tool reads back, for any number of threads. *)

From stdpp Require Import base list numbers strings gmap.
From Stdlib Require Import ZArith Lia.
From S2P Require Import Prelude Version Counters Entries Libc Utils Config Codec Lz4 Writer Thread Trace Reader Recorder Subs Subscribers Atomics Handlers Locality Threads.

(** A thread starts with THREAD_START, or, if it is the main thread, with any
    other event, and is neither started again nor finished. *)
Definition started_ops (os : list op) : Prop :=
  Forall traced_op (match os with OInit :: os => os | _ => os end).

Lemma started_app os1 os2 :
  started_ops (os1 ++ os2) → started_ops os1 ∧ (os1 = [] ∨ Forall traced_op os2).
Proof.
  unfold started_ops. destruct os1 as [|o os1]; [by auto|]. simpl.
  assert (∀ l, Forall traced_op (l ++ os2) → Forall traced_op l ∧ Forall traced_op os2) as Happ
    by (intros l; by rewrite Forall_app).
  destruct o; intros H; [apply (Happ (_ :: _)) in H..|apply Happ in H|apply (Happ (_ :: _)) in H];
    destruct H; auto.
Qed.

Section Files.
Context `{B : BuildInfo, L : Lz4, !Lz4Laws L} (junk : nat → Z) (c : config) (md : Z) (Hc : config_ok c).

(** The enumerators of files that an earlier process left in the directory. *)
Context (old : Z → Prop).

(** A fragment file whose payload was packed for a buffer of [cap] bytes. *)
Definition packed (cap : Z) (page : list Z) : list Z :=
  header_bytes ++ le_bytes 4 (len (drop 8 page)) ++
  LZ4_compress_fast (drop 8 page) (LZ4_compressBound cap) LZ4_ACCELERATION.

Definition on_disk (w : world) (e : Z) (page : list Z) : Prop :=
  ∃ cap, w_fs w !! name_of (path_ c) md e = Some (Reg (packed cap page)) ∧
    len page <= cap <= LZ4_MAX_INPUT_SIZE.

(** The files are a ring: the k-th fragment is in the file with number k modulo the
    limit, until the fragment that comes that many later replaces it. *)
Definition slot (k : Z) : Z := k mod coldtrace_get_max c.

Definition all_on_disk (w : world) : Prop :=
  ∀ k page, closed_frags w !! k = Some page →
    len (closed_frags w) <= Z.of_nat k + coldtrace_get_max c → on_disk w (slot (Z.of_nat k)) page.

Lemma slot_range k : 0 <= slot k < coldtrace_get_max c ∧ is_u32 (slot k).
Proof.
  destruct Hc as (_ & _ & Hmax & Hm0). unfold slot, coldtrace_get_max.
  pose proof (Z.mod_pos_bound k (max_file_count_ c)). ulia.
Qed.

(** Fragments less than the limit apart are in different files. *)
Lemma slot_differ j k : j < k < j + coldtrace_get_max c → slot j ≠ slot k.
Proof.
  intros Hjk E. unfold slot in E. destruct Hc as (_ & _ & Hmax & Hm0). unfold coldtrace_get_max in *.
  assert ((k - j) mod max_file_count_ c = 0) as Hz by (rewrite Zminus_mod, E, Z.sub_diag; done).
  rewrite Z.mod_small in Hz by lia. lia.
Qed.

Lemma slot_next k : 0 <= k → u32 (slot k + 1) mod coldtrace_get_max c = slot (k + 1).
Proof.
  intros Hk. pose proof (slot_range k) as [Hr _]. destruct Hc as (_ & _ & Hmax & Hm0).
  unfold coldtrace_get_max in *. rewrite u32_id by ulia. unfold slot, coldtrace_get_max.
  by rewrite Zplus_mod_idemp_l.
Qed.

(** Every file with a name of this thread is an old one or satisfies [P]. *)
Definition only_files (P : Z → Prop) (w : world) : Prop :=
  ∀ e, is_u32 e → is_Some (w_fs w !! name_of (path_ c) md e) → old e ∨ P e.

(** The files of the fragments written so far, and the reserved first one. *)
Definition of_fragment (w : world) (e : Z) : Prop :=
  e < Z.min (len (closed_frags w)) (coldtrace_get_max c).
Definition of_writer (w : world) (e : Z) : Prop := e = 0 ∨ of_fragment w e.

(** No fragment of this thread yet, and [EEXIST] only for files that exist. *)
Definition clear (w : world) : Prop :=
  closed_frags w = [] ∧ w_fs w !! name_of (path_ c) md 0 = None ∧
  Forall (fun f => f ≠ Fail EEXIST) (w_faults w) ∧ only_files (fun _ => False) w.

(** The enumerator of the writer is the slot of the next fragment. *)
Definition disk_ok (i : writer_impl) (w : world) : Prop :=
  wi_failed i = true ∨
  wi_failed i = false ∧ wi_initd i = true ∧
  match wi_buffer i with
  | None => clear w
  | Some _ =>
      wi_enumerator i = slot (len (closed_frags w)) ∧ all_on_disk w ∧ only_files (of_writer w) w
  end.

Lemma names_differ e e' : is_u32 e → is_u32 e' → e ≠ e' → name_of (path_ c) md e ≠ name_of (path_ c) md e'.
Proof.
  intros He He' Hne [_ E]%name_of_inj. by apply Hne, i32_inj_u32.
Qed.

(** ** The writer *)

(** A fresh directory gives the first fragment the enumerator 0. *)
Lemma first_fragment_zero i w i' w' :
  wi_enumerator i = 0 → wi_tid i = md → clear w →
  first_fragment_ c i w = Ret (true, i', w') → i' = i.
Proof.
  intros He Ht (_ & Hn & Hf & _) H. unfold first_fragment_ in H. cbn [first_fragment_loop] in H.
  rewrite fragment_name_spec in H by apply Hc. simpl in H. rewrite He, Ht in H.
  unfold open_excl, next_fault in H.
  destruct (w_faults w) as [|[|err|n] fs]; simpl in H; rewrite ?Hn in H; simpl in H; try by simplify_eq.
  apply Forall_cons in Hf as [Hf _]. destruct (Z.eqb_spec err EEXIST) as [->|]; [done|].
  simpl in H. by simplify_eq.
Qed.

(** What the invariant sees of the world. *)
Definition same_files (w w' : world) : Prop :=
  w_closed w' = w_closed w ∧ w_faults w' `suffix_of` w_faults w ∧
  ∀ e, w_fs w' !! name_of (path_ c) md e = w_fs w !! name_of (path_ c) md e.

Lemma only_files_stable P w w' : same_files w w' → only_files P w → only_files P w'.
Proof. intros (_ & _ & Hfs) H e He Hs. apply H; [done|]. by rewrite Hfs in Hs. Qed.

Lemma only_files_mono P Q w : (∀ e, is_u32 e → P e → Q e) → only_files P w → only_files Q w.
Proof. intros HPQ H e He Hs. destruct (H e He Hs); eauto. Qed.

(** Writing one more file. *)
Lemma only_files_insert P Q w w' e0 :
  is_u32 e0 → only_files P w → (∀ e, is_u32 e → P e ∨ e = e0 → Q e) →
  (∀ k, k ≠ name_of (path_ c) md e0 → w_fs w' !! k = w_fs w !! k) → only_files Q w'.
Proof.
  intros He0 H HQ Hoth e He Hs. destruct (decide (e = e0)) as [->|Hne]; [right; auto|].
  rewrite Hoth in Hs by (by apply names_differ). destruct (H e He Hs); eauto.
Qed.

Lemma clear_stable w w' : same_files w w' → clear w → clear w'.
Proof.
  intros Hsame (H1 & H2 & H3 & H4). pose proof Hsame as (Hcl & [l Hf] & Hfs).
  split; [by rewrite (closed_frags_eq _ _ Hcl)|]. split; [by rewrite Hfs|].
  split; [rewrite Hf in H3; by apply Forall_app in H3 as [_ ?]|by eapply only_files_stable].
Qed.

Lemma disk_stable i w w' : same_files w w' → disk_ok i w → disk_ok i w'.
Proof.
  intros Hs Hd. pose proof Hs as (Hcl & _ & Hfs).
  destruct Hd as [?|(? & ? & Hd)]; [by left|right]. do 2 (split; [done|]).
  destruct (wi_buffer i); [|by eapply clear_stable]. rewrite (closed_frags_eq _ _ Hcl).
  destruct Hd as (He & Hall & Honly). split; [done|]. split.
  - intros k page Hk Hnew. rewrite (closed_frags_eq _ _ Hcl) in Hk, Hnew.
    destruct (Hall k page Hk Hnew) as (cap & Hn & Hcap). exists cap. by rewrite Hfs.
  - eapply only_files_stable; [done|]. eapply only_files_mono; [|exact Honly].
    intros e _. unfold of_writer, of_fragment. by rewrite (closed_frags_eq _ _ Hcl).
Qed.

Lemma attempt_files w ok w' : attempt w = (ok, w') → same_files w w'.
Proof.
  unfold attempt, next_fault. destruct (w_faults w) as [|f fs] eqn:E; intros H; [by simplify_eq|].
  assert (w' = World (w_fs w) fs (w_closed w)) as -> by (destruct f; by simplify_eq).
  split; [done|]. split; [|done]. rewrite E. by apply suffix_cons_r.
Qed.

(** Acquiring the buffer. *)
Lemma ensure_disk i w ok i' w' :
  writer_ok i → wi_tid i = md → disk_ok i w → ensure_buffer_ junk c i w = Ret (ok, i', w') →
  disk_ok i' w' ∧ wi_tid i' = md.
Proof.
  intros Hok Ht Hd H. pose proof Hc as (Hdis & Hp & Hmax & Hm0). unfold ensure_buffer_ in H.
  destruct (wi_initd i) eqn:Hi; simpl in H; [|by simplify_eq].
  destruct (wi_failed i) eqn:Hf; [by simplify_eq|].
  destruct Hd as [|(_ & _ & Hd)]; [congruence|].
  destruct (wi_buffer i) as [b|] eqn:Hb.
  { simplify_eq. split; [|done]. right. by rewrite Hb. }
  unfold coldtrace_writes_disabled in H. rewrite Hdis in H. cbn [negb] in H.
  destruct (negb (validate_trace_size_ _ _)); [simplify_eq; split; [by left|done]|].
  destruct (attempt w) as [ok1 w1] eqn:E1. destruct ok1; cbn [negb] in H;
    [|simplify_eq; split; [by left|done]].
  destruct (attempt w1) as [ok2 w2] eqn:E2. destruct ok2; cbn [negb] in H;
    [|simplify_eq; split; [by left|done]].
  assert (clear w2) as Hcl by (eapply clear_stable, clear_stable; [by eapply attempt_files..|done]).
  inv_outcome. match goal with E : first_fragment_ _ _ _ = Ret (?k, ?j, ?v) |- _ =>
    pose proof E as Ez; apply first_fragment_loop_post in E as (Hc3 & (e & He' & Ej) & Hnew); [|done|done];
    destruct k; cbn [negb] in H end; inv_outcome.
  2: { by split; [left|]. }
  apply first_fragment_zero in Ez; [|done|done|done]. rewrite Ez in *.
  match goal with E : begin_fragment_ _ = Ret _ |- _ => unfold begin_fragment_ in E; simpl in E end.
  inv_outcome. split; [|done]. right. split; [done|]. split; [done|]. simpl.
  assert (closed_frags w' = []) as Hcl' by (rewrite (closed_frags_eq _ _ Hc3); apply Hcl).
  rewrite Hcl'. split; [done|]. split; [intros k page Hk; by rewrite Hcl' in Hk|].
  destruct Hcl as (_ & _ & _ & Hold). destruct Hnew as [_ Hfs].
  eapply (only_files_insert _ _ _ _ 0 ltac:(done) Hold).
  { intros e' _ [[]| ->]. by left. }
  injection Ez as ->. intros k Hk. rewrite Hfs. apply lookup_insert_ne. rewrite Ht. intros E. by apply Hk.
Qed.

(** Flushing stores the page in the file with the enumerator. *)
Lemma flush_disk i b w i' w' :
  live i b → inside i → wi_tid i = md → disk_ok i w → flush_ c i w = Ret (i', w') →
  wi_failed i' = true ∨
  (∃ cb, i' = set_comp_buf (Some cb) i) ∧
  closed_frags w' = closed_frags w ++ [take (Z.to_nat (wi_offset i)) b] ∧
  wi_enumerator i = slot (len (closed_frags w)) ∧ all_on_disk w' ∧ only_files (of_fragment w') w'.
Proof.
  intros Hl Hin Ht Hd H. pose proof Hc as (_ & Hp & Hmax & _).
  destruct (flush_spec c i b w Hl Hin Hp) as (j & v & E & Hcl & Hoth & Hcase). rewrite E in H. simplify_eq.
  destruct Hcase as [(cb & -> & _ & Hfile)|(_ & _ & Hf & _)]; [right|by left].
  apply (closed_frags_snoc i b) in Hcl; [|done..]. split; [by exists cb|]. split; [done|].
  destruct Hl as (Hb & _ & Hf & _ & Hlen & Hsz & Hh & _). unfold inside in Hin.
  destruct Hd as [|(_ & _ & Hd)]; [congruence|]. rewrite Hb in Hd. destruct Hd as (He & Hall & Honly).
  pose proof (slot_range (len (closed_frags w))) as [Hs Hsu]. split; [done|]. split.
  2: { rewrite Ht, He in Hoth. apply (only_files_insert (of_writer w) _ w _ _ Hsu Honly); [|exact Hoth].
       unfold of_writer, of_fragment. rewrite Hcl, length_app. simpl. unfold slot, coldtrace_get_max in *.
       intros e _ [[->|?]| ->]; [lia|lia|]. pose proof (Z.mod_le (len (closed_frags w)) (max_file_count_ c)). lia. }
  intros k page Hk Hnew. rewrite Hcl in Hk, Hnew. rewrite length_app in Hnew. simpl in Hnew. unfold on_disk.
  apply lookup_app_Some in Hk as [Hk|[Hge Hk]].
  - destruct (Hall k page Hk) as (cap & Hn & Hcap); [lia|]. exists cap. split; [|done].
    rewrite Hoth; [done|]. rewrite He, Ht. apply lookup_lt_Some in Hk.
    apply names_differ; [apply slot_range|done|]. apply slot_differ. lia.
  - apply list_lookup_singleton_Some in Hk as [Hk <-].
    replace (Z.of_nat k) with (len (closed_frags w)) by lia. rewrite <- He. exists (wi_size i). split; [|llia].
    rewrite <- Ht, Hfile. unfold fragment_file, packed. do 2 f_equal. unfold slice.
    replace (drop 8 (take (Z.to_nat (wi_offset i)) b))
      with (take (Z.to_nat (wi_offset i - 8)) (drop (Z.to_nat 8) b)); [done|].
    rewrite take_drop_commute. do 2 f_equal. lia.
Qed.

Lemma new_trace_disk i b w i' w' :
  live i b → inside i → wi_tid i = md → disk_ok i w → new_trace_ junk c i w = Ret (i', w') →
  disk_ok i' w' ∧ (wi_failed i' = false → wi_tid i' = md).
Proof.
  intros Hl Hin Ht Hd H. unfold new_trace_ in H. apply obind_Ret_inv in H as ([i1 w1] & E & H).
  apply (flush_disk i b) in E as [Hf|((cb & ->) & Hcl & Hall)]; [| |done..].
  - assert (wi_failed i' = true) as Hf'; [|by split; [left|congruence]].
    destruct (wi_buffer i1); [|by simplify_eq]. apply obind_Ret_inv in H as ([i2 w2] & Ea & H).
    unfold advance_fragment_, begin_fragment_ in *. repeat case_match; inv_outcome; done.
  - pose proof Hl as (Hb & Hi & Hf & Hm & _ & Hsz & _). cbn [wi_buffer set_comp_buf] in H. rewrite Hb in H.
    unfold advance_fragment_ in H. cbn [wi_mmapped set_comp_buf] in H. rewrite Hm in H. cbn [negb] in H.
    pose proof Hc as (_ & _ & Hmax & Hm0).
    destruct (Z.eqb_spec (coldtrace_get_max c) 0) as [|_]; [done|]. cbn [obind] in H.
    apply obind_Ret_inv in H as (i2 & E2 & H). simplify_eq.
    unfold begin_fragment_ in E2. cbn [wi_buffer set_enumerator set_comp_buf] in E2. rewrite Hb in E2.
    inv_outcome. split; [|done]. right. split; [done|]. split; [done|]. simpl.
    rewrite Hcl, length_app. simpl. destruct Hall as (He & Hall & Honly).
    split; [rewrite He; rewrite slot_next by lia; f_equal; lia|]. split; [done|].
    eapply only_files_mono; [|exact Honly]. intros e _ ?. by right.
Qed.

Lemma reserve_disk i w n r i' w' :
  writer_ok i → wi_tid i = md → disk_ok i w → coldtrace_writer_reserve junk c i w n = Ret (r, i', w') →
  disk_ok i' w'.
Proof.
  intros Hok Ht Hd H. unfold coldtrace_writer_reserve in H.
  apply obind_Ret_inv in H as ([[ok i1] w1] & E & H).
  destruct (ensure_disk _ _ _ _ _ Hok Ht Hd E) as [Hd1 Ht1].
  destruct ok; cbn [negb] in H; [|by simplify_eq].
  apply ensure_buffer_spec in E as (_ & _ & Hcase); [|done..].
  assert (∃ b, live i1 b ∧ inside i1) as (b & Hl & Hin).
  { destruct Hcase as [(-> & -> & ?)|(_ & _ & _ & (b & Hl & Ho) & _)]; [done|].
    eauto using fresh_inside. }
  apply obind_Ret_inv in H as ([i2 w2] & E & H).
  assert (disk_ok i2 w2) as Hd2.
  { destruct (coldtrace_writer_new_trace c i1 n); [|by simplify_eq].
    by destruct (new_trace_disk _ _ _ _ _ Hl Hin Ht1 Hd1 E). }
  destruct (wi_buffer i2); by simplify_eq.
Qed.

(** Finishing flushes the last page. *)
Lemma fini_disk i w i' w' :
  writer_ok i → wi_tid i = md → disk_ok i w → coldtrace_writer_fini c i w = Ret (i', w') →
  wi_failed i' = false →
  wi_failed i = false ∧ wi_initd i = true ∧ all_on_disk w' ∧ only_files (of_fragment w') w'.
Proof.
  intros [_ Hok] Ht Hd H Hf. unfold coldtrace_writer_fini in H.
  assert (∀ j, wi_failed (set_initd false (release_buffers_ j)) = wi_failed j) as Hrel.
  { by intros [? ? ? [|] [|] ? ? ? ? ?]. }
  destruct (wi_initd i) eqn:Hi; cbn [negb] in H.
  2: { simplify_eq. destruct Hd as [?|(_ & ? & _)]; congruence. }
  apply obind_Ret_inv in H as ([i1 w1] & E & H). simplify_eq. rewrite Hrel in Hf.
  destruct Hok as [(b & Hl & Hin)|(Hb & _)].
  - pose proof Hl as (Hb & _). rewrite Hb in E.
    apply (flush_disk i b) in E as [?|((cb & ->) & Hcl & Hall)]; [congruence| |done..].
    do 2 (split; [done|]). apply Hall.
  - rewrite Hb in E. simplify_eq. do 2 (split; [done|]).
    destruct Hd as [?|(_ & _ & Hd)]; [congruence|]. rewrite Hb in Hd.
    split; [intros k page Hk; by rewrite (proj1 Hd) in Hk|].
    destruct Hd as (_ & _ & _ & Hold). eapply only_files_mono; [|exact Hold]. done.
Qed.

(** ** The thread *)

Definition thread_disk (th : coldtrace_thread) (w : world) : Prop :=
  disk_ok (th_writer (get_coldtrace_thread md th)) w.

Lemma get_initd th : th_initd th = true → get_coldtrace_thread md th = th.
Proof. intros H. unfold get_coldtrace_thread. by rewrite H. Qed.

Lemma initd_get th : th_initd (get_coldtrace_thread md th) = true.
Proof. unfold get_coldtrace_thread. by destruct (th_initd th) eqn:E. Qed.

Lemma thread_disk_initd th w : th_initd th = true → thread_disk th w ↔ disk_ok (th_writer th) w.
Proof. intros H. unfold thread_disk. by rewrite get_initd. Qed.

Lemma clear_disk th w : clear w → thread_disk (coldtrace_thread_init md th) w.
Proof.
  intros H. apply thread_disk_initd; [apply initd_get|]. right. done.
Qed.

Lemma zero_disk w : clear w → thread_disk zero_thread w.
Proof. intros H. right. done. Qed.

(** Storing into the entry changes neither the writer's state nor the files. *)
Definition stores (w : world) (th th' : coldtrace_thread) : Prop :=
  th_initd th' = th_initd th ∧ (disk_ok (th_writer th) w → disk_ok (th_writer th') w).

Lemma entry_store_disk w th off bs th' : entry_store th off bs = Ret th' → stores w th th'.
Proof.
  unfold entry_store. destruct (wi_buffer (th_writer th)) as [b|] eqn:Hb; [|done]. intros H. inv_outcome.
  split; [done|]. unfold disk_ok. simpl. by rewrite Hb.
Qed.

Lemma stores_trans w a b d : stores w a b → stores w b d → stores w a d.
Proof. intros [E1 H1] [E2 H2]. split; [congruence|auto]. Qed.

Lemma write_fields_disk w fs : ∀ th off th', write_fields th off fs = Ret th' → stores w th th'.
Proof.
  induction fs as [|f fs IH]; intros th off th' H; cbn [write_fields] in H; inv_outcome; [done|].
  eapply stores_trans; [by eapply entry_store_disk|by eapply IH].
Qed.

Section Append.
Context (th : coldtrace_thread) (Hown : owned c md th) (Hi : th_initd th = true).
Context (Hok : writer_ok (th_writer th)).

Lemma belongs_tid : wi_tid (th_writer th) = md.
Proof. by destruct (Hown Hi) as (_ & ? & _). Qed.

Lemma append_plain_disk w len_ type ptr r th' w' :
  disk_ok (th_writer th) w → append_plain junk c th w len_ type ptr = Ret (r, th', w') →
  th_initd th' = true ∧ disk_ok (th_writer th') w'.
Proof.
  intros Hd H. unfold append_plain in H. cbv zeta in H.
  set (t := if coldtrace_writer_new_trace c (th_writer th) len_ then _ else th) in *.
  assert (th_writer t = th_writer th ∧ th_initd t = true) as [Ew Ei] by (unfold t; case_match; done).
  rewrite Ew in H. apply obind_Ret_inv in H as ([[e wr] w1] & E & H).
  apply reserve_disk in E; [|done|apply belongs_tid|done].
  destruct e as [e|]; [|by simplify_eq]. inv_outcome.
  match goal with E : entry_store _ _ _ = Ret _ |- _ => apply (entry_store_disk w') in E as [E1 E2] end.
  split; [by rewrite E1|by apply E2].
Qed.

Lemma append_stack_disk w len_ type ptr r th' w' :
  disk_ok (th_writer th) w → append_stack junk c th w len_ type ptr = Ret (r, th', w') →
  th_initd th' = true ∧ disk_ok (th_writer th') w'.
Proof.
  intros Hd H. unfold append_stack in H. cbv zeta in H. case_match.
  apply obind_Ret_inv in H as ([[e wr] w1] & E & H).
  apply reserve_disk in E; [|done|apply belongs_tid|done].
  destruct e as [e|]; [|by simplify_eq].
  apply obind_Ret_inv in H as (t1 & S1 & H). apply obind_Ret_inv in H as (t2 & S2 & H).
  apply obind_Ret_inv in H as (t3 & S3 & H). apply obind_Ret_inv in H as (t4 & S4 & H). simplify_eq.
  apply (entry_store_disk w') in S1, S2, S3.
  assert (stores w' t3 t4) as S5 by (case_match; inv_outcome; [by eapply entry_store_disk|done]).
  destruct (stores_trans _ _ _ _ S1 (stores_trans _ _ _ _ S2 (stores_trans _ _ _ _ S3 S5))) as [E1 E2].
  simpl in E1. split; [by rewrite <- Hi|by apply E2].
Qed.
End Append.

Lemma log_disk th w type ptr fields r th' w' cur :
  owned c md th → thread_ok th cur → thread_disk th w →
  log_entry junk c md th w type ptr fields = Ret (r, th', w') → thread_disk th' w'.
Proof.
  intros Ho Ht Hd H. destruct (owned_get c md th Ho) as [Ho1 Hi1].
  destruct (get_thread_ok md th cur Ht) as (Ht1 & _). unfold thread_disk in Hd.
  unfold log_entry, coldtrace_thread_append in H. cbv zeta in H. set (t := get_coldtrace_thread md th) in *.
  apply obind_Ret_inv in H as ([[e t1] w1] & E & H).
  assert (th_initd t1 = true ∧ disk_ok (th_writer t1) w1) as [Hi2 Hd2].
  { destruct (th_failed t); [by simplify_eq|]. apply obind_Ret_inv in E as (n & _ & E).
    destruct (n =? 0); [by simplify_eq|].
    destruct (negb (with_stack_ type)); [eapply append_plain_disk|eapply append_stack_disk];
      try done; apply Ht1. }
  destruct e as [e|]; cbn [store_fields] in H; inv_outcome; [|by apply thread_disk_initd].
  match goal with E : write_fields _ _ _ = Ret _ |- _ => apply (write_fields_disk w') in E as [E1 E2] end.
  apply thread_disk_initd; [by rewrite E1|by apply E2].
Qed.

Lemma attempt_disk i w ok w' : attempt w = (ok, w') → disk_ok i w → disk_ok i w'.
Proof.
  intros E. by eapply disk_stable, attempt_files.
Qed.

Lemma push_disk th w a th' w' :
  thread_disk th w → coldtrace_thread_stack_push junk md th w a = Ret (th', w') → thread_disk th' w'.
Proof.
  intros Hd H. unfold thread_disk in Hd. pose proof (initd_get th) as Hi.
  unfold coldtrace_thread_stack_push, grow_stack_ in H. cbv zeta in H.
  set (t := get_coldtrace_thread md th) in *. clearbody t.
  destruct (th_failed t); [simplify_eq; by apply thread_disk_initd|].
  destruct (th_stack_size t =? th_stack_capacity t).
  - destruct (attempt w) as [ok w1] eqn:E. apply (attempt_disk _ _ _ _ E) in Hd.
    destruct ok; simpl in H; repeat case_match; simplify_eq; by apply thread_disk_initd.
  - simpl in H. repeat case_match; simplify_eq; by apply thread_disk_initd.
Qed.

Lemma exec_disk o th w th' w' a :
  traced_op o → owned c md th → implements (th, w) a → thread_disk th w →
  exec junk c md o (th, w) = Ret (th', w') → thread_disk th' w'.
Proof.
  intros Htr Ho (fr & cur & Hok & _) Hd H. pose proof (initd_get th) as Hi.
  destruct o; try done; cbn [exec] in H.
  - inv_outcome. destruct p as [b t]. eapply log_disk; try done. apply Hok.
  - by eapply push_disk.
  - simplify_eq. unfold thread_disk in Hd. unfold coldtrace_thread_stack_pop. cbv zeta.
    repeat case_match; apply thread_disk_initd; first [exact Hi|exact Hd].
  - simplify_eq. apply thread_disk_initd; [exact Hi|exact Hd].
Qed.

Lemma run_disk os : ∀ th w th' w' a,
  Forall traced_op os → Forall op_ok os → owned c md th → implements (th, w) a → thread_disk th w →
  run junk c md os (th, w) = Ret (th', w') → thread_disk th' w'.
Proof.
  induction os as [|o os IH]; intros th w th' w' a Htr Hos Ho Him Hd H; cbn [run] in H; [by simplify_eq|].
  apply Forall_cons in Htr as [Htr1 Htr]. apply Forall_cons in Hos as [Hos1 Hos].
  apply obind_Ret_inv in H as ([t1 w1] & E & H).
  destruct (simulate_step _ _ _ _ _ _ _ Him Hc Hos1 E) as (a1 & _ & Him1).
  destruct (local_exec c md junk o th Ho _ _ _ E) as (Ho1 & _).
  apply (IH t1 w1 th' w' a1); try done. exact (exec_disk o th w t1 w1 a Htr1 Ho Him Hd E).
Qed.

Lemma run_start_disk os w th' w' a :
  started_ops os → Forall op_ok os → implements (zero_thread, w) a → clear w →
  run junk c md os (zero_thread, w) = Ret (th', w') → thread_disk th' w'.
Proof.
  intros Hst Hos Him Hcl H. destruct os as [|o os]; [cbn [run] in H; simplify_eq; by apply zero_disk|].
  apply Forall_cons in Hos as [Ho Hos].
  assert (owned c md zero_thread) as Hz by done.
  assert (o = OInit ∨ Forall traced_op (o :: os)) as [->|Htr] by (destruct o; auto).
  - cbn [run] in H. apply obind_Ret_inv in H as ([t1 w1] & E & H).
    destruct (simulate_step _ _ _ _ _ _ _ Him Hc Ho E) as (a1 & _ & Him1).
    cbn [exec] in E. simplify_eq.
    apply (run_disk os _ _ _ _ a1 Hst Hos (owned_init c md _) Him1 (clear_disk _ _ Hcl) H).
  - apply (run_disk (o :: os) _ _ _ _ a) in H; try done; [by constructor|by apply zero_disk].
Qed.

(** The files hold what the reader unpacks. *)
Lemma encode_all_bytesP es : bytesP (encode_all es).
Proof.
  induction es as [|e es IH]; [constructor|]. apply Forall_app. split; [apply encode_entry_bytesP|done].
Qed.

Lemma packed_decodes `{!BuildInfoOk B} cap es :
  supported_build → len (frag_bytes es) <= cap <= LZ4_MAX_INPUT_SIZE →
  decompress LZ4_MAX_INPUT_SIZE (packed cap (frag_bytes es)) = inr (frag_bytes es).
Proof.
  intros Hsup Hcap. unfold packed, frag_bytes in *. pose proof len_header as Hh.
  rewrite drop_app_length' by lia. rewrite length_app in Hcap.
  apply decompress_packed; [done|apply encode_all_bytesP|lia|]. apply compressBound_mono; lia.
Qed.
End Files.

(** ** Many threads *)

Section Threads.
Context `{B : BuildInfo, L : Lz4, V : Vsync, !VsyncLaws V, !Lz4Laws L}.
Context (junk : nat → Z) (c : config) (Hc : config_ok c) (t : Z) (old : Z → Prop).

(** Before its first operation the thread has no files; afterwards the invariant
    of its files holds in its own view. *)
Definition files_state (sy : system) (os : list op) : Prop :=
  thread_of sy t = zero_thread ∧ clear c t old (own t (sy_world sy)) ∧ started_ops os ∨
  thread_disk c t old (thread_of sy t) (own t (sy_world sy)) ∧ Forall traced_op os.

Lemma files_state_disk sy os :
  files_state sy os → thread_disk c t old (thread_of sy t) (own t (sy_world sy)).
Proof. intros [(-> & H & _)|[H _]]; [by apply zero_disk|done]. Qed.

(** An event of the thread itself. *)
Lemma event_files sy ev sy' a os :
  records_own c sy t a → do_event junk c sy t ev = Some sy' →
  files_state sy (capture_ops (sy_shared sy) (thread_of sy t) ev ++ os) → files_state sy' os.
Proof.
  intros [Ho Him] H Hs. apply do_event_inv in H as (h' & Hh & _ & Hw & Ht).
  apply handle_performs in Hh as (os1 & os2 & Hos & Hrun & Hr).
  destruct (run_own _ _ _ _ _ _ _ _ Ho Hrun) as (_ & Hrun' & _).
  pose proof (capture_requests_ok (sy_shared sy) (thread_of sy t) ev) as Hok.
  rewrite Hos in Hok, Hs. apply Forall_app in Hok as [Hok1 _].
  unfold files_state. rewrite (thread_of_insert _ _ _ _ t Ht), decide_True, Hw by done.
  destruct Hs as [(Hz & Hcl & Hst)|[Hd Htr]].
  - destruct (started_app _ _ Hst) as [[Hst1 _]%started_app [Hnil|Htr]].
    + apply app_eq_nil in Hnil as [-> ->]. left. injection Hrun as <- <-. done.
    + right. rewrite Hz in *. split; [by eapply run_start_disk|done].
  - rewrite !Forall_app in Htr. destruct Htr as [[Htr1 _] Htr]. right. split; [|done].
    by eapply (run_disk junk c t Hc old os1).
Qed.

(** An event of another thread: its files have other names. *)
Lemma event_files_other sy t' ev sy' os :
  owned c t' (thread_of sy t') → do_event junk c sy t' ev = Some sy' → i32 t' ≠ i32 t →
  files_state sy os → files_state sy' os.
Proof.
  intros Ho H Hne Hs. assert (t' ≠ t) as Hne' by by intros ->.
  destruct (event_change _ _ _ _ _ _ Ho H) as [ext Hl].
  pose proof (own_other _ _ _ _ _ _ _ Hl Hne') as Hcl.
  assert (∀ e, w_fs (sy_world sy') !! name_of (path_ c) t e = w_fs (sy_world sy) !! name_of (path_ c) t e) as Hfs.
  { intros e. apply (lc_foreign _ _ _ _ _ _ Hl). intros e'. rewrite fragment_name_spec by apply Hc.
    intros [= E]. by apply name_of_inj in E as [? _]. }
  assert (same_files c t (own t (sy_world sy)) (own t (sy_world sy'))) as Hsame
    by (split; [done|]; split; [apply Hl|done]).
  apply do_event_inv in H as (h' & _ & _ & _ & Ht). unfold files_state.
  rewrite (thread_of_insert _ _ _ _ t Ht), decide_False by done.
  destruct Hs as [(Hz & Hclr & Hst)|[Hd Htr]]; [left|right].
  - split; [done|]. split; [by eapply clear_stable|done].
  - split; [by eapply disk_stable|done].
Qed.

(** A schedule in which no other thread has the same identifier in its file names. *)
Lemma events_files evs : ∀ sy sy' rec,
  all_record c sy rec → do_events junk c sy evs = Some sy' →
  (∀ t' ev, (t', ev) ∈ evs → i32 t' = i32 t → t' = t) →
  files_state sy (ops_of t (history junk c sy evs)) → files_state sy' [].
Proof.
  induction evs as [|[t' ev] evs IH]; intros sy sy' rec Hall H Hids Hs; cbn [do_events history] in *.
  - simplify_eq. exact Hs.
  - destruct (do_event junk c sy t' ev) as [sy1|] eqn:E; [|done]. simpl in H.
    destruct (all_record_event _ _ Hc _ _ _ _ _ Hall E) as (rec1 & Hall1 & _).
    rewrite ops_of_cons in Hs. apply (IH sy1 sy' rec1 Hall1 H).
    { intros t2 ev2 Hin. eapply Hids. by apply list_elem_of_further. }
    case_decide as Et.
    + subst t'. by eapply event_files.
    + simpl in Hs. eapply event_files_other; [apply Hall|exact E| |exact Hs].
      intros Ei. apply Et. eapply Hids; [by apply list_elem_of_here|done].
Qed.

Lemma fini_own_disk th w fr cur :
  owned c t th → trace_ok th (own t w) fr cur → thread_disk c t old th (own t w) →
  ∃ th2 w2 frags, coldtrace_thread_fini c t th w = Ret (th2, w2) ∧ th_failed th2 = th_failed th ∧
    closed_frags (own t w2) = frag_bytes <$> frags ∧ frags_ok frags ∧
    closed_events frags = closed_events fr ++ replay [] cur ∧
    (wi_failed (th_writer th2) = false → ¬ muted th ∧ all_on_disk c t (own t w2) ∧
      only_files c t old (of_fragment c (own t w2)) (own t w2)).
Proof.
  intros Ho Hok Hd. destruct (fini_trace_ok c t th (own t w) fr cur Hok Hc) as (th2 & w1 & Ef & Hcl).
  pose proof (local_thread_fini c t th Ho) as Hl.
  destruct (local_from_own _ _ _ _ _ _ _ _ Hl Ef) as [w2 Ew].
  pose proof (local_own _ _ _ _ _ _ _ _ Hl Ew) as Eo. rewrite Ef in Eo. injection Eo as ->.
  destruct (trace_ok_close _ _ _ _ [] (closed_frags (own t w2)) Hok) as (frags & Hcl' & Hev & Hf');
    [by left|by rewrite app_nil_r|].
  exists th2, w2, frags. split; [done|].
  destruct (get_thread_ok t th cur (to_thread _ _ _ _ Hok)) as (Ht1 & _ & _ & Efl & _).
  destruct (owned_get c t th Ho) as [Ho1 Hi1].
  unfold coldtrace_thread_fini in Ef. apply obind_Ret_inv in Ef as ([wr w3] & Ewr & Ef).
  injection Ef as Eth ->. assert (th_writer th2 = wr ∧ th_failed th2 = th_failed th) as [-> ->]
    by (subst th2; by rewrite <- Efl).
  do 4 (split; [done|]). intros Hf.
  destruct (fini_disk c t Hc old _ _ _ _ (tk_writer _ _ Ht1) (belongs_tid c t _ Ho1 Hi1) Hd Ewr Hf)
    as (Hf1 & Hi2 & Hall).
  split; [|done]. rewrite <- (muted_get t th). intros [_ (_ & _ & [?|?])]; congruence.
Qed.

Lemma started_run_ideal os a :
  started_ops os → spec_run os recorder0 a → re_stuck a = false → re_mute a = false →
  re_closed a ++ re_cur a = ideal [] os.
Proof.
  intros Hst Hrun Hk Hm.
  assert (Forall traced_op os ∨ ∃ os', os = OInit :: os' ∧ Forall traced_op os') as [Htr|(os' & -> & Htr)].
  { unfold started_ops in Hst. destruct os as [|[] os]; eauto. }
  - by destruct (spec_run_ideal _ _ _ Hrun Htr Hk Hm) as (_ & _ & E).
  - inversion Hrun as [|o os a1 b d Hs Hr]; subst. inversion Hs; subst.
    by destruct (spec_run_ideal _ _ _ Hr Htr Hk Hm) as (_ & _ & E).
Qed.

(** The trace of a finished thread, and what files it leaves. *)
Lemma finished_trace `{!BuildInfoOk B} sy evs sy' :
  supported_build → fresh sy → do_events junk c sy evs = Some sy' →
  w_fs (sy_world sy) !! name_of (path_ c) t 0 = None →
  Forall (fun f => f ≠ Fail EEXIST) (w_faults (sy_world sy)) →
  only_files c t old (fun _ => False) (sy_world sy) →
  (∀ t' ev, (t', ev) ∈ evs → i32 t' = i32 t → t' = t) →
  started_ops (ops_of t (history junk c sy evs)) →
  ∃ th2 w2, coldtrace_thread_fini c t (thread_of sy' t) (sy_world sy') = Ret (th2, w2) ∧
    (th_failed th2 = false → wi_failed (th_writer th2) = false →
     ∃ frags, closed_frags (own t w2) = frag_bytes <$> frags ∧
     (∀ k es, frags !! k = Some es → len frags <= Z.of_nat k + coldtrace_get_max c → ∃ data,
        w_fs w2 !! name_of (path_ c) t (slot c (Z.of_nat k)) = Some (Reg data) ∧
        decompress LZ4_MAX_INPUT_SIZE data = inr (frag_bytes es)) ∧
     frags_ok frags ∧ closed_events frags = ideal [] (ops_of t (history junk c sy evs)) ∧
     only_files c t old (of_fragment c (own t w2)) w2).
Proof.
  intros Hsup Hf H Hname Hfaults Hold Hids Hst.
  destruct (all_record_events _ _ Hc evs _ _ _ (fresh_records _ sy Hf) H) as (rec & Hall & Hsp).
  destruct (Hall t) as [Ho (fr & cur & Hok & Est & Ecl & Ecu & Ek & Em)]. simpl in *.
  assert (files_state sy' []) as Hd%files_state_disk.
  { eapply events_files; [by apply fresh_records|exact H|done|]. left.
    destruct Hf as (_ & Hw & Ht & _). unfold thread_of. rewrite Ht, lookup_empty.
    split; [done|]. split; [|done]. split; [|done]. unfold closed_frags. simpl. by rewrite Hw. }
  destruct (fini_own_disk _ _ _ _ Ho Hok Hd) as (th2 & w2 & frags & Efini & Eth & Hcl & Hfr & Hev & Hdisk).
  exists th2, w2. split; [done|]. intros Hf1 Hf2. rewrite Eth in Hf1.
  exists frags. split; [done|].
  destruct (Hdisk Hf2) as (Hm & Hall2 & Honly). split; [|split; [done|split; [|done]]].
  - intros k es Hk Hnew. destruct (Hall2 k (frag_bytes es)) as (cap & Hn & Hcap).
    { rewrite Hcl, list_lookup_fmap, Hk. done. }
    { by rewrite Hcl, length_fmap. }
    exists (packed cap (frag_bytes es)). split; [done|]. by apply packed_decodes.
  - rewrite Hev, <- Ecl, <- Ecu. eapply started_run_ideal; [done|apply Hsp|congruence|].
    destruct (re_mute (rec t)); [|done]. by destruct Hm; apply Em.
Qed.
End Threads.

Section OnDisk.
Context `{B : BuildInfo, L : Lz4, V : Vsync, !VsyncLaws V, !Lz4Laws L}.
Context (junk : nat → Z) (c : config) (Hc : config_ok c) (t : Z).

(** C1: what is on disk is what happened.  Start with a directory without a fragment
    of the thread and let any number of threads, with different numbers in their
    file names, handle any schedule of events.  When the thread finishes and none
    of its allocations and file operations has failed, the fragments it wrote, read
    one after the other, give exactly the events of that thread, in order and with
    their full call stacks; and the most recent of them, as many as the file limit
    allows, are each in the file of their slot of the ring, where trace_dump.py
    unpacks them.  With no more fragments than the limit this is the whole trace,
    in the files 0, 1, 2, ... *)
Theorem traces_on_disk `{!BuildInfoOk B} sy evs sy' :
  supported_build → fresh sy → do_events junk c sy evs = Some sy' →
  w_fs (sy_world sy) !! name_of (path_ c) t 0 = None →
  Forall (fun f => f ≠ Fail EEXIST) (w_faults (sy_world sy)) →
  (∀ t' ev, (t', ev) ∈ evs → i32 t' = i32 t → t' = t) →
  started_ops (ops_of t (history junk c sy evs)) →
  ∃ th2 w2, coldtrace_thread_fini c t (thread_of sy' t) (sy_world sy') = Ret (th2, w2) ∧
    (th_failed th2 = false → wi_failed (th_writer th2) = false →
     ∃ frags, closed_frags (own t w2) = frag_bytes <$> frags ∧
     (∀ k es, frags !! k = Some es → len frags <= Z.of_nat k + coldtrace_get_max c → ∃ data,
        w_fs w2 !! name_of (path_ c) t (slot c (Z.of_nat k)) = Some (Reg data) ∧
        decompress LZ4_MAX_INPUT_SIZE data = inr (frag_bytes es)) ∧
     frags_ok frags ∧ closed_events frags = ideal [] (ops_of t (history junk c sy evs))).
Proof.
  intros Hsup Hf H Hname Hfaults Hids Hst.
  destruct (finished_trace junk c Hc t (fun _ => True) sy evs sy') as (th2 & w2 & Efini & Hdone);
    try done; [by left|].
  exists th2, w2. split; [done|]. intros Hf1 Hf2.
  destruct (Hdone Hf1 Hf2) as (frags & H1 & H2 & H3 & H4 & _). by exists frags.
Qed.
End OnDisk.

Section Demo.
#[local] Existing Instance demo_build.
#[local] Existing Instance demo_build_ok.

(** Thread 7 fills three fragments while thread 2 writes to the same directory. *)
Definition demo_traffic : list (Z * capture) :=
  [ (7, C_thread_start 1 2 3); (2, C_thread_start 4 5 6); (7, C_stacktrace_enter 100);
    (7, C_after_malloc 32 0x7f0040 100); (2, C_after_mutex_lock 0 0x10); (7, C_ma_write 0x7f0040 8 101);
    (2, C_before_rmw 0x7f0040); (7, C_stacktrace_exit); (2, C_after_rmw 0x7f0040 4);
    (7, C_before_mutex_unlock 0x10); (7, C_after_mutex_lock 0 0x18); (7, C_ma_write 0x7f0048 8 102) ].

Definition demo_done_in (c : config) : option (coldtrace_thread * world) :=
  match do_events zero_junk c demo_system demo_traffic with
  | Some sy => match coldtrace_thread_fini c 7 (thread_of sy 7) (sy_world sy) with
               | Ret s => Some s | _ => None end
  | None => None
  end.

Definition demo_done := demo_done_in demo_config96.

(** With two files for the three fragments the last one is in file 0. *)
Definition demo_ring : config := coldtrace_set_max demo_config96 2.

Lemma demo_ring_ok : config_ok demo_ring.
Proof. by vm_compute. Qed.

Lemma traces_on_disk_witness :
  ∃ w2 frags es data, snd <$> demo_done_in demo_ring = Some w2 ∧ length frags = 3%nat ∧
    frags !! 2%nat = Some es ∧ w_fs w2 !! name_of (path_ demo_ring) 7 0 = Some (Reg data) ∧
    decompress LZ4_MAX_INPUT_SIZE data = inr (frag_bytes es) ∧
    closed_events frags = ideal [] (ops_of 7 (history zero_junk demo_ring demo_system demo_traffic)).
Proof.
  pose (r := do_events zero_junk demo_ring demo_system demo_traffic).
  assert (match r with
    | Some sy => match coldtrace_thread_fini demo_ring 7 (thread_of sy 7) (sy_world sy) with
        | Ret (th, w) => negb (th_failed th) && negb (wi_failed (th_writer th)) &&
            (len (closed_frags (own 7 w)) =? 3)
        | _ => false end
    | None => false end = true) as Hr by (vm_compute; reflexivity).
  destruct r as [sy'|] eqn:E; [|discriminate Hr]. subst r.
  assert (started_ops (ops_of 7 (history zero_junk demo_ring demo_system demo_traffic))) as Hst
    by (vm_compute; repeat constructor).
  destruct (traces_on_disk zero_junk demo_ring demo_ring_ok 7 demo_system demo_traffic sy')
    as (th2 & w2 & Efini & Hdone);
    [reflexivity|apply demo_fresh|exact E|vm_compute; reflexivity|apply Forall_nil; exact I| |exact Hst|].
  { clear. intros t' ev Hin Hi. repeat (apply elem_of_cons in Hin as [Hin|Hin];
      [injection Hin as -> _; first [reflexivity|vm_compute in Hi; discriminate Hi]|]). destruct (not_elem_of_nil _ Hin). }
  rewrite Efini in Hr. rewrite !andb_true_iff, !negb_true_iff, Z.eqb_eq in Hr.
  destruct Hr as [[H1 H2] H3]. destruct (Hdone H1 H2) as (frags & Hcl & Hdisk & _ & Hev).
  rewrite Hcl, length_fmap in H3. destruct (lookup_lt_is_Some_2 frags 2) as [es Hes]; [lia|].
  destruct (Hdisk 2%nat es Hes) as (data & Hd & Hdec); [rewrite H3; vm_compute; discriminate|].
  exists w2, frags, es, data. split; [unfold demo_done_in; rewrite E, Efini; reflexivity|].
  split; [lia|]. split; [exact Hes|]. split; [exact Hd|]. split; [exact Hdec|exact Hev].
Defined.
End Demo.
