(* ===== verification/Numbering.v ===== *)
(** * The numbers of the allocations

    Allocations and releases carry an index drawn from one counter for the whole
    program.  As long as no thread has lost an entry, the indices in the traces of
    all threads number them without a gap, each index in one trace only.  The
    first part of the file is about indices of both kinds, and about what the index
    check of the test suite accepts. *)

From stdpp Require Import base list numbers list_numbers sorting strings gmap.
From Stdlib Require Import ZArith Lia Sorted.
From S2P Require Import Prelude Version Counters Entries Libc Utils Config Codec Lz4 Writer Thread Trace Reader Indexes Checker Verdict Recorder Subs Subscribers Atomics Handlers Locality Threads TestRun Files.

(** ** The indices of events and operations *)

(** The second components of the pairs with a given first one. *)
Lemma elem_part {A} (l : list (Z * A)) t x : x ∈ snd <$> filter (fun p => p.1 = t) l ↔ (t, x) ∈ l.
Proof.
  rewrite list_elem_of_fmap. split; [by intros ([? ?] & -> & [<- ?]%list_elem_of_filter)|].
  intros H. exists (t, x). split; [done|]. by apply list_elem_of_filter.
Qed.

(** An index that the checker reads from the type and the fields of an entry:
    [alloc_index_of] or [atomic_index_of]. *)
Section Indices.
Context (index_of : Z → list Z → Z).

Definition entry_indices (es : list entry) : list Z :=
  (fun e => index_of (base_type (en_type e)) (en_fields e)) <$> es.

Definition event_indices (evs : list event) : list Z := valid_indices (entry_indices (as_entry <$> evs)).

Definition op_index (o : op) : option Z :=
  match o with OLog ty _ fs => Some (index_of (base_type ty) fs) | _ => None end.

Definition op_indices (os : list op) : list Z := valid_indices (omap op_index os).

Lemma event_indices_ideal os : ∀ st, event_indices (ideal st os) = op_indices os.
Proof.
  unfold event_indices, op_indices, entry_indices, valid_indices.
  induction os as [|o os IH]; intros st; [done|]. destruct o; cbn [ideal omap list_omap op_index]; try apply IH.
  cbn [fmap list_fmap]. rewrite !filter_cons. simpl. rewrite IH. done.
Qed.

Lemma op_indices_app os1 os2 : op_indices (os1 ++ os2) = op_indices os1 ++ op_indices os2.
Proof. unfold op_indices, valid_indices. by rewrite omap_app, filter_app. Qed.

(** The indices a schedule logs, in order, with the threads that log them. *)
Definition all_indices (h : list (Z * list op)) : list (Z * Z) :=
  x ← h; (pair x.1) <$> op_indices x.2.

Lemma all_indices_cons t os h : all_indices ((t, os) :: h) = (pair t <$> op_indices os) ++ all_indices h.
Proof. done. Qed.

Lemma thread_indices t h : op_indices (ops_of t h) = snd <$> filter (fun x => x.1 = t) (all_indices h).
Proof.
  induction h as [|[t' os] h IH]; [done|]. rewrite ops_of_cons, op_indices_app, IH, all_indices_cons.
  rewrite filter_app, fmap_app. f_equal.
  case_decide as E; [subst t'|]; [|change (op_indices []) with (@nil Z)];
    induction (op_indices os) as [|i l IHl]; try done; cbn [fmap list_fmap].
  - rewrite filter_cons_True by done. cbn [fmap list_fmap snd]. f_equal. exact IHl.
  - rewrite filter_cons_False by done. exact IHl.
Qed.

Lemma event_indices_app l1 l2 : event_indices (l1 ++ l2) = event_indices l1 ++ event_indices l2.
Proof. unfold event_indices, entry_indices, valid_indices. by rewrite !fmap_app, filter_app. Qed.

Lemma event_indices_concat ls i : i ∈ event_indices (concat ls) ↔ ∃ p, p ∈ ls ∧ i ∈ event_indices p.
Proof.
  induction ls as [|l ls IH]; cbn [concat]; [set_solver|]. rewrite event_indices_app, elem_of_app, IH. set_solver.
Qed.

Lemma page_sorted ls p :
  p ∈ ls → StronglySorted Z.lt (event_indices (concat ls)) → StronglySorted Z.lt (event_indices p).
Proof.
  intros (l1 & l2 & ->)%list_elem_of_split. rewrite concat_app. cbn [concat]. rewrite !event_indices_app.
  intros H%StronglySorted_app_1_r%StronglySorted_app_1_l. done.
Qed.

(** *** The index check of the test suite *)

(** The calls of the check for the pages of a test, in the order they are closed. *)
Fixpoint check_pages (pages : list (list event)) (set : index_set) (w : world) (failed : bool) :
    outcome (bool * index_set * world) :=
  match pages with
  | [] => Ret (failed, set, w)
  | page :: pages =>
      let! (r, w) := check_all UINT64_MAX (entry_indices (as_entry <$> page)) set w failed in
      check_pages pages r.2 w r.1
  end.

Lemma check_pages_spec pages : ∀ set w,
  set_ok set → w_faults w = [] →
  Forall (fun p => StronglySorted Z.lt (event_indices p) ∧ Forall (fun i => 0 <= i < 2 ^ 63) (event_indices p)) pages →
  ∃ set', check_pages pages set w false = Ret (false, set', w) ∧ set_ok set' ∧
    ∀ j, has set' j ↔ (∃ p, p ∈ pages ∧ j ∈ event_indices p) ∨ has set j.
Proof.
  induction pages as [|p pages IH]; intros set w Hok Hw Hp; cbn [check_pages].
  - exists set. split; [done|]. split; [done|]. intros j. set_solver.
  - apply Forall_cons in Hp as [[Hs Hr] Hp].
    destruct (check_all_spec (entry_indices (as_entry <$> p)) UINT64_MAX set w Hok) as (failed & s1 & E & Hok1 & Hiff & Hhas);
      [|done|].
    { apply Forall_forall. intros i Hi. destruct (decide (i = INVALID_INDEX)); [by right|left].
      rewrite Forall_forall in Hr. apply Hr. by apply list_elem_of_filter. }
    rewrite E. cbn [obind]. assert (failed = false) as -> by (apply Hiff; split; [exact Hs|by left]).
    cbn [fst snd]. destruct (IH s1 w Hok1 Hw Hp) as (s2 & -> & Hok2 & Hhas2). exists s2. split; [done|].
    split; [done|]. intros j. rewrite Hhas2, (Hhas eq_refl). fold (event_indices p).
    setoid_rewrite elem_of_cons. naive_solver.
Qed.

(** Pages that together hold the indices below [n], those of a thread in order. *)
Lemma check_passes (pages : list (Z * list event)) (trace : Z → list event) n w :
  (∀ t, concat (snd <$> filter (fun x => x.1 = t) pages) = trace t) →
  (∀ t, StronglySorted Z.lt (event_indices (trace t))) →
  (∀ i, 0 <= i < n ↔ ∃ t, i ∈ event_indices (trace t)) → n <= 2 ^ 63 → w_faults w = [] →
  ∃ set, check_pages (snd <$> pages) empty_set w false = Ret (false, set, w) ∧
    check_not_seen_generic_indexes set = Ret (true, empty_set).
Proof.
  intros Hpages H1 H3 Hn Hw. setoid_rewrite <- Hpages in H1. setoid_rewrite <- Hpages in H3.
  assert (∀ t p, (t, p) ∈ pages ↔ p ∈ snd <$> filter (fun x => x.1 = t) pages) as Hin
    by (intros t p; by rewrite elem_part).
  destruct (check_pages_spec (snd <$> pages) empty_set w empty_set_ok Hw) as (set & E & Hok & Hhas).
  { apply Forall_forall. intros p ([t ?] & -> & Hp)%list_elem_of_fmap. apply Hin in Hp. simpl. split.
    - by eapply page_sorted.
    - apply Forall_forall. intros i Hi. assert (0 <= i < n); [|lia].
      apply H3. exists t. apply event_indices_concat. eauto. }
  assert (∀ j, has set j ↔ 0 <= j < n) as Hset.
  { intros j. rewrite Hhas, H3. setoid_rewrite event_indices_concat. split.
    - intros [(p & ([t ?] & -> & Hp)%list_elem_of_fmap & Hj)|[]%has_empty]. exists t. eexists. by rewrite <- Hin.
    - intros (t & p & Hp & Hj). left. exists p. split; [|done]. apply list_elem_of_fmap.
      exists (t, p). split; [done|]. by apply Hin. }
  exists set. split; [done|]. destruct (not_seen_spec set Hok) as (r & -> & Hr).
  assert (r = true) as ->; [|done]. apply Hr. intros j Hj. apply Hset.
  destruct (so_top _ Hok) as [[_ E0]|Ht]; [lia|]. apply Hset in Ht. lia.
Qed.
End Indices.

Section Pairs.
Context {K : Type} (l : list (K * Z)).

Lemma sorted_part (P : K * Z → Prop) `{!∀ x, Decision (P x)} :
  StronglySorted Z.lt (snd <$> l) → StronglySorted Z.lt (snd <$> filter P l).
Proof.
  induction l as [|x l' IH]; [done|]. intros [Hs Hx]%StronglySorted_inv. rewrite filter_cons.
  case_decide; [|auto]. constructor; [auto|].
  rewrite Forall_forall in Hx |- *. intros i (y & -> & [_ Hy]%list_elem_of_filter)%list_elem_of_fmap.
  apply Hx, list_elem_of_fmap. by exists y.
Qed.

Lemma owner_unique t t' i : NoDup (snd <$> l) → (t, i) ∈ l → (t', i) ∈ l → t = t'.
Proof.
  intros Hnd (j & Hj)%list_elem_of_lookup (k & Hk)%list_elem_of_lookup.
  assert (j = k) as ->; [|congruence].
  eapply NoDup_lookup; [exact Hnd|..]; rewrite list_lookup_fmap; [rewrite Hj|rewrite Hk]; done.
Qed.
End Pairs.

Lemma seqZ_sorted m n : StronglySorted Z.lt (seqZ m n).
Proof.
  unfold seqZ. assert (∀ k j, StronglySorted Z.lt ((fun i => Z.add (Z.of_nat i) m) <$> seq j k)) as H; [|apply H].
  induction k as [|k IH]; intros j; [constructor|]. cbn [seq fmap list_fmap]. constructor; [apply IH|].
  apply Forall_fmap, Forall_seq. simpl. lia.
Qed.

(** Pairs numbered from 0, split by their first components. *)
Lemma numbered_parts (l : list (Z * Z)) n :
  snd <$> l = seqZ 0 n →
  let part t := snd <$> filter (fun x => x.1 = t) l in
  (∀ t, StronglySorted Z.lt (part t)) ∧ (∀ t t' i, i ∈ part t → i ∈ part t' → t = t') ∧
  (∀ i, 0 <= i < n ↔ ∃ t, i ∈ part t).
Proof.
  intros Hseq part.
  assert (∀ t i, i ∈ part t ↔ (t, i) ∈ l) as Hin by apply elem_part.
  split_and!.
  - intros t. apply sorted_part. rewrite Hseq. apply seqZ_sorted.
  - intros t t' i. rewrite !Hin. apply owner_unique. rewrite Hseq. apply NoDup_seqZ.
  - intros i. setoid_rewrite Hin. rewrite <- (Z.add_0_l n), <- elem_of_seqZ, <- Hseq, list_elem_of_fmap.
    split; [intros ([t ?] & -> & ?); by exists t|]. intros [t Ht]. by exists (t, i).
Qed.

(** ** What a handler does to the counter *)

(** The events that log an allocation index. *)
Definition numbered (ev : capture) : bool :=
  match ev with
  | C_after_malloc _ _ _ | C_after_calloc _ _ _ _ | C_before_realloc _ _ | C_after_realloc _ _ _
  | C_before_free _ _ | C_after_aligned_alloc _ _ _ | C_after_mmap _ _ _ | C_before_munmap _ _ _ => true
  | C_after_posix_memalign r _ _ _ => r =? 0
  | _ => false
  end.

Section Counter.
Context `{B : BuildInfo, L : Lz4, V : Vsync, !VsyncLaws V} (junk : nat → Z) (c : config).

Lemma capture_allocs s th ev :
  counters_ok (sh_counters s) → next_alloc_index (sh_counters s) < 2 ^ 63 →
  op_indices alloc_index_of (capture_ops s th ev) = if numbered ev then [next_alloc_index (sh_counters s)] else [].
Proof.
  intros Hk Hn. assert ((coldtrace_next_alloc_idx (sh_counters s)).1 = next_alloc_index (sh_counters s)) as E
    by by rewrite next_alloc_spec.
  assert (u64 (next_alloc_index (sh_counters s)) = next_alloc_index (sh_counters s)) as Eu
    by (destruct Hk; apply u64_id; ulia).
  assert (∀ i, i < 2 ^ 63 → valid_indices [i] = [i]) as Hv.
  { intros i Hi. unfold valid_indices. rewrite filter_cons_True; [done|]. unfold INVALID_INDEX. lia. }
  unfold op_indices. destruct ev; cbn [capture_ops numbered]; unfold read_type; rewrite ?E, ?Eu;
    repeat match goal with |- context [if ?b then _ else _] => destruct b end; try done; by apply Hv.
Qed.

(** A handler that completes has drawn [n] indices of one kind. *)
Section Counts.
Context (get : counters → Z).

Definition drawn (h : hstate) : Z := get (sh_counters (hs_shared h)).

Definition counts {A} (n : Z) (m : M A) : Prop :=
  ∀ h r h', counters_ok (sh_counters (hs_shared h)) → drawn h + 1 < 2 ^ 64 →
    m h = Ret (Some r, h') → drawn h' = drawn h + n.

Lemma counts_same {A} (m : M A) : same_shared m → counts 0 m.
Proof. intros Hm h r h' _ _ E. apply Hm in E. unfold drawn. rewrite E. lia. Qed.

Lemma counts_bind_l {A A'} n (m : M A) (k : A → M A') :
  same_shared m → (∀ a, counts n (k a)) → counts n (bind m k).
Proof.
  intros Hm Hk h r h' Hc Hb (r1 & h1 & E1 & E)%bind_inv. destruct r1; [|by destruct E].
  apply Hm in E1. apply Hk in E; unfold drawn in *; by rewrite E1 in *.
Qed.

Lemma counts_bind_r {A A'} n (m : M A) (k : A → M A') :
  counts n m → (∀ a, same_shared (k a)) → counts n (bind m k).
Proof.
  intros Hm Hk h r h' Hc Hb (r1 & h1 & E1 & E)%bind_inv. destruct r1; [|by destruct E].
  apply Hm in E1; [|done..]. apply Hk in E. unfold drawn in *. by rewrite E.
Qed.
End Counts.

Lemma counts_alloc_alloc : counts next_alloc_index 1 next_alloc.
Proof.
  intros h r h' Hk Hb E. unfold next_alloc, on_shared in E. rewrite next_alloc_spec in E by done.
  simplify_eq/=. unfold drawn in *. simpl. rewrite u64_id; [done|]. destruct Hk. ulia.
Qed.

Lemma counts_alloc_atomic : counts next_alloc_index 0 next_atomic.
Proof.
  intros h r h' Hk Hb E. unfold next_atomic, on_shared in E. rewrite next_atomic_spec in E by done.
  simplify_eq/=. unfold drawn. simpl. lia.
Qed.

Lemma counts_atomic_alloc : counts next_atomic_index 0 next_alloc.
Proof.
  intros h r h' Hk Hb E. unfold next_alloc, on_shared in E. rewrite next_alloc_spec in E by done.
  simplify_eq/=. unfold drawn. simpl. lia.
Qed.

Lemma counts_atomic_atomic : counts next_atomic_index 1 next_atomic.
Proof.
  intros h r h' Hk Hb E. unfold next_atomic, on_shared in E. rewrite next_atomic_spec in E by done.
  simplify_eq/=. unfold drawn in *. simpl. rewrite u64_id; [done|]. destruct Hk. ulia.
Qed.
End Counter.

Ltac solve_counts :=
  repeat match goal with
  | |- counts _ _ next_alloc => first [apply counts_alloc_alloc|apply counts_atomic_alloc]
  | |- counts _ _ next_atomic => first [apply counts_alloc_atomic|apply counts_atomic_atomic]
  | |- counts _ _ (if ?b then _ else _) => destruct b
  | |- counts _ _ (match ?x with Some _ => _ | None => _ end) => destruct x
  | |- counts _ _ (bind ?m _) => first
      [ apply counts_bind_l; [solve [solve_same]|intros ?]
      | apply counts_bind_r; [|solve [intros ?; solve_same]] ]
  | |- counts _ _ _ => apply counts_same; solve [solve_same]
  end.

Section Handlers.
Context `{B : BuildInfo, L : Lz4, V : Vsync, !VsyncLaws V} (junk : nat → Z) (c : config).

Lemma subscriber_allocs md ev : counts next_alloc_index (if numbered ev then 1 else 0) (subscriber junk c md ev).
Proof.
  destruct (before_addr ev) as [addr|] eqn:Eb; [|destruct (after_addr ev) as [addr|] eqn:Ea].
  - intros h r h' Hk Hb H. assert (fetch_stack_acq addr h = Ret (Some r, h')) as H'
      by (destruct ev; try done; by injection Eb as ->).
    apply fetch_shared in H' as (a & l & _ & _ & E). unfold drawn. rewrite E. simpl.
    rewrite next_atomic_spec by done. simpl. destruct ev; try done; simpl; lia.
  - intros h r h' Hk Hb H. apply (after_shared _ _ _ _ _ _ _ _ Ea) in H as (a & _ & E).
    unfold drawn. rewrite E. simpl. rewrite next_atomic_spec by done.
    destruct ev; try done; simpl; repeat case_match; simpl; lia.
  - destruct ev; try done; cbn [subscriber numbered]; autounfold with subs subs_log; try solve [solve_counts].
Qed.
End Handlers.

(** ** All threads *)

Section Numbering.
Context `{B : BuildInfo, L : Lz4, V : Vsync, !VsyncLaws V, !Lz4Laws L}.
Context (junk : nat → Z) (c : config) (Hc : config_ok c).

(** The thread has lost no entry: no allocation and no file operation failed. *)
Definition healthy (th : coldtrace_thread) : Prop := th_failed th = false ∧ ¬ muted th.

Lemma records_healthy sy t a :
  records_own c sy t a → healthy (thread_of sy t) ↔ re_stuck a = false ∧ re_mute a = false.
Proof.
  intros [_ (fr & cur & _ & _ & _ & _ & Ek & Em)]. simpl in *. unfold healthy. rewrite Ek, <- Em.
  by rewrite not_true_iff_false.
Qed.

(** What lies ahead of a thread: its whole life, or operations after its start. *)
Definition ahead (sy : system) (t : Z) (os : list op) : Prop :=
  thread_of sy t = zero_thread ∧ started_ops os ∨ Forall traced_op os.

(** A thread that ends healthy was healthy all the time. *)
Lemma healthy_before sy evs sy' rec t :
  all_record c sy rec → do_events junk c sy evs = Some sy' → ahead sy t (ops_of t (history junk c sy evs)) →
  healthy (thread_of sy' t) → healthy (thread_of sy t).
Proof.
  intros Hall H [[-> _]|Htr] Hh; [by split; [|intros [? _]]|].
  destruct (all_record_events junk c Hc evs _ _ _ Hall H) as (rec' & Hall' & Hsp).
  apply (records_healthy _ _ _ (Hall t)). destruct (proj1 (records_healthy _ _ _ (Hall' t)) Hh) as [Hk Hm].
  by destruct (spec_run_ideal _ _ _ (Hsp t) Htr Hk Hm) as (? & ? & _).
Qed.

Lemma ahead_event sy t ev sy' os :
  do_event junk c sy t ev = Some sy' →
  ahead sy t (capture_ops (sy_shared sy) (thread_of sy t) ev ++ os) → ahead sy' t os.
Proof.
  intros H [[Hz Hst]|Htr]; [|right; by apply Forall_app in Htr as [_ ?]].
  destruct (started_app _ _ Hst) as [_ [Hnil|?]]; [|by right]. left. rewrite Hnil in Hst. split; [|done].
  apply do_event_inv in H as (h' & Hh & _ & _ & Ht). rewrite (thread_of_insert _ _ _ _ t Ht), decide_True by done.
  apply handle_performs in Hh as (os1 & os2 & Hos & Hrun & _). rewrite Hnil in Hos.
  symmetry in Hos. apply app_eq_nil in Hos as [-> ->]. injection Hrun as <- _. done.
Qed.

Lemma ahead_other sy t t' ev sy' os :
  do_event junk c sy t' ev = Some sy' → t' ≠ t → ahead sy t os → ahead sy' t os.
Proof.
  intros (h' & _ & _ & _ & Ht)%do_event_inv Hne. unfold ahead.
  by rewrite (thread_of_insert _ _ _ _ t Ht), decide_False.
Qed.

(** The handler of a thread that stays healthy completes. *)
Lemma event_completes sy t ev sy' a :
  records_own c sy t a → do_event junk c sy t ev = Some sy' → healthy (thread_of sy' t) →
  ∃ r h', subscriber junk c t ev (HState (sy_shared sy) (thread_of sy t) (sy_world sy)) = Ret (Some r, h') ∧
    sy_shared sy' = hs_shared h'.
Proof.
  intros [Ho Him] H Hh. destruct (records_event junk c Hc _ _ _ _ _ (conj Ho Him) H) as (a' & _ & Hr').
  destruct (proj1 (records_healthy _ _ _ Hr') Hh) as [Hk Hm]. destruct Hr' as [_ Him'].
  apply do_event_inv in H as (h' & Hhd & Hs & Hw & Ht). unfold handle, handler in Hhd.
  destruct (subscriber junk c t ev _) as [[r h1]| |] eqn:E; [|done..]. injection Hhd as Hhd.
  subst h'. destruct r as [r|]; [by exists r, h1|]. exfalso.
  apply subscriber_performs in E as (os1 & [os2 Hos] & Hrun & Hst). simpl in Hos.
  rewrite (thread_of_insert _ _ _ _ t Ht), decide_True, Hw in Him' by done.
  pose proof (capture_requests_ok (sy_shared sy) (thread_of sy t) ev) as Hok. rewrite Hos in Hok.
  apply Forall_app in Hok as [Hok _].
  assert (re_stuck a' || re_mute a' = true) as Hoff; [|by rewrite Hk, Hm in Hoff].
  refine (stopped_off junk c t os1 _ _ a a' Him Hc Hok _ Him'). by apply stopped_own.
Qed.

(** An event whose entries, if any, are in the trace.  The end of the main thread,
    whose handler ignores a failed log, is not one. *)
Definition kept (sy' : system) (t : Z) (ev : capture) : Prop :=
  match ev with C_self_fini is_main _ => is_main = false | _ => healthy (thread_of sy' t) end.

Fixpoint lossless (sy : system) (evs : list (Z * capture)) : Prop :=
  match evs with
  | [] => True
  | (t, ev) :: evs =>
      match do_event junk c sy t ev with
      | Some sy' => kept sy' t ev ∧ lossless sy' evs
      | None => True
      end
  end.

Lemma kept_completes sy t ev sy' a :
  records_own c sy t a → do_event junk c sy t ev = Some sy' → kept sy' t ev →
  ∃ r h', subscriber junk c t ev (HState (sy_shared sy) (thread_of sy t) (sy_world sy)) = Ret (Some r, h') ∧
    sy_shared sy' = hs_shared h'.
Proof.
  intros Hr H Hk. assert (healthy (thread_of sy' t) ∨ ∃ b self, ev = C_self_fini b self) as [Hh|(b & self & ->)].
  { destruct ev; eauto. }
  - by eapply event_completes.
  - apply do_event_inv in H as (h' & Hhd & Hs & _). unfold handle, handler in Hhd.
    destruct (subscriber junk c t _ _) as [[r h1]| |] eqn:E; [|done..]. injection Hhd as Hhd. subst h'.
    destruct (self_fini_ends _ _ _ _ _ _ _ _ E) as [r' ->]. by exists r', h1.
Qed.

Lemma ahead_not_fini sy t ev os :
  ahead sy t (capture_ops (sy_shared sy) (thread_of sy t) ev ++ os) → ∀ b self, ev ≠ C_self_fini b self.
Proof.
  intros Ha b self ->. destruct Ha as [[_ Hst]|Htr]; destruct b; cbn [capture_ops app] in *;
    unfold started_ops in *; repeat match goal with H : Forall _ (_ :: _) |- _ => apply Forall_cons in H as [? H] end; done.
Qed.

(** If every thread ends healthy and has not finished, nothing was lost. *)
Lemma healthy_lossless evs : ∀ sy sy' rec,
  all_record c sy rec → do_events junk c sy evs = Some sy' → (∀ t, healthy (thread_of sy' t)) →
  (∀ t, ahead sy t (ops_of t (history junk c sy evs))) → lossless sy evs.
Proof.
  induction evs as [|[t ev] evs IH]; intros sy sy' rec Hall H Hh Hah; cbn [do_events history lossless] in *; [done|].
  destruct (do_event junk c sy t ev) as [sy1|] eqn:E; [|done]. simpl in H.
  destruct (all_record_event junk c Hc _ _ _ _ _ Hall E) as (rec1 & Hall1 & _).
  assert (∀ t', ahead sy1 t' (ops_of t' (history junk c sy1 evs))) as Hah1.
  { intros t'. specialize (Hah t'). rewrite ops_of_cons in Hah. case_decide as Et.
    - subst t'. by eapply ahead_event.
    - by eapply ahead_other. }
  split; [|by eapply IH]. specialize (Hah t). rewrite ops_of_cons, decide_True in Hah by done.
  assert (healthy (thread_of sy1 t)) as Hh1 by by eapply healthy_before.
  pose proof (ahead_not_fini _ _ _ _ Hah) as Hnf. destruct ev; try exact Hh1. by destruct (Hnf is_main self).
Qed.

Lemma fresh_lossless sy evs sy' :
  fresh sy → do_events junk c sy evs = Some sy' → (∀ t, healthy (thread_of sy' t)) →
  (∀ t, started_ops (ops_of t (history junk c sy evs))) → lossless sy evs.
Proof.
  intros Hf H Hh Hst. eapply healthy_lossless; [by apply fresh_records|exact H|done|].
  intros t. left. split; [|done]. destruct Hf as (_ & _ & Ht & _). unfold thread_of. by rewrite Ht, lookup_empty.
Qed.

Definition allocs (sy : system) : Z := next_alloc_index (sh_counters (sy_shared sy)).

(** The indices in the order of the events are the values of the counter. *)
Lemma numbering evs : ∀ sy sy' rec,
  all_record c sy rec → reachable junk c sy → do_events junk c sy evs = Some sy' →
  allocs sy + len evs < 2 ^ 63 → lossless sy evs →
  allocs sy <= allocs sy' <= allocs sy + len evs ∧ snd <$> all_indices alloc_index_of (history junk c sy evs) = seqZ (allocs sy) (allocs sy' - allocs sy).
Proof.
  induction evs as [|[t ev] evs IH]; intros sy sy' rec Hall Hr H Hb Hl; cbn [do_events history lossless] in *.
  { simplify_eq. rewrite Z.sub_diag. split; [simpl; lia|done]. }
  destruct (do_event junk c sy t ev) as [sy1|] eqn:E; [|done]. simpl in H. destruct Hl as [Hkept Hl].
  destruct (all_record_event junk c Hc _ _ _ _ _ Hall E) as (rec1 & Hall1 & _).
  pose proof (or_counters _ (reachable_ordered _ _ _ Hr)) as Hk. simpl in Hb.
  destruct (kept_completes _ _ _ _ _ (Hall t) E Hkept) as (r & h' & Hsub & Hs).
  apply subscriber_allocs in Hsub; [|done|unfold drawn, allocs in *; simpl; lia].
  unfold drawn in Hsub. rewrite <- Hs in Hsub. cbn [hs_shared] in Hsub.
  fold (allocs sy1) (allocs sy) in Hsub.
  destruct (IH sy1 sy' rec1) as [Hle Heq]; try done.
  { eapply reach_step; [done|]. by eapply do_event_step. }
  { destruct (numbered ev); lia. }
  rewrite all_indices_cons, fmap_app.
  rewrite capture_allocs by (unfold allocs in *; done || lia). fold (allocs sy).
  rewrite Heq, Hsub.
  destruct (numbered ev); cbn [fmap list_fmap app snd length].
  - split; [lia|]. rewrite (seqZ_cons (allocs sy)) by lia. unfold Z.succ, Z.pred. f_equal. f_equal; lia.
  - split; [lia|]. by rewrite Z.add_0_r.
Qed.

(** The allocation indices in the trace of a thread. *)
Definition trace_allocs (sy : system) (evs : list (Z * capture)) (t : Z) : list Z :=
  event_indices alloc_index_of (ideal [] (ops_of t (history junk c sy evs))).

Lemma fresh_numbering sy evs sy' :
  fresh sy → allocs sy = 0 → do_events junk c sy evs = Some sy' → len evs < 2 ^ 63 → lossless sy evs →
  let l := all_indices alloc_index_of (history junk c sy evs) in
  snd <$> l = seqZ 0 (allocs sy') ∧ allocs sy' <= 2 ^ 63 ∧
  ∀ t, trace_allocs sy evs t = snd <$> filter (fun x => x.1 = t) l.
Proof.
  intros Hf H0 H Hlen Hl l.
  destruct (numbering evs sy sy' (fun _ => recorder0)) as [Hle Heq]; try done.
  - by apply fresh_records.
  - by eapply (fresh_reachable junk c sy []).
  - lia.
  - rewrite H0, Z.sub_0_r in Heq. split; [done|]. split.
    + lia.
    + intros t. unfold trace_allocs. rewrite event_indices_ideal. apply thread_indices.
Qed.

End Numbering.

Section Demo.
#[local] Existing Instance demo_build.

(** Threads 1 and 2 allocate, and thread 2 releases what thread 1 has allocated. *)
Definition demo_allocs : list (Z * capture) :=
  [ (1, C_thread_start 1 2 3); (2, C_thread_start 4 5 6); (1, C_after_malloc 32 0x7f0040 100);
    (2, C_after_malloc 16 0x7f0080 200); (2, C_before_free 0x7f0040 201); (1, C_after_mmap 4096 0x7f1000 101) ].

Definition demo_numbers : list (Z * list op) :=
  Eval vm_compute in history zero_junk demo_config96 demo_system demo_allocs.

Lemma demo_numbers_ops t :
  ops_of t demo_numbers = if decide (t = 1) then ops_of 1 demo_numbers
                          else if decide (t = 2) then ops_of 2 demo_numbers else [].
Proof.
  do 2 (case_decide; [by subst|]). unfold demo_numbers. rewrite !ops_of_cons.
  by rewrite !decide_False by congruence.
Qed.

Lemma demo_numbers_started t : started_ops (ops_of t demo_numbers).
Proof. rewrite demo_numbers_ops. repeat case_decide; vm_compute; repeat constructor. Qed.

Definition demo_healthy (sy : system) : bool :=
  forallb (fun x => negb (th_failed x.2) && negb (wi_failed (th_writer x.2)) && wi_initd (th_writer x.2))
    (map_to_list (sy_threads sy)).

Lemma demo_healthy_all sy : demo_healthy sy = true → ∀ t, healthy (thread_of sy t).
Proof.
  unfold demo_healthy. rewrite forallb_forall. intros H t. unfold thread_of.
  destruct (sy_threads sy !! t) as [th|] eqn:E; [|by split; [|intros [? _]]]. simpl.
  apply elem_of_map_to_list, list_elem_of_In, H in E. simpl in E.
  rewrite !andb_true_iff, !negb_true_iff in E. destruct E as [[H1 H2] H3].
  split; [done|]. intros [_ (_ & _ & [?|?])]; congruence.
Qed.

End Demo.
