(* ===== verification/AtomicNumbers.v ===== *)
(** * The numbers of the synchronisation events

    Atomic accesses, locks, thread creation and the like carry an index drawn
    from a second counter.  Unlike an allocation index it may be drawn before the
    event that logs it: before an access, or before a thread is created.  If every
    thread completes what it has begun, the indices in the traces have no gap,
    ascend in every trace, and pass the index check of the test suite. *)

From stdpp Require Import base list numbers list_numbers sorting strings gmap.
From Stdlib Require Import ZArith Lia Sorted.
From S2P Require Import Prelude Version Counters Entries Libc Utils Config Codec Lz4 Writer Thread Trace Reader Indexes Checker Verdict Recorder Subs Subscribers Atomics Handlers Locality Threads TestRun Files Numbering.

(** ** The part an event plays *)

Inductive bracket := Access | Create.

#[export] Instance bracket_eq_dec : EqDecision bracket.
Proof. solve_decision. Defined.

Inductive role := Plain | OneShot | Opens (b : bracket) | Closes (b : bracket).

(** An index is drawn and logged, only drawn, or drawn by an earlier event. *)
Definition role_of (ev : capture) : role :=
  match ev with
  | C_after_cxa_guard_acquire _ | C_before_cxa_guard_release _ | C_before_cxa_guard_abort _
  | C_annotate_rwlock_create _ | C_annotate_rwlock_destroy _ | C_annotate_rwlock_acq _ _
  | C_annotate_rwlock_rel _ _ | C_before_sem_post _ | C_thread_start _ _ _ | C_thread_exit _
  | C_self_fini true _ | C_after_thread_join _ | C_before_mutex_unlock _ | C_before_cond_wait _
  | C_after_cond_wait _ | C_before_cond_timedwait _ | C_after_cond_timedwait _
  | C_before_cond_clockwait _ | C_after_cond_clockwait _ | C_before_rwlock_unlock _
  | C_before_spin_unlock _ => OneShot
  | C_after_sem_wait r _ | C_after_sem_trywait r _ | C_after_sem_timedwait r _
  | C_after_mutex_lock r _ | C_after_mutex_trylock r _ | C_after_mutex_timedlock r _
  | C_after_mutex_clocklock r _ | C_after_rwlock_rdlock r _ | C_after_rwlock_tryrdlock r _
  | C_after_rwlock_timedrdlock r _ | C_after_rwlock_wrlock r _ | C_after_rwlock_trywrlock r _
  | C_after_rwlock_timedwrlock r _ | C_after_spin_lock r _ | C_after_spin_trylock r _ =>
      if r =? 0 then OneShot else Plain
  | C_before_thread_create => Opens Create
  | C_after_thread_create _ => Closes Create
  | _ =>
      match before_addr ev, after_addr ev with
      | Some _, _ => Opens Access
      | None, Some _ => Closes Access
      | None, None => Plain
      end
  end.

Definition drawn_by (ev : capture) : Z :=
  match role_of ev with
  | Plain => 0
  | OneShot | Opens _ => 1
  | Closes _ => if draws ev then 1 else 0
  end.

(** The events of a thread are bracketed: between the two events of an access or
    of a thread creation it has no other event with such an index.  The result is
    what is open after the events. *)
Fixpoint brackets (k : option bracket) (evs : list capture) : option (option bracket) :=
  match evs with
  | [] => Some k
  | ev :: evs =>
      match role_of ev, k with
      | Plain, _ => brackets k evs
      | OneShot, None => brackets None evs
      | Opens b, None => brackets (Some b) evs
      | Closes b, Some b' => if decide (b = b') then brackets None evs else None
      | _, _ => None
      end
  end.

Definition events_of (t : Z) (evs : list (Z * capture)) : list capture :=
  snd <$> filter (fun x => x.1 = t) evs.

Lemma events_of_cons t t' ev evs :
  events_of t ((t', ev) :: evs) = if decide (t' = t) then ev :: events_of t evs else events_of t evs.
Proof. unfold events_of. rewrite filter_cons. simpl. by destruct (decide (t' = t)). Qed.

(** ** What a handler logs and draws *)

Section Handlers.
Context `{B : BuildInfo, L : Lz4, V : Vsync, !VsyncLaws V} (junk : nat → Z) (c : config).

(** The index drawn by the opening event. *)
Definition open_index (s : shared) (th : coldtrace_thread) (ev : capture) : Z :=
  match after_addr ev with Some addr => idx_at s addr | None => th_created_thread_idx th end.

Lemma valid_small i l : 0 <= i < 2 ^ 63 → valid_indices (u64 i :: l) = i :: valid_indices l.
Proof.
  intros Hi. rewrite u64_id by ulia. unfold valid_indices. rewrite filter_cons_True; [done|].
  unfold INVALID_INDEX. lia.
Qed.

Lemma capture_atomics s th ev :
  let n := next_atomic_index (sh_counters s) in
  counters_ok (sh_counters s) → n < 2 ^ 63 →
  (∀ b, role_of ev = Closes b → 0 <= open_index s th ev < 2 ^ 63) →
  op_indices atomic_index_of (capture_ops s th ev) =
  match role_of ev with
  | Plain | Opens _ => []
  | OneShot => [n]
  | Closes _ => open_index s th ev :: if draws ev then [n] else []
  end.
Proof.
  intros n Hk Hn Ho. assert ((coldtrace_next_atomic_idx (sh_counters s)).1 = n) as E
    by by rewrite next_atomic_spec.
  assert (0 <= n < 2 ^ 63) as Hn' by (destruct Hk; ulia). unfold open_index in Ho.
  unfold op_indices, open_index. destruct ev; cbn [capture_ops role_of before_addr after_addr draws] in *;
    unfold read_type; rewrite ?E;
    try match goal with |- context [if ?b then _ else _] => destruct b end;
    try (specialize (Ho _ eq_refl)); try done;
    cbn [omap list_omap op_index]; unfold atomic_index_of; simpl; rewrite ?valid_small by done; done.
Qed.

(** Finishing the main thread ignores a failed log. *)
Definition is_main_fini (ev : capture) : bool := match ev with C_self_fini b _ => b | _ => false end.

Lemma subscriber_atomics md ev :
  is_main_fini ev = false → counts next_atomic_index (drawn_by ev) (subscriber junk c md ev).
Proof.
  intros Hf. destruct (before_addr ev) as [addr|] eqn:Eb; [|destruct (after_addr ev) as [addr|] eqn:Ea].
  - intros h r h' Hk Hb H. assert (fetch_stack_acq addr h = Ret (Some r, h')) as H'
      by (destruct ev; try done; by injection Eb as ->).
    apply fetch_shared in H' as (a & l & _ & _ & E). unfold drawn in *. rewrite E. simpl.
    rewrite next_atomic_spec by done. simpl. destruct Hk. rewrite u64_id by ulia.
    by destruct ev.
  - intros h r h' Hk Hb H. apply (after_shared _ _ _ _ _ _ _ _ Ea) in H as (a & _ & E).
    unfold drawn in *. rewrite E. cbn [sh_counters]. rewrite next_atomic_spec by done.
    assert (drawn_by ev = if draws ev then 1 else 0) as -> by by destruct ev.
    destruct (draws ev); simpl; [|lia]. destruct Hk. by rewrite u64_id by ulia.
  - unfold drawn_by. destruct ev; try done; try (cbn in Hf; subst is_main); cbn [subscriber role_of before_addr after_addr];
      autounfold with subs subs_log; try solve [solve_counts].
Qed.
End Handlers.

(** ** Numbers that are logged late *)

(** [l] are the logged indices with their threads, [n] the counter and [open] the
    indices that threads have drawn and not logged. *)
Record numbers (l : list (Z * Z)) (n : Z) (open : gmap Z Z) : Prop := {
  nu_logged : ∀ t i, (t, i) ∈ l → 0 <= i < n;
  nu_open : ∀ t i, open !! t = Some i → 0 <= i < n ∧ (∀ j, (t, j) ∈ l → j < i) ∧ ∀ t', (t', i) ∉ l;
  nu_excl : ∀ t t' i, open !! t = Some i → open !! t' = Some i → t = t';
  nu_owner : ∀ t t' i, (t, i) ∈ l → (t', i) ∈ l → t = t';
  nu_sorted : ∀ t, StronglySorted Z.lt (snd <$> filter (fun x => x.1 = t) l);
  nu_all : ∀ i, 0 <= i < n → (∃ t, (t, i) ∈ l) ∨ ∃ t, open !! t = Some i;
}.

Lemma numbers_nil : numbers [] 0 ∅.
Proof.
  split; try (intros t i H; by apply not_elem_of_nil in H); try (intros t ? i H; by apply not_elem_of_nil in H);
    try done; [constructor|lia].
Qed.

Lemma snoc_sorted (l : list (Z * Z)) t i :
  (∀ j, (t, j) ∈ l → j < i) →
  (∀ t, StronglySorted Z.lt (snd <$> filter (fun x => x.1 = t) l)) →
  ∀ t', StronglySorted Z.lt (snd <$> filter (fun x => x.1 = t') (l ++ [(t, i)])).
Proof.
  intros Hlt Hs t'. rewrite filter_app, fmap_app. destruct (decide (t = t')) as [<-|Hne].
  - rewrite filter_cons_True by done. apply StronglySorted_snoc; [done|].
    apply Forall_forall. intros j ([? ?] & -> & [<- Hj]%list_elem_of_filter)%list_elem_of_fmap. by apply Hlt.
  - rewrite filter_cons_False by done. cbn [filter list_filter fmap list_fmap]. by rewrite app_nil_r.
Qed.

Lemma elem_snoc (l : list (Z * Z)) t i t' j : (t', j) ∈ l ++ [(t, i)] ↔ (t', j) ∈ l ∨ t' = t ∧ j = i.
Proof. rewrite elem_of_app, list_elem_of_singleton. naive_solver. Qed.

(** Drawing an index and logging it. *)
Lemma numbers_log l n open t :
  0 <= n → numbers l n open → open !! t = None → numbers (l ++ [(t, n)]) (n + 1) open.
Proof.
  intros Hn [Hl Ho Hx Hw Hs Ha] Ht. split.
  - intros t' i [H|[-> ->]]%elem_snoc; [specialize (Hl _ _ H)|]; lia.
  - intros t' i Hi. destruct (Ho _ _ Hi) as (H1 & H2 & H3). split; [lia|]. split.
    + intros j [H|[-> ->]]%elem_snoc; [by apply H2|congruence].
    + intros t2 [H|[-> ->]]%elem_snoc; [by eapply H3|lia].
  - done.
  - intros t1 t2 i [H1|[-> ->]]%elem_snoc [H2|[-> ?]]%elem_snoc; [by eapply Hw| | |done].
    + apply Hl in H1. lia.
    + apply Hl in H2. lia.
  - apply snoc_sorted; [|done]. intros j H. apply Hl in H. lia.
  - intros i Hi. destruct (decide (i = n)) as [->|]; [left; exists t; apply elem_snoc; auto|].
    destruct (Ha i) as [[t' H]|?]; [lia| |by right]. left. exists t'. apply elem_snoc. auto.
Qed.

(** Drawing an index to log it later. *)
Lemma numbers_draw l n open t :
  0 <= n → numbers l n open → open !! t = None → numbers l (n + 1) (<[t := n]> open).
Proof.
  intros Hn [Hl Ho Hx Hw Hs Ha] Ht. split; try done.
  - intros t' i H. apply Hl in H. lia.
  - intros t' i [[<- <-]|[Hne Hi]]%lookup_insert_Some.
    + split; [lia|]. split; [intros j H; apply Hl in H; lia|]. intros t2 H. apply Hl in H. lia.
    + destruct (Ho _ _ Hi) as (H1 & H2 & H3). split; [lia|done].
  - intros t1 t2 i [[<- <-]|[Hn1 H1]]%lookup_insert_Some [[<- E]|[Hn2 H2]]%lookup_insert_Some; [done| | |by eapply Hx].
    + apply Ho in H2 as [? _]. lia.
    + apply Ho in H1 as [? _]. lia.
  - intros i Hi. destruct (decide (i = n)) as [->|]; [right; exists t; by rewrite lookup_insert_eq|].
    destruct (Ha i) as [?|[t' H]]; [lia|by left|]. right. exists t'. by rewrite lookup_insert_ne by congruence.
Qed.

(** Logging an index drawn earlier. *)
Lemma numbers_late l n open t i :
  numbers l n open → open !! t = Some i → numbers (l ++ [(t, i)]) n (delete t open).
Proof.
  intros [Hl Ho Hx Hw Hs Ha] Ht. destruct (Ho _ _ Ht) as (Hi & Hlt & Hnew). split.
  - intros t' j [H|[-> ->]]%elem_snoc; [by eapply Hl|done].
  - intros t' j [Hne Hj]%lookup_delete_Some. destruct (Ho _ _ Hj) as (H1 & H2 & H3). split; [done|]. split.
    + intros k [H|[-> ->]]%elem_snoc; [by apply H2|done].
    + intros t2 [H|[-> ->]]%elem_snoc; [by eapply H3|]. by destruct Hne; eapply Hx.
  - intros t1 t2 j [_ H1]%lookup_delete_Some [_ H2]%lookup_delete_Some. by eapply Hx.
  - intros t1 t2 j [H1|[-> ->]]%elem_snoc [H2|[-> ?]]%elem_snoc; [by eapply Hw| | |done].
    + subst. by destruct (Hnew t1).
    + by destruct (Hnew t2).
  - by apply snoc_sorted.
  - intros j Hj. destruct (Ha j Hj) as [[t' H]|[t' H]]; [left; exists t'; apply elem_snoc; auto|].
    destruct (decide (t' = t)) as [->|]; [left; exists t; apply elem_snoc; right; split; congruence|].
    right. exists t'. by rewrite lookup_delete_ne.
Qed.

(** ** The number of a created thread *)

Section Created.
Context `{B : BuildInfo, L : Lz4, V : Vsync} (junk : nat → Z) (c : config) (md : Z).

Lemma store_created th off bs th' :
  entry_store th off bs = Ret th' → th_created_thread_idx th' = th_created_thread_idx th.
Proof. unfold entry_store. destruct (wi_buffer _); [|done]. intros H. inv_outcome. done. Qed.

Lemma fields_created fs : ∀ th off th',
  write_fields th off fs = Ret th' → th_created_thread_idx th' = th_created_thread_idx th.
Proof.
  induction fs as [|f fs IH]; intros th off th' H; cbn [write_fields] in H; inv_outcome; [done|].
  match goal with E : entry_store _ _ _ = Ret _ |- _ => apply store_created in E; rewrite <- E end. by eapply IH.
Qed.

Lemma plain_created th w n type ptr r th' w' :
  append_plain junk c th w n type ptr = Ret (r, th', w') → th_created_thread_idx th' = th_created_thread_idx th.
Proof.
  unfold append_plain. cbv zeta. set (t := if coldtrace_writer_new_trace _ _ _ then _ else th).
  assert (th_created_thread_idx t = th_created_thread_idx th) as <- by (unfold t; by case_match).
  intros H. apply obind_Ret_inv in H as ([[e wr] w1] & _ & H). destruct e; inv_outcome; [|done].
  match goal with E : entry_store _ _ _ = Ret _ |- _ => by apply store_created in E end.
Qed.

Lemma stack_created th w n type ptr r th' w' :
  append_stack junk c th w n type ptr = Ret (r, th', w') → th_created_thread_idx th' = th_created_thread_idx th.
Proof.
  intros H. unfold append_stack in H. cbv zeta in H. case_match. apply obind_Ret_inv in H as ([[e wr] w1] & _ & H).
  destruct e as [e|]; [|by simplify_eq].
  apply obind_Ret_inv in H as (t1 & S1 & H). apply obind_Ret_inv in H as (t2 & S2 & H).
  apply obind_Ret_inv in H as (t3 & S3 & H). apply obind_Ret_inv in H as (t4 & S4 & H). simplify_eq. simpl.
  apply store_created in S1, S2, S3.
  assert (th_created_thread_idx t4 = th_created_thread_idx t3) as ->
    by (case_match; inv_outcome; [by eapply store_created|done]).
  by rewrite S3, S2, S1.
Qed.

Lemma get_created th : th_created_thread_idx (get_coldtrace_thread md th) = th_created_thread_idx th.
Proof. unfold get_coldtrace_thread. by destruct (negb (th_initd th)). Qed.

Lemma exec_created o th w th' w' :
  exec junk c md o (th, w) = Ret (th', w') →
  th_created_thread_idx th' = match o with OSetCreate i => i | _ => th_created_thread_idx th end.
Proof.
  rewrite <- (get_created th). destruct o; cbn [exec]; intros H.
  - apply obind_Ret_inv in H as ([[b t] w0] & HL & E0). injection E0 as <- <-. rename HL into H. unfold log_entry, coldtrace_thread_append in H. cbv zeta in H. simpl.
    set (t0 := get_coldtrace_thread md th) in *. apply obind_Ret_inv in H as ([[e t1] w1] & E & H).
    assert (th_created_thread_idx t1 = th_created_thread_idx t0) as <-.
    { destruct (th_failed t0); [by simplify_eq|]. apply obind_Ret_inv in E as (n & _ & E).
      destruct (n =? 0); [by simplify_eq|].
      destruct (negb (with_stack_ type)); [by eapply plain_created|by eapply stack_created]. }
    destruct e as [e|]; cbn [store_fields] in H; inv_outcome; [|done]. by eapply fields_created.
  - unfold coldtrace_thread_stack_push, grow_stack_ in H. cbv zeta in H.
    destruct (attempt w) as [ok w1]. repeat case_match; simplify_eq; done.
  - simplify_eq. unfold coldtrace_thread_stack_pop. cbv zeta. repeat case_match; done.
  - by simplify_eq.
  - by simplify_eq.
  - unfold coldtrace_thread_fini in H. inv_outcome. done.
Qed.

Definition sets_create (o : op) : bool := match o with OSetCreate _ => true | _ => false end.

Lemma run_created os : ∀ th w th' w',
  Forall (fun o => sets_create o = false) os → run junk c md os (th, w) = Ret (th', w') →
  th_created_thread_idx th' = th_created_thread_idx th.
Proof.
  induction os as [|o os IH]; intros th w th' w' Hos H; cbn [run] in H; [by simplify_eq|].
  apply Forall_cons in Hos as [Ho Hos]. apply obind_Ret_inv in H as ([t1 w1] & E & H).
  rewrite (IH _ _ _ _ Hos H), (exec_created _ _ _ _ _ E). by destruct o.
Qed.
End Created.

(** ** All threads *)

Section Atomic.
Context `{B : BuildInfo, L : Lz4, V : Vsync, !VsyncLaws V, !Lz4Laws L}.
Context (junk : nat → Z) (c : config) (Hc : config_ok c).

Definition atomics (sy : system) : Z := next_atomic_index (sh_counters (sy_shared sy)).

(** Where the index of the open bracket of a thread is kept. *)
Definition keeps (sy : system) (t : Z) (k : option bracket) (open : gmap Z Z) : Prop :=
  match k with
  | None => open !! t = None ∧ sy_pending sy !! t = None
  | Some Access => ∃ addr i, sy_pending sy !! t = Some (addr, i) ∧ open !! t = Some i
  | Some Create =>
      sy_pending sy !! t = None ∧ open !! t = Some (th_created_thread_idx (thread_of sy t))
  end.

Lemma keeps_other sy t t' ev sy' k open open' :
  do_event junk c sy t ev = Some sy' → t ≠ t' → open' !! t' = open !! t' → keeps sy t' k open → keeps sy' t' k open'.
Proof.
  intros H Hne Ho. pose proof H as (h' & _ & _ & _ & Ht)%do_event_inv.
  assert (sy_pending sy' !! t' = sy_pending sy !! t') as Hp.
  { unfold do_event in H. repeat case_match; simplify_eq/=; rewrite ?lookup_insert_ne, ?lookup_delete_ne by done; done. }
  unfold keeps. by rewrite Hp, Ho, (thread_of_insert _ _ _ _ t' Ht), decide_False.
Qed.

(** The pending access after an event. *)
Lemma pending_event sy t ev sy' :
  do_event junk c sy t ev = Some sy' →
  match before_addr ev, after_addr ev with
  | Some addr, _ => sy_pending sy !! t = None ∧
      sy_pending sy' = <[t := (addr, (coldtrace_next_atomic_idx (sh_counters (sy_shared sy))).1)]> (sy_pending sy)
  | None, Some addr => (∃ i, sy_pending sy !! t = Some (addr, i)) ∧ sy_pending sy' = delete t (sy_pending sy)
  | None, None => sy_pending sy' = sy_pending sy
  end.
Proof.
  unfold do_event. destruct (negb _); [done|]. destruct (handle _ _ _ _ _); [|done..].
  destruct (before_addr ev); [|destruct (after_addr ev) as [addr|]].
  - destruct (sy_pending sy !! t); [done|]. by intros [= <-].
  - destruct (sy_pending sy !! t) as [[addr' i]|]; [|done]. destruct (Z.eqb_spec addr addr'); [|done].
    intros [= <-]. subst. split; [by exists i|done].
  - by intros [= <-].
Qed.

Lemma created_event sy t ev sy' :
  do_event junk c sy t ev = Some sy' →
  th_created_thread_idx (thread_of sy' t) =
    match ev with
    | C_before_thread_create => (coldtrace_next_atomic_idx (sh_counters (sy_shared sy))).1
    | _ => th_created_thread_idx (thread_of sy t)
    end.
Proof.
  intros (h' & Hh & _ & _ & Ht)%do_event_inv. rewrite (thread_of_insert _ _ _ _ t Ht), decide_True by done.
  apply handle_performs in Hh as (os1 & os2 & Hos & Hrun & Hst). set (s := sy_shared sy) in *.
  assert ((ev = C_before_thread_create) ∨
    (match ev with C_before_thread_create => False | _ => True end ∧
     Forall (fun o => sets_create o = false) (capture_ops s (thread_of sy t) ev))) as [->|[Hev Hno]].
  { destruct ev; try (by left); right; (split; [done|]); cbn [capture_ops]; repeat case_match; repeat constructor. }
  - cbn [capture_ops] in Hos. destruct os1 as [|o os1].
    + exfalso. destruct Hst as [->|[(os0 & ? & ? & ? & ? & E & _) _]]; [done|]. by destruct os0.
    + injection Hos as <- Hos. symmetry in Hos. apply app_eq_nil in Hos as [-> ->].
      cbn [run obind] in Hrun. apply obind_Ret_inv in Hrun as ([t1 w1] & E & Hrun). injection Hrun as <- _.
      by apply exec_created in E.
  - rewrite Hos in Hno. apply Forall_app in Hno as [Hno _]. rewrite (run_created _ _ _ _ _ _ _ _ Hno Hrun).
    by destruct ev.
Qed.

Lemma role_inv ev :
  match role_of ev with
  | Plain | OneShot => before_addr ev = None ∧ after_addr ev = None ∧ ev ≠ C_before_thread_create
  | Opens Access => is_Some (before_addr ev)
  | Closes Access => before_addr ev = None ∧ is_Some (after_addr ev) ∧ ev ≠ C_before_thread_create
  | Opens Create => ev = C_before_thread_create
  | Closes Create => before_addr ev = None ∧ after_addr ev = None ∧ draws ev = false
  end.
Proof. destruct ev; cbn [role_of]; repeat case_match; simplify_eq; simpl in *; simplify_eq; split_and?; eauto. Qed.

(** A thread keeps its bracket over an event that is no part of it. *)
Lemma keeps_plain sy t ev sy' k open :
  do_event junk c sy t ev = Some sy' → before_addr ev = None → after_addr ev = None →
  ev ≠ C_before_thread_create → keeps sy t k open → keeps sy' t k open.
Proof.
  intros H Hb Ha Hev. pose proof (pending_event _ _ _ _ H) as Hp. rewrite Hb, Ha in Hp.
  pose proof (created_event _ _ _ _ H) as Hcr. unfold keeps. rewrite Hp.
  assert (th_created_thread_idx (thread_of sy' t) = th_created_thread_idx (thread_of sy t)) as ->; [|done].
  by destruct ev.
Qed.

(** The index that the closing event logs is the one the thread has drawn. *)
Lemma closes_index sy t ev sy' b open :
  ordered sy → do_event junk c sy t ev = Some sy' → role_of ev = Closes b → keeps sy t (Some b) open →
  open !! t = Some (open_index (sy_shared sy) (thread_of sy t) ev).
Proof.
  intros Hord H Er Hk. pose proof (role_inv ev) as Hr. rewrite Er in Hr.
  pose proof (pending_event _ _ _ _ H) as Hp. unfold open_index. destruct b.
  - destruct Hr as (Hb & [addr Ha] & _). rewrite Hb, Ha in Hp. rewrite Ha. destruct Hp as [[i Hi] _].
    destruct Hk as (addr' & i' & Hi' & ->). rewrite Hi in Hi'. injection Hi' as <- <-.
    destruct (or_pending _ Hord _ _ _ Hi) as (a & Ea & _ & <- & _). unfold idx_at. by rewrite Ea.
  - destruct Hr as (_ & -> & _). apply Hk.
Qed.

Lemma numbers_event sy t ev sy' l open k evs k' :
  ordered sy → do_event junk c sy t ev = Some sy' → atomics sy < 2 ^ 63 →
  atomics sy' = atomics sy + drawn_by ev →
  numbers l (atomics sy) open → keeps sy t k open → brackets k (ev :: evs) = Some k' →
  ∃ k1 open1, brackets k1 evs = Some k' ∧ keeps sy' t k1 open1 ∧ (∀ t', t ≠ t' → open1 !! t' = open !! t') ∧
    numbers (l ++ (pair t <$> op_indices atomic_index_of (capture_ops (sy_shared sy) (thread_of sy t) ev)))
      (atomics sy') open1.
Proof.
  intros Hord H Hb Hn Hnu Hk Hbr. pose proof (or_counters _ Hord) as Hc0.
  assert (0 <= atomics sy) as Hpos by (destruct Hc0; unfold atomics; ulia).
  pose proof (role_inv ev) as Hr. unfold drawn_by in Hn. rewrite capture_atomics; [|done|done|].
  2: { intros b Er. rewrite Er in *. cbn [brackets] in Hbr. rewrite Er in Hbr. destruct k as [b'|]; [|done].
       case_decide; [subst b'|done]. apply (closes_index _ _ _ _ _ _ Hord H Er) in Hk.
       destruct (nu_open _ _ _ Hnu _ _ Hk) as [? _]. lia. }
  fold (atomics sy). cbn [brackets] in Hbr. destruct (role_of ev) as [| |b|b] eqn:Er.
  - exists k, open. destruct Hr as (H1 & H2 & H3). rewrite Z.add_0_r in Hn. rewrite app_nil_r, Hn.
    split_and!; try done. by eapply keeps_plain.
  - destruct k; [done|]. exists None, open. destruct Hr as (H1 & H2 & H3). rewrite Hn.
    split_and!; try done; [by eapply keeps_plain|]. apply numbers_log; [done|done|apply Hk].
  - destruct k; [done|]. exists (Some b), (<[t := atomics sy]> open). rewrite Hn. destruct Hk as [Hk1 Hk2].
    split_and!; [done| |intros; by rewrite lookup_insert_ne|rewrite app_nil_r; by apply numbers_draw].
    assert ((coldtrace_next_atomic_idx (sh_counters (sy_shared sy))).1 = atomics sy) as En
      by by rewrite next_atomic_spec.
    pose proof (pending_event _ _ _ _ H) as Hp. destruct b.
    + destruct Hr as [addr Ha]. rewrite Ha, En in Hp. destruct Hp as [_ Hp]. exists addr, (atomics sy).
      by rewrite Hp, !lookup_insert_eq.
    + subst ev. pose proof (created_event _ _ _ _ H) as Hcr. simpl in Hp, Hcr. simpl.
      by rewrite Hp, Hcr, En, lookup_insert_eq.
  - destruct k as [b'|]; [|done]. case_decide; [subst b'|done].
    pose proof (closes_index _ _ _ _ _ _ Hord H Er Hk) as Hi. exists None, (delete t open).
    assert (numbers (l ++ [(t, open_index (sy_shared sy) (thread_of sy t) ev)]) (atomics sy) (delete t open))
      as Hlate by by apply numbers_late.
    split_and!; [done| |intros; by rewrite lookup_delete_ne|].
    + split; [by rewrite lookup_delete_eq|]. pose proof (pending_event _ _ _ _ H) as Hp. destruct b.
      * destruct Hr as (Hb0 & [addr Ha] & _). rewrite Hb0, Ha in Hp. destruct Hp as [_ ->]. by rewrite lookup_delete_eq.
      * destruct Hr as (Hb0 & Ha & _). rewrite Hb0, Ha in Hp. rewrite Hp. apply Hk.
    + rewrite Hn. destruct (draws ev); cbn [fmap list_fmap].
      * rewrite cons_middle, app_assoc. apply numbers_log; [done|done|by rewrite lookup_delete_eq].
      * by rewrite Z.add_0_r.
Qed.

Lemma numbering_atomic evs : ∀ sy sy' rec l open ks ks',
  all_record c sy rec → reachable junk c sy → do_events junk c sy evs = Some sy' →
  atomics sy + len evs < 2 ^ 63 → lossless junk c sy evs →
  (∀ t, brackets (ks t) (events_of t evs) = Some (ks' t)) → (∀ t, keeps sy t (ks t) open) →
  numbers l (atomics sy) open →
  ∃ open', numbers (l ++ all_indices atomic_index_of (history junk c sy evs)) (atomics sy') open' ∧
    (∀ t, keeps sy' t (ks' t) open') ∧ atomics sy' <= atomics sy + len evs.
Proof.
  induction evs as [|[t ev] evs IH]; intros sy sy' rec l open ks ks' Hall Hr H Hb Hl Hbr Hks Hnu;
    cbn [do_events history lossless] in *.
  { simplify_eq. exists open. rewrite app_nil_r. split; [done|]. split; [|simpl; lia]. intros t.
    specialize (Hbr t). injection Hbr as <-. apply Hks. }
  destruct (do_event junk c sy t ev) as [sy1|] eqn:E; [|done]. simpl in H. destruct Hl as [Hkept Hl].
  destruct (all_record_event junk c Hc _ _ _ _ _ Hall E) as (rec1 & Hall1 & _).
  assert (is_main_fini ev = false) as Hfini by by destruct ev.
  pose proof (reachable_ordered _ _ _ Hr) as Hord. cbn [length] in Hb.
  destruct (kept_completes junk c Hc _ _ _ _ _ (Hall t) E Hkept) as (r & h' & Hsub & Hs).
  apply (subscriber_atomics junk c t ev Hfini) in Hsub; [|apply Hord|unfold drawn, atomics in *; simpl; lia].
  unfold drawn in Hsub. rewrite <- Hs in Hsub. cbn [hs_shared] in Hsub. fold (atomics sy1) (atomics sy) in Hsub.
  pose proof (Hbr t) as Hbt. rewrite events_of_cons, decide_True in Hbt by done.
  destruct (numbers_event sy t ev sy1 l open (ks t) _ _ Hord E ltac:(lia) Hsub Hnu (Hks t) Hbt)
    as (k1 & open1 & Hbr1 & Hk1 & Hoth & Hnu1).
  assert (drawn_by ev <= 1) as Hd by (unfold drawn_by; repeat case_match; lia).
  set (l1 := l ++ _) in Hnu1.
  destruct (IH sy1 sy' rec1 l1 open1 (fun t' => if decide (t' = t) then k1 else ks t') ks' Hall1)
    as (open' & Hnu' & Hk' & Hle); try done;
    [eapply reach_step; [exact Hr|by eapply do_event_step]|lia|..|].
  { intros t'. specialize (Hbr t'). rewrite events_of_cons in Hbr.
    destruct (decide (t' = t)) as [->|Hne]; [exact Hbr1|]. by rewrite decide_False in Hbr by congruence. }
  { intros t'. destruct (decide (t' = t)) as [->|Hne]; [exact Hk1|].
    eapply keeps_other; [exact E|congruence|apply Hoth; congruence|apply Hks]. }
  exists open'. rewrite all_indices_cons, app_assoc. split; [done|]. split; [done|cbn [length]; lia].
Qed.

Definition trace_atomics (sy : system) (evs : list (Z * capture)) (t : Z) : list Z :=
  event_indices atomic_index_of (ideal [] (ops_of t (history junk c sy evs))).

Lemma fresh_numbers sy evs sy' :
  fresh sy → atomics sy = 0 → do_events junk c sy evs = Some sy' → len evs < 2 ^ 63 → lossless junk c sy evs →
  (∀ t, brackets None (events_of t evs) = Some None) →
  let l := all_indices atomic_index_of (history junk c sy evs) in
  numbers l (atomics sy') ∅ ∧ atomics sy' <= 2 ^ 63 ∧
  ∀ t, trace_atomics sy evs t = snd <$> filter (fun x => x.1 = t) l.
Proof.
  intros Hf H0 H Hlen Hl Hbr l. pose proof Hf as (_ & _ & _ & Hp & _).
  destruct (numbering_atomic evs sy sy' (fun _ => recorder0) [] ∅ (fun _ => None) (fun _ => None))
    as (open & Hnu & Hk & Hle); try done.
  - by apply fresh_records.
  - by eapply (fresh_reachable junk c sy []).
  - lia.
  - intros t. unfold keeps. by rewrite Hp.
  - rewrite H0. apply numbers_nil.
  - assert (open = ∅) as -> by (apply map_empty; intros t; apply Hk). split; [done|]. split; [lia|].
    intros t. unfold trace_atomics. rewrite event_indices_ideal. apply thread_indices.
Qed.

Lemma numbers_parts l n :
  numbers l n ∅ →
  let part t := snd <$> filter (fun x => x.1 = t) l in
  (∀ t, StronglySorted Z.lt (part t)) ∧ (∀ t t' i, i ∈ part t → i ∈ part t' → t = t') ∧
  (∀ i, 0 <= i < n ↔ ∃ t, i ∈ part t).
Proof.
  intros [Hl _ _ Hw Hs Ha] part. assert (∀ t i, i ∈ part t ↔ (t, i) ∈ l) as Hin by apply elem_part.
  split; [done|]. split; [intros t t' i; rewrite !Hin; apply Hw|].
  intros i. setoid_rewrite Hin. split; [|intros [t Ht]; by eapply Hl].
  intros Hi. destruct (Ha i Hi) as [?|[t Ht]]; [done|]. by rewrite lookup_empty in Ht.
Qed.


End Atomic.

Section Demo.
#[local] Existing Instance demo_build.

(** Thread 1 is inside an access, and thread 2 creates a thread, while the other
    one draws indices. *)
Definition demo_sync : list (Z * capture) :=
  [ (1, C_thread_start 1 2 3); (2, C_thread_start 4 5 6); (1, C_before_rmw 0x7f0040);
    (2, C_after_mutex_lock 0 0x10); (1, C_after_malloc 32 0x7f0080 100); (1, C_after_rmw 0x7f0040 4);
    (2, C_before_thread_create); (1, C_before_mutex_unlock 0x18); (2, C_before_free 0x7f0080 200);
    (2, C_after_thread_create 9) ].

Definition demo_sync_history : list (Z * list op) :=
  Eval vm_compute in history zero_junk demo_config96 demo_system demo_sync.

Lemma demo_sync_ops t :
  ops_of t demo_sync_history = if decide (t = 1) then ops_of 1 demo_sync_history
                               else if decide (t = 2) then ops_of 2 demo_sync_history else [].
Proof.
  do 2 (case_decide; [by subst|]). unfold demo_sync_history. rewrite !ops_of_cons.
  by rewrite !decide_False by congruence.
Qed.

Lemma demo_sync_started t : started_ops (ops_of t demo_sync_history).
Proof. rewrite demo_sync_ops. repeat case_decide; vm_compute; repeat constructor. Qed.

Lemma demo_sync_brackets t : brackets None (events_of t demo_sync) = Some None.
Proof.
  destruct (decide (t = 1)) as [->|H1]; [vm_compute; reflexivity|].
  destruct (decide (t = 2)) as [->|H2]; [vm_compute; reflexivity|].
  unfold demo_sync. rewrite !events_of_cons, !decide_False by congruence. reflexivity.
Qed.


(** The pages, one for each thread. *)
Definition demo_pages : list (Z * list event) :=
  (fun t => (t, ideal [] (ops_of t demo_sync_history))) <$> [2; 1].

End Demo.
