(* ===== verification/TestVerdict.v ===== *)
(** * A test passes if and only if what happened conforms

    The tracer, with any number of threads, and the trace checker of the tests as
    one system.  When every thread has finished and none has lost an entry, the
    verdict of a test with definite expected traces is exact: it depends on the events
    of the threads and on nothing else, such as the schedule, the size of the pages
    or the order in which they are closed. *)

From stdpp Require Import base list numbers list_numbers sorting strings gmap.
From Stdlib Require Import ZArith Lia Sorted.
From S2P Require Import Prelude Version Counters Entries Libc Utils Config Codec Lz4 Writer Thread Trace Reader Indexes Checker Verdict Exact Recorder Subs Subscribers Atomics Handlers Locality Threads TestRun Files Numbering AtomicNumbers.

(** ** Conforming without stacks *)

Lemma block_ok_unstrip vals x blk : block_ok vals x (stackless <$> blk) → block_ok vals x blk.
Proof.
  unfold block_ok. destruct (ee_wild x).
  - intros (sk & e & E & Hsk & Ht & Hp). apply fmap_app_inv in E as (sk' & l & -> & E & ->).
    destruct l as [|e' [|? ?]]; [discriminate E| |discriminate E]. injection E as ->. exists sk', e'. split; [done|].
    split; [|done]. rewrite Forall_fmap in Hsk. exact Hsk.
  - intros (Hm & H). rewrite length_fmap in H. split; [|done]. rewrite Forall_fmap in Hm. exact Hm.
Qed.

Lemma conforms_unstrip vals xs es : conforms vals xs (stackless <$> es) → conforms vals xs es.
Proof.
  intros (blocks & tr & E & H). revert es E. induction H as [|x blk xs blocks Hb _ IH]; intros es E.
  - by exists [], es.
  - cbn [concat] in E. rewrite <- app_assoc in E.
    apply fmap_app_inv in E as (blk' & es' & -> & E & ->).
    destruct (IH es') as (blocks' & tr' & -> & Hbl); [done|].
    exists (blk' :: blocks'), tr'. split; [cbn [concat]; by rewrite app_assoc|].
    constructor; [by apply block_ok_unstrip|done].
Qed.

(** ** Pages that agree in what has been written *)

(** The hook is called with the same thread and size, and with pages of the same
    length that agree up to this size. *)
Definition same_call (a b : close_call) : Prop :=
  cl_size a = cl_size b ∧ cl_md a = cl_md b ∧ length (cl_page a) = length (cl_page b) ∧
  take (Z.to_nat (cl_size a)) (cl_page a) = take (Z.to_nat (cl_size b)) (cl_page b).

Lemma same_call_refl a : same_call a a.
Proof. done. Qed.

(** ** Indices of threads and of pages *)

Section Indices.
Context (index_of : Z → list Z → Z).
#[local] Abbreviation indices := (entry_indices index_of).

Lemma indices_strip es : indices (stackless <$> es) = indices es.
Proof. unfold entry_indices. by rewrite <- list_fmap_compose. Qed.

Lemma valid_app l1 l2 : valid_indices (l1 ++ l2) = valid_indices l1 ++ valid_indices l2.
Proof. apply filter_app. Qed.

Lemma page_of_thread cs cg :
  cg ∈ cs → ∃ l1 l2, valid_indices (indices (entries_of (cg_tid cg) cs)) =
    l1 ++ valid_indices (indices (cg_entries cg)) ++ l2.
Proof.
  intros (cs1 & cs2 & ->)%list_elem_of_split. unfold entries_of. rewrite fmap_app, concat_app.
  cbn [fmap list_fmap concat]. rewrite decide_True by done. unfold entry_indices.
  rewrite !fmap_app, !valid_app. eauto.
Qed.

Lemma indices_by_thread cs i :
  i ∈ indices_of indices cs ↔ ∃ t, i ∈ valid_indices (indices (entries_of t cs)).
Proof.
  split.
  - intros Hi. assert (∃ cg, cg ∈ cs ∧ i ∈ valid_indices (indices (cg_entries cg))) as (cg & Hcg & Hp).
    { induction cs as [|cg cs IH]; [by apply not_elem_of_nil in Hi|]. unfold indices_of in *.
      cbn [fmap list_fmap concat] in Hi. apply elem_of_app in Hi as [Hi|Hi].
      - exists cg. split; [apply list_elem_of_here|done].
      - destruct (IH Hi) as (cg' & Hcg & Hp). exists cg'. split; [by apply list_elem_of_further|done]. }
    destruct (page_of_thread cs cg Hcg) as (l1 & l2 & E).
    exists (cg_tid cg). rewrite E. set_solver.
  - intros [t Hi]. induction cs as [|cg cs IH]; [done|]. unfold indices_of in *. rewrite entries_of_cons in Hi.
    unfold entry_indices in Hi. rewrite fmap_app, valid_app in Hi. apply elem_of_app in Hi as [Hi|Hi];
      cbn [fmap list_fmap concat]; apply elem_of_app; [left|right; by apply IH].
    by case_decide; [|destruct (not_elem_of_nil _ Hi)].
Qed.
End Indices.

Section Complete.
Context `{B : BuildInfo, L : Lz4, V : Vsync, !VsyncLaws V, !Lz4Laws L, !BuildInfoOk B}.

(** The checker sees the same entries in them. *)
Lemma same_calls_checked cls1 cls2 cs1 :
  Forall2 same_call cls1 cls2 → Forall2 checked_as cls1 cs1 → Forall closing_ok cs1 →
  ∃ cs2, Forall2 checked_as cls2 cs2 ∧ Forall closing_ok cs2 ∧ ∀ t, entries_of t cs2 = entries_of t cs1.
Proof.
  intros Hs. revert cs1. induction Hs as [|a b cls1 cls2 (E1 & E2 & _ & E3) _ IH]; intros cs1 Hc Hok.
  { inversion Hc; subst. by exists []. }
  inversion Hc as [|? cg ? cs (F1 & F2 & F3) Hcs]; subst. apply Forall_cons in Hok as [[G1 G2 G3 G4 G5] Hok].
  destruct (IH cs Hcs Hok) as (cs2 & H1 & H2 & H3).
  exists (Closing (cg_tid cg) (cl_page b) (cg_size cg) (cg_entries cg) :: cs2). split; [|split].
  - constructor; [|done]. split; [done|]. split; simpl; congruence.
  - constructor; [|done]. split; simpl; try done. rewrite <- F2, E1, <- E3, E1, F1. rewrite <- E1, F2. exact G2.
  - intros t. rewrite !entries_of_cons, H3. done.
Qed.

Context (junk : nat → Z) (c : config) (Hc : config_ok c).

(** ** A finished thread has recorded everything *)

(** All operations of a thread: nothing, or it is started, handles events and
    finishes. *)
Definition ended (os : list op) : Prop := os = [] ∨ ∃ os', started_ops os' ∧ os = os' ++ [OFini].

Lemma ideal_fini os : ∀ st, ideal st (os ++ [OFini]) = ideal st os.
Proof. induction os as [|[] os IH]; intros st; cbn [app ideal]; try rewrite IH; done. Qed.

Lemma not_started_fini pre rest : ¬ started_ops (pre ++ OFini :: rest).
Proof.
  intros Hst. destruct (started_app _ _ Hst) as [_ [->|Htr]].
  - cbn [app] in Hst. unfold started_ops in Hst. by apply Forall_cons in Hst as [[] _].
  - by apply Forall_cons in Htr as [[] _].
Qed.

(** The thread finishes with its last operation. *)
Lemma ended_at_fini pre rest : ended (pre ++ OFini :: rest) → rest = [] ∧ started_ops pre.
Proof.
  intros [E|(os & Hst & E)]; [by destruct pre|]. destruct rest as [|o rest _] using rev_ind.
  - apply app_inj_tail in E as [-> _]. done.
  - rewrite app_comm_cons, app_assoc in E. apply app_inj_tail in E as [<- _]. by apply not_started_fini in Hst.
Qed.

Lemma spec_run_snoc_fini os a a' :
  spec_run (os ++ [OFini]) a a' → re_mute a' = true.
Proof.
  revert a. induction os as [|o os IH]; intros a H; inversion H as [|? ? ? b ? Hs Hr]; subst; [|by eapply IH].
  inversion Hs; subst. by inversion Hr.
Qed.

Lemma spec_run_nil a a' : spec_run [] a a' → a' = a.
Proof. by inversion 1. Qed.

Section Thread.
Context (t : Z).

Lemma finished_records evs : ∀ sy sy' rec pre,
  all_record c sy rec → do_events junk c sy evs = Some sy' → lossless junk c sy evs →
  spec_run pre recorder0 (rec t) → (pre = [] ∨ healthy (thread_of sy t)) →
  ended (pre ++ ops_of t (history junk c sy evs)) →
  ∃ rec', all_record c sy' rec' ∧ re_closed (rec' t) = ideal [] (pre ++ ops_of t (history junk c sy evs)).
Proof.
  induction evs as [|[t' ev] evs IH]; intros sy sy' rec pre Hall H Hl Hrun Hlive Hend; cbn [do_events history lossless] in *.
  { simplify_eq. rewrite app_nil_r in *. exists rec. split; [done|].
    destruct Hend as [->|(os & _ & ->)]; [by apply spec_run_nil in Hrun as ->|].
    destruct Hlive as [?|Hh]; [by destruct os|]. apply spec_run_snoc_fini in Hrun.
    destruct (proj1 (records_healthy c _ _ _ (Hall t)) Hh). congruence. }
  destruct (do_event junk c sy t' ev) as [sy1|] eqn:E; [|done]. simpl in H. destruct Hl as [Hkept Hl].
  destruct (all_record_event junk c Hc _ _ _ _ _ Hall E) as (rec1 & Hall1 & Hoth & Hsp).
  rewrite ops_of_cons in *. case_decide as Et.
  2: { apply (IH sy1 sy' rec1 pre); try done; [by rewrite Hoth|].
       apply do_event_inv in E as (h' & _ & _ & _ & Ht). by rewrite (thread_of_insert _ _ _ _ t Ht), decide_False. }
  subst t'. assert ((∃ self, ev = C_self_fini false self) ∨ healthy (thread_of sy1 t)) as [[self ->]|Hh].
  { destruct ev; auto. simpl in Hkept. subst. eauto. }
  - cbn [capture_ops app] in *. destruct (ended_at_fini _ _ Hend) as [Hnil Hst]. rewrite Hnil in *.
    destruct (all_record_events junk c Hc evs _ _ _ Hall1 H) as (rec' & Hall' & Hsp').
    specialize (Hsp' t). rewrite Hnil in Hsp'. apply spec_run_nil in Hsp'. exists rec'. split; [done|].
    rewrite Hsp', ideal_fini.
    assert (re_stuck (rec t) = false ∧ re_mute (rec t) = false) as [Hk Hm].
    { destruct Hlive as [->|Hh]; [by apply spec_run_nil in Hrun as ->|]. by apply (records_healthy c _ _ _ (Hall t)). }
    rewrite <- (started_run_ideal _ _ Hst Hrun Hk Hm).
    inversion Hsp as [|? ? ? b ? Hs Hr]; subst. apply spec_run_nil in Hr. rewrite Hr. by inversion Hs.
  - rewrite app_assoc in *. apply (IH sy1 sy' rec1); try done; [by eapply spec_run_app|by right].
Qed.

(** The fragments of a finished thread are its whole trace. *)
Lemma finished_frags sy evs sy' :
  fresh sy → do_events junk c sy evs = Some sy' → lossless junk c sy evs →
  ended (ops_of t (history junk c sy evs)) →
  ∃ frags, closed_frags (own t (sy_world sy')) = frag_bytes <$> frags ∧ frags_ok frags ∧
    closed_events frags = ideal [] (ops_of t (history junk c sy evs)).
Proof.
  intros Hf H Hl He.
  destruct (finished_records evs sy sy' (fun _ => recorder0) []) as (rec & Hall & Ecl); try done;
    [by apply fresh_records|constructor|by left|].
  destruct (Hall t) as [_ (fr & cur & [_ Hcl Hok] & _ & E & _)]. exists fr. do 2 (split; [done|]).
  by rewrite <- E.
Qed.
End Thread.
(** A thread without an event has no operations. *)
Lemma ops_of_idle t evs : ∀ sy, (∀ ev, (t, ev) ∉ evs) → ops_of t (history junk c sy evs) = [].
Proof.
  induction evs as [|[t' ev] evs IH]; intros sy Hno; cbn [history]; [done|]. rewrite ops_of_cons, decide_False.
  - cbn [app]. destruct (do_event junk c sy t' ev) as [sy1|]; [|done]. apply IH. intros ev' Hin.
    by eapply Hno, list_elem_of_further.
  - intros ->. eapply Hno, list_elem_of_here.
Qed.

(** ** From numbered traces to pages in order *)

Lemma indices_range index_of n evs :
  n <= 2 ^ 63 → (∀ i, i ∈ event_indices index_of evs → 0 <= i < n) →
  Forall (fun ev => index_range (index_of (base_type (ev_type ev)) (ev_fields ev))) evs.
Proof.
  intros Hn H. apply Forall_forall. intros ev Hev. unfold index_range.
  destruct (decide (index_of (base_type (ev_type ev)) (ev_fields ev) = INVALID_INDEX)); [by right|left].
  assert (0 <= index_of (base_type (ev_type ev)) (ev_fields ev) < n); [|lia]. apply H.
  unfold event_indices, valid_indices. apply list_elem_of_filter. split; [done|]. unfold entry_indices.
  apply list_elem_of_fmap. exists (as_entry ev). split; [done|]. apply list_elem_of_fmap. by exists ev.
Qed.

(** Pages whose entries are the numbered traces of the threads. *)
Section Pages.
Context (index_of : Z → list Z → Z) (trace : Z → list event) (n : Z) (cs : list closing).
Context (Hsorted : ∀ t, StronglySorted Z.lt (event_indices index_of (trace t))).
Context (Hall : ∀ i, 0 <= i < n ↔ ∃ t, i ∈ event_indices index_of (trace t)).
Context (Htrace : ∀ t, as_entry <$> trace (Z.of_nat t) = stackless <$> entries_of t cs).
Context (Hthreads : ∀ t, trace t ≠ [] → 0 <= t).

Lemma event_page_indices t :
  event_indices index_of (trace (Z.of_nat t)) = valid_indices (entry_indices index_of (entries_of t cs)).
Proof. unfold event_indices. by rewrite Htrace, indices_strip. Qed.

Lemma pages_sorted :
  Forall (fun cg => StronglySorted Z.lt (valid_indices (entry_indices index_of (cg_entries cg)))) cs.
Proof.
  apply Forall_forall. intros cg Hcg. destruct (page_of_thread index_of cs cg Hcg) as (l1 & l2 & E).
  specialize (Hsorted (Z.of_nat (cg_tid cg))). rewrite event_page_indices, E in Hsorted.
  by apply StronglySorted_app_1_r, StronglySorted_app_1_l in Hsorted.
Qed.

Lemma pages_complete i j :
  i ∈ indices_of (entry_indices index_of) cs → 0 <= j < i → j ∈ indices_of (entry_indices index_of) cs.
Proof.
  rewrite !indices_by_thread. setoid_rewrite <- event_page_indices. intros [t Hi] Hj.
  destruct (proj2 (Hall i)) as [_ Hin]; [by eexists|]. destruct (proj1 (Hall j)) as [t' Ht']; [lia|].
  assert (0 <= t') as Hpos by (apply Hthreads; intros E; rewrite E in Ht'; by apply not_elem_of_nil in Ht').
  exists (Z.to_nat t'). by rewrite Z2Nat.id.
Qed.
End Pages.

(** The verdict for a schedule in which every thread has finished. *)
Lemma finished_verdict R ck sy evs sy' cls final w :
  registered R ck → definite_test R → callbacks_pass (ck_callbacks ck) → final ≠ Some false → w_faults w = [] →
  fresh sy → allocs sy = 0 → atomics sy = 0 → do_events junk c sy evs = Some sy' → len evs < 2 ^ 63 →
  (∀ t ev, (t, ev) ∈ evs → 0 <= t < 128) → lossless junk c sy evs →
  (∀ t, ended (ops_of t (history junk c sy evs))) → (∀ t, brackets None (events_of t evs) = Some None) →
  Forall2 same_call (w_closed (sy_world sy')) cls →
  ∃ ck1 w' ck2 verdict,
    feed ck cls w = Ret (ck1, w') ∧
    checker_main_thread_fini ck1 final = Ret (ck2, verdict) ∧
    (verdict = true ↔ ∃ vals, ∀ t xs, R !! t = Some (Some xs) →
       conforms vals xs (as_entry <$> ideal [] (ops_of (Z.of_nat t) (history junk c sy evs)))).
Proof.
  intros HR Hdef Hcb Hfin Hw Hf Ha0 Ht0 H Hlen Hids Hl Hend Hbr Hcls.
  set (trace := fun t => ideal [] (ops_of t (history junk c sy evs))).
  destruct (fresh_numbering junk c Hc sy evs sy') as (Hseq & Hna & Htra); try done.
  destruct (numbered_parts _ _ Hseq) as (Ha1 & _ & Ha3). setoid_rewrite <- Htra in Ha1. setoid_rewrite <- Htra in Ha3.
  destruct (fresh_numbers junk c Hc sy evs sy') as (Hnu & Hnt & Htrt); try done.
  destruct (numbers_parts _ _ Hnu) as (Ht1 & _ & Ht3). setoid_rewrite <- Htrt in Ht1. setoid_rewrite <- Htrt in Ht3.
  assert (∀ t, trace t ≠ [] → 0 <= t < 128) as Hthr.
  { intros t Hne. destruct (decide (0 <= t < 128)) as [|Hno]; [done|]. destruct Hne. unfold trace.
    rewrite ops_of_idle; [done|]. intros ev Hin. by apply Hids in Hin. }
  destruct (closings_of_run junk c Hc (fun t es => es = trace t) sy evs sy') as (cs0 & Hcs0 & Hok0 & Hen0); try done.
  { intros t. by apply finished_frags. }
  { intros t ? ->. apply Forall_and. split.
    - apply (indices_range alloc_index_of (allocs sy')); [done|]. intros i Hi. apply Ha3. by exists t.
    - apply (indices_range atomic_index_of (atomics sy')); [done|]. intros i Hi. apply Ht3. by exists t. }
  destruct (same_calls_checked _ _ _ Hcls Hcs0 Hok0) as (cs & Hcs & Hok & Eent).
  assert (∀ t, (t < 128)%nat → ∃ evs, evs = trace (Z.of_nat t) ∧ as_entry <$> evs = stackless <$> entries_of t cs) as Hen.
  { intros t Ht. rewrite Eent. by apply Hen0. }
  assert (∀ t, as_entry <$> trace (Z.of_nat t) = stackless <$> entries_of t cs) as Htr.
  { intros t. destruct (decide (t < 128)%nat) as [Hlt|Hge]; [by destruct (Hen t Hlt) as (? & -> & ?)|].
    assert (trace (Z.of_nat t) = []) as -> by (apply dec_stable; intros ?%Hthr; lia).
    assert (entries_of t cs = []) as ->; [|done]. clear -Hok Hge. induction Hok as [|cg cs Hcg _ IH]; [done|].
    rewrite entries_of_cons, IH, decide_False; [done|]. intros E. pose proof (cg_ok_tid _ Hcg). unfold MAX_NTHREADS in *. lia. }
  destruct (verdict_total R ck cs final w HR Hok) as (ck1 & w' & ck2 & verdict & E1 & E2 & Hv).
  exists ck1, w', ck2, verdict. rewrite (feed_closings _ cs) by done. do 2 (split; [done|]). split.
  - intros Hpass. destruct (Hv Hpass) as (vals & Hconf & _). exists vals. intros t xs Ht. fold (trace (Z.of_nat t)).
    rewrite Htr, <- (app_nil_r (stackless <$> _)). apply conforms_strip, Hconf; [by apply (Hdef t xs)|done].
  - intros [vals Hconf]. destruct (conforming_passes R ck cs final w) as (c1 & c2 & E1' & E2'); try done.
    + by apply definite_test_all.
    + split; [|split; [|split]].
      * exists vals. intros t xs Ht. apply conforms_unstrip. rewrite <- Htr. by apply Hconf.
      * apply Forall_and. split; [by apply (pages_sorted alloc_index_of trace)|by apply (pages_sorted atomic_index_of trace)].
      * apply (pages_complete alloc_index_of trace (allocs sy')); try done. intros t Hne. apply Hthr in Hne. lia.
      * apply (pages_complete atomic_index_of trace (atomics sy')); try done. intros t Hne. apply Hthr in Hne. lia.
    + rewrite E1 in E1'. injection E1' as <- _. rewrite E2 in E2'. by injection E2' as _ <-.
Qed.
(** ** The end of the main thread *)

Lemma do_events_app evs1 evs2 : ∀ sy,
  do_events junk c sy (evs1 ++ evs2) = sy1 ← do_events junk c sy evs1; do_events junk c sy1 evs2.
Proof.
  induction evs1 as [|[t ev] evs1 IH]; intros sy; [done|]. cbn [app do_events].
  destruct (do_event junk c sy t ev) as [sy1|]; [apply IH|done].
Qed.

Lemma history_app evs1 evs2 : ∀ sy sy1, do_events junk c sy evs1 = Some sy1 →
  history junk c sy (evs1 ++ evs2) = history junk c sy evs1 ++ history junk c sy1 evs2.
Proof.
  induction evs1 as [|[t ev] evs1 IH]; intros sy sy1 H; cbn [app do_events history] in *; [by simplify_eq|].
  destruct (do_event junk c sy t ev) as [sy2|]; [|done]. cbn [app]. f_equal. by apply IH.
Qed.

Lemma lossless_app evs1 evs2 : ∀ sy sy1, do_events junk c sy evs1 = Some sy1 →
  lossless junk c sy (evs1 ++ evs2) ↔ lossless junk c sy evs1 ∧ lossless junk c sy1 evs2.
Proof.
  induction evs1 as [|[t ev] evs1 IH]; intros sy sy1 H; cbn [app do_events lossless] in *; [simplify_eq; tauto|].
  destruct (do_event junk c sy t ev) as [sy2|]; [|done]. rewrite (IH sy2 sy1 H). tauto.
Qed.

Lemma ops_of_app t h1 h2 : ops_of t (h1 ++ h2) = ops_of t h1 ++ ops_of t h2.
Proof. unfold ops_of. by rewrite filter_app, fmap_app, concat_app. Qed.

(** Finishing the main thread is its exit followed by the end that every thread has. *)
Lemma main_fini_handle t self h :
  handle junk c t (C_self_fini true self) h =
  (let! h1 := handle junk c t (C_thread_exit self) h in handle junk c t (C_self_fini false self) h1).
Proof.
  unfold handle, handler. cbn [subscriber]. unfold self_fini, thread_exit, log_atomic_entry, append_or_return_ok,
    coldtrace_main_thread_fini, next_atomic, on_shared, store_field, ret, bind.
  destruct (append junk c t COLDTRACE_THREAD_EXIT self h) as [[[[e|]|] h1]| |] eqn:E; cbn [obind]; try done.
  - destruct (coldtrace_next_atomic_idx _) as [i k]. cbn [obind hs_thread hs_shared hs_world].
    destruct (entry_store _ _ _) as [th| |]; cbn [obind]; try done. set (h2 := HState _ _ _).
    by destruct (thread_fini c t h2) as [[[] ?]| |].
  - by destruct (thread_fini c t h1) as [[[] ?]| |].
  - unfold append in E. by inv_outcome.
Qed.

Lemma main_fini_event sy t self sy' rec :
  all_record c sy rec → reachable junk c sy → atomics sy + 2 < 2 ^ 64 →
  do_event junk c sy t (C_self_fini true self) = Some sy' → lossless junk c sy [(t, C_thread_exit self)] →
  ∃ sy1, do_event junk c sy t (C_thread_exit self) = Some sy1 ∧ do_event junk c sy1 t (C_self_fini false self) = Some sy' ∧
    healthy (thread_of sy1 t).
Proof.
  intros Hall Hr Hb H Hl. cbn [lossless] in Hl.
  assert (∃ h1 h', do_event junk c sy t (C_thread_exit self) = Some (after_handler sy t h1 (sy_pending sy) (sy_done sy)) ∧
    handle junk c t (C_self_fini false self) h1 = Ret h' ∧
    sy' = after_handler sy t h' (sy_pending sy) (sy_done sy)) as (h1 & h' & E1 & E2 & ->).
  { unfold do_event in H |- *. unfold atomics in Hb.
    destruct (Z.ltb_spec (next_atomic_index (sh_counters (sy_shared sy)) + 1) (2 ^ 64)); [|lia]. cbn [negb] in H |- *.
    destruct (handle junk c t (C_self_fini true self) _) as [h'| |] eqn:E; [|done..].
    injection H as <-. rewrite main_fini_handle in E. apply obind_Ret_inv in E as (h1 & -> & E). by exists h1, h'. }
  rewrite E1 in Hl. destruct Hl as [Hh _]. exists (after_handler sy t h1 (sy_pending sy) (sy_done sy)).
  split; [done|]. split; [|done].
  destruct (kept_completes junk c Hc _ _ _ _ _ (Hall t) E1 Hh) as (r & h0 & Hsub & Hs).
  apply (subscriber_atomics junk c t (C_thread_exit self) eq_refl) in Hsub;
    [|apply (or_counters _ (reachable_ordered _ _ _ Hr))|unfold drawn, atomics in *; simpl; lia].
  unfold drawn in Hsub. rewrite <- Hs in Hsub. cbn [hs_shared] in Hsub. change (drawn_by (C_thread_exit self)) with 1 in Hsub.
  fold (atomics sy) in Hsub. unfold do_event. rewrite Hsub.
  destruct (Z.ltb_spec (atomics sy + 1 + 1) (2 ^ 64)); [|lia]. cbn [negb].
  unfold after_handler at 1 2 3. unfold thread_of. cbn [sy_shared sy_threads sy_world]. rewrite lookup_insert_eq.
  cbn [default id]. replace (HState (hs_shared h1) (hs_thread h1) (hs_world h1)) with h1 by (by destruct h1).
  rewrite E2. cbn [before_addr after_addr]. f_equal. unfold after_handler. cbn [sy_threads sy_pending sy_done].
  by rewrite insert_insert_eq.
Qed.
Lemma brackets_prefix evs1 evs2 : ∀ k k', brackets k (evs1 ++ evs2) = Some k' → is_Some (brackets k evs1).
Proof.
  induction evs1 as [|ev evs1 IH]; intros k k' H; [done|]. cbn [app brackets] in *.
  repeat case_match; try done; by eapply IH.
Qed.

(** The checker may be called with other pages as long as they agree in what has
    been written. *)
Lemma run_decides R ck sy evs m self sy' cls final w :
  let run := evs ++ [(m, C_self_fini true self)] in
  registered R ck → definite_test R → callbacks_pass (ck_callbacks ck) → final ≠ Some false → w_faults w = [] →
  fresh sy → allocs sy = 0 → atomics sy = 0 → do_events junk c sy run = Some sy' → len run + 1 < 2 ^ 63 →
  (∀ t ev, (t, ev) ∈ run → 0 <= t < 128) → lossless junk c sy (evs ++ [(m, C_thread_exit self)]) →
  (∀ t, ended (ops_of t (history junk c sy run))) → (∀ t, brackets None (events_of t run) = Some None) →
  Forall2 same_call (w_closed (sy_world sy')) cls →
  ∃ ck1 w' ck2 verdict,
    feed ck cls w = Ret (ck1, w') ∧
    checker_main_thread_fini ck1 final = Ret (ck2, verdict) ∧
    (verdict = true ↔ ∃ vals, ∀ t xs, R !! t = Some (Some xs) →
       conforms vals xs (as_entry <$> ideal [] (ops_of (Z.of_nat t) (history junk c sy run)))).
Proof.
  intros run HR Hdef Hcb Hfin Hw Hf Ha0 Ht0 H Hlen Hids Hl Hend Hbr Hcls. unfold run in *. rewrite length_app in Hlen.
  simpl in Hlen. rewrite do_events_app in H. destruct (do_events junk c sy evs) as [sy1|] eqn:E; [|done].
  cbn [mbind option_bind do_events] in H. destruct (do_event junk c sy1 m _) as [sy2|] eqn:E2; [|done]. injection H as ->.
  rewrite (lossless_app evs _ sy sy1 E) in Hl. destruct Hl as [Hl1 Hl2].
  set (split := evs ++ [(m, C_thread_exit self); (m, C_self_fini false self)]).
  destruct (all_record_events junk c Hc evs _ _ _ (fresh_records c sy Hf) E) as (rec & Hall & _).
  assert (atomics sy1 <= len evs) as Hat.
  { destruct (numbering_atomic junk c Hc evs sy sy1 (fun _ => recorder0) [] ∅ (fun _ => None)
      (fun t => default None (brackets None (events_of t evs)))) as (_ & _ & _ & Hle); try done; [..|lia].
    - by apply fresh_records.
    - by eapply (fresh_reachable junk c sy []).
    - lia.
    - intros t. specialize (Hbr t). unfold events_of in *. rewrite filter_app, fmap_app in Hbr.
      apply brackets_prefix in Hbr as [k ->]. done.
    - intros t. unfold keeps. destruct Hf as (_ & _ & _ & -> & _). done.
    - rewrite Ht0. apply numbers_nil. }
  destruct (main_fini_event sy1 m self sy' rec) as (sy3 & E3 & E4 & Hh); try done; [by eapply fresh_reachable|lia|].
  assert (∀ t, ops_of t (history junk c sy split) = ops_of t (history junk c sy (evs ++ [(m, C_self_fini true self)]))) as Ho.
  { intros t. unfold split. rewrite !(history_app evs _ sy sy1 E), !ops_of_app. f_equal. cbn [history].
    rewrite E3, E4, E2, !ops_of_cons. by case_decide. }
  destruct (finished_verdict R ck sy split sy' cls final w) as (ck1 & w' & ck2 & v & V1 & V2 & V3); try done.
  - unfold split. rewrite do_events_app, E. cbn [mbind option_bind do_events]. rewrite E3. cbn [mbind option_bind].
    by rewrite E4.
  - unfold split. rewrite length_app. simpl. lia.
  - intros t ev Hin. unfold split in Hin. apply elem_of_app in Hin as [Hin|Hin]; [by eapply Hids, elem_of_app; left|].
    apply (Hids t (C_self_fini true self)), elem_of_app. right. apply list_elem_of_singleton.
    apply elem_of_cons in Hin as [Hin|Hin%list_elem_of_singleton]; by simplify_eq.
  - unfold split. apply (lossless_app evs _ sy sy1 E). split; [done|]. cbn [lossless]. rewrite E3, E4. done.
  - intros t. by rewrite Ho.
  - intros t. rewrite <- (Hbr t). unfold split, events_of. rewrite !filter_app, !fmap_app.
    generalize (snd <$> filter (fun x : Z * capture => x.1 = t) evs). intros l. generalize (@None bracket).
    rewrite !filter_cons, !filter_nil. cbn [fst]. case_decide; [|done]. cbn [fmap list_fmap snd].
    induction l as [|ev l IH]; intros k; [by destruct k|]. cbn [app brackets].
    repeat case_match; auto.
  - exists ck1, w', ck2, v. do 2 (split; [done|]). rewrite V3. by setoid_rewrite Ho.
Qed.

(** C7: a test passes if and only if what happened conforms.  Let a test register
    definite expected traces as in [verdict_exact].  Let any number of threads,
    numbered below 128, handle any schedule of fewer than 2^63 events that ends with
    the main thread, each being started once, finishing every access it begins and
    ending, and let no thread lose an entry to a failed allocation or file operation.
    The checker, called with every page the writers close, says TEST PASSED if and
    only if the events of every thread with an expected trace conform to it under
    one binding of the pointer variables: no test passes by accident, and none fails
    because of the schedule, the size of the pages or the order of their closing. *)
Theorem test_decides R ck sy evs m self sy' final w :
  let run := evs ++ [(m, C_self_fini true self)] in
  registered R ck → definite_test R → callbacks_pass (ck_callbacks ck) → final ≠ Some false → w_faults w = [] →
  fresh sy → allocs sy = 0 → atomics sy = 0 → do_events junk c sy run = Some sy' → len run + 1 < 2 ^ 63 →
  (∀ t ev, (t, ev) ∈ run → 0 <= t < 128) → lossless junk c sy (evs ++ [(m, C_thread_exit self)]) →
  (∀ t, ended (ops_of t (history junk c sy run))) → (∀ t, brackets None (events_of t run) = Some None) →
  ∃ ck1 w' ck2 verdict,
    feed ck (w_closed (sy_world sy')) w = Ret (ck1, w') ∧
    checker_main_thread_fini ck1 final = Ret (ck2, verdict) ∧
    (verdict = true ↔ ∃ vals, ∀ t xs, R !! t = Some (Some xs) →
       conforms vals xs (as_entry <$> ideal [] (ops_of (Z.of_nat t) (history junk c sy run)))).
Proof.
  intros run HR Hdef Hcb Hfin Hw Hf Ha0 Ht0 H Hlen Hids Hl Hend Hbr.
  apply (run_decides R ck sy evs m self sy'); try done. apply Forall_Forall2_diag, Forall_true, same_call_refl.
Qed.
End Complete.

Section Demo.
#[local] Existing Instance demo_build.
#[local] Existing Instance demo_build_ok.

(** A test of two threads: the main one creates another and joins it. *)
Definition demo_join (mutex : Z) : list (Z * capture) :=
  [ (1, C_thread_start 1 2 3); (1, C_test_marker); (1, C_before_thread_create); (1, C_after_thread_create 9);
    (2, C_thread_start 9 5 6); (2, C_after_mutex_lock 0 0x10); (1, C_before_rmw 0x7f0040);
    (2, C_before_mutex_unlock mutex); (1, C_after_rmw 0x7f0040 4); (2, C_thread_exit 9); (2, C_self_fini false 9);
    (1, C_after_thread_join 9) ].

Definition demo_join_run (mutex : Z) : list (Z * capture) := demo_join mutex ++ [(1, C_self_fini true 1)].

Definition expected_main : list expected_entry :=
  [EXPECT_SUFFIX COLDTRACE_TEST_MARKER; EXPECT_VALUE COLDTRACE_THREAD_CREATE 0;
   EXPECT_SOME COLDTRACE_ALLOC 0 1; EXPECT_SOME COLDTRACE_ATOMIC_READ 1 0; EXPECT_SOME COLDTRACE_ATOMIC_WRITE 1 0;
   EXPECT_VALUE COLDTRACE_THREAD_JOIN 0; EXPECT_SUFFIX COLDTRACE_THREAD_EXIT].

Definition expected_other : list expected_entry :=
  [EXPECT_VALUE COLDTRACE_THREAD_START 0; EXPECT_VALUE COLDTRACE_LOCK_ACQUIRE 1;
   EXPECT_VALUE COLDTRACE_LOCK_RELEASE 1; EXPECT_SUFFIX COLDTRACE_THREAD_EXIT].

Definition join_registered : list (option (list expected_entry)) :=
  <[2%nat := Some expected_other]> (<[1%nat := Some expected_main]> (replicate 128 None)).

Definition join_checker : checker :=
  default checker0
    (ck ← register_expected_trace checker0 1 (terminated expected_main);
     register_expected_trace ck 2 (terminated expected_other)).

Definition join_verdict (mutex : Z) : option bool :=
  sy ← do_events zero_junk demo_config96 demo_system (demo_join_run mutex);
  match feed join_checker (w_closed (sy_world sy)) (World ∅ [] []) with
  | Ret (ck, _) => match checker_main_thread_fini ck None with Ret (_, v) => Some v | _ => None end
  | _ => None
  end.

(** The test passes when the other thread releases the mutex it holds. *)
Lemma join_verdicts : join_verdict 0x10 = Some true ∧ join_verdict 0x18 = Some false.
Proof. split; vm_compute; reflexivity. Qed.

Lemma join_is_registered : registered join_registered join_checker.
Proof.
  assert (∀ xs, (xs = expected_main ∨ xs = expected_other) → Forall expected_ok xs) as Hok.
  { intros xs [-> | ->]; repeat apply Forall_cons_2; try apply Forall_nil_2; (split; simpl; try done; try lia;
      try (by left); right; unfold MAX_ENTRY_VALUES; lia). }
  eapply (reg_trace _ _ 2 expected_other); [|by apply Hok; right|reflexivity].
  eapply (reg_trace _ _ 1 expected_main); [apply reg_none|by apply Hok; left|reflexivity].
Qed.

Lemma join_definite : definite_test join_registered.
Proof.
  intros t xs Ht.
  assert ((t = 1%nat ∧ xs = expected_main) ∨ (t = 2%nat ∧ xs = expected_other)) as Hx.
  { unfold join_registered in Ht. destruct (decide (t = 2%nat)) as [->|H2].
    - rewrite list_lookup_insert_eq in Ht by (simpl; lia). injection Ht as <-. by right.
    - rewrite list_lookup_insert_ne in Ht by done. destruct (decide (t = 1%nat)) as [->|H1].
      + rewrite list_lookup_insert_eq in Ht by (simpl; lia). injection Ht as <-. by left.
      + rewrite list_lookup_insert_ne in Ht by done. by apply lookup_replicate in Ht as [? _]. }
  assert (∀ u, (1 <= u <= 2)%nat → ∃ ys, join_registered !! u = Some (Some ys)) as Hall.
  { intros u Hu. assert (u = 1%nat ∨ u = 2%nat) as [-> | ->] by lia; by eexists. }
  destruct Hx as [[-> ->]|[-> ->]]; (split; [split; [lia|intros u Hu; apply Hall; lia]|done]).
Qed.

(** No entry is lost, as a computation. *)
Fixpoint lossless_check (sy : system) (evs : list (Z * capture)) : bool :=
  match evs with
  | [] => true
  | (t, ev) :: evs =>
      match do_event zero_junk demo_config96 sy t ev with
      | None => true
      | Some sy =>
          match ev with
          | C_self_fini b _ => negb b
          | _ => negb (th_failed (thread_of sy t)) && negb (wi_failed (th_writer (thread_of sy t)))
                 && wi_initd (th_writer (thread_of sy t))
          end && lossless_check sy evs
      end
  end.

Lemma lossless_check_sound evs : ∀ sy, lossless_check sy evs = true → lossless zero_junk demo_config96 sy evs.
Proof.
  induction evs as [|[t ev] evs IH]; intros sy H; cbn [lossless_check lossless] in *; [done|].
  destruct (do_event _ _ sy t ev) as [sy'|]; [|done]. apply andb_true_iff in H as [Hk Hl].
  split; [|by apply IH].
  assert (negb (th_failed (thread_of sy' t)) && negb (wi_failed (th_writer (thread_of sy' t)))
    && wi_initd (th_writer (thread_of sy' t)) = true → healthy (thread_of sy' t)) as Hh.
  { rewrite !andb_true_iff, !negb_true_iff. intros [[H1 H2] H3]. split; [done|].
    intros [_ (_ & _ & [?|?])]; congruence. }
  destruct ev; try (by apply Hh). by apply negb_true_iff in Hk.
Qed.

Definition join_history (mutex : Z) : list (Z * list op) :=
  history zero_junk demo_config96 demo_system (demo_join_run mutex).

Lemma join_others t mutex : t ≠ 1 → t ≠ 2 → ∀ ev, (t, ev) ∉ demo_join_run mutex.
Proof.
  intros H1 H2 ev Hin. unfold demo_join_run, demo_join in Hin. cbn [app] in Hin.
  repeat (apply elem_of_cons in Hin as [Hin|Hin]; [congruence|]). by apply not_elem_of_nil in Hin.
Qed.

(** What the theorems ask of the two runs. *)
Definition demo_mutex (mutex : Z) : Prop := mutex = 0x10 ∨ mutex = 0x18.

Lemma join_ids mutex t ev : (t, ev) ∈ demo_join_run mutex → 0 <= t < 128.
Proof.
  intros Hin. destruct (decide (t = 1)) as [->|H1]; [split; reflexivity || discriminate|].
  destruct (decide (t = 2)) as [->|H2]; [split; reflexivity || discriminate|].
  destruct (join_others t mutex H1 H2 ev Hin).
Qed.

Lemma join_lossless mutex :
  demo_mutex mutex → lossless zero_junk demo_config96 demo_system (demo_join mutex ++ [(1, C_thread_exit 1)]).
Proof. intros Hm. apply lossless_check_sound. destruct Hm as [-> | ->]; vm_compute; reflexivity. Qed.

Lemma join_ended mutex t : demo_mutex mutex → ended (ops_of t (join_history mutex)).
Proof.
  intros Hm. unfold join_history. destruct (decide (t = 1)) as [->|H1]; [|destruct (decide (t = 2)) as [->|H2]].
  - right. exists (removelast (ops_of 1 (history zero_junk demo_config96 demo_system (demo_join_run mutex)))).
    destruct Hm as [-> | ->]; (split; [vm_compute; repeat constructor|vm_compute; reflexivity]).
  - right. exists (removelast (ops_of 2 (history zero_junk demo_config96 demo_system (demo_join_run mutex)))).
    destruct Hm as [-> | ->]; (split; [vm_compute; repeat constructor|vm_compute; reflexivity]).
  - left. apply ops_of_idle. exact (join_others t mutex H1 H2).
Qed.

Lemma join_brackets mutex t : brackets None (events_of t (demo_join_run mutex)) = Some None.
Proof.
  destruct (decide (t = 1)) as [->|H1]; [vm_compute; reflexivity|].
  destruct (decide (t = 2)) as [->|H2]; [vm_compute; reflexivity|].
  unfold demo_join_run, demo_join. cbn [app]. rewrite !events_of_cons, !decide_False by congruence. reflexivity.
Qed.

(** The verdict is that of the events, which conform in the first run only. *)
Lemma test_decides_witness :
  (∃ vals, conforms vals expected_other (as_entry <$> ideal [] (ops_of 2 (join_history 0x10)))) ∧
  ¬ (∃ vals, ∀ t xs, join_registered !! t = Some (Some xs) →
       conforms vals xs (as_entry <$> ideal [] (ops_of (Z.of_nat t) (join_history 0x18)))).
Proof.
  assert (∀ mutex, demo_mutex mutex → ∃ verdict, join_verdict mutex = Some verdict ∧
    (verdict = true ↔ ∃ vals, ∀ t xs, join_registered !! t = Some (Some xs) →
       conforms vals xs (as_entry <$> ideal [] (ops_of (Z.of_nat t) (join_history mutex))))) as H.
  { intros mutex Hm.
    assert (is_Some (join_verdict mutex)) as Hv by (destruct Hm as [-> | ->]; vm_compute; by eexists).
    unfold join_verdict in *.
    destruct (do_events zero_junk demo_config96 demo_system (demo_join_run mutex)) as [sy'|] eqn:E;
      [|by destruct Hv].
    cbn [mbind option_bind] in *.
    destruct (test_decides zero_junk demo_config96 demo_config_ok join_registered join_checker demo_system
      (demo_join mutex) 1 1 sy' None (World ∅ [] [])) as (ck1 & w' & ck2 & v & E1 & E2 & Hd).
    - apply join_is_registered.
    - apply join_definite.
    - constructor.
    - discriminate.
    - reflexivity.
    - apply demo_fresh.
    - reflexivity.
    - reflexivity.
    - exact E.
    - reflexivity.
    - intros t ev. apply join_ids.
    - apply join_lossless, Hm.
    - intros t. apply join_ended, Hm.
    - intros t. apply join_brackets.
    - exists v. rewrite E1, E2. split; [reflexivity|exact Hd]. }
  destruct join_verdicts as [V1 V2]. split.
  - destruct (H 0x10) as (v & Ev & Hd); [by left|]. rewrite V1 in Ev. injection Ev as <-.
    destruct (proj1 Hd eq_refl) as [vals Hc]. exists vals. by apply (Hc 2%nat).
  - destruct (H 0x18) as (v & Ev & Hd); [by right|]. rewrite V2 in Ev. injection Ev as <-. rewrite <- Hd. discriminate.
Defined.
End Demo.
