(* ===== verification/Modes.v ===== *)
(** * Recording with and without writing

    The workflow runs the tests with writing disabled: the same handlers, but the
    entries go to a buffer of the memory pool that is only handed to the close hook.
    This file runs the handlers in both modes side by side.  As long as the thread that writes
    loses nothing and the pool has memory, the two take the same steps, and the hook
    sees the same pages. *)

From stdpp Require Import base list numbers list_numbers sorting strings gmap.
From Stdlib Require Import ZArith Lia Sorted.
From S2P Require Import Prelude Version Counters Entries Libc Utils Config Codec Lz4 Writer Thread Trace Reader Indexes Checker Verdict Exact Recorder Subs Subscribers Atomics Handlers Locality Threads TestRun Files Numbering AtomicNumbers TestVerdict.

(** ** Buffers that agree where they have been written *)

Definition agree (P : nat → Prop) (b1 b2 : list Z) : Prop :=
  length b1 = length b2 ∧ ∀ k, P k → b1 !! k = b2 !! k.

Definition upto (n : Z) (k : nat) : Prop := Z.of_nat k < n.

Lemma agree_weaken (P Q : nat → Prop) b1 b2 : (∀ k, Q k → P k) → agree P b1 b2 → agree Q b1 b2.
Proof. intros H [Hl Ha]. split; [done|]. auto. Qed.

Lemma lookup_store mem off bs mem' k :
  store mem off bs = Some mem' →
  mem' !! k = if decide (off <= Z.of_nat k < off + len bs) then bs !! (k - Z.to_nat off)%nat else mem !! k.
Proof.
  intros (H0 & H1 & ->)%store_inv. destruct (decide (Z.of_nat k < off)) as [Hlt|Hge].
  - rewrite decide_False by lia. rewrite lookup_app_l by llia. by rewrite lookup_take_lt by lia.
  - rewrite lookup_app_r by llia. rewrite length_take, Nat.min_l by lia. case_decide as Hd.
    + by rewrite lookup_app_l by lia.
    + rewrite lookup_app_r by lia. rewrite lookup_drop. f_equal. lia.
Qed.

Lemma agree_store P b1 b2 off bs b1' :
  agree P b1 b2 → store b1 off bs = Some b1' →
  ∃ b2', store b2 off bs = Some b2' ∧ agree (fun k => P k ∨ off <= Z.of_nat k < off + len bs) b1' b2'.
Proof.
  intros [Hl Ha] Hs. assert (∃ b2', store b2 off bs = Some b2') as [b2' Hs2].
  { unfold store, in_range in *. rewrite <- Hl. case_match; [by eexists|done]. }
  exists b2'. split; [done|]. split; [by rewrite (length_store _ _ _ _ Hs), (length_store _ _ _ _ Hs2)|].
  intros k Hk. rewrite (lookup_store _ _ _ _ k Hs), (lookup_store _ _ _ _ k Hs2). case_decide; [done|].
  apply Ha. tauto.
Qed.

Lemma agree_call n b1 b2 md : agree (upto n) b1 b2 → same_call (CloseCall b1 n md) (CloseCall b2 n md).
Proof.
  intros [Hl Ha]. do 3 (split; [done|]). apply list_eq. intros k. simpl.
  destruct (decide (k < Z.to_nat n)%nat).
  - rewrite !lookup_take_lt by done. apply Ha. unfold upto. lia.
  - by rewrite !lookup_take_ge by lia.
Qed.

(** A world with memory and the files [fs]. *)
Definition memory (fs : gmap string inode) (w : world) : Prop := w_faults w = [] ∧ w_fs w = fs.

Lemma attempt_memory fs w : memory fs w → attempt w = (true, w).
Proof. intros [H _]. unfold attempt, next_fault. by rewrite H. Qed.

(** The second world has memory and keeps its files, and its hook has seen the same. *)
Definition side_by_side (fs : gmap string inode) (w1 w2 : world) : Prop :=
  memory fs w2 ∧ Forall2 same_call (w_closed w1) (w_closed w2).

Lemma worlds_keep fs w1 w1' w2 : w_closed w1' = w_closed w1 → side_by_side fs w1 w2 → side_by_side fs w1' w2.
Proof. unfold side_by_side. by intros ->. Qed.

Section Modes.
Context `{B : BuildInfo, L : Lz4, V : Vsync, !VsyncLaws V, !Lz4Laws L, !BuildInfoOk B}.
Context (junk : nat → Z) (c : config) (Hc : config_ok c) (files : gmap string inode).

#[local] Abbreviation q := (coldtrace_disable_writes c).
#[local] Abbreviation worlds := (side_by_side files).

(** ** Writers side by side *)

(** [P] are the bytes that have been written. *)
Record wrel (P : nat → Prop) (i1 i2 : writer_impl) : Prop := {
  wr_initd : wi_initd i2 = wi_initd i1;
  wr_md : wi_md i2 = wi_md i1;
  wr_size : wi_size i2 = wi_size i1;
  wr_offset : wi_offset i2 = wi_offset i1;
  wr_buffers :
    if wi_initd i1 then
      wi_failed i1 = false ∧ wi_failed i2 = false ∧
      match wi_buffer i1, wi_buffer i2 with
      | Some b1, Some b2 => wi_mmapped i1 = true ∧ wi_mmapped i2 = false ∧
          wi_size i1 = coldtrace_get_trace_size c ∧ agree P b1 b2
      | None, None => wi_comp_buf i1 = None
      | _, _ => False
      end
    else wi_buffer i1 = None ∧ wi_comp_buf i1 = None;
}.

(** All bytes in front of the offset. *)
Definition wsync (i1 i2 : writer_impl) : Prop := wrel (upto (wi_offset i1)) i1 i2.

Lemma wsync_init i1 i2 md : wsync (coldtrace_writer_init i1 (Some md)) (coldtrace_writer_init i2 (Some md)).
Proof. by split. Qed.

Lemma begin_sync i1 i2 b1 b2 i1' :
  wi_initd i2 = wi_initd i1 → wi_initd i1 = true → wi_md i2 = wi_md i1 → wi_size i2 = wi_size i1 →
  wi_failed i1 = false → wi_failed i2 = false → wi_buffer i1 = Some b1 → wi_buffer i2 = Some b2 →
  wi_mmapped i1 = true → wi_mmapped i2 = false → wi_size i1 = coldtrace_get_trace_size c → length b1 = length b2 →
  begin_fragment_ i1 = Ret i1' →
  ∃ i2', begin_fragment_ i2 = Ret i2' ∧ wsync i1' i2' ∧ is_Some (wi_buffer i1') ∧ is_Some (wi_buffer i2') ∧
    wi_initd i1' = true.
Proof.
  intros E1 Ei E2 E3 E4 E5 Eb1 Eb2 E6 E7 E8 El H. unfold begin_fragment_ in *. rewrite Eb1 in H. rewrite Eb2.
  destruct (store b1 0 header_bytes) as [b1'|] eqn:Es; [|done]. injection H as <-.
  destruct (agree_store (fun _ => False) b1 b2 0 header_bytes b1') as (b2' & -> & Ha); [done..|].
  cbn [or_undef obind]. eexists. split; [done|]. split; [|by eauto]. split; simpl; try done. rewrite Ei.
  do 2 (split; [done|]). do 3 (split; [done|]). eapply agree_weaken; [|exact Ha]. unfold upto, sizeof_version_header.
  intros k Hk. right. rewrite len_header. lia.
Qed.

(** ** One call of the writer *)

Lemma flush_closes i w i' w' b :
  flush_ c i w = Ret (i', w') → wi_buffer i = Some b → wi_mmapped i = true →
  w_closed w' = w_closed w ++ [CloseCall b (wi_offset i) (wi_md i)] ∧
  ((∃ cb, i' = set_comp_buf (Some cb) i) ∨ (∃ cb, i' = fail_ (set_comp_buf (Some cb) i))).
Proof.
  intros H Hb Hm. unfold flush_ in H. rewrite Hb, Hm in H. cbn [negb] in H. cbv zeta in H.
  destruct (wi_comp_buf i) as [cb|]; [|done].
  apply obind_Ret_inv in H as (c1 & _ & H). apply obind_Ret_inv in H as (c2 & _ & H).
  apply obind_Ret_inv in H as (src & _ & H). apply obind_Ret_inv in H as (c3 & _ & H).
  case_match; [injection H as <- <-; split; [done|right; by eexists]|].
  apply obind_Ret_inv in H as (name & _ & H).
  destruct (open_trunc _ name) as [r w1] eqn:Eo. pose proof (open_trunc_spec _ _ _ _ Eo) as [Ec Ef]. simpl in Ec.
  destruct r as [u|e]; [|injection H as <- <-; split; [done|right; by eexists]].
  assert (w_fs w1 !! name = Some (Reg [])) as Hn by (by rewrite Ef, lookup_insert_eq).
  match type of H with context [write_all_ w1 name ?bs] =>
    destruct (write_all_spec w1 name bs [] Hn) as (ok & w2 & k & E & Hcl & _); rewrite E in H end.
  cbn [obind] in H. destruct ok; injection H as <- <-; simpl; (split; [congruence|]); [left|right]; by eexists.
Qed.

Lemma ensure_sync i1 i2 w1 w2 ok i1' w1' :
  wsync i1 i2 → worlds w1 w2 → ensure_buffer_ junk c i1 w1 = Ret (ok, i1', w1') →
  (ok = true ∧ ∃ i2' w2', ensure_buffer_ junk q i2 w2 = Ret (true, i2', w2') ∧ wsync i1' i2' ∧ worlds w1' w2' ∧
     is_Some (wi_buffer i1') ∧ is_Some (wi_buffer i2') ∧ wi_initd i1' = true)
  ∨ (ok = false ∧ dead i1').
Proof.
  intros Hs Hw H. pose proof Hs as [E1 E2 E3 E4 Hb]. pose proof Hw as [Hm Hcl]. unfold ensure_buffer_ in *. rewrite E1.
  destruct (wi_initd i1) eqn:Ei; cbn [negb] in *.
  2: { injection H as <- <- <-. right. split; [done|]. split; [by destruct Hb|]. split; [by destruct Hb|by right]. }
  destruct Hb as (Hf1 & Hf2 & Hb). rewrite Hf1 in H. rewrite Hf2.
  destruct (wi_buffer i1) as [b1|] eqn:Eb1, (wi_buffer i2) as [b2|] eqn:Eb2; try done.
  { injection H as <- <- <-. left. split; [done|]. exists i2, w2. split; [done|].
    do 2 (split; [done|]).
    split; [by exists b1|]. split; [by exists b2|done]. }
  destruct Hc as (Hdis & Hp & _). unfold coldtrace_writes_disabled in *. rewrite Hdis in H. cbn [negb] in H.
  assert (disable_writes_ q = true) as -> by done. cbn [negb].
  cbn [wi_size set_enumerator set_offset set_size] in *.
  change (coldtrace_get_trace_size q) with (coldtrace_get_trace_size c).
  destruct (validate_trace_size_ (coldtrace_get_trace_size c) true) eqn:Hv; cbn [negb] in H.
  2: { injection H as <- <- <-. right. split; [done|]. repeat split; simpl; auto. }
  assert (validate_trace_size_ (coldtrace_get_trace_size c) false = true) as ->.
  { unfold validate_trace_size_ in *. by destruct (coldtrace_get_trace_size c <? sizeof_version_header). }
  cbn [negb]. rewrite (attempt_memory files w2 Hm). destruct (attempt w1) as [o1 wa] eqn:Ea1.
  apply attempt_spec in Ea1 as (_ & Hca & _). destruct o1; cbn [negb] in H.
  2: { injection H as <- <- <-. right. split; [done|]. repeat split; simpl; auto. }
  destruct (attempt wa) as [o2 wb] eqn:Ea2. apply attempt_spec in Ea2 as (_ & Hcb & _). destruct o2; cbn [negb] in H.
  2: { injection H as <- <- <-. right. split; [done|]. apply fail_dead. }
  apply obind_Ret_inv in H as ([[o3 i3] wc] & Eff & H).
  apply first_fragment_loop_post in Eff as (Hcc & (e & _ & ->) & _); [|done|done].
  destruct o3; cbn [negb] in H.
  2: { injection H as <- <- <-. right. split; [done|]. apply fail_dead. }
  apply obind_Ret_inv in H as (i4 & Ebg & H). injection H as <- <- <-. left. split; [done|].
  cbn [wi_buffer set_buffer set_mmapped].
  eapply (begin_sync _ (set_mmapped false (set_buffer (Some (uninit junk (coldtrace_get_trace_size c)))
    (set_enumerator 0 (set_offset 0 (set_size (coldtrace_get_trace_size c) i2)))))) in Ebg
    as (i2' & Ebg2 & Hs2 & Hb1 & Hb2 & Hi); try done; try (simpl; congruence).
  2: { unfold uninit. rewrite length_replicate, length_fmap, length_seq. done. }
  cbn [wi_size set_buffer set_enumerator set_offset set_size] in *. rewrite Ebg2. cbn [obind].
  exists i2', w2. split; [done|]. split; [done|]. split; [split; [done|]; congruence|]. done.
Qed.

Lemma new_trace_sync i1 i2 b1 b2 w1 w2 i1' w1' :
  wsync i1 i2 → worlds w1 w2 → wi_initd i1 = true → wi_buffer i1 = Some b1 → wi_buffer i2 = Some b2 →
  new_trace_ junk c i1 w1 = Ret (i1', w1') →
  (∃ i2' w2', new_trace_ junk q i2 w2 = Ret (i2', w2') ∧ wsync i1' i2' ∧ worlds w1' w2' ∧
     is_Some (wi_buffer i1') ∧ is_Some (wi_buffer i2') ∧ wi_initd i1' = true)
  ∨ (wi_buffer i1' = None ∧ dead i1').
Proof.
  intros [E1 E2 E3 E4 Hb] [Hm Hcl] Ei Eb1 Eb2 H. rewrite Ei, Eb1, Eb2 in Hb.
  destruct Hb as (Hf1 & Hf2 & Hm1 & Hm2 & Hsz & Ha). unfold new_trace_ in *.
  apply obind_Ret_inv in H as ([i3 w3] & Ef & H). apply (flush_closes _ _ _ _ b1) in Ef as [Hc3 Hi3]; [|done..].
  destruct Hi3 as [[cb ->]|[cb ->]].
  2: { assert (wi_buffer (fail_ (set_comp_buf (Some cb) i1)) = None) as En by apply fail_dead.
       rewrite En in H. injection H as <- <-. right. split; [done|]. apply fail_dead. }
  cbn [wi_buffer set_comp_buf] in H. rewrite Eb1 in H. apply obind_Ret_inv in H as ([i4 w4] & Ead & H).
  unfold advance_fragment_ in Ead. cbn [wi_mmapped set_comp_buf] in Ead. rewrite Hm1 in Ead. cbn [negb] in Ead.
  destruct (_ =? 0); [done|]. injection Ead as <- <-.
  apply obind_Ret_inv in H as (i5 & Ebg & H). injection H as <- <-. left.
  unfold flush_. rewrite Eb2, Hm2. cbn [negb obind]. rewrite Eb2. unfold advance_fragment_. rewrite Hm2. cbn [negb].
  change (coldtrace_get_trace_size q) with (coldtrace_get_trace_size c).
  rewrite E3, Hsz, Z.eqb_refl. cbn [negb andb obind].
  eapply (begin_sync _ (set_offset 0 i2)) in Ebg as (i2' & -> & Hs & Hb1 & Hb2 & Hi); try done; [|by destruct Ha].
  cbn [obind]. eexists _, _. split; [done|]. split; [done|]. split; [|done]. split; [done|]. simpl.
  rewrite Hc3. apply Forall2_app; [done|]. constructor; [|done]. rewrite E4, E2. by apply agree_call.
Qed.

(** The reserved bytes are still to be written. *)
Lemma reserve_sync i1 i2 w1 w2 n r i1' w1' :
  wsync i1 i2 → worlds w1 w2 → coldtrace_writer_reserve junk c i1 w1 n = Ret (r, i1', w1') →
  (∃ e i2' w2', r = Some e ∧ coldtrace_writer_reserve junk q i2 w2 n = Ret (Some e, i2', w2') ∧
     wrel (upto e) i1' i2' ∧ worlds w1' w2' ∧ wi_offset i1' = u64 (e + n))
  ∨ (r = None ∧ dead i1').
Proof.
  intros Hs Hw H. unfold coldtrace_writer_reserve in *. apply obind_Ret_inv in H as ([[ok ia] wa] & Ee & H).
  destruct (ensure_sync _ _ _ _ _ _ _ Hs Hw Ee) as [(-> & i2a & w2a & -> & Hsa & Hwa & [b1 Eb1] & [b2 Eb2] & Hia)|[-> Hd]];
    cbn [negb] in H; [|injection H as <- <- <-; by right].
  cbn [obind negb]. assert (coldtrace_writer_new_trace q i2a n = coldtrace_writer_new_trace c ia n) as ->.
  { unfold coldtrace_writer_new_trace. change (coldtrace_get_trace_size q) with (coldtrace_get_trace_size c).
    by rewrite (wr_size _ _ _ Hsa), (wr_offset _ _ _ Hsa). }
  assert (∀ j1 j2 v1 v2, wsync j1 j2 → worlds v1 v2 → is_Some (wi_buffer j1) → is_Some (wi_buffer j2) →
    match wi_buffer j1 with
    | Some _ => Ret (Some (wi_offset j1), set_offset (u64 (wi_offset j1 + n)) j1, v1)
    | None => Ret (None, j1, v1)
    end = Ret (r, i1', w1') →
    ∃ e i2' w2', r = Some e ∧
      match wi_buffer j2 with
      | Some _ => Ret (Some (wi_offset j2), set_offset (u64 (wi_offset j2 + n)) j2, v2)
      | None => Ret (None, j2, v2)
      end = Ret (Some e, i2', w2') ∧ wrel (upto e) i1' i2' ∧ worlds w1' w2' ∧ wi_offset i1' = u64 (e + n)) as Hfin.
  { intros j1 j2 v1 v2 [F1 F2 F3 F4 Fb] Hv [d1 D1] [d2 D2] E. rewrite D1 in E. rewrite D2. injection E as <- <- <-.
    eexists _, _, _. split; [done|]. rewrite F4. split; [done|]. split; [|done]. by split; simpl. }
  apply obind_Ret_inv in H as ([ib wb] & Ent & H).
  destruct (coldtrace_writer_new_trace c ia n).
  - destruct (new_trace_sync _ _ b1 b2 _ _ _ _ Hsa Hwa Hia Eb1 Eb2 Ent)
      as [(i2b & w2b & -> & Hsb & Hwb & Hb1 & Hb2 & _)|[En Hd]].
    + left. cbn [obind]. by eapply Hfin.
    + rewrite En in H. injection H as <- <- <-. by right.
  - injection Ent as <- <-. left. cbn [obind]. by eapply Hfin; eauto.
Qed.

(** Finishing closes the last page in both. *)
Lemma fini_sync i1 i2 w1 w2 i1' w1' :
  wsync i1 i2 → worlds w1 w2 → coldtrace_writer_fini c i1 w1 = Ret (i1', w1') →
  ∃ i2' w2', coldtrace_writer_fini q i2 w2 = Ret (i2', w2') ∧ wsync i1' i2' ∧ worlds w1' w2'.
Proof.
  intros Hs Hw H. pose proof Hs as [E1 E2 E3 E4 Hb]. pose proof Hw as [Hm Hcl]. unfold coldtrace_writer_fini in *. rewrite E1.
  destruct (wi_initd i1) eqn:Ei; cbn [negb] in *; [|injection H as <- <-; by exists i2, w2].
  assert (∀ j1 j2, wi_md j2 = wi_md j1 → wi_size j2 = wi_size j1 → wi_offset j2 = wi_offset j1 →
    wsync (set_initd false (release_buffers_ j1)) (set_initd false (release_buffers_ j2))) as Hrel.
  { intros j1 j2 F2 F3 F4. split; unfold release_buffers_; repeat case_match; simpl; try done. }
  destruct Hb as (Hf1 & Hf2 & Hb).
  destruct (wi_buffer i1) as [b1|] eqn:Eb1, (wi_buffer i2) as [b2|] eqn:Eb2; try done.
  - destruct Hb as (Hm1 & Hm2 & Hsz & Ha). apply obind_Ret_inv in H as ([i3 w3] & Ef & H). injection H as <- <-.
    apply (flush_closes _ _ _ _ b1) in Ef as [Hc3 Hi3]; [|done..]. unfold flush_. rewrite Eb2, Hm2. cbn [negb obind].
    eexists _, _. split; [done|]. split.
    + apply Hrel; destruct Hi3 as [[cb ->]|[cb ->]]; unfold fail_, release_buffers_; simpl; rewrite ?Eb1; simpl; done.
    + split; [done|]. simpl. rewrite Hc3. apply Forall2_app; [done|]. constructor; [|done].
      rewrite E4, E2. by apply agree_call.
  - cbn [obind] in *. injection H as <- <-. eexists _, _. split; [done|]. split; [by apply Hrel|done].
Qed.

(** ** Threads side by side *)

Definition trel (P : nat → Prop) (th1 th2 : coldtrace_thread) : Prop :=
  ∃ i2, th2 = set_writer i2 th1 ∧ wrel P (th_writer th1) i2.

Definition tsync (th1 th2 : coldtrace_thread) : Prop := trel (upto (wi_offset (th_writer th1))) th1 th2.

(** The thread that writes has lost an entry, or will lose the next one. *)
Definition lost (th : coldtrace_thread) : Prop := th_failed th = true ∨ muted th.

Lemma lost_healthy th : lost th → ¬ healthy th.
Proof. intros [Hf|Hm] [Hf' Hm']; [congruence|done]. Qed.

Lemma trel_weaken (P Q : nat → Prop) th1 th2 : (∀ k, Q k → P k) → trel P th1 th2 → trel Q th1 th2.
Proof.
  intros H (i2 & -> & [E1 E2 E3 E4 Hb]). exists i2. split; [done|]. split; try done.
  destruct (wi_initd (th_writer th1)); [|done]. destruct Hb as (H1 & H2 & Hb). do 2 (split; [done|]).
  destruct (wi_buffer (th_writer th1)), (wi_buffer i2); try done. destruct Hb as (H3 & H4 & H5 & Ha).
  do 3 (split; [done|]). by eapply agree_weaken.
Qed.

Lemma zero_sync : tsync zero_thread zero_thread.
Proof. exists zero_writer. split; [done|]. by split. Qed.

Lemma get_sync md th1 th2 : tsync th1 th2 → tsync (get_coldtrace_thread md th1) (get_coldtrace_thread md th2).
Proof.
  intros (i2 & -> & Hw). unfold get_coldtrace_thread. cbn [th_initd set_writer].
  destruct (th_initd th1); cbn [negb]; [by exists i2|].
  eexists. split; [|apply (wsync_init (th_writer th1) i2 md)]. done.
Qed.

Lemma store_sync P th1 th2 off bs th1' :
  trel P th1 th2 → entry_store th1 off bs = Ret th1' →
  ∃ th2' b, entry_store th2 off bs = Ret th2' ∧ trel (fun k => P k ∨ off <= Z.of_nat k < off + len bs) th1' th2' ∧
    th1' = set_writer (set_buffer (Some b) (th_writer th1)) th1 ∧ 0 <= off.
Proof.
  intros (i2 & -> & [E1 E2 E3 E4 Hb]) H. unfold entry_store in *. cbn [th_writer set_writer].
  destruct (wi_buffer (th_writer th1)) as [b1|] eqn:Eb1; [|done].
  destruct (wi_initd (th_writer th1)) eqn:Ei; [|by destruct Hb]. destruct Hb as (H1 & H2 & Hb).
  destruct (wi_buffer i2) as [b2|] eqn:Eb2; [|done]. destruct Hb as (H3 & H4 & H5 & Ha).
  destruct (store b1 off bs) as [b1'|] eqn:Es; [|done]. injection H as <-.
  pose proof (store_inv _ _ _ _ Es) as (H0 & _).
  destruct (agree_store _ _ _ _ _ _ Ha Es) as (b2' & -> & Ha'). cbn [or_undef obind].
  eexists _, b1'. split; [done|]. split; [|done]. eexists. split; [done|]. split; simpl; try done; [congruence|].
  rewrite Ei. by split_and!.
Qed.

Lemma fields_sync fs : ∀ P th1 th2 off th1',
  trel P th1 th2 → write_fields th1 off fs = Ret th1' →
  ∃ th2', write_fields th2 off fs = Ret th2' ∧
    trel (fun k => P k ∨ off <= Z.of_nat k < off + 8 * len fs) th1' th2' ∧
    wi_offset (th_writer th1') = wi_offset (th_writer th1).
Proof.
  induction fs as [|f fs IH]; intros P th1 th2 off th1' Ht H; cbn [write_fields] in *.
  - injection H as <-. exists th2. split; [done|]. split; [|done]. eapply trel_weaken; [|exact Ht].
    intros k [?|Hk]; [done|]. simpl in Hk. lia.
  - apply obind_Ret_inv in H as (tha & Es & H).
    destruct (store_sync _ _ _ _ _ _ Ht Es) as (thb & b & -> & Hab & Eth & _). cbn [obind].
    destruct (IH _ _ _ _ _ Hab H) as (th2' & -> & Ht' & Eo). exists th2'. split; [done|].
    split; [|by rewrite Eo, Eth]. eapply trel_weaken; [|exact Ht'].
    intros k [?|Hk]; [by left; left|]. cbn [length] in Hk. rewrite length_le_bytes.
    destruct (decide (Z.of_nat k < off + 8)); [left; right|right]; lia.
Qed.

Lemma lost_writer th i : th_initd th = true → dead i → lost (set_writer i th).
Proof. intros H Hd. right. by split. Qed.

Section Log.
Context (md : Z).

(** An entry without a stack. *)
Lemma plain_sync th1 th2 w1 w2 n type ptr fs r th1' w1' :
  tsync th1 th2 → worlds w1 w2 → th_initd th1 = true → n = 8 + 8 * len fs →
  obind (append_plain junk c th1 w1 n type ptr) (store_fields fs) = Ret (r, th1', w1') →
  (r = true ∧ ∃ th2' w2', obind (append_plain junk q th2 w2 n type ptr) (store_fields fs) = Ret (true, th2', w2') ∧
     tsync th1' th2' ∧ worlds w1' w2') ∨ (r = false ∧ lost th1').
Proof.
  intros (i2 & -> & Hs) Hw Hi Hn H. apply obind_Ret_inv in H as ([[e tha] wa] & Ha & H).
  unfold append_plain in Ha |- *. cbv zeta in Ha |- *.
  assert (coldtrace_writer_new_trace q i2 n = coldtrace_writer_new_trace c (th_writer th1) n) as Ent.
  { unfold coldtrace_writer_new_trace. change (coldtrace_get_trace_size q) with (coldtrace_get_trace_size c).
    by rewrite (wr_size _ _ _ Hs), (wr_offset _ _ _ Hs). }
  cbn [th_writer set_writer]. rewrite Ent. set (nt := coldtrace_writer_new_trace c (th_writer th1) n) in *.
  set (tb := if nt then set_stack_bottom 0 th1 else th1) in *.
  assert ((if nt then set_stack_bottom 0 (set_writer i2 th1) else set_writer i2 th1) = set_writer i2 tb) as -> by by destruct nt.
  assert (th_writer tb = th_writer th1 ∧ th_initd tb = true) as [Etb Hib] by by destruct nt.
  clearbody tb. rewrite Etb in Ha. cbn [th_writer set_writer].
  apply obind_Ret_inv in Ha as ([[e' wr] wb] & Er & Ha).
  destruct (reserve_sync _ _ _ _ _ _ _ _ Hs Hw Er) as [(p & i2' & w2' & -> & -> & Hrel & Hwb & Eo)|[-> Hd]].
  2: { injection Ha as <- <- <-. injection H as <- <- <-. right. split; [done|]. by apply lost_writer. }
  cbn [obind]. apply obind_Ret_inv in Ha as (tc & Es & Ha). injection Ha as <- <- <-.
  assert (trel (upto p) (set_writer wr tb) (set_writer i2' (set_writer i2 tb))) as Ht by by exists i2'.
  destruct (store_sync _ _ _ _ _ _ Ht Es) as (td & b & -> & Htd & Etc & Hp). cbn [obind store_fields] in H |- *.
  apply obind_Ret_inv in H as (te & Ef & H). injection H as <- <- <-.
  destruct (fields_sync _ _ _ _ _ _ Htd Ef) as (tf & -> & Htf & Eof). cbn [obind]. left. split; [done|].
  eexists _, _. split; [done|]. split; [|done]. unfold tsync. eapply trel_weaken; [|exact Htf].
  rewrite Eof, Etc. cbn [th_writer set_writer wi_offset set_buffer]. rewrite Eo. unfold upto. intros k Hk.
  rewrite length_le_bytes. assert (u64 (p + n) <= p + n) by (apply Z.mod_le; lia).
  destruct (decide (Z.of_nat k < p)); [by left; left|]. destruct (decide (Z.of_nat k < p + 8)); [left; right; lia|right; lia].
Qed.

(** The size of the frames is a multiple of 8. *)
Lemma frames_size x : 8 * (u64 (x * 8) / 8) = u64 (x * 8) ∧ 0 <= u64 (x * 8).
Proof.
  split; [|apply u64_range]. symmetry. apply Z_div_exact_2; [lia|]. unfold u64.
  rewrite Z.mod_mod_divide; [apply Z.mod_mul; lia|]. by exists (2 ^ 61).
Qed.

(** The frames behind it. *)
Lemma frames_sync P th1 th2 off bot sz th1' :
  trel P th1 th2 → 8 * (sz / 8) = sz →
  (if 0 <? sz then let! frames := read_stack th1 bot (sz / 8) in entry_store th1 off (words64 frames) else Ret th1)
    = Ret th1' →
  ∃ th2', (if 0 <? sz then let! frames := read_stack th2 bot (sz / 8) in entry_store th2 off (words64 frames) else Ret th2)
      = Ret th2' ∧
    trel (fun k => P k ∨ off <= Z.of_nat k < off + sz) th1' th2' ∧
    wi_offset (th_writer th1') = wi_offset (th_writer th1).
Proof.
  intros Ht Hdiv H. destruct (Z.ltb_spec 0 sz).
  - apply obind_Ret_inv in H as (frames & Er & H).
    assert (read_stack th2 bot (sz / 8) = Ret frames) as -> by (destruct Ht as (i2 & -> & _); exact Er).
    cbn [obind]. destruct (store_sync _ _ _ _ _ _ Ht H) as (th2' & b & -> & Ht' & E & _).
    exists th2'. split; [done|]. split; [|by rewrite E]. eapply trel_weaken; [|exact Ht'].
    assert (len frames = sz / 8) as Hl.
    { unfold read_stack in Er. destruct (th_stack th1) as [arr|]; [|done].
      destruct (in_range arr bot (sz / 8)) eqn:Ein; [|done]. injection Er as <-.
      apply in_range_spec in Ein. apply length_slice; lia. }
    intros k [?|Hk]; [by left|right]. rewrite length_words64, Nat2Z.inj_mul, Hl. lia.
  - injection H as <-. exists th2. split; [done|]. split; [|done]. eapply trel_weaken; [|exact Ht].
    intros k [?|Hk]; [done|lia].
Qed.

(** An entry with a stack. *)
Lemma stack_sync th1 th2 w1 w2 n type ptr fs r th1' w1' :
  tsync th1 th2 → worlds w1 w2 → th_initd th1 = true → n = 8 + 8 * len fs + 8 →
  obind (append_stack junk c th1 w1 n type ptr) (store_fields fs) = Ret (r, th1', w1') →
  (r = true ∧ ∃ th2' w2', obind (append_stack junk q th2 w2 n type ptr) (store_fields fs) = Ret (true, th2', w2') ∧
     tsync th1' th2' ∧ worlds w1' w2') ∨ (r = false ∧ lost th1').
Proof.
  intros (i2 & -> & Hs) Hw Hi Hn H. apply obind_Ret_inv in H as ([[e tha] wa] & Ha & H).
  unfold append_stack in Ha |- *. cbv zeta in Ha |- *. cbn [th_writer set_writer th_stack_bottom th_stack_size].
  set (size0 := u64 (u32 (th_stack_size th1 - th_stack_bottom th1) * 8)) in *.
  assert (∀ m, coldtrace_writer_new_trace q i2 m = coldtrace_writer_new_trace c (th_writer th1) m) as Ent.
  { intros m. unfold coldtrace_writer_new_trace. change (coldtrace_get_trace_size q) with (coldtrace_get_trace_size c).
    by rewrite (wr_size _ _ _ Hs), (wr_offset _ _ _ Hs). }
  rewrite Ent. set (pr := if coldtrace_writer_new_trace c (th_writer th1) (u64 (n + size0)) then _ else _) in *.
  assert (∃ x, pr.2 = u64 (x * 8)) as [x Hx] by (unfold pr, size0; destruct (coldtrace_writer_new_trace _ _ _); eexists; reflexivity).
  destruct pr as [bot sz]. cbn [snd] in Hx. destruct (frames_size x) as [Hdiv Hsz0]. rewrite <- Hx in Hdiv, Hsz0.
  apply obind_Ret_inv in Ha as ([[e' wr] wb] & Er & Ha).
  destruct (reserve_sync _ _ _ _ _ _ _ _ Hs Hw Er) as [(p & i2' & w2' & -> & -> & Hrel & Hwb & Eo)|[-> Hd]].
  2: { injection Ha as <- <- <-. injection H as <- <- <-. right. split; [done|]. by apply lost_writer. }
  cbn [obind]. assert (trel (upto p) (set_writer wr th1) (set_writer i2' (set_writer i2 th1))) as Ht by by exists i2'.
  apply obind_Ret_inv in Ha as (t1 & Es1 & Ha). destruct (store_sync _ _ _ _ _ _ Ht Es1) as (u1 & b1 & -> & Ht1 & F1 & Hp).
  cbn [obind]. apply obind_Ret_inv in Ha as (t2 & Es2 & Ha).
  destruct (store_sync _ _ _ _ _ _ Ht1 Es2) as (u2 & b2 & -> & Ht2 & F2 & _).
  cbn [obind]. apply obind_Ret_inv in Ha as (t3 & Es3 & Ha).
  destruct (store_sync _ _ _ _ _ _ Ht2 Es3) as (u3 & b3 & -> & Ht3 & F3 & _). cbn [obind].
  apply obind_Ret_inv in Ha as (t4 & Es4 & Ha). injection Ha as <- <- <-.
  assert (wi_offset (th_writer t3) = u64 (p + u64 (n + sz))) as Eo3 by (rewrite F3, F2, F1; exact Eo).
  set (Q := fun k => _) in Ht3.
  destruct (frames_sync Q t3 u3 (p + n - sizeof_stack_diff + 8) bot sz t4) as (u4 & -> & Ht4 & Eo4); [done..|].
  rewrite Eo3 in Eo4. replace (p + n - sizeof_stack_diff + 8) with (p + n) in Ht4 by (unfold sizeof_stack_diff; lia).
  cbn [obind store_fields] in H |- *.
  assert (trel (fun k => Q k ∨ p + n <= Z.of_nat k < p + n + sz) (set_stack_bottom (th_stack_size th1) t4)
    (set_stack_bottom (th_stack_size th1) u4)) as Ht5.
  { destruct Ht4 as (i4 & -> & Hr4). by exists i4. }
  apply obind_Ret_inv in H as (te & Ef & H). injection H as <- <- <-.
  destruct (fields_sync _ _ _ _ _ _ Ht5 Ef) as (tf & -> & Htf & Eof). cbn [obind]. left. split; [done|].
  eexists _, _. split; [done|]. split; [|done]. unfold tsync. eapply trel_weaken; [|exact Htf].
  rewrite Eof. cbn [th_writer set_stack_bottom]. rewrite Eo4. unfold upto, Q. intros k Hk.
  rewrite !length_le_bytes. unfold sizeof_stack_diff in *.
  assert (u64 (n + sz) <= n + sz) by (apply Z.mod_le; lia).
  assert (0 <= u64 (n + sz)) by apply u64_range.
  assert (u64 (p + u64 (n + sz)) <= p + u64 (n + sz)) by (apply Z.mod_le; lia).
  assert (Z.of_nat k < p ∨ p <= Z.of_nat k < p + 8 ∨ p + 8 <= Z.of_nat k < p + 8 + 8 * len fs ∨
    p + n - 8 <= Z.of_nat k < p + n - 4 ∨ p + n - 4 <= Z.of_nat k < p + n ∨ p + n <= Z.of_nat k < p + n + sz) as Hcov by lia.
  destruct Hcov as [?|[?|[?|[?|[?|?]]]]]; first [tauto|lia|left; left; lia|left; right; lia].
Qed.

Lemma log_sync th1 th2 w1 w2 type ptr fs r th1' w1' :
  tsync th1 th2 → worlds w1 w2 → request_ok type fs →
  log_entry junk c md th1 w1 type ptr fs = Ret (r, th1', w1') →
  (r = true ∧ ∃ th2' w2', log_entry junk q md th2 w2 type ptr fs = Ret (true, th2', w2') ∧
     tsync th1' th2' ∧ worlds w1' w2') ∨ (r = false ∧ lost th1').
Proof.
  intros Ht%(get_sync md) Hw [Hty Hv Hcnt Hfs] H. unfold log_entry, coldtrace_thread_append in *. cbv zeta in H |- *.
  assert (th_failed (get_coldtrace_thread md th2) = th_failed (get_coldtrace_thread md th1)) as Ef
    by by destruct Ht as (i2 & -> & _).
  pose proof (initd_get md th1) as Hi. set (g1 := get_coldtrace_thread md th1) in *.
  set (g2 := get_coldtrace_thread md th2) in *. rewrite Ef. destruct (th_failed g1) eqn:Hf.
  { cbn [obind store_fields] in H. injection H as <- <- <-. right. split; [done|]. by left. }
  rewrite (fixed_size_fields type Hty Hv) in H |- *. cbn [obind] in H |- *. unfold diff_header, sizeof_stack_diff in *.
  rewrite <- Hcnt in *. destruct (Z.eqb_spec (8 + 8 * len fs + (if with_stack_ type then 8 else 0)) 0); [case_match; lia|].
  destruct (with_stack_ type); cbn [negb] in *.
  - by eapply stack_sync.
  - rewrite Z.add_0_r in *. by eapply plain_sync.
Qed.

(** ** A thread that has lost an entry stays so *)

Lemma lost_get th : lost (get_coldtrace_thread md th) ↔ lost th.
Proof.
  unfold lost. rewrite muted_get. unfold get_coldtrace_thread. by destruct (negb (th_initd th)).
Qed.

Lemma lost_log th w type ptr fs r th' w' :
  lost th → log_entry junk c md th w type ptr fs = Ret (r, th', w') → lost th'.
Proof.
  rewrite <- lost_get. unfold log_entry, coldtrace_thread_append. set (g := get_coldtrace_thread md th). cbv zeta.
  intros Hl H. destruct (th_failed g) eqn:Hf; [cbn [obind store_fields] in H; injection H as _ <- _; by left|].
  destruct Hl as [?|[Hi Hd]]; [congruence|].
  apply obind_Ret_inv in H as ([[e t1] w1] & Ha & H). apply obind_Ret_inv in Ha as (n & _ & Ha).
  assert (e = None ∧ th_initd t1 = true ∧ th_writer t1 = th_writer g) as (-> & Hi1 & Hw1).
  { destruct (n =? 0); [by simplify_eq|]. destruct (with_stack_ type); cbn [negb] in Ha.
    - unfold append_stack in Ha. cbv zeta in Ha. destruct (if coldtrace_writer_new_trace _ _ _ then _ else _) as [bot sz].
      rewrite (reserve_dead junk c _ w _ Hd) in Ha. cbn [obind] in Ha. by simplify_eq.
    - unfold append_plain in Ha. cbv zeta in Ha.
      assert (th_writer (if coldtrace_writer_new_trace c (th_writer g) n then set_stack_bottom 0 g else g) = th_writer g)
        as Ew by by case_match.
      rewrite Ew, (reserve_dead junk c _ w _ Hd) in Ha. cbn [obind] in Ha. simplify_eq. split; [done|].
      by destruct (coldtrace_writer_new_trace c (th_writer g) n). }
  cbn [store_fields] in H. injection H as _ <- _. right. split; [done|]. by rewrite Hw1.
Qed.

(** An operation that keeps the writer and does not repair the stack. *)
Lemma lost_keep th th' :
  th_writer th' = th_writer (get_coldtrace_thread md th) → th_initd th' = true →
  (th_failed th = true → th_failed th' = true) → lost th → lost th'.
Proof.
  intros Hw Hi Hf [?|Hm]; [left; auto|right]. by apply (muted_same md th th').
Qed.
End Log.

(** ** Handlers side by side *)

Record hsync (h1 h2 : hstate) : Prop := {
  hy_shared : hs_shared h2 = hs_shared h1;
  hy_thread : tsync (hs_thread h1) (hs_thread h2);
  hy_world : worlds (hs_world h1) (hs_world h2);
}.

(** Both take the same step, or the one that writes has lost an entry. *)
Definition lock {A} (m1 m2 : M A) : Prop :=
  ∀ h1 h2 r h1', hsync h1 h2 → m1 h1 = Ret (r, h1') →
  (∃ h2', m2 h2 = Ret (r, h2') ∧ hsync h1' h2') ∨ lost (hs_thread h1').

Definition stays_lost {A} (m : M A) : Prop :=
  ∀ h r h', lost (hs_thread h) → m h = Ret (r, h') → lost (hs_thread h').

Section Handlers.
Context (md : Z).

Lemma lock_ret {A} (a : A) : lock (ret a) (ret a).
Proof. intros h1 h2 r h1' Hh H. injection H as <- <-. left. by exists h2. Qed.

Lemma lock_bind {A A'} (m1 m2 : M A) (k1 k2 : A → M A') :
  lock m1 m2 → (∀ a, lock (k1 a) (k2 a)) → (∀ a, stays_lost (k1 a)) → lock (bind m1 k1) (bind m2 k2).
Proof.
  intros Hm Hk Hl h1 h2 r h1' Hh (r1 & ha & E & H)%bind_inv. unfold bind.
  destruct (Hm _ _ _ _ Hh E) as [(hb & -> & Hab)|Hlost].
  - cbn [obind]. destruct r1 as [a|]; [by eapply Hk|]. destruct H as [-> ->]. left. by exists hb.
  - right. destruct r1 as [a|]; [by eapply Hl|]. by destruct H as [_ ->].
Qed.

Lemma lost_bind {A A'} (m : M A) (k : A → M A') :
  stays_lost m → (∀ a, stays_lost (k a)) → stays_lost (bind m k).
Proof.
  intros Hm Hk h r h' Hl (r1 & h1 & E & H)%bind_inv. apply Hm in E; [|done].
  destruct r1 as [a|]; [by eapply Hk|]. by destruct H as [_ ->].
Qed.

Lemma lost_ret {A} (a : A) : stays_lost (ret a).
Proof. intros h r h' Hl H. by injection H as _ <-. Qed.

Lemma lock_shared {A} (f : shared → A * shared) : lock (on_shared f) (on_shared f).
Proof.
  intros h1 h2 r h1' [Hs Ht Hw] H. unfold on_shared in *. rewrite Hs. destruct (f (hs_shared h1)) as [a s].
  injection H as <- <-. left. by eexists.
Qed.

Lemma lost_shared {A} (f : shared → A * shared) : stays_lost (on_shared f).
Proof. intros h r h' Hl H. unfold on_shared in H. destruct (f (hs_shared h)). by injection H as _ <-. Qed.

Lemma lock_area_get i : lock (area_get i) (area_get i).
Proof.
  intros h1 h2 r h1' Hh H. unfold area_get in *. rewrite (hy_shared _ _ Hh).
  destruct (sh_areas (hs_shared h1) !! i); [|done]. injection H as <- <-. left. by exists h2.
Qed.

Lemma lost_area_get i : stays_lost (area_get i).
Proof. intros h r h' Hl (a & _ & -> & _)%area_get_inv. done. Qed.

Lemma lock_area_acquire i : lock (area_acquire i) (area_acquire i).
Proof.
  apply lock_bind; [apply lock_area_get|..]; intros a; (destruct (caslock_acquire (area_lock a)); [|done]).
  - apply lock_shared.
  - apply lost_shared.
Qed.

Lemma lock_area_release i : lock (area_release i) (area_release i).
Proof. apply lock_bind; [apply lock_area_get|..]; intros a; [apply lock_shared|apply lost_shared]. Qed.

Lemma lost_area_release i : stays_lost (area_release i).
Proof. apply lost_bind; [apply lost_area_get|]. intros. apply lost_shared. Qed.

(** Logging one entry. *)
Lemma lock_log type ptr (fs : shared → coldtrace_thread → list Z) (s' : shared → shared) (m1 m2 : M unit) :
  (∀ h, m1 h = log_then junk c md type ptr (fs (hs_shared h) (hs_thread h)) (s' (hs_shared h)) h) →
  (∀ h, m2 h = log_then junk q md type ptr (fs (hs_shared h) (hs_thread h)) (s' (hs_shared h)) h) →
  (∀ s th1 th2, tsync th1 th2 → fs s th2 = fs s th1) → (∀ s th, request_ok type (fs s th)) → lock m1 m2.
Proof.
  intros E1 E2 Hfs Hr h1 h2 r h1' [Hs Ht Hw] H. rewrite E1 in H. rewrite E2, Hs, (Hfs _ _ _ Ht). unfold log_then in *.
  apply obind_Ret_inv in H as ([[b th] w] & El & H).
  destruct (log_sync md _ _ _ _ _ _ _ _ _ _ Ht Hw (Hr _ _) El) as [(-> & th2 & w2 & -> & Ht' & Hw')|[-> Hl]].
  - cbn [fst snd obind] in *. injection H as <- <-. left. by eexists.
  - cbn [fst snd] in H. injection H as <- <-. by right.
Qed.

Lemma lost_log_then (m : M unit) type ptr (fs : hstate → list Z) (s' : hstate → shared) :
  (∀ h, m h = log_then junk c md type ptr (fs h) (s' h) h) → stays_lost m.
Proof.
  intros E h r h' Hl H. rewrite E in H. unfold log_then in H. apply obind_Ret_inv in H as ([[b th] w] & El & H).
  apply lost_log in El; [|done]. destruct b; by injection H as _ <-.
Qed.

(** The entry structs. *)
Lemma lock_alloc type ptr size pc :
  (∀ a b d, request_ok type [u64 a; u64 b; u64 d]) →
  lock (log_alloc_entry junk c md type ptr size pc) (log_alloc_entry junk q md type ptr size pc).
Proof.
  intros Hr. eapply (lock_log type ptr (fun s _ => [u64 size; u64 (coldtrace_next_alloc_idx (sh_counters s)).1; u64 pc]) bump_alloc);
    [intros; apply log_alloc_entry_eq|intros; apply log_alloc_entry_eq|done|intros; apply Hr].
Qed.

Lemma lock_free ptr pc : lock (log_free_entry junk c md ptr pc) (log_free_entry junk q md ptr pc).
Proof.
  eapply (lock_log COLDTRACE_FREE ptr (fun s _ => [u64 (coldtrace_next_alloc_idx (sh_counters s)).1; u64 pc]) bump_alloc);
    [intros; apply log_free_entry_eq|intros; apply log_free_entry_eq|done|].
  intros s th. apply (op_ok_log _ ptr); [reflexivity|]. repeat constructor; apply u64_range.
Qed.

Lemma lock_access type ptr size pc :
  (∀ a b, request_ok type [u64 a; u64 b]) →
  lock (log_access_entry junk c md type ptr size pc) (log_access_entry junk q md type ptr size pc).
Proof.
  intros Hr. eapply (lock_log type ptr (fun _ _ => [u64 size; u64 pc]) (fun s => s));
    [intros; apply log_access_entry_eq|intros; apply log_access_entry_eq|done|intros; apply Hr].
Qed.

Lemma lock_atomic type ptr :
  (∀ a, request_ok type [u64 a]) → lock (log_atomic_entry junk c md type ptr) (log_atomic_entry junk q md type ptr).
Proof.
  intros Hr. eapply (lock_log type ptr (fun s _ => [u64 (coldtrace_next_atomic_idx (sh_counters s)).1]) bump_atomic);
    [intros; apply log_atomic_entry_eq|intros; apply log_atomic_entry_eq|done|intros; apply Hr].
Qed.

Lemma lock_atomic_access type ptr size idx :
  (∀ a b, request_ok type [u64 a; u64 b]) →
  lock (log_atomic_access junk c md type ptr size idx) (log_atomic_access junk q md type ptr size idx).
Proof.
  intros Hr. eapply (lock_log type ptr (fun _ _ => [u64 size; u64 idx]) (fun s => s));
    [intros; apply log_atomic_access_eq|intros; apply log_atomic_access_eq|done|intros; apply Hr].
Qed.

Lemma lost_atomic_access type ptr size idx : stays_lost (log_atomic_access junk c md type ptr size idx).
Proof. eapply lost_log_then. intros. apply log_atomic_access_eq. Qed.

Lemma lock_created thread : lock (after_thread_create junk c md thread) (after_thread_create junk q md thread).
Proof.
  eapply (lock_log COLDTRACE_THREAD_CREATE thread (fun _ th => [u64 (th_created_thread_idx th)]) (fun s => s));
    [intros; apply create_entry_eq|intros; apply create_entry_eq|by intros s th1 th2 (i2 & -> & _)|].
  intros s th. apply (op_ok_log _ thread); [reflexivity|]. repeat constructor; apply u64_range.
Qed.

Lemma lock_marker : lock (test_marker junk c md) (test_marker junk q md).
Proof.
  intros h1 h2 r h1' [Hs Ht Hw] H. rewrite marker_eq in H. rewrite marker_eq.
  apply obind_Ret_inv in H as ([[b th] w] & El & H).
  destruct (log_sync md _ _ _ _ _ _ _ _ _ _ Ht Hw (op_ok_log COLDTRACE_TEST_MARKER 0 [] eq_refl (Forall_nil_2 _)) El)
    as [(-> & th2 & w2 & -> & Ht' & Hw')|[-> Hl]]; cbn [fst snd obind] in *; injection H as <- <-; [left|by right].
  by eexists.
Qed.

(** What only touches the thread. *)
Lemma lock_thread {A} (f : coldtrace_thread → A * coldtrace_thread) :
  (∀ th1 th2, tsync th1 th2 → (f th2).1 = (f th1).1 ∧ tsync (f th1).2 (f th2).2) → lock (on_thread f) (on_thread f).
Proof.
  intros Hf h1 h2 r h1' [Hs Ht Hw] H. unfold on_thread in *. destruct (Hf _ _ Ht) as [E1 E2].
  destruct (f (hs_thread h1)) as [a t1], (f (hs_thread h2)) as [b t2]. simpl in *. subst b. injection H as <- <-.
  left. eexists. split; [done|]. by split.
Qed.

Lemma lost_thread {A} (f : coldtrace_thread → A * coldtrace_thread) :
  (∀ th, lost th → lost (f th).2) → stays_lost (on_thread f).
Proof.
  intros Hf h r h' Hl H. unfold on_thread in H. apply Hf in Hl. destruct (f (hs_thread h)). by injection H as _ <-.
Qed.

Lemma init_thread_sync th1 th2 : tsync th1 th2 → tsync (coldtrace_thread_init md th1) (coldtrace_thread_init md th2).
Proof.
  intros (i2 & Eg & _)%(get_sync md). unfold coldtrace_thread_init. rewrite Eg.
  eexists. split; [|apply (wsync_init (th_writer (get_coldtrace_thread md th1)) i2 md)]. done.
Qed.

Lemma set_create_sync th1 th2 i :
  tsync th1 th2 → tsync (coldtrace_thread_set_create_idx md th1 i) (coldtrace_thread_set_create_idx md th2 i).
Proof. intros (i2 & Eg & Hr)%(get_sync md). unfold coldtrace_thread_set_create_idx. rewrite Eg. by exists i2. Qed.

Lemma pop_sync th1 th2 : tsync th1 th2 → tsync (coldtrace_thread_stack_pop md th1) (coldtrace_thread_stack_pop md th2).
Proof.
  intros (i2 & Eg & Hr)%(get_sync md). unfold coldtrace_thread_stack_pop. rewrite Eg. cbv zeta.
  cbn [th_failed th_stack_size th_stack_bottom set_writer set_stack_size].
  repeat case_match; (exists i2; split; [done|exact Hr]).
Qed.

Lemma lock_push caller : lock (stacktrace_enter junk md caller) (stacktrace_enter junk md caller).
Proof.
  intros h1 h2 r h1' [Hs Ht Hw] H. unfold stacktrace_enter, coldtrace_thread_stack_push in *. cbv zeta in *.
  apply (get_sync md) in Ht as (i2 & Eg & Hr). rewrite Eg. set (g := get_coldtrace_thread md (hs_thread h1)) in *.
  cbn [th_failed th_stack_size th_stack_capacity set_writer]. apply obind_Ret_inv in H as ([t1 v1] & E & H).
  injection H as <- <-. destruct (th_failed g) eqn:Hf.
  { injection E as <- <-. left. cbn [obind]. eexists. split; [done|]. split; [done| |done]. by exists i2. }
  assert (∀ ok th w, (if th_stack_size g =? th_stack_capacity g then grow_stack_ junk g (hs_world h1) else (true, g, hs_world h1))
      = (ok, th, w) → w_closed w = w_closed (hs_world h1) ∧ th_writer th = th_writer g ∧
    (ok = true ∧ (if th_stack_size g =? th_stack_capacity g then grow_stack_ junk (set_writer i2 g) (hs_world h2)
      else (true, set_writer i2 g, hs_world h2)) = (true, set_writer i2 th, hs_world h2) ∨ ok = false ∧ th_failed th = true)) as Hg.
  { intros ok th w. destruct (th_stack_size g =? th_stack_capacity g); [|intros; simplify_eq; auto].
    unfold grow_stack_. cbv zeta. rewrite (attempt_memory files _ (proj1 Hw)). destruct (attempt (hs_world h1)) as [o w1] eqn:Ea.
    apply attempt_spec in Ea as (_ & Hcl & _). destruct o; cbn [negb]; intros; simplify_eq; auto. }
  destruct (if th_stack_size g =? th_stack_capacity g then _ else _) as [[ok th] w].
  destruct (Hg ok th w eq_refl) as (Hcl & Hwr & [[-> E2]|[-> Hfl]]); cbn [negb] in *.
  2: { injection E as <- <-. right. by left. }
  cbn [set_writer th_stack_size th_stack_capacity] in E2. rewrite E2. cbn [negb set_writer th_stack th_stack_size].
  destruct (th_stack th) as [arr|]; [|done]. destruct (in_range arr (th_stack_size th) 1); [|done]. injection E as <- <-.
  cbn [obind]. left. eexists. split; [done|]. split; [done| |by eapply worlds_keep]. exists i2. split; [done|].
  simpl. by rewrite Hwr.
Qed.

(** ** The subscriptions side by side *)

Lemma start_request_ok a b d : request_ok COLDTRACE_THREAD_START [u64 a; u64 b; u64 d].
Proof. apply (op_ok_log _ 0); [reflexivity|]. repeat constructor; apply u64_range. Qed.

Lemma lock_start self addr size : lock (thread_start junk c md self addr size) (thread_start junk q md self addr size).
Proof.
  apply lock_bind.
  - apply lock_thread. intros th1 th2 Ht. split; [done|]. by apply init_thread_sync.
  - intros _. eapply (lock_log COLDTRACE_THREAD_START self
      (fun s _ => [u64 (coldtrace_next_atomic_idx (sh_counters s)).1; u64 addr; u64 size]) bump_atomic);
      [intros; apply thread_start_entry_eq|intros; apply thread_start_entry_eq|done|intros; apply start_request_ok].
  - intros _. eapply lost_log_then. intros. apply thread_start_entry_eq.
Qed.

Lemma lock_create : lock (before_thread_create md) (before_thread_create md).
Proof.
  apply lock_bind; [apply lock_shared|..]; intros i.
  - apply lock_thread. intros th1 th2 Ht. split; [done|]. by apply set_create_sync.
  - apply lost_thread. intros th. apply (lost_keep md); unfold coldtrace_thread_set_create_idx; simpl; [done|apply initd_get|].
    unfold get_coldtrace_thread. by case_match.
Qed.

Lemma lock_exit : lock (stacktrace_exit md) (stacktrace_exit md).
Proof. apply lock_thread. intros th1 th2 Ht. split; [done|]. by apply pop_sync. Qed.

Lemma lock_acquire addr : lock (fetch_stack_acq addr) (fetch_stack_acq addr).
Proof.
  unfold fetch_stack_acq. apply lock_bind; [apply lock_area_acquire|..]; intros _.
  - apply lock_bind; [apply lock_shared|..]; intros i.
    + apply lock_bind; [apply lock_area_get|..]; intros a; [apply lock_shared|apply lost_shared].
    + apply lost_bind; [apply lost_area_get|intros; apply lost_shared].
  - apply lost_bind; [apply lost_shared|]. intros i. apply lost_bind; [apply lost_area_get|intros; apply lost_shared].
Qed.

Lemma access_request_ok type a b : type = COLDTRACE_ATOMIC_READ ∨ type = COLDTRACE_ATOMIC_WRITE → request_ok type [u64 a; u64 b].
Proof. intros [-> | ->]; (apply (op_ok_log _ 0); [reflexivity|]; repeat constructor; apply u64_range). Qed.

Lemma lock_rel_one type addr sz :
  type = COLDTRACE_ATOMIC_READ ∨ type = COLDTRACE_ATOMIC_WRITE →
  lock (rel_log_one junk c md type addr sz) (rel_log_one junk q md type addr sz).
Proof.
  intros Hty. unfold rel_log_one. cbv zeta. apply lock_bind; [apply lock_area_get|..]; intros a.
  - apply lock_bind; [apply lock_area_release|..]; intros _; [|apply lost_atomic_access].
    apply lock_atomic_access. intros. by apply access_request_ok.
  - apply lost_bind; [apply lost_area_release|]. intros _. apply lost_atomic_access.
Qed.

(** The two entries of an access that reads and writes. *)
Lemma lock_two addr sz i j (b : bool) :
  lock (bind (log_atomic_access junk c md COLDTRACE_ATOMIC_READ addr sz i) (fun _ =>
          if b then log_atomic_access junk c md COLDTRACE_ATOMIC_WRITE addr sz j else ret tt))
       (bind (log_atomic_access junk q md COLDTRACE_ATOMIC_READ addr sz i) (fun _ =>
          if b then log_atomic_access junk q md COLDTRACE_ATOMIC_WRITE addr sz j else ret tt)).
Proof.
  apply lock_bind; [apply lock_atomic_access; intros; apply access_request_ok; auto|..]; intros _; destruct b.
  - apply lock_atomic_access. intros. apply access_request_ok. auto.
  - apply lock_ret.
  - apply lost_atomic_access.
  - apply lost_ret.
Qed.

Lemma lost_two addr sz i j (b : bool) :
  stays_lost (bind (log_atomic_access junk c md COLDTRACE_ATOMIC_READ addr sz i) (fun _ =>
    if b then log_atomic_access junk c md COLDTRACE_ATOMIC_WRITE addr sz j else ret tt)).
Proof.
  apply lost_bind; [apply lost_atomic_access|]. intros _. destruct b; [apply lost_atomic_access|apply lost_ret].
Qed.

Lemma lock_rel_rw addr sz : lock (rel_log_rw junk c md addr sz) (rel_log_rw junk q md addr sz).
Proof.
  unfold rel_log_rw. cbv zeta. apply lock_bind; [apply lock_area_get|..]; intros a.
  - apply lock_bind; [apply lock_shared|..]; intros j.
    + apply lock_bind; [apply lock_area_release|..]; intros _;
        [apply (lock_two addr sz (area_idx_a a) j true)|apply (lost_two addr sz (area_idx_a a) j true)].
    + apply lost_bind; [apply lost_area_release|]. intros _. apply (lost_two addr sz (area_idx_a a) j true).
  - apply lost_bind; [apply lost_shared|]. intros j. apply lost_bind; [apply lost_area_release|]. intros _.
    apply (lost_two addr sz (area_idx_a a) j true).
Qed.

Lemma lock_rel_cond addr sz ok : lock (rel_log_rw_cond junk c md addr sz ok) (rel_log_rw_cond junk q md addr sz ok).
Proof.
  unfold rel_log_rw_cond. cbv zeta. apply lock_bind; [destruct ok; [apply lock_shared|apply lock_ret]|..]; intros j.
  - apply lock_bind; [apply lock_area_get|..]; intros a.
    + apply lock_bind; [apply lock_area_release|..]; intros _; [apply lock_two|apply lost_two].
    + apply lost_bind; [apply lost_area_release|]. intros _. apply lost_two.
  - apply lost_bind; [apply lost_area_get|]. intros a. apply lost_bind; [apply lost_area_release|]. intros _.
    apply lost_two.
Qed.

Lemma lock_rel_fence addr : lock (rel_log_fence junk c md addr) (rel_log_fence junk q md addr).
Proof.
  unfold rel_log_fence. cbv zeta. apply lock_bind; [apply lock_area_get|..]; intros a.
  - apply lock_bind; [apply lock_area_release|..]; intros _.
    + eapply (lock_log COLDTRACE_FENCE addr (fun _ _ => [u64 (area_idx_a a)]) (fun s => s));
        [intros; apply fence_entry_eq|intros; apply fence_entry_eq|done|].
      intros s th. apply (op_ok_log _ addr); [reflexivity|]. repeat constructor; apply u64_range.
    + eapply lost_log_then. intros. apply fence_entry_eq.
  - apply lost_bind; [apply lost_area_release|]. intros _. eapply lost_log_then. intros. apply fence_entry_eq.
Qed.

(** Every handler but the end of a thread. *)
Ltac solve_request := intros; apply (op_ok_log _ 0); [reflexivity|repeat constructor; apply u64_range].

Ltac lock_step :=
  lazymatch goal with
  | |- lock (if ?b then _ else _) _ => destruct b
  | |- lock (log_alloc_entry _ _ _ _ _ _ _) _ => apply lock_alloc; solve_request
  | |- lock (log_free_entry _ _ _ _ _) _ => apply lock_free
  | |- lock (log_access_entry _ _ _ (if ?b then _ else _) _ _ _) _ => destruct b
  | |- lock (log_access_entry _ _ _ _ _ _ _) _ => apply lock_access; solve_request
  | |- lock (log_atomic_entry _ _ _ (if ?b then _ else _) _) _ => destruct b
  | |- lock (log_atomic_entry _ _ _ _ _) _ => apply lock_atomic; solve_request
  | |- lock (rel_log_one _ _ _ _ _ _) _ => apply lock_rel_one; auto
  | |- lock (rel_log_rw _ _ _ _ _) _ => apply lock_rel_rw
  | |- lock (rel_log_rw_cond _ _ _ _ _ _) _ => apply lock_rel_cond
  | |- lock (rel_log_fence _ _ _ _) _ => apply lock_rel_fence
  | |- lock (fetch_stack_acq _) _ => apply lock_acquire
  | |- lock (test_marker _ _ _) _ => apply lock_marker
  | |- lock (thread_start _ _ _ _ _ _) _ => apply lock_start
  | |- lock (before_thread_create _) _ => apply lock_create
  | |- lock (after_thread_create _ _ _ _) _ => apply lock_created
  | |- lock (stacktrace_enter _ _ _) _ => apply lock_push
  | |- lock (stacktrace_exit _) _ => apply lock_exit
  | |- lock (ret _) _ => apply lock_ret
  end.

Lemma subscriber_lock ev :
  (∀ b self, ev ≠ C_self_fini b self) → lock (subscriber junk c md ev) (subscriber junk q md ev).
Proof.
  intros Hnf. destruct ev; try (by destruct (Hnf is_main self)); clear Hnf; cbn [subscriber];
    autounfold with subs; unfold read_type; repeat lock_step.
Qed.

(** Finishing never fails. *)
Lemma thread_fini_sync h1 h2 r h1' :
  hsync h1 h2 → thread_fini c md h1 = Ret (r, h1') → ∃ h2', thread_fini q md h2 = Ret (r, h2') ∧ hsync h1' h2'.
Proof.
  intros [Hs Ht Hw] H. unfold thread_fini, coldtrace_thread_fini in *. cbv zeta in *.
  apply (get_sync md) in Ht as (i2 & Eg & Hr). rewrite Eg. apply obind_Ret_inv in H as ([th w] & H & E). injection E as <- <-.
  apply obind_Ret_inv in H as ([wi w'] & Ef & H). injection H as <- <-.
  destruct (fini_sync _ _ _ _ _ _ Hr Hw Ef) as (i2' & w2' & E2 & Hs' & Hw').
  cbn [th_writer set_writer]. rewrite E2. cbn [obind]. eexists. split; [done|]. split; [done| |done].
  by exists i2'.
Qed.
End Handlers.
End Modes.
