(* ===== verification/Disabled.v ===== *)
(** * A run with writing disabled

    The schedules of [Modes] for whole systems: with writing disabled, the same
    schedule leaves the same shared state, hands the same pages to the close hook
    and gives a test the same verdict. *)

From stdpp Require Import base list numbers list_numbers sorting strings gmap.
From Stdlib Require Import ZArith Lia Sorted.
From S2P Require Import Prelude Version Counters Entries Libc Utils Config Codec Lz4 Writer Thread Trace Reader Indexes Checker Verdict Exact Recorder Subs Subscribers Atomics Handlers Locality Threads TestRun Files Numbering AtomicNumbers TestVerdict Modes.

Section Disabled.
Context `{B : BuildInfo, L : Lz4, V : Vsync, !VsyncLaws V, !Lz4Laws L, !BuildInfoOk B}.
Context (junk : nat → Z) (c : config) (Hc : config_ok c) (files : gmap string inode).

#[local] Abbreviation q := (coldtrace_disable_writes c).

(** ** One handler *)

Lemma handle_sync t ev h1 h2 h1' :
  hsync c files h1 h2 → handle junk c t ev h1 = Ret h1' →
  match ev with C_self_fini is_main _ => is_main = false | _ => healthy (hs_thread h1') end →
  ∃ h2', handle junk q t ev h2 = Ret h2' ∧ hsync c files h1' h2'.
Proof.
  intros Hh H Hk. unfold handle, handler in *. apply obind_Ret_inv in H as ([r h] & E & H). injection H as ->.
  assert ((∀ b self, ev ≠ C_self_fini b self) ∧ healthy (hs_thread h1') ∨ ∃ self, ev = C_self_fini false self)
    as [[Hnf Hok]|[self ->]].
  { destruct ev; try (left; by split). simpl in Hk. subst. right. by eexists. }
  - destruct (subscriber_lock junk c Hc files t ev Hnf _ _ _ _ Hh E) as [(h2' & -> & Hh')|Hl].
    + by exists h2'.
    + by apply lost_healthy in Hl.
  - cbn [subscriber self_fini] in *. destruct (thread_fini_sync c files t _ _ _ _ Hh E) as (h2' & -> & Hh'). by exists h2'.
Qed.

(** The end of the main thread, whose exit is logged. *)
Lemma main_fini_sync t self h1 h2 h1a h1' :
  hsync c files h1 h2 → handle junk c t (C_thread_exit self) h1 = Ret h1a → healthy (hs_thread h1a) →
  handle junk c t (C_self_fini true self) h1 = Ret h1' →
  ∃ h2', handle junk q t (C_self_fini true self) h2 = Ret h2' ∧ hsync c files h1' h2'.
Proof.
  intros Hh Ha Hok H. rewrite main_fini_handle, Ha in H. cbn [obind] in H.
  destruct (handle_sync _ _ _ _ _ Hh Ha Hok) as (h2a & Ea & Hha).
  destruct (handle_sync _ _ _ _ _ Hha H eq_refl) as (h2' & E2 & Hh').
  exists h2'. split; [|done]. by rewrite main_fini_handle, Ea.
Qed.

(** ** Systems side by side *)

Record systems (sy1 sy2 : system) : Prop := {
  ss_shared : sy_shared sy2 = sy_shared sy1;
  ss_world : side_by_side files (sy_world sy1) (sy_world sy2);
  ss_threads t : tsync c (thread_of sy1 t) (thread_of sy2 t);
  ss_pending : sy_pending sy2 = sy_pending sy1;
  ss_done : sy_done sy2 = sy_done sy1;
}.

Definition state_of (sy : system) (t : Z) : hstate := HState (sy_shared sy) (thread_of sy t) (sy_world sy).

Lemma systems_state sy1 sy2 t : systems sy1 sy2 → hsync c files (state_of sy1 t) (state_of sy2 t).
Proof. intros [Hs Hw Ht _ _]. by split; simpl. Qed.

(** The thread is asked only for the index it has drawn for a new thread. *)
Lemma sync_ops s th1 th2 ev : tsync c th1 th2 → capture_ops s th2 ev = capture_ops s th1 ev.
Proof. by intros (i2 & -> & _). Qed.

Lemma systems_after sy1 sy2 t h1 h2 pending accesses :
  systems sy1 sy2 → hsync c files h1 h2 →
  systems (after_handler sy1 t h1 pending accesses) (after_handler sy2 t h2 pending accesses).
Proof.
  intros [_ _ Ht _ _] [Hs Hth Hw]. split; simpl; try done. intros t'.
  rewrite (thread_of_insert sy1 (after_handler sy1 t h1 pending accesses) t (hs_thread h1) t' eq_refl).
  rewrite (thread_of_insert sy2 (after_handler sy2 t h2 pending accesses) t (hs_thread h2) t' eq_refl). by case_decide.
Qed.

Lemma event_systems sy1 sy2 t ev sy1' :
  systems sy1 sy2 → do_event junk c sy1 t ev = Some sy1' →
  (∀ h1, handle junk c t ev (state_of sy1 t) = Ret h1 → hs_thread h1 = thread_of sy1' t →
    ∃ h2, handle junk q t ev (state_of sy2 t) = Ret h2 ∧ hsync c files h1 h2) →
  ∃ sy2', do_event junk q sy2 t ev = Some sy2' ∧ systems sy1' sy2'.
Proof.
  intros Hsy H Hh. pose proof Hsy as [Hs Hw Ht Hp Hd].
  assert (∀ h1, handle junk c t ev (state_of sy1 t) = Ret h1 → hs_thread h1 = thread_of sy1' t) as Eth.
  { intros h1 E. apply do_event_inv in H as (h & E' & _ & _ & Et). unfold state_of in E. rewrite E in E'. injection E' as <-.
    by rewrite (thread_of_insert _ _ _ _ t Et), decide_True. }
  unfold state_of in *. unfold do_event in *. rewrite Hs, Hp, Hd. destruct (negb _); [done|].
  destruct (handle junk c t ev _) as [h1| |] eqn:E; [|done..]. destruct (Hh h1 eq_refl (Eth h1 eq_refl)) as (h2 & E2 & Hh2).
  rewrite Hs in E2. rewrite E2. unfold logged_indices in *. rewrite (sync_ops _ _ _ ev (Ht t)).
  destruct (before_addr ev), (after_addr ev), (sy_pending sy1 !! t) as [[a i]|]; try done; try (case_match; [|done]);
    injection H as <-; eexists; (split; [done|]); by apply systems_after.
Qed.

Lemma kept_systems sy1 sy2 t ev sy1' :
  systems sy1 sy2 → do_event junk c sy1 t ev = Some sy1' → kept sy1' t ev →
  ∃ sy2', do_event junk q sy2 t ev = Some sy2' ∧ systems sy1' sy2'.
Proof.
  intros Hsy H Hk. eapply event_systems; [done|exact H|]. intros h1 E Eth.
  eapply handle_sync; [by apply systems_state|exact E|]. rewrite Eth. exact Hk.
Qed.

(** ** Schedules side by side *)

Lemma events_systems evs : ∀ sy1 sy2 sy1',
  systems sy1 sy2 → do_events junk c sy1 evs = Some sy1' → lossless junk c sy1 evs →
  ∃ sy2', do_events junk q sy2 evs = Some sy2' ∧ systems sy1' sy2' ∧
    history junk q sy2 evs = history junk c sy1 evs.
Proof.
  induction evs as [|[t ev] evs IH]; intros sy1 sy2 sy1' Hsy H Hl; cbn [do_events history lossless] in *.
  { injection H as <-. by exists sy2. }
  destruct (do_event junk c sy1 t ev) as [syA|] eqn:E; [|done]. destruct Hl as [Hk Hl]. cbn [mbind option_bind] in H.
  destruct (kept_systems _ _ _ _ _ Hsy E Hk) as (syB & EB & HAB).
  destruct (IH _ _ _ HAB H Hl) as (sy2' & E2 & Hs2 & Eh). rewrite EB. cbn [mbind option_bind].
  exists sy2'. do 2 (split; [done|]). rewrite Eh, (ss_shared _ _ Hsy). by rewrite (sync_ops _ _ _ ev (ss_threads _ _ Hsy t)).
Qed.

(** The same, closed by the end of the main thread. *)
Lemma run_systems evs m self sy1 sy2 sy1' :
  systems sy1 sy2 → do_events junk c sy1 (evs ++ [(m, C_self_fini true self)]) = Some sy1' →
  lossless junk c sy1 (evs ++ [(m, C_thread_exit self)]) →
  ∃ sy2', do_events junk q sy2 (evs ++ [(m, C_self_fini true self)]) = Some sy2' ∧ systems sy1' sy2' ∧
    history junk q sy2 (evs ++ [(m, C_self_fini true self)]) = history junk c sy1 (evs ++ [(m, C_self_fini true self)]).
Proof.
  intros Hsy H Hl. rewrite do_events_app in *. destruct (do_events junk c sy1 evs) as [syA|] eqn:E; [|done].
  rewrite (lossless_app _ _ evs _ _ _ E) in Hl. destruct Hl as [Hl1 Hl2].
  destruct (events_systems evs _ _ _ Hsy E Hl1) as (syB & EB & HAB & Eh). rewrite EB.
  cbn [mbind option_bind do_events] in H |- *. destruct (do_event junk c syA m _) as [syC|] eqn:EC; [|discriminate H].
  injection H as ->. assert (∃ sy2', do_event junk q syB m (C_self_fini true self) = Some sy2' ∧ systems sy1' sy2')
    as (sy2' & E2 & Hs2).
  { eapply event_systems; [done|exact EC|]. intros h1 Eh1 _. pose proof Eh1 as Ex. rewrite main_fini_handle in Ex.
    apply obind_Ret_inv in Ex as (ha & Ea & _). eapply main_fini_sync; [by apply systems_state|exact Ea| |exact Eh1].
    cbn [lossless] in Hl2. destruct (do_event junk c syA m (C_thread_exit self)) as [syX|] eqn:EX.
    - destruct Hl2 as [Hk _]. apply do_event_inv in EX as (h & Eh' & _ & _ & Et). unfold state_of in Ea. rewrite Ea in Eh'.
      injection Eh' as <-. cbn [kept] in Hk. by rewrite (thread_of_insert _ _ _ _ m Et), decide_True in Hk.
    - exfalso. unfold do_event in EC, EX. unfold state_of in Ea. rewrite Ea in EX. cbn [before_addr after_addr] in EX.
      destruct (negb _); [discriminate EC|discriminate EX]. }
  rewrite E2. cbn [mbind option_bind]. exists sy2'. do 2 (split; [done|]).
  etransitivity; [apply (history_app junk q _ _ _ _ EB)|]. symmetry.
  etransitivity; [apply (history_app junk c _ _ _ _ E)|]. rewrite Eh. f_equal. cbn [history].
  rewrite EC, E2, (ss_shared _ _ HAB). by rewrite (sync_ops _ _ _ _ (ss_threads _ _ HAB m)).
Qed.

Lemma fresh_systems sy1 sy2 :
  fresh sy1 → fresh sy2 → sy_shared sy2 = sy_shared sy1 → memory files (sy_world sy2) → systems sy1 sy2.
Proof.
  intros (_ & W1 & T1 & P1 & D1) (_ & W2 & T2 & P2 & D2) Hs Hf. split; try done; try congruence.
  - split; [done|]. by rewrite W1, W2.
  - intros t. unfold thread_of. rewrite T1, T2, lookup_empty. apply zero_sync.
Qed.
End Disabled.

Section Theorems.
Context `{B : BuildInfo, L : Lz4, V : Vsync, !VsyncLaws V, !Lz4Laws L, !BuildInfoOk B}.
Context (junk : nat → Z) (c : config) (Hc : config_ok c).

(** C22: disabling the writes changes nothing but the files.  Let any number of
    threads handle any schedule of events that ends with the main thread while
    writing is enabled, and let no entry be lost.  With writing disabled and memory
    in the pool, every handler of the same schedule returns too, the counters, the
    areas and the indices of the accesses end up the same, and the close hook is
    called the same number of times, in the same order, with the same thread and size
    and with pages that hold the same bytes up to this size; but no file is touched. *)
Theorem disabled_writes_agree sy1 sy2 evs m self sy1' :
  let run := evs ++ [(m, C_self_fini true self)] in
  fresh sy1 → fresh sy2 → sy_shared sy2 = sy_shared sy1 → w_faults (sy_world sy2) = [] →
  do_events junk c sy1 run = Some sy1' → lossless junk c sy1 (evs ++ [(m, C_thread_exit self)]) →
  ∃ sy2', do_events junk (coldtrace_disable_writes c) sy2 run = Some sy2' ∧
    sy_shared sy2' = sy_shared sy1' ∧ sy_done sy2' = sy_done sy1' ∧
    Forall2 same_call (w_closed (sy_world sy1')) (w_closed (sy_world sy2')) ∧
    w_fs (sy_world sy2') = w_fs (sy_world sy2).
Proof.
  intros run Hf1 Hf2 Hs Hm H Hl.
  assert (systems c (w_fs (sy_world sy2)) sy1 sy2) as Hsy by by apply fresh_systems.
  destruct (run_systems junk c Hc _ evs m self _ _ _ Hsy H Hl) as (sy2' & E & [S1 [[_ S2] S3] _ _ S4] & _).
  by exists sy2'.
Qed.

(** C8: the verdict of a test is the same with writing disabled, the mode in which
    the workflow of the repository runs the tests (COLDTRACE_DISABLE_WRITES).  Under the assumptions of [test_decides] on the run with writing enabled,
    the run with writing disabled completes as well, and the checker, called with the
    pages that it closes, says TEST PASSED if and only if the events of every thread
    with an expected trace conform to it. *)
Theorem disabled_test_decides R ck sy1 sy2 evs m self sy1' final w :
  let run := evs ++ [(m, C_self_fini true self)] in
  registered R ck → definite_test R → callbacks_pass (ck_callbacks ck) → final ≠ Some false → w_faults w = [] →
  fresh sy1 → allocs sy1 = 0 → atomics sy1 = 0 → do_events junk c sy1 run = Some sy1' → len run + 1 < 2 ^ 63 →
  (∀ t ev, (t, ev) ∈ run → 0 <= t < 128) → lossless junk c sy1 (evs ++ [(m, C_thread_exit self)]) →
  (∀ t, ended (ops_of t (history junk c sy1 run))) → (∀ t, brackets None (events_of t run) = Some None) →
  fresh sy2 → sy_shared sy2 = sy_shared sy1 → w_faults (sy_world sy2) = [] →
  ∃ sy2' ck1 w' ck2 verdict,
    do_events junk (coldtrace_disable_writes c) sy2 run = Some sy2' ∧
    feed ck (w_closed (sy_world sy2')) w = Ret (ck1, w') ∧
    checker_main_thread_fini ck1 final = Ret (ck2, verdict) ∧
    (verdict = true ↔ ∃ vals, ∀ t xs, R !! t = Some (Some xs) →
       conforms vals xs
         (as_entry <$> ideal [] (ops_of (Z.of_nat t) (history junk (coldtrace_disable_writes c) sy2 run)))).
Proof.
  intros run HR Hdef Hcb Hfin Hw Hf Ha0 Ht0 H Hlen Hids Hl Hend Hbr Hf2 Hs Hm.
  assert (systems c (w_fs (sy_world sy2)) sy1 sy2) as Hsy by by apply fresh_systems.
  destruct (run_systems junk c Hc _ evs m self _ _ _ Hsy H Hl) as (sy2' & E & [_ [_ Hcl] _ _ _] & Eh).
  destruct (run_decides junk c Hc R ck sy1 evs m self sy1' (w_closed (sy_world sy2')) final w)
    as (ck1 & w' & ck2 & v & V1 & V2 & V3); try assumption.
  exists sy2', ck1, w', ck2, v. do 3 (split; [done|]). unfold run. rewrite Eh. exact V3.
Qed.
End Theorems.

Section Demo.
#[local] Existing Instance demo_build.
#[local] Existing Instance demo_build_ok.

(** No directory, and no file can be created. *)
Definition bare_system : system := System demo_shared (World ∅ [] []) ∅ ∅ [].

Lemma bare_fresh : fresh bare_system.
Proof. pose proof demo_fresh as (H & _). by split. Qed.

(** The test of two threads closes several pages in either mode. *)
Lemma disabled_writes_agree_witness :
  ∃ sy1' sy2', do_events zero_junk demo_config96 demo_system (demo_join_run 0x10) = Some sy1' ∧
    do_events zero_junk (coldtrace_disable_writes demo_config96) bare_system (demo_join_run 0x10) = Some sy2' ∧
    (1 < length (w_closed (sy_world sy1')))%nat ∧
    Forall2 same_call (w_closed (sy_world sy1')) (w_closed (sy_world sy2')) ∧ w_fs (sy_world sy2') = ∅.
Proof.
  pose (r := do_events zero_junk demo_config96 demo_system (demo_join_run 0x10)).
  assert (match r with Some sy => (1 <? length (w_closed (sy_world sy)))%nat | None => false end = true) as Hr
    by (vm_compute; reflexivity).
  destruct r as [sy1'|] eqn:E; [|discriminate Hr]. subst r.
  destruct (disabled_writes_agree zero_junk demo_config96 demo_config_ok demo_system bare_system (demo_join 0x10) 1 1 sy1')
    as (sy2' & E2 & _ & _ & Hcl & Hfs); [apply demo_fresh|apply bare_fresh|reflexivity|reflexivity|exact E| |].
  - apply join_lossless. left. reflexivity.
  - exists sy1', sy2'. split; [exact E|]. split; [exact E2|]. split; [apply Nat.ltb_lt, Hr|]. split; [exact Hcl|exact Hfs].
Defined.

Definition bare_verdict (mutex : Z) : option bool :=
  sy ← do_events zero_junk (coldtrace_disable_writes demo_config96) bare_system (demo_join_run mutex);
  match feed join_checker (w_closed (sy_world sy)) (World ∅ [] []) with
  | Ret (ck, _) => match checker_main_thread_fini ck None with Ret (_, v) => Some v | _ => None end
  | _ => None
  end.

Definition bare_history (mutex : Z) : list (Z * list op) :=
  history zero_junk (coldtrace_disable_writes demo_config96) bare_system (demo_join_run mutex).

(** With writing disabled the test passes exactly when it passes with writing enabled. *)
Lemma disabled_test_decides_witness :
  bare_verdict 0x10 = Some true ∧
  ¬ (∃ vals, ∀ t xs, join_registered !! t = Some (Some xs) →
       conforms vals xs (as_entry <$> ideal [] (ops_of (Z.of_nat t) (bare_history 0x18)))).
Proof.
  split; [vm_compute; reflexivity|]. assert (bare_verdict 0x18 = Some false) as Hv by (vm_compute; reflexivity).
  pose (r := do_events zero_junk demo_config96 demo_system (demo_join_run 0x18)).
  assert (match r with Some _ => true | None => false end = true) as Hr by (vm_compute; reflexivity).
  destruct r as [sy1'|] eqn:E; [|discriminate Hr]. subst r. assert (demo_mutex 0x18) as Hm by (right; reflexivity).
  destruct (disabled_test_decides zero_junk demo_config96 demo_config_ok join_registered join_checker demo_system bare_system
    (demo_join 0x18) 1 1 sy1' None (World ∅ [] [])) as (sy2' & ck1 & w' & ck2 & v & E2 & F1 & F2 & Hd).
  - apply join_is_registered.
  - apply join_definite.
  - constructor.
  - discriminate.
  - reflexivity.
  - apply demo_fresh.
  - reflexivity.
  - reflexivity.
  - exact E.
  - reflexivity.
  - intros t ev. apply join_ids.
  - apply join_lossless, Hm.
  - intros t. apply join_ended, Hm.
  - intros t. apply join_brackets.
  - apply bare_fresh.
  - reflexivity.
  - reflexivity.
  - unfold bare_verdict in Hv. change (demo_join_run 0x18) with (demo_join 0x18 ++ [(1, C_self_fini true 1)]) in Hv.
    rewrite E2 in Hv. cbn [mbind option_bind] in Hv. rewrite F1, F2 in Hv. injection Hv as ->.
    unfold bare_history. change (demo_join_run 0x18) with (demo_join 0x18 ++ [(1, C_self_fini true 1)]).
    rewrite <- Hd. discriminate.
Defined.
End Demo.
