(* ===== verification/DumpFiles.v ===== *)
(** * From the program's events to the dump

    The composition of the whole system: the subscribers, the recorder, the
    writer and the file system on one side, trace_dump.py on the other.  Dumping
    any fragment of a finished thread prints exactly the events of that thread. *)

From stdpp Require Import base list numbers strings pretty gmap.
From Stdlib Require Import ZArith Lia.
From S2P Require Import Prelude Version Counters Entries Libc Utils Config Codec Lz4 Writer Thread Trace Reader Dump DumpText DumpTrace Recorder Subs Subscribers Atomics Handlers Locality Threads Files.

Section Frame.
Context `{B : BuildInfo, L : Lz4, V : Vsync, !VsyncLaws V, !Lz4Laws L}.
Context (junk : nat → Z) (c : config) (Hc : config_ok c).

(** A file that is no fragment of the threads that run is left alone. *)
Lemma events_foreign key evs : ∀ sy sy' rec,
  all_record c sy rec → do_events junk c sy evs = Some sy' →
  (∀ t ev, (t, ev) ∈ evs → foreign c t key) →
  w_fs (sy_world sy') !! key = w_fs (sy_world sy) !! key.
Proof.
  induction evs as [|[t ev] evs IH]; intros sy sy' rec Hall H Hfo; cbn [do_events] in H; [by simplify_eq|].
  destruct (do_event junk c sy t ev) as [sy1|] eqn:E; [|done]. simpl in H.
  destruct (all_record_event _ _ Hc _ _ _ _ _ Hall E) as (rec1 & Hall1 & _).
  destruct (event_change _ _ _ _ _ _ (proj1 (Hall t)) E) as [ext Hl].
  rewrite (IH sy1 sy' rec1 Hall1 H); [|intros t' ev' Hin; eapply Hfo; by apply list_elem_of_further].
  apply (lc_foreign _ _ _ _ _ _ Hl). eapply Hfo. by apply list_elem_of_here.
Qed.
End Frame.

(** A name that the dumper attributes to the thread is the name the writer gives
    that fragment, or no thread of the schedule has a fragment of that name. *)
Lemma attributed c (Hc : config_ok c) t t' name f :
  trace_file_match name = Some (t, f) → name ≠ base_name t f → (i32 t' = i32 t → t' = t) →
  0 <= t < 2 ^ 31 → foreign c t' (path_ c +:+ "/" +:+ name).
Proof.
  intros Hm Hne Hid Ht e. rewrite fragment_name_spec by apply Hc. rewrite name_of_base. intros [= E].
  apply (inj (String.append (path_ c))) in E. change ("/" +:+ ?a) with (String "/" a) in E.
  injection E as E. rewrite <- E in Hm. apply trace_file_match_name in Hm as (Et & Ef & H1 & H2).
  assert (t' = t) as -> by (apply Hid; rewrite <- Et, (i32_small t); done).
  apply Hne. rewrite <- E. unfold base_name. rewrite Ef.
  rewrite (i32_small (i32 e)) by (pose proof (i32_range e); lia). done.
Qed.

Section Dumped.
Context `{B : BuildInfo, L : Lz4, V : Vsync, !VsyncLaws V, !Lz4Laws L, !BuildInfoOk B}.
Context (junk : nat → Z) (c : config) (Hc : config_ok c) (t : Z).

(** No file of the directory is taken for a fragment of the thread. *)
Definition no_fragments (fs : gmap string inode) : Prop :=
  ∀ name f, is_Some (fs !! (path_ c +:+ "/" +:+ name)) → trace_file_match name ≠ Some (t, f).

Lemma no_fragments_only fs e :
  0 <= t < 2 ^ 31 → no_fragments fs → is_Some (fs !! name_of (path_ c) t e) → i32 e < 0.
Proof.
  intros Ht Hno Hs. destruct (Z.lt_ge_cases (i32 e) 0); [done|]. exfalso.
  apply (Hno (base_name t e) (i32 e) Hs). apply trace_file_match_name. rewrite i32_small by done. lia.
Qed.

(** C2: what is dumped is what happened.  Start with a directory in which no file
    has the name of a fragment of the thread, whose number is below 2^31, and let any
    number of threads, with different numbers in their file names, handle any schedule
    of events in which the thread is started once, with [open] not reporting EEXIST
    without cause.  Let none of its events be blank, that is, the release of NULL with
    index 0, caller 0 and an empty stack, whose entry consists of zero bytes: the
    dumper takes such an entry for the unused end of the fragment and skips what
    follows ([DumpTrace.blank_hides_rest]).  When the thread finishes, none of its
    allocations and file operations failed and it needed no more fragments than the
    file limit, running trace_dump.py on any of its fragments finds all of them and no
    others, in order, and prints exactly the events of that thread, one line for each
    with its pointer, indices and innermost callers, followed by their number. *)
Theorem dumped_trace sy evs sy' :
  supported_build → fresh sy → do_events junk c sy evs = Some sy' →
  Forall (fun f => f ≠ Fail EEXIST) (w_faults (sy_world sy)) →
  0 <= t < 2 ^ 31 → no_fragments (w_fs (sy_world sy)) →
  (∀ t' ev, (t', ev) ∈ evs → i32 t' = i32 t → t' = t) →
  let ops := ops_of t (history junk c sy evs) in
  started_ops ops → Forall (fun ev => blank ev = false) (ideal [] ops) →
  ∃ th2 w2, coldtrace_thread_fini c t (thread_of sy' t) (sy_world sy') = Ret (th2, w2) ∧
    (th_failed th2 = false → wi_failed (th_writer th2) = false →
     len (closed_frags (own t w2)) <= Z.min (coldtrace_get_max c) (2 ^ 31) →
     ∀ k, 0 <= k < len (closed_frags (own t w2)) →
     dump_trace (w_fs w2) (path_ c) (base_name t k) false LZ4_MAX_INPUT_SIZE
     = (dump_text t (ideal [] ops), inr (len (ideal [] ops)))).
Proof.
  intros Hsup Hf H Hfaults Ht Hno Hids ops Hst Hbl.
  destruct (finished_trace junk c Hc t (fun e => i32 e < 0) sy evs sy') as (th2 & w2 & Efini & Hdone); try done.
  { destruct (w_fs (sy_world sy) !! name_of (path_ c) t 0) eqn:E; [|done]. exfalso.
    assert (i32 0 < 0) by (eapply no_fragments_only; eauto). done. }
  { intros e He Hs. left. by eapply no_fragments_only. }
  exists th2, w2. split; [done|]. intros Hf1 Hf2 Hlen k Hk.
  destruct (Hdone Hf1 Hf2) as (frags & Hcl & Hdisk & Hok & Hev & Honly).
  fold ops in Hev. rewrite Hcl, length_fmap in Hlen, Hk. rewrite <- Hev in Hbl |- *.
  assert (∀ j es, frags !! j = Some es → ∃ data,
    w_fs w2 !! name_of (path_ c) t (Z.of_nat j) = Some (Reg data) ∧
    decompress LZ4_MAX_INPUT_SIZE data = inr (frag_bytes es)) as Hfiles.
  { intros j es Hj. pose proof (lookup_lt_Some _ _ _ Hj). destruct (Hdisk j es Hj) as (data & E); [lia|].
    unfold slot in E. rewrite Z.mod_small in E by lia. by exists data. }
  replace k with (Z.of_nat (Z.to_nat k)) by lia.
  apply dump_fragments; try done; try lia.
  - split.
    + intros j Hj. destruct (lookup_lt_is_Some_2 frags j Hj) as [es Hes].
      destruct (Hfiles j es Hes) as (data & E & _). unfold is_file. by rewrite E.
    + intros name f Hs Hsome Hm. destruct (decide (name = base_name t f)) as [->|Hne].
      * pose proof Hm as (_ & Ef & _ & Hf0)%trace_file_match_name.
        pose proof (i32_range f). destruct (Honly f) as [Hold|Hlt]; [ulia|exact Hsome|lia|].
        unfold of_fragment in Hlt. rewrite Hcl, length_fmap in Hlt.
        exists (Z.to_nat f). split; [lia|]. f_equal. lia.
      * exfalso. destruct (all_record_events _ _ Hc evs _ _ _ (fresh_records _ sy Hf) H) as (rec & Hall & _).
        destruct (local_thread_fini c t _ (proj1 (Hall t)) _ _ _ Efini) as (_ & ext & Hl & _).
        rewrite (lc_foreign _ _ _ _ _ _ Hl) in Hsome by by eapply attributed.
        rewrite (events_foreign junk c Hc _ evs sy sy' _ (fresh_records _ sy Hf) H) in Hsome.
        -- by apply (Hno name f Hsome).
        -- intros t' ev Hin. eapply attributed; try done. by eapply Hids.
  - apply Forall_forall. intros es Hes. unfold frags_ok in Hok. rewrite Forall_forall in Hok.
    destruct (Hok es Hes) as [H1 H2]. split_and!; [done..|]. unfold closed_events in Hbl.
    rewrite Forall_concat, Forall_fmap, Forall_forall in Hbl. by apply Hbl.
Qed.
End Dumped.

Section Demo.
#[local] Existing Instance demo_build.
#[local] Existing Instance demo_build_ok.

Lemma demo_no_fragments : no_fragments demo_config96 7 (w_fs (sy_world demo_system)).
Proof.
  intros name f [i Hi]. apply elem_of_map_to_list in Hi. vm_compute in Hi.
  repeat (apply elem_of_cons in Hi as [Hi|Hi]; [injection Hi as Hi _; try discriminate Hi; subst; vm_compute; discriminate|]).
  destruct (not_elem_of_nil _ Hi).
Qed.

(** The dump of the second of three fragments prints all events of thread 7. *)
Lemma dumped_trace_witness :
  ∃ w2 out n, snd <$> demo_done = Some w2 ∧ n = 6 ∧
    dump_trace (w_fs w2) (path_ demo_config96) (base_name 7 1) false LZ4_MAX_INPUT_SIZE = (out, inr n).
Proof.
  pose (r := do_events zero_junk demo_config96 demo_system demo_traffic).
  assert (match r with
    | Some sy => match coldtrace_thread_fini demo_config96 7 (thread_of sy 7) (sy_world sy) with
        | Ret (th, w) => negb (th_failed th) && negb (wi_failed (th_writer th)) &&
            (1 <? len (closed_frags (own 7 w))) &&
            (len (closed_frags (own 7 w)) <=? Z.min (coldtrace_get_max demo_config96) (2 ^ 31))
        | _ => false end
    | None => false end = true) as Hr by (vm_compute; reflexivity).
  destruct r as [sy'|] eqn:E; [|discriminate Hr]. subst r.
  set (ops := ops_of 7 (history zero_junk demo_config96 demo_system demo_traffic)) in *.
  assert (started_ops ops) as Hst by (vm_compute; repeat constructor).
  assert (Forall (fun ev => blank ev = false) (ideal [] ops)) as Hbl by (vm_compute; repeat constructor).
  assert (len (ideal [] ops) = 6) as Hn by (vm_compute; reflexivity).
  destruct (dumped_trace zero_junk demo_config96 demo_config_ok 7 demo_system demo_traffic sy')
    as (th2 & w2 & Efini & Hdone);
    [reflexivity|apply demo_fresh|exact E|apply Forall_nil; exact I|lia|apply demo_no_fragments| |exact Hst|exact Hbl|].
  { clear. intros t' ev Hin Hi. repeat (apply elem_of_cons in Hin as [Hin|Hin];
      [injection Hin as -> _; first [reflexivity|vm_compute in Hi; discriminate Hi]|]). destruct (not_elem_of_nil _ Hin). }
  rewrite Efini in Hr. rewrite !andb_true_iff, !negb_true_iff, Z.ltb_lt, Z.leb_le in Hr.
  destruct Hr as [[[H1 H2] H3] H4]. specialize (Hdone H1 H2 H4 1 ltac:(lia)). fold ops in Hdone.
  rewrite Hn in Hdone. eexists w2, _, 6. split; [unfold demo_done, demo_done_in; rewrite E, Efini; reflexivity|].
  split; [reflexivity|exact Hdone].
Defined.
End Demo.
